(* ===== verification/_CoqProject ===== *)
-Q . S2P
Prelude.v
Ordered.v
Ids.v
Time.v
SeqNum.v
Qos.v
Topic.v
HistoryCache.v
Message.v
Proxy.v
Writer.v
WriterProofs.v
DiscoveryData.v
DiscoveryDB.v
Reader.v
ReaderProofs.v
Speedy.v
Wire.v
WireProofs.v
ParameterList.v
ParameterListProofs.v
Receiver.v
ReceiverProofs.v
Protocol.v
Timer.v
Tokens.v
EventLoop.v
EventLoopProofs.v
Sharing.v
EventLoopSteps.v
Entities.v
EntitiesProofs.v
Endpoints.v
Derive.v
DeriveProofs.v
DiscoveryThread.v
PeerDiscovery.v
System.v
SystemProofs.v
Announcement.v
Channels.v
Runs.v
