(* ===== verification/Prelude.v ===== *)
(** * Umber DDS: a verified model of the RTPS core

    Umber DDS implements DDS over the RTPS wire protocol (src/src).  A
    participant runs one event loop thread, which owns the RTPS writers and
    readers and the message receiver, and one discovery thread; the
    application holds DataWriters and DataReaders that share a history cache
    with their endpoint and talk to the event loop over channels.  The
    development models what happens inside one participant between a packet,
    a timer or an application call and the packets, timers and notifications
    that answer it, and the octets those packets have.

    ** Files

    - [Prelude]: [outcome] (panics), machine integers, lemmas on lists, maps
      and numbers.  [Ordered]: the trait [Ord] as the class [RustOrd], the
      iteration order of [BTreeMap] and [BTreeSet].
    - [Ids] (structure/entity_id.rs, guid.rs, vendor_id.rs, topic_kind.rs,
      [Locator]), [Time] (structure/duration.rs, [Timestamp]), [SeqNum]
      ([SequenceNumber], [NumberSet] of message/submessage/element.rs).
    - [Qos] (dds/qos.rs): policies, builders, compatibility, [combine].
      [Topic] (dds/topic.rs).
    - [HistoryCache] (rtps/cache.rs): the cache of one endpoint with its
      indexes; [hc_step] is the relation of all its methods.
    - [Message] (message/*.rs): submessages, validity tests, the builder.
    - [Proxy] (structure/proxy.rs): what an endpoint knows of a matched one.
    - [Writer], [WriterProofs] (rtps/writer.rs); [Reader], [ReaderProofs]
      (rtps/reader.rs): the stateful endpoints.  A handler of the source is
      the definition of the same name, from the state (and the clock readings
      it takes) to a panic or a new state, the events emitted in order
      ([WriterEvent], [ReaderEvent]: a datagram for a locator, a message on a
      channel) and its result.
    - [DiscoveryData] (discovery/structure/data.rs), [DiscoveryDB]
      (discovery/discovery_db.rs).
    - [Speedy]: the serialisation crate as a class, and the reader monads.
      [Wire], [WireProofs] (message.rs, submessage/**.rs): a message and its
      octets.  [ParameterList], [ParameterListProofs] (dds/qos.rs,
      structure/proxy.rs, discovery/structure/data.rs): the parameter lists
      of SPDP and SEDP.
    - [Receiver], [ReceiverProofs] (message/message_receiver.rs): from the
      octets of a datagram to the handlers of the endpoints, on the [World]
      of one participant.
    - [Protocol]: two participants; the repair of a lost sample from end to
      end, through the octets of the ACKNACK and of the DATA message.
    - [Timer]: the timer crate as a class with its laws.  [Tokens]
      (network/net_util.rs, dds/tokens.rs): ports and poll tokens.
    - [EventLoop], [EventLoopProofs], [EventLoopSteps] (dds/event_loop.rs):
      the state of the loop ([World], timers, remembered timeouts), one
      definition per branch of its poll loop, its invariant, and
      [loop_reachable]: the events of the loop interleaved with the accesses
      of the applications and of the discovery thread.  [Sharing]: the caches
      only lose changes while the loop handles an event.
    - [Entities], [EntitiesProofs] (dds/participant.rs, publisher.rs,
      subscriber.rs): the start of a participant, its keys, the factories of
      endpoints with their QoS, the built-in endpoints.
    - [Endpoints] (dds/datawriter.rs, datareader.rs): write, take, assertion
      of liveliness, on the shared cache.
    - [Derive], [DeriveProofs] (ddsdata_derive/src/lib.rs, dds/key.rs): the
      derive macros for the types of an application, as the meaning of the
      code they generate; key hashes.
    - [DiscoveryThread] (discovery.rs): what the discovery thread does to each
      message, timer and change of the database.
    - [System], [SystemProofs] (dds/participant.rs, dds/event_loop.rs,
      discovery.rs): the loop, the thread and the application composed over
      their channels and shared caches; one step is one event of a thread or
      one call ([sys_step]).  [Announcement]: a DataWriter on its way from the
      application to the network.  [PeerDiscovery]: its announcement at another
      participant, from the octets to the readers it is matched with.
    - [Channels]: the two bounded channels on which the threads wait for each
      other.
    - [Runs]: concrete runs of a participant.

    ** How the parts interact

    A participant ([participant_inner_new], [participant_new])
    picks its ports, announces itself and registers the built-in endpoints
    with the event loop; publishers and subscribers make further endpoints
    ([create_datawriter], [create_datareader]), whose ingredients the
    loop turns into RTPS endpoints ([handle_event]), while the DataWriter or
    DataReader keeps the shared cache.  The loop answers packets, commands of
    writers, timers and the messages of the discovery thread.

    [handle_packet] parses a datagram ([message_new]) and hands each
    submessage to the reader or writer it is for; SPDP and SEDP samples are
    parsed as parameter lists and become proxies of the endpoints
    ([matched_reader_add], [matched_writer_add]) and entries of the
    [DiscoveryDB]; the loop and the discovery thread learn of it by messages,
    and the thread announces local endpoints by writing to the built-in
    writers ([discovery_event]).  An endpoint changes its proxies and its
    [HistoryCache] and emits events; the cache is shared with the application,
    whose accesses are steps of their own ([writer_step], [reader_step],
    [loop_step]).  The mutexes make each access one atomic step; a handler of
    the loop is one step, since the caches are locked in it where it uses
    them.

    The two threads hold the same caches and the same database: [System] has
    a copy in the state of each and carries every change over
    ([seen_by_thread], [seen_by_loop]).  Its channels take every message; that
    a bounded one makes its sender wait is the matter of [Channels].  A
    receiver drains its channel, as the source does.  The discovery thread is
    taken to start after the loop has registered the built-in endpoints (its
    first timer fires after three seconds), and the application to use a
    DataWriter with the QoS it was created with ([handle_of]).

    ** What the theorems show

    - Invariants of every reachable state: the indexes of the cache
      ([hc_reachable_wf]), writers and readers (with the absence of panics,
      [reliable_writer_never_panics], [reader_never_panics]), the whole world
      of a participant under arbitrary packets ([packets_keep_world]), the
      event loop with its timers ([loop_invariant], [events_never_abort]), the
      discovery thread ([discovery_never_panics]), and the two at work together
      with the application ([threads_never_abort]).
    - The reliable protocol: what a heartbeat, a gap, an ACKNACK and a sample
      do to the two sides; requested data is sent again; awaited samples
      become available in whatever order they arrive; a lost sample is
      repaired over the wire ([lost_sample_is_repaired]).
    - The start: a participant comes up ([participant_starts]), a created
      endpoint is registered and watched ([created_writer_registers],
      [created_reader_registers]); the built-in endpoints of two participants
      are compatible ([builtin_endpoints_compatible]).
    - Discovery: announced endpoints are matched; new endpoints are announced
      ([new_writers_announced]), from the call of the application to the
      datagrams ([created_writer_announced]) and from the datagram to the
      readers of another participant ([announcement_matches_readers]); what
      the thread does to the shared memory is what the loop allows for
      ([discovery_refines_loop]); a participant whose lease has lapsed is
      forgotten everywhere ([lapsed_participant_forgotten]).
    - The application: [write_waits_for_room], [take_spec]; samples of derived
      types are written in the CDR layout ([derived_write_is_cdr]) and read
      back ([sample_roundtrip]); [key_hash_identifies].
    - The cache: KeepLast, resource limits, when a sample aborts the process.
    - The wire: every parsed message is well typed, built messages and
      announcements are read back as they were, the parsers end.
    - Where the code departs from what it means to do, a theorem or an
      [Example] states what it does ([negative_lease_aborts],
      [assertions_get_through_or_deadlock] among others).

    ** Conventions and bounds

    Integers are [Z] with the wrap-around of the release profile written out
    ([as_u32], [as_usize], ...); a Rust panic is [Panic], final because the
    crate aborts on panic.  [seq_bound] = 2^32 - 1 bounds the sequence numbers
    in the theorems on endpoints: below it no arithmetic on i64 or on bitmap
    offsets overflows.  Loops over collections recurse on the list visited;
    the [while let] loop of [Proxy.drain] has as fuel one more than the number
    of changes of the proxy, and [unsent_loop_spec] shows that it is enough;
    the loops of the parsers have the length of the buffer as fuel, since each
    round consumes an octet at least ([message_new_terminates],
    [parameter_loop_terminates]).  The loops over a timer ([while_let]) take
    their fuel as an argument and say whether they came to their end: one
    more than the number of entries is enough ([periodic_timers_end]).  The
    search for a participant id has the bound of the source.  A write to a
    full cache waits for other threads: [write_loop] has fuel for the
    attempts, and [write_waits_for_room] says which attempt succeeds.  A
    reading of the clock is an argument, [None] where the clock is before the
    epoch.

    The crates are parameters or plain data: [speedy] is the class [Speedy]
    with its laws and the realisation [Concrete], [mio_extras::timer] the
    class [TimerLib] with [TimerLaws] and the realisation [TimerModel], on
    which every witness runs; a [BitFlags] is its bits; a [Bytes] is a list of
    octets.  How a user type is serialized is a parameter of [Endpoints], which
    [DeriveProofs] instantiates with the derived code; what the macros do not
    know (types with code of their own, the layout of types, the order in
    which a [HashMap] iterates, the MD5 digest) is the class [DeriveEnv].

    ** Not modelled

    Sockets and the enumeration of network interfaces; waiting in poll, the
    order in which it reports events (any order is allowed), spawning of
    threads and the locks themselves; the parsing of Rust syntax for the
    derive macros; logging and the texts of errors. *)

From stdpp Require Import base tactics numbers list gmap sorting.
From Stdlib Require Import ZArith Lia.

#[global] Open Scope Z_scope.

#[global] Coercion Z.of_nat : nat >-> Z.

Create HintDb umber.

(** ** Panicking computations

    A Rust function that can panic ([panic!], [unreachable!], [expect],
    [unwrap], an index out of range) returns an [outcome]; the crate is built
    with [panic = 'abort'], so [Panic] is the end of the process.  Rust's own
    [Result] is [sum] and [Option] is [option]. *)
Inductive outcome (A : Type) : Type :=
| Done (a : A)
| Panic.
Arguments Done {_} _.
Arguments Panic {_}.

#[export] Instance outcome_ret : MRet outcome := @Done.
#[export] Instance outcome_bind : MBind outcome :=
  λ A B f m, match m with Done a => f a | Panic => Panic end.
#[export] Instance outcome_fmap : FMap outcome :=
  λ A B f m, match m with Done a => Done (f a) | Panic => Panic end.

Definition no_panic {A} (m : outcome A) : Prop := ∃ a, m = Done a.

(** [expect]/[unwrap] on an [Option]. *)
Definition unwrap {A} (o : option A) : outcome A :=
  match o with Some a => Done a | None => Panic end.

Section outcome.
Context {A B : Type}.

Lemma outcome_bind_Done (m : outcome A) (f : A → outcome B) b :
  (m ≫= f) = Done b ↔ ∃ a, m = Done a ∧ f a = Done b.
Proof. destruct m; simpl; naive_solver. Qed.

Lemma no_panic_Done (a : A) : no_panic (Done a).
Proof. by exists a. Qed.

Lemma no_panic_bind (m : outcome A) (f : A → outcome B) :
  no_panic m → (∀ a, m = Done a → no_panic (f a)) → no_panic (m ≫= f).
Proof. intros [a ->] Hf. by apply Hf. Qed.

Lemma no_panic_Panic : no_panic (@Panic A) → False.
Proof. by intros [a Ha]. Qed.
End outcome.

#[export] Hint Resolve no_panic_Done no_panic_bind : umber.

(** A loop over a list whose body can panic. *)
Definition foldM {A B} (f : A → B → outcome A) : A → list B → outcome A :=
  fix go a l :=
    match l with
    | [] => Done a
    | x :: l' => a' ← f a x; go a' l'
    end.

Lemma foldM_invariant {A B} (P : A → Prop) (f : A → B → outcome A) l a :
  P a →
  (∀ a x, x ∈ l → P a → ∃ a', f a x = Done a' ∧ P a') →
  ∃ a', foldM f a l = Done a' ∧ P a'.
Proof.
  revert a; induction l as [|x l IH]; intros a Ha Hf; simpl; [by eauto|].
  destruct (Hf a x) as (a' & -> & Ha'); [left|done|].
  simpl. apply IH; [done|]. intros; apply Hf; [by right|done].
Qed.

Lemma foldM_cons {A B} (f : A → B → outcome A) x l a :
  foldM f a (x :: l) = (a' ← f a x; foldM f a' l).
Proof. done. Qed.

Lemma foldM_Done {A B} (f : A → B → A) l a : foldM (λ a x, Done (f a x)) a l = Done (foldl f a l).
Proof. revert a. induction l as [|x l IH]; intros a; [done|]. apply IH. Qed.

(** ** Machine integers

    Integers are [Z]; the wrap-around of the release profile (no
    [overflow-checks] in Cargo.toml) is written out where the code computes.
    An [as] cast between integer types is the wrap of the target type. *)
Definition wrap_u (w : Z) (z : Z) : Z := z mod 2 ^ w.
Definition wrap_s (w : Z) (z : Z) : Z := (z + 2 ^ (w - 1)) mod 2 ^ w - 2 ^ (w - 1).

Notation as_u8 := (wrap_u 8).
Notation as_u16 := (wrap_u 16).
Notation as_u32 := (wrap_u 32).
Notation as_u64 := (wrap_u 64).
Notation as_usize := (wrap_u 64).
Notation as_i16 := (wrap_s 16).
Notation as_i32 := (wrap_s 32).
Notation as_i64 := (wrap_s 64).

Definition in_u (w : Z) (z : Z) : Prop := 0 ≤ z < 2 ^ w.
Definition in_s (w : Z) (z : Z) : Prop := - 2 ^ (w - 1) ≤ z < 2 ^ (w - 1).

Lemma wrap_u_small w z : in_u w z → wrap_u w z = z.
Proof. unfold in_u, wrap_u. intros. by apply Z.mod_small. Qed.

Lemma wrap_u_range w z : 0 ≤ w → in_u w (wrap_u w z).
Proof. intros. unfold in_u, wrap_u. apply Z.mod_pos_bound. lia. Qed.

Lemma pow2_half w : 0 < w → 2 ^ w = 2 * 2 ^ (w - 1).
Proof. intros. rewrite <-Z.pow_succ_r by lia. f_equal. lia. Qed.

Lemma wrap_s_small w z : 0 < w → in_s w z → wrap_s w z = z.
Proof.
  unfold in_s, wrap_s. intros Hw ?. pose proof (pow2_half w Hw).
  rewrite Z.mod_small; lia.
Qed.

Lemma wrap_s_range w z : 0 < w → in_s w (wrap_s w z).
Proof.
  intros Hw. unfold in_s, wrap_s. pose proof (pow2_half w Hw).
  pose proof (Z.mod_pos_bound (z + 2 ^ (w - 1)) (2 ^ w)). lia.
Qed.

Lemma wrap_s_as_u w z : 0 < w → wrap_s w (wrap_u w z) = wrap_s w z.
Proof.
  intros. unfold wrap_s, wrap_u. f_equal.
  by rewrite Z.add_mod_idemp_l by lia.
Qed.

Lemma wrap_u_as_s w z : 0 < w → wrap_u w (wrap_s w z) = wrap_u w z.
Proof.
  intros. unfold wrap_s, wrap_u.
  rewrite Zminus_mod_idemp_l. f_equal. lia.
Qed.

#[export] Hint Rewrite wrap_u_small using (unfold in_u; lia) : umber_int.
#[export] Hint Rewrite wrap_s_small using (unfold in_s; lia) : umber_int.

(** [wrap_small] removes the casts that the bounds in context make trivial. *)
Ltac wrap_small :=
  repeat match goal with
  | |- context [wrap_u ?w ?z] => rewrite (wrap_u_small w z) by (unfold in_u; lia)
  | |- context [wrap_s ?w ?z] => rewrite (wrap_s_small w z) by (unfold in_s; lia)
  end.

(** [i32::MAX], [i64::MAX], [i64::MIN]. *)
Definition i32_MAX : Z := 2 ^ 31 - 1.
Definition i64_MAX : Z := 2 ^ 63 - 1.
Definition i64_MIN : Z := - 2 ^ 63.

(** ** Lists *)

(** [v.iter().position(|k| k == x)] followed by [v.remove(idx)]: the first
    occurrence goes away, nothing happens when there is none. *)
Fixpoint remove_first {A} `{EqDecision A} (x : A) (l : list A) : list A :=
  match l with
  | [] => []
  | y :: l' => if decide (y = x) then l' else y :: remove_first x l'
  end.

Section remove_first.
Context {A : Type} `{EqDecision A}.
Implicit Types (x y : A) (l : list A).

Lemma elem_of_remove_first x y l : y ∈ remove_first x l → y ∈ l.
Proof.
  induction l as [|z l IH]; simpl; [done|].
  case_decide; set_solver.
Qed.

Lemma NoDup_remove_first x l : NoDup l → NoDup (remove_first x l).
Proof.
  induction 1 as [|z l Hz Hl IH]; simpl; [constructor|].
  case_decide; [done|]. constructor; [|done].
  intros Hin. by apply elem_of_remove_first in Hin.
Qed.

Lemma elem_of_remove_first_NoDup x y l :
  NoDup l → y ∈ remove_first x l ↔ y ∈ l ∧ y ≠ x.
Proof.
  induction 1 as [|z l Hz Hl IH]; simpl; [set_solver|].
  case_decide; set_solver.
Qed.

Lemma remove_first_not_in x l : x ∉ l → remove_first x l = l.
Proof.
  induction l as [|z l IH]; simpl; [done|].
  intros [? ?]%not_elem_of_cons. case_decide; [by subst|]. by rewrite IH.
Qed.
End remove_first.

Lemma elem_of_take_1 {A} (x : A) n l : x ∈ take n l → x ∈ l.
Proof. rewrite elem_of_take. intros (i & ? & _). by eapply list_elem_of_lookup_2. Qed.

Lemma elem_of_rev {A} (x : A) l : x ∈ rev l ↔ x ∈ l.
Proof. by rewrite list_elem_of_In, <-in_rev, <-list_elem_of_In. Qed.

Lemma NoDup_rev {A} (l : list A) : NoDup l → NoDup (rev l).
Proof. intros. by rewrite <-Permutation_rev. Qed.

Lemma elem_of_concat {A} (x : A) (ls : list (list A)) : x ∈ concat ls ↔ ∃ l, l ∈ ls ∧ x ∈ l.
Proof.
  induction ls as [|l ls IH]; simpl.
  - split; [by intros ?%elem_of_nil|]. by intros (? & ?%elem_of_nil & _).
  - rewrite elem_of_app, IH. setoid_rewrite elem_of_cons. naive_solver.
Qed.

Lemma omap_length_le {A B} (f : A → option B) (l : list A) : (length (omap f l) ≤ length l)%nat.
Proof. induction l as [|x l IH]; [done|]. cbn [omap list_omap]. destruct (f x); simpl; lia. Qed.

(** Case analysis on a boolean test of the code, with its meaning. *)
Lemma bool_decide_case (P : Prop) `{Decision P} :
  (bool_decide P = true ∧ P) ∨ (bool_decide P = false ∧ ¬ P).
Proof. case_bool_decide; auto. Qed.

(** Step through the binds and pattern matches of a monadic definition. *)
Ltac outcome_simplify :=
  repeat match goal with
  | H : (_ ≫= _) = Done _ |- _ =>
      apply outcome_bind_Done in H; destruct H as (? & ? & H)
  | H : Panic = Done _ |- _ => discriminate H
  | H : Done _ = Panic |- _ => discriminate H
  | H : Done _ = Done _ |- _ => injection H as H
  end; simplify_eq/=.
