(* ===== verification/Ordered.v ===== *)
(** * Rust's [Ord] and the ordered collections

    [RustOrd] is the trait [Ord] (a three-way comparison) with its laws;
    [lex] is [Ordering::then_with] and the comparison of [#[derive(Ord)]]
    structures and arrays.  A [BTreeMap] is stdpp's [gmap], a [BTreeSet] its
    [gset]; where the code iterates over one, it visits [bt_elems]/[bt_keys],
    the elements in ascending order. *)
From stdpp Require Import base tactics numbers list gmap sorting.
From S2P Require Import Prelude.

Class RustOrd (K : Type) : Type := cmp : K → K → comparison.

Class RustOrdLaws (K : Type) `{RustOrd K} : Prop := {
  cmp_eq (x y : K) : cmp x y = Eq ↔ x = y;
  cmp_antisym (x y : K) : cmp y x = CompOpp (cmp x y);
  cmp_trans (x y z : K) : cmp x y = Lt → cmp y z = Lt → cmp x z = Lt;
}.

(** [Ordering::then_with]. *)
Definition lex (c d : comparison) : comparison :=
  match c with Eq => d | _ => c end.

Lemma lex_opp c d : CompOpp (lex c d) = lex (CompOpp c) (CompOpp d).
Proof. by destruct c. Qed.

Definition ord_le {K} `{RustOrd K} (x y : K) : Prop := cmp x y ≠ Gt.
Definition ord_lt {K} `{RustOrd K} (x y : K) : Prop := cmp x y = Lt.

#[export] Instance ord_le_dec {K} `{RustOrd K} : RelDecision (@ord_le K _).
Proof. unfold ord_le. intros x y. destruct (cmp x y); [left|left|right]; congruence. Defined.

#[export] Instance ord_lt_dec {K} `{RustOrd K} : RelDecision (@ord_lt K _).
Proof. unfold ord_lt. intros x y. destruct (cmp x y); [right|left|right]; congruence. Defined.

Section ord_facts.
Context {K : Type} `{RustOrdLaws K}.
Implicit Types x y z : K.

Lemma cmp_refl x : cmp x x = Eq.
Proof. by apply cmp_eq. Qed.

Lemma ord_le_alt x y : ord_le x y ↔ ord_lt x y ∨ x = y.
Proof.
  unfold ord_le, ord_lt. rewrite <-cmp_eq. destruct (cmp x y); naive_solver.
Qed.

Lemma ord_lt_irrefl x : ¬ ord_lt x x.
Proof. unfold ord_lt. rewrite cmp_refl. done. Qed.

Lemma ord_not_le x y : ¬ ord_le x y ↔ ord_lt y x.
Proof.
  unfold ord_le, ord_lt. rewrite (cmp_antisym x y).
  destruct (cmp x y); naive_solver.
Qed.

Lemma ord_lt_trans x y z : ord_lt x y → ord_lt y z → ord_lt x z.
Proof. apply cmp_trans. Qed.

#[export] Instance ord_lt_transitive : Transitive (@ord_lt K _).
Proof. exact ord_lt_trans. Qed.

#[export] Instance ord_le_transitive : Transitive (@ord_le K _).
Proof.
  intros x y z. rewrite !ord_le_alt.
  intros [?| ->] [?| ->]; eauto using ord_lt_trans.
Qed.

#[export] Instance ord_le_total : Total (@ord_le K _).
Proof.
  intros x y. destruct (decide (ord_le x y)) as [|Hn]; [by left|right].
  apply ord_not_le in Hn. apply ord_le_alt. by left.
Qed.

#[export] Instance ord_le_antisymm : AntiSymm (=) (@ord_le K _).
Proof.
  intros x y. rewrite !ord_le_alt. intros [Hxy|?] [Hyx|?]; try done.
  exfalso. eapply ord_lt_irrefl, ord_lt_trans; eauto.
Qed.

#[export] Instance ord_le_reflexive : Reflexive (@ord_le K _).
Proof. intros x. apply ord_le_alt. by right. Qed.

Lemma ord_le_lt x y : ord_le x y → x ≠ y → ord_lt x y.
Proof. rewrite ord_le_alt. naive_solver. Qed.

Lemma ord_lt_ne x y : ord_lt x y → x ≠ y.
Proof. intros Hlt ->. by apply ord_lt_irrefl in Hlt. Qed.
End ord_facts.

(** ** Instances *)

#[export] Instance Z_ord : RustOrd Z := Z.compare.
#[export] Instance Z_ord_laws : RustOrdLaws Z.
Proof.
  split; unfold cmp, Z_ord; intros.
  - apply Z.compare_eq_iff.
  - apply Z.compare_antisym.
  - rewrite Z.compare_lt_iff in *. lia.
Qed.

Lemma ord_lt_Z (x y : Z) : ord_lt x y ↔ x < y.
Proof. unfold ord_lt, cmp, Z_ord. apply Z.compare_lt_iff. Qed.
Lemma ord_le_Z (x y : Z) : ord_le x y ↔ x ≤ y.
Proof. unfold ord_le, cmp, Z_ord. by rewrite Z.compare_le_iff. Qed.

(** Pairs compare by their first, then their second component. *)
#[export] Instance pair_ord {A B} `{RustOrd A, RustOrd B} : RustOrd (A * B) :=
  λ x y, lex (cmp x.1 y.1) (cmp x.2 y.2).
#[export] Instance pair_ord_laws {A B} `{RustOrdLaws A, RustOrdLaws B} :
  RustOrdLaws (A * B).
Proof.
  split; unfold cmp, pair_ord.
  - intros [a b] [a' b']; simpl. unfold lex.
    destruct (cmp a a') eqn:E; [apply cmp_eq in E as ->; rewrite cmp_eq; naive_solver| |];
      (split; [done|]; intros [= -> ->]; by rewrite cmp_refl in E).
  - intros [a b] [a' b']; simpl. by rewrite lex_opp, (cmp_antisym a), (cmp_antisym b).
  - intros [a b] [a' b'] [a'' b'']; simpl. unfold lex.
    destruct (cmp a a') eqn:E1; [apply cmp_eq in E1 as ->| |done];
      (destruct (cmp a' a'') eqn:E2; [apply cmp_eq in E2 as ->| |done]).
    + rewrite ?cmp_refl. apply cmp_trans.
    + done.
    + by rewrite E1.
    + by rewrite (cmp_trans _ _ _ E1 E2).
Qed.

(** Arrays compare lexicographically. *)
Fixpoint list_cmp {A} `{RustOrd A} (l k : list A) : comparison :=
  match l, k with
  | [], [] => Eq
  | [], _ :: _ => Lt
  | _ :: _, [] => Gt
  | x :: l', y :: k' => lex (cmp x y) (list_cmp l' k')
  end.
#[export] Instance list_ord {A} `{RustOrd A} : RustOrd (list A) := list_cmp.
#[export] Instance list_ord_laws {A} `{RustOrdLaws A} : RustOrdLaws (list A).
Proof.
  split; unfold cmp, list_ord.
  - induction x as [|a l IH]; intros [|b k]; simpl; try done.
    unfold lex. destruct (cmp a b) eqn:E.
    + apply cmp_eq in E as ->. rewrite IH. naive_solver.
    + split; [done|]. intros [= -> ->]. by rewrite cmp_refl in E.
    + split; [done|]. intros [= -> ->]. by rewrite cmp_refl in E.
  - induction x as [|a l IH]; intros [|b k]; simpl; try done.
    by rewrite lex_opp, (cmp_antisym a), IH.
  - induction x as [|a l IH]; intros [|b k] [|c m]; simpl; try done.
    unfold lex. destruct (cmp a b) eqn:E1; [apply cmp_eq in E1 as ->| |done];
      (destruct (cmp b c) eqn:E2; [apply cmp_eq in E2 as ->| |done]).
    + rewrite ?cmp_refl. apply IH.
    + done.
    + by rewrite E1.
    + by rewrite (cmp_trans _ _ _ E1 E2).
Qed.

(** A structure compares through an injective view of its fields. *)
Lemma inj_ord_laws {A B} `{RustOrdLaws B, RustOrd A} (f : A → B) :
  Inj (=) (=) f → (∀ x y, cmp x y = cmp (f x) (f y)) → RustOrdLaws A.
Proof.
  intros Hinj Hf. split; intros *; rewrite ?Hf.
  - rewrite cmp_eq. split; [apply Hinj|by intros ->].
  - apply cmp_antisym.
  - apply cmp_trans.
Qed.

(** ** Ordered iteration *)

Definition bt_elems {K} `{Countable K, RustOrd K} (s : gset K) : list K :=
  merge_sort ord_le (elements s).

Definition bt_keys {K} `{Countable K, RustOrd K} {V} (m : gmap K V) : list K :=
  bt_elems (dom m).

(** [map.values()], in key order. *)
Definition bt_values {K} `{Countable K, RustOrd K} {V} (m : gmap K V) : list V :=
  omap (λ k, m !! k) (bt_keys m).

Section bt.
Context {K : Type} `{Countable K, RustOrd K, !RustOrdLaws K}.
Implicit Types (s : gset K) (x y : K).

Lemma bt_elems_Permutation s : bt_elems s ≡ₚ elements s.
Proof. apply merge_sort_Permutation. Qed.

Lemma elem_of_bt_elems x s : x ∈ bt_elems s ↔ x ∈ s.
Proof. rewrite bt_elems_Permutation. apply elem_of_elements. Qed.

Lemma NoDup_bt_elems s : NoDup (bt_elems s).
Proof. rewrite bt_elems_Permutation. apply NoDup_elements. Qed.

Lemma length_bt_elems s : length (bt_elems s) = size s.
Proof. by rewrite bt_elems_Permutation. Qed.

Lemma bt_elems_sorted_le s : StronglySorted ord_le (bt_elems s).
Proof. apply (StronglySorted_merge_sort _ _). Qed.

Lemma StronglySorted_le_lt (l : list K) :
  StronglySorted ord_le l → NoDup l → StronglySorted ord_lt l.
Proof.
  induction 1 as [|x l Hl IH Hx]; intros Hnd; [constructor|].
  apply NoDup_cons in Hnd as [Hxl Hnd]. constructor; [by apply IH|].
  rewrite Forall_forall in *. intros y Hy. apply ord_le_lt; [by apply Hx|].
  intros ->. done.
Qed.

Lemma bt_elems_sorted s : StronglySorted ord_lt (bt_elems s).
Proof. apply StronglySorted_le_lt; [apply bt_elems_sorted_le|apply NoDup_bt_elems]. Qed.

Lemma sorted_lt_NoDup (l : list K) : StronglySorted ord_lt l → NoDup l.
Proof.
  induction 1 as [|x l ? ? Hx]; constructor; [|done].
  intros Hin. rewrite Forall_forall in Hx. by apply Hx, ord_lt_irrefl in Hin.
Qed.

Lemma sorted_lt_le (l : list K) : StronglySorted ord_lt l → StronglySorted ord_le l.
Proof.
  induction 1 as [|x l ? ? Hx]; constructor; [done|].
  eapply Forall_impl; [exact Hx|]. intros y ?. apply ord_le_alt. by left.
Qed.

(** A strictly ascending list is determined by its members. *)
Lemma sorted_unique (l k : list K) :
  StronglySorted ord_lt l → StronglySorted ord_lt k →
  (∀ x, x ∈ l ↔ x ∈ k) → l = k.
Proof.
  intros Hl Hk Heq.
  eapply (StronglySorted_unique ord_le); [by apply sorted_lt_le..|].
  apply NoDup_Permutation; auto using sorted_lt_NoDup.
Qed.

Lemma sorted_filter (P : K → Prop) `{!∀ x, Decision (P x)} (l : list K) :
  StronglySorted ord_lt l → StronglySorted ord_lt (filter P l).
Proof.
  induction 1 as [|x l Hl IH Hx]; [constructor|].
  rewrite filter_cons. case_decide; [|done]. constructor; [done|].
  rewrite Forall_forall in *. intros y [_ ?]%list_elem_of_filter. by apply Hx.
Qed.

(** Sorting pairs by key is the identity when the keys ascend already. *)
Definition by_key {V} (x y : K * V) : Prop := ord_le x.1 y.1.
#[export] Instance by_key_dec {V} : RelDecision (@by_key V).
Proof. intros x y. unfold by_key. apply _. Defined.
#[export] Instance by_key_trans {V} : Transitive (@by_key V).
Proof. intros x y z. unfold by_key. apply ord_le_transitive. Qed.
#[export] Instance by_key_total {V} : Total (@by_key V).
Proof. intros x y. apply ord_le_total. Qed.

Lemma sort_by_key_sorted {V} (l : list (K * V)) :
  StronglySorted ord_lt l.*1 → merge_sort by_key l = l.
Proof.
  intros Hl. apply (StronglySorted_unique_strong by_key).
  - intros [k1 v1] [k2 v2] H1 H2 H12 H21. rewrite (merge_sort_Permutation by_key) in H1.
    unfold by_key in *; simpl in *. assert (k1 = k2) as -> by by apply (anti_symm ord_le).
    f_equal. apply sorted_lt_NoDup in Hl.
    apply list_elem_of_lookup in H1 as [i Hi], H2 as [j Hj].
    assert (i = j) as ->; [|congruence].
    eapply NoDup_lookup; [exact Hl| |]; rewrite list_lookup_fmap; [by rewrite Hi|by rewrite Hj].
  - apply (StronglySorted_merge_sort _ _).
  - apply sorted_lt_le in Hl. induction l as [|[k v] l IH]; [constructor|].
    rewrite fmap_cons in Hl. apply StronglySorted_cons in Hl as [Hk Hl]. constructor; [by apply IH|].
    rewrite Forall_fmap in Hk. exact Hk.
  - apply merge_sort_Permutation.
Qed.

Lemma elem_of_bt_keys {V} (m : gmap K V) x : x ∈ bt_keys m ↔ is_Some (m !! x).
Proof. unfold bt_keys. rewrite elem_of_bt_elems. apply elem_of_dom. Qed.

Lemma NoDup_bt_keys {V} (m : gmap K V) : NoDup (bt_keys m).
Proof. apply NoDup_bt_elems. Qed.

Lemma bt_keys_sorted {V} (m : gmap K V) : StronglySorted ord_lt (bt_keys m).
Proof. apply bt_elems_sorted. Qed.

Lemma length_bt_keys {V} (m : gmap K V) : length (bt_keys m) = size m.
Proof. unfold bt_keys. by rewrite length_bt_elems, size_dom. Qed.

Lemma elem_of_bt_values {V} (m : gmap K V) v :
  v ∈ bt_values m ↔ ∃ k, m !! k = Some v.
Proof.
  unfold bt_values. rewrite list_elem_of_omap. setoid_rewrite elem_of_bt_keys.
  naive_solver eauto.
Qed.

Lemma bt_keys_dom {V W} (m : gmap K V) (m' : gmap K W) :
  dom m = dom m' → bt_keys m = bt_keys m'.
Proof. unfold bt_keys. by intros ->. Qed.

Lemma bt_elems_nil s : bt_elems s = [] ↔ s = ∅.
Proof.
  split.
  - intros Hs. apply set_eq. intros x. rewrite <-elem_of_bt_elems, Hs. set_solver.
  - intros ->. apply elem_of_nil_inv. intros x. rewrite elem_of_bt_elems. set_solver.
Qed.

(** The first element of the iteration is the least. *)
Lemma bt_elems_head s x l : bt_elems s = x :: l → ∀ y, y ∈ s → ord_le x y.
Proof.
  intros Hs y Hy. pose proof (bt_elems_sorted_le s) as Hsort.
  rewrite <-elem_of_bt_elems, Hs in Hy. rewrite Hs in Hsort.
  apply StronglySorted_inv in Hsort as [_ Hall]. rewrite Forall_forall in Hall.
  apply elem_of_cons in Hy as [->|Hy]; [done|by apply Hall].
Qed.
End bt.

#[export] Hint Resolve NoDup_bt_elems NoDup_bt_keys bt_elems_sorted bt_keys_sorted : umber.
