(* ===== verification/Ids.v ===== *)
(** * Entity identifiers and locators

    src/src/structure/entity_id.rs, guid.rs, vendor_id.rs, topic_kind.rs and
    [Locator] of src/src/message/submessage/element.rs.  An octet is a [Z]
    below 256; [[u8; 3]] is a triple, the longer arrays are lists with their
    length in the well-formedness predicate. *)
From stdpp Require Import base tactics numbers list gmap sorting.
From S2P Require Import Prelude Ordered.

Definition octet (z : Z) : Prop := 0 ≤ z < 256.
Definition octets (n : nat) (l : list Z) : Prop := length l = n ∧ Forall octet l.

#[export] Instance octet_dec z : Decision (octet z).
Proof. unfold octet. apply _. Defined.
#[export] Instance octets_dec n l : Decision (octets n l).
Proof. unfold octets. apply _. Defined.

Inductive TopicKind := NoKey | WithKey.
#[export] Instance TopicKind_eq_dec : EqDecision TopicKind.
Proof. solve_decision. Defined.

(** ** EntityKind *)
Record EntityKind := mkEntityKind { value : Z }.
#[export] Instance EntityKind_eq_dec : EqDecision EntityKind.
Proof. solve_decision. Defined.

Module Kind.
Definition UNKNOW_USER_DEFIND := mkEntityKind 0x00.
Definition WRITER_WITH_KEY_USER_DEFIND := mkEntityKind 0x02.
Definition WRITER_NO_KEY_USER_DEFIND := mkEntityKind 0x03.
Definition READER_NO_KEY_USER_DEFIND := mkEntityKind 0x04.
Definition READER_WITH_KEY_USER_DEFIND := mkEntityKind 0x07.
Definition WRITER_GROUP_USER_DEFIND := mkEntityKind 0x08.
Definition READER_GROUP_USER_DEFIND := mkEntityKind 0x09.
Definition UNKNOW_BUILT_IN := mkEntityKind 0xc0.
Definition PARTICIPANT_BUILT_IN := mkEntityKind 0xc1.
Definition WRITER_WITH_KEY_BUILT_IN := mkEntityKind 0xc2.
Definition WRITER_NO_KEY_BUILT_IN := mkEntityKind 0xc3.
Definition READER_NO_KEY_BUILT_IN := mkEntityKind 0xc4.
Definition READER_WITH_KEY_BUILT_IN := mkEntityKind 0xc7.
Definition WRITER_GROUP_BUILT_IN := mkEntityKind 0xc8.
Definition READER_GROUP_BUILT_IN := mkEntityKind 0xc9.
Definition PUBLISHER := mkEntityKind 0x40.
Definition SUBSCRIBER := mkEntityKind 0x41.
End Kind.

Definition kind_topic_kind (k : EntityKind) : option TopicKind :=
  if bool_decide (k ∈ [Kind.WRITER_WITH_KEY_USER_DEFIND; Kind.WRITER_WITH_KEY_BUILT_IN;
                       Kind.READER_WITH_KEY_USER_DEFIND; Kind.READER_WITH_KEY_BUILT_IN])
  then Some WithKey
  else if bool_decide (k ∈ [Kind.WRITER_NO_KEY_USER_DEFIND; Kind.WRITER_NO_KEY_BUILT_IN;
                            Kind.READER_NO_KEY_USER_DEFIND; Kind.READER_NO_KEY_BUILT_IN])
  then Some NoKey
  else None.

(** ** EntityId *)
Record EntityId := mkEntityId {
  entity_key : Z * Z * Z;
  entity_kind : EntityKind;
}.
#[export] Instance EntityId_eq_dec : EqDecision EntityId.
Proof. solve_decision. Defined.

Definition EntityId_view (e : EntityId) : Z * Z * Z * Z :=
  (entity_key e, value (entity_kind e)).
#[export] Instance EntityId_view_inj : Inj (=) (=) EntityId_view.
Proof. intros [? [?]] [? [?]] [=]. by subst. Qed.
#[export] Instance EntityId_countable : Countable EntityId.
Proof.
  refine (inj_countable' EntityId_view
    (λ v, mkEntityId v.1 (mkEntityKind v.2)) _). by intros [? [?]].
Defined.
(** [#[derive(Ord)]]: the key octets, then the kind. *)
#[export] Instance EntityId_ord : RustOrd EntityId :=
  λ x y, lex (cmp (entity_key x) (entity_key y))
             (cmp (value (entity_kind x)) (value (entity_kind y))).
#[export] Instance EntityId_ord_laws : RustOrdLaws EntityId.
Proof. apply (inj_ord_laws EntityId_view _). done. Qed.

Module Eid.
Definition UNKNOW := mkEntityId (0x00, 0x00, 0x00) Kind.UNKNOW_USER_DEFIND.
Definition PARTICIPANT := mkEntityId (0x00, 0x00, 0x01) Kind.PARTICIPANT_BUILT_IN.
Definition SED_PBUILTIN_TOPICS_ANNOUNCER :=
  mkEntityId (0x00, 0x00, 0x02) Kind.WRITER_WITH_KEY_BUILT_IN.
Definition SED_PBUILTIN_TOPICS_DETECTOR :=
  mkEntityId (0x00, 0x00, 0x02) Kind.READER_WITH_KEY_BUILT_IN.
Definition SEDP_BUILTIN_PUBLICATIONS_ANNOUNCER :=
  mkEntityId (0x00, 0x00, 0x03) Kind.WRITER_WITH_KEY_BUILT_IN.
Definition SEDP_BUILTIN_PUBLICATIONS_DETECTOR :=
  mkEntityId (0x00, 0x00, 0x03) Kind.READER_WITH_KEY_BUILT_IN.
Definition SEDP_BUILTIN_SUBSCRIPTIONS_ANNOUNCER :=
  mkEntityId (0x00, 0x00, 0x04) Kind.WRITER_WITH_KEY_BUILT_IN.
Definition SEDP_BUILTIN_SUBSCRIPTIONS_DETECTOR :=
  mkEntityId (0x00, 0x00, 0x04) Kind.READER_WITH_KEY_BUILT_IN.
Definition SPDP_BUILTIN_PARTICIPANT_ANNOUNCER :=
  mkEntityId (0x00, 0x01, 0x00) Kind.WRITER_WITH_KEY_BUILT_IN.
Definition SPDP_BUILTIN_PARTICIPANT_DETECTOR :=
  mkEntityId (0x00, 0x01, 0x00) Kind.READER_WITH_KEY_BUILT_IN.
Definition P2P_BUILTIN_PARTICIPANT_MESSAGE_WRITER :=
  mkEntityId (0x00, 0x02, 0x00) Kind.WRITER_WITH_KEY_BUILT_IN.
Definition P2P_BUILTIN_PARTICIPANT_MESSAGE_READER :=
  mkEntityId (0x00, 0x02, 0x00) Kind.READER_WITH_KEY_BUILT_IN.
End Eid.

Definition is_reader (e : EntityId) : bool :=
  bool_decide (entity_kind e ∈
    [Kind.READER_WITH_KEY_BUILT_IN; Kind.READER_NO_KEY_BUILT_IN;
     Kind.READER_NO_KEY_USER_DEFIND; Kind.READER_WITH_KEY_USER_DEFIND]).

Definition is_writer (e : EntityId) : bool :=
  bool_decide (entity_kind e ∈
    [Kind.WRITER_WITH_KEY_BUILT_IN; Kind.WRITER_NO_KEY_BUILT_IN;
     Kind.WRITER_NO_KEY_USER_DEFIND; Kind.WRITER_WITH_KEY_USER_DEFIND]).

Definition is_builtin (e : EntityId) : bool :=
  bool_decide (e ∈
    [Eid.SED_PBUILTIN_TOPICS_ANNOUNCER; Eid.SED_PBUILTIN_TOPICS_DETECTOR;
     Eid.SEDP_BUILTIN_PUBLICATIONS_ANNOUNCER; Eid.SEDP_BUILTIN_PUBLICATIONS_DETECTOR;
     Eid.SEDP_BUILTIN_SUBSCRIPTIONS_ANNOUNCER; Eid.SEDP_BUILTIN_SUBSCRIPTIONS_DETECTOR;
     Eid.SPDP_BUILTIN_PARTICIPANT_ANNOUNCER; Eid.SPDP_BUILTIN_PARTICIPANT_DETECTOR;
     Eid.P2P_BUILTIN_PARTICIPANT_MESSAGE_WRITER; Eid.P2P_BUILTIN_PARTICIPANT_MESSAGE_READER]).

Definition topic_kind (e : EntityId) : option TopicKind := kind_topic_kind (entity_kind e).

(** [as_usize]/[from_usize]: the poll token of an endpoint is its entity id
    read as a big-endian number. *)
Definition eid_as_usize (e : EntityId) : Z :=
  let '(u0, u1, u2) := entity_key e in
  let u3 := value (entity_kind e) in
  Z.lor (Z.lor (Z.lor (as_u32 (Z.shiftl u0 24)) (as_u32 (Z.shiftl u1 16)))
               (as_u32 (Z.shiftl u2 8))) u3.

Definition eid_from_usize (n : Z) : EntityId :=
  let ek := Z.land n 0xff in
  let e2 := Z.shiftr (Z.land n 0xff00) 8 in
  let e1 := Z.shiftr (Z.land n 0xff0000) 16 in
  let e0 := Z.shiftr (Z.land n 0xff000000) 24 in
  mkEntityId (as_u8 e0, as_u8 e1, as_u8 e2) (mkEntityKind (as_u8 ek)).

Definition eid_wf (e : EntityId) : Prop :=
  let '(k0, k1, k2) := entity_key e in
  octet k0 ∧ octet k1 ∧ octet k2 ∧ octet (value (entity_kind e)).

(** ** GUIDs *)
Record GuidPrefix := mkGuidPrefix { guid_prefix_bytes : list Z }.
#[export] Instance GuidPrefix_eq_dec : EqDecision GuidPrefix.
Proof. solve_decision. Defined.
#[export] Instance GuidPrefix_bytes_inj : Inj (=) (=) guid_prefix_bytes.
Proof. intros [?] [?] [=]. by subst. Qed.
#[export] Instance GuidPrefix_countable : Countable GuidPrefix.
Proof. refine (inj_countable' guid_prefix_bytes mkGuidPrefix _). by intros []. Defined.
#[export] Instance GuidPrefix_ord : RustOrd GuidPrefix :=
  λ x y, cmp (guid_prefix_bytes x) (guid_prefix_bytes y).
#[export] Instance GuidPrefix_ord_laws : RustOrdLaws GuidPrefix.
Proof. apply (inj_ord_laws guid_prefix_bytes _). done. Qed.

Definition GUIDPREFIX_UNKNOW : GuidPrefix := mkGuidPrefix (replicate 12 0x00).

Record GUID := mkGUID {
  guid_prefix : GuidPrefix;
  entity_id : EntityId;
}.
#[export] Instance GUID_eq_dec : EqDecision GUID.
Proof. solve_decision. Defined.
Definition GUID_view (g : GUID) : GuidPrefix * EntityId := (guid_prefix g, entity_id g).
#[export] Instance GUID_view_inj : Inj (=) (=) GUID_view.
Proof. intros [] [] [=]. by subst. Qed.
#[export] Instance GUID_countable : Countable GUID.
Proof. refine (inj_countable' GUID_view (λ v, mkGUID v.1 v.2) _). by intros []. Defined.
(** [#[derive(Ord)]]: the prefix, then the entity id. *)
#[export] Instance GUID_ord : RustOrd GUID :=
  λ x y, lex (cmp (guid_prefix x) (guid_prefix y)) (cmp (entity_id x) (entity_id y)).
#[export] Instance GUID_ord_laws : RustOrdLaws GUID.
Proof. apply (inj_ord_laws GUID_view _). done. Qed.

Definition GUID_UNKNOW : GUID := mkGUID GUIDPREFIX_UNKNOW Eid.UNKNOW.

(** [VendorId]. *)
Definition VENDORID_UNKNOW : list Z := [0x00; 0x00].
Definition VENDORID_THIS_IMPLEMENTATION : list Z := VENDORID_UNKNOW.

(** [GuidPrefix::new]: twelve random octets, the first two replaced by the
    vendor id; the random generator is the argument. *)
Definition guid_prefix_new (bytes : list Z) : GuidPrefix :=
  mkGuidPrefix
    (<[1%nat := nth 1 VENDORID_THIS_IMPLEMENTATION 0]>
       (<[0%nat := nth 0 VENDORID_THIS_IMPLEMENTATION 0]> bytes)).

Definition new_participant_guid (bytes : list Z) : GUID :=
  mkGUID (guid_prefix_new bytes) Eid.PARTICIPANT.

(** ** Locators *)
Record Locator := mkLocator {
  kind : Z;
  port : Z;
  address : list Z;
}.
#[export] Instance Locator_eq_dec : EqDecision Locator.
Proof. solve_decision. Defined.
Definition Locator_view (l : Locator) : Z * Z * list Z := (kind l, port l, address l).
#[export] Instance Locator_view_inj : Inj (=) (=) Locator_view.
Proof. intros [] [] [=]. by subst. Qed.
#[export] Instance Locator_countable : Countable Locator.
Proof. refine (inj_countable' Locator_view (λ v, mkLocator v.1.1 v.1.2 v.2) _). by intros []. Defined.
#[export] Instance Locator_ord : RustOrd Locator :=
  λ x y, lex (lex (cmp (kind x) (kind y)) (cmp (port x) (port y))) (cmp (address x) (address y)).
#[export] Instance Locator_ord_laws : RustOrdLaws Locator.
Proof. apply (inj_ord_laws Locator_view _). done. Qed.

Module Loc.
Definition KIND_INVALID : Z := -1.
Definition KIND_RESERVED : Z := 0.
Definition KIND_UDPV4 : Z := 1.
Definition KIND_UDPV6 : Z := 2.
Definition PORT_INVALID : Z := 0.
Definition ADDRESS_INVALID : list Z := replicate 16 0.
Definition INVALID : Locator := mkLocator KIND_INVALID PORT_INVALID ADDRESS_INVALID.

(** [Locator::new]: a UDPv4 locator whose first twelve octets are not zero
    fails the assertion. *)
Definition new (kind port : Z) (address : list Z) : outcome Locator :=
  if bool_decide (kind = KIND_UDPV4) && negb (bool_decide (take 12 address = replicate 12 0))
  then Panic
  else Done (mkLocator kind port address).

Definition new_from_ipv4 (port : Z) (address : list Z) : Locator :=
  mkLocator KIND_UDPV4 port (replicate 12 0 ++ address).

(** [new_list_from_multi_ipv4]: the address 0.0.0.0 fails the assertion. *)
Fixpoint new_list_from_multi_ipv4 (port : Z) (addresses : list (list Z)) : outcome (list Locator) :=
  match addresses with
  | [] => Done []
  | a :: rest =>
      if bool_decide (a = [0; 0; 0; 0]) then Panic
      else ls ← new_list_from_multi_ipv4 port rest;
           Done (mkLocator KIND_UDPV4 port (replicate 12 0 ++ a) :: ls)
  end.
End Loc.

(** [is_ipv4_multicast] of Reader and Writer: the top four bits of the first
    IPv4 octet are 1110. *)
Definition is_ipv4_multicast (ipv4_addr : list Z) : bool :=
  bool_decide (Z.lxor (Z.shiftr (nth 12 ipv4_addr 0) 4) 0xe = 0).

(** ** Facts *)

Lemma pair_of_bytes_land x n :
  octet x → 0 ≤ n → Z.shiftr (Z.land (Z.shiftl x n) (Z.shiftl 255 n)) n = x.
Proof.
  intros [? ?] ?. rewrite <-Z.shiftl_land, Z.shiftr_shiftl_l, Z.sub_diag, Z.shiftl_0_r by lia.
  change 255 with (Z.ones 8). rewrite Z.land_ones by lia. apply Z.mod_small. lia.
Qed.

Lemma shiftl_disjoint x n m :
  octet x → 0 ≤ n → 0 ≤ m → n + 8 ≤ m ∨ m + 8 ≤ n →
  Z.land (Z.shiftl x n) (Z.shiftl 255 m) = 0.
Proof.
  intros [? ?] ? ? Hnm. apply Z.bits_inj'. intros i Hi.
  rewrite Z.land_spec, Z.bits_0, !Z.shiftl_spec by lia.
  change 255 with (Z.ones 8). rewrite Z.testbit_ones by lia.
  assert (Hx : 8 ≤ i - n → Z.testbit x (i - n) = false).
  { intros Hin. rewrite <-(Z.mod_small x (2 ^ 8)) by lia. apply Z.mod_pow2_bits_high. lia. }
  destruct (decide (i - n < 0)); [by rewrite Z.testbit_neg_r|].
  destruct (decide (8 ≤ i - n)); [by rewrite Hx|].
  destruct (decide (0 ≤ i - m < 8)) as [[? ?]|]; [lia|].
  rewrite andb_false_iff. right. rewrite andb_false_iff, Z.leb_gt, Z.ltb_ge. lia.
Qed.

Lemma shiftl_octet_u32 x n : octet x → 0 ≤ n ≤ 24 → as_u32 (Z.shiftl x n) = Z.shiftl x n.
Proof.
  intros [? ?] ?. apply wrap_u_small. rewrite Z.shiftl_mul_pow2 by lia.
  assert (2 ^ n ≤ 2 ^ 24) by (apply Z.pow_le_mono_r; lia).
  unfold in_u. split; [nia|]. change (2 ^ 32) with (256 * 2 ^ 24).
  assert (0 < 2 ^ n) by lia. nia.
Qed.

(** [pick]: the octet at bit offset [m] of a number assembled from octets. *)
Lemma lor_octets_pick a b c d :
  octet a → octet b → octet c → octet d →
  let n := Z.lor (Z.lor (Z.lor (Z.shiftl a 24) (Z.shiftl b 16)) (Z.shiftl c 8)) (Z.shiftl d 0) in
  Z.shiftr (Z.land n (Z.shiftl 255 24)) 24 = a ∧
  Z.shiftr (Z.land n (Z.shiftl 255 16)) 16 = b ∧
  Z.shiftr (Z.land n (Z.shiftl 255 8)) 8 = c ∧
  Z.shiftr (Z.land n (Z.shiftl 255 0)) 0 = d.
Proof.
  intros Ha Hb Hc Hd n. unfold n. rewrite !Z.land_lor_distr_l.
  repeat split;
    rewrite ?(shiftl_disjoint a), ?(shiftl_disjoint b), ?(shiftl_disjoint c),
      ?(shiftl_disjoint d) by (try done; lia);
    rewrite ?Z.lor_0_l, ?Z.lor_0_r; by apply pair_of_bytes_land.
Qed.

(** The poll token of an entity id determines the id: packing the four octets
    into a [usize] and unpacking them gives the id back. *)
Theorem eid_from_as_usize (e : EntityId) : eid_wf e → eid_from_usize (eid_as_usize e) = e.
Proof.
  destruct e as [[[k0 k1] k2] [k]]. unfold eid_wf; simpl. intros (H0 & H1 & H2 & Hk).
  unfold eid_as_usize, eid_from_usize; simpl.
  rewrite !shiftl_octet_u32 by (done || lia).
  pose proof (lor_octets_pick k0 k1 k2 k H0 H1 H2 Hk) as (E0 & E1 & E2 & E3).
  rewrite !Z.shiftl_0_r, Z.shiftr_0_r in E3. rewrite Z.shiftl_0_r in E0, E1, E2.
  change (Z.shiftl 255 24) with 0xff000000 in E0.
  change (Z.shiftl 255 16) with 0xff0000 in E1.
  change (Z.shiftl 255 8) with 0xff00 in E2.
  rewrite E0, E1, E2. change 0xff with 255. rewrite E3.
  unfold octet in *. wrap_small. done.
Qed.

Lemma eid_from_as_usize_witness :
  eid_from_usize (eid_as_usize Eid.SPDP_BUILTIN_PARTICIPANT_ANNOUNCER) = Eid.SPDP_BUILTIN_PARTICIPANT_ANNOUNCER.
Proof. apply eid_from_as_usize. unfold eid_wf, octet. vm_compute. repeat split; congruence. Defined.
