(* ===== verification/Time.v ===== *)
(** * Durations and timestamps

    src/src/structure/duration.rs and [Timestamp] of
    src/src/message/submessage/element.rs.  [CoreDuration] is
    [core::time::Duration] of the Rust library (seconds and nanoseconds).
    The conversions that go through [f64] are computed with the IEEE 754
    binary64 operations of [SpecFloat]. *)
From stdpp Require Import base tactics numbers list.
From Stdlib Require Import SpecFloat.
From S2P Require Import Prelude Ordered.

(** ** binary64 *)
Module F64.
Definition of_Z (z : Z) : spec_float := binary_normalize 53 1024 z 0 false.
Definition div (x y : spec_float) : spec_float := SFdiv 53 1024 x y.
Definition mul (x y : spec_float) : spec_float := SFmul 53 1024 x y.

(** Integer part, towards zero. *)
Definition trunc (x : spec_float) : Z :=
  match x with
  | S754_finite s m e =>
      let a := if 0 <=? e then Z.shiftl (Zpos m) e else Z.shiftr (Zpos m) (- e) in
      if s then - a else a
  | _ => 0
  end.

(** [x as u32]: truncation that saturates; NaN becomes 0. *)
Definition as_u32_sat (x : spec_float) : Z :=
  match x with
  | S754_infinity false => 2 ^ 32 - 1
  | _ => Z.max 0 (Z.min (2 ^ 32 - 1) (trunc x))
  end.
End F64.

(** ** core::time::Duration *)
Record CoreDuration := mkCoreDuration { secs : Z; nanos : Z }.
#[export] Instance CoreDuration_eq_dec : EqDecision CoreDuration.
Proof. solve_decision. Defined.

Definition NANOS_PER_SEC : Z := 1000000000.

(** [CoreDuration::new] carries whole seconds out of the nanoseconds and
    panics when the seconds overflow. *)
Definition core_duration_new (s n : Z) : outcome CoreDuration :=
  let s' := s + n / NANOS_PER_SEC in
  if bool_decide (s' < 2 ^ 64) then Done (mkCoreDuration s' (n mod NANOS_PER_SEC)) else Panic.

Definition core_duration_wf (d : CoreDuration) : Prop :=
  in_u 64 (secs d) ∧ 0 ≤ nanos d < NANOS_PER_SEC.

#[export] Instance CoreDuration_ord : RustOrd CoreDuration :=
  λ x y, lex (cmp (secs x) (secs y)) (cmp (nanos x) (nanos y)).
#[export] Instance CoreDuration_ord_laws : RustOrdLaws CoreDuration.
Proof.
  apply (inj_ord_laws (λ d, (secs d, nanos d))); [|done].
  intros [] [] [=]. by subst.
Qed.

Definition CORE_DURATION_MAX : CoreDuration := mkCoreDuration (2 ^ 64 - 1) (NANOS_PER_SEC - 1).

(** Length in nanoseconds. *)
Definition core_nanos (d : CoreDuration) : Z := secs d * NANOS_PER_SEC + nanos d.

(** ** Duration *)
Record Duration := mkDuration { seconds : Z; fraction : Z }.
#[export] Instance Duration_eq_dec : EqDecision Duration.
Proof. solve_decision. Defined.

Module Dur.
Definition INFINITE : Duration := mkDuration 0x7fffffff 0xffffffff.
Definition ZERO : Duration := mkDuration 0 0.

Definition from_secs (s : Z) : Duration := mkDuration s 0.

(** [from_millis] and [from_nanos] for the unit of [per] parts in a second. *)
Definition from_parts (per v : Z) : Duration :=
  let s := v ÷ per in
  let frac_sec := F64.div (F64.of_Z (v - s * per)) (F64.of_Z per) in
  let frac := F64.mul frac_sec (F64.of_Z (2 ^ 32)) in
  mkDuration (as_i32 s) (F64.as_u32_sat frac).
Definition from_millis (milliseconds : Z) : Duration := from_parts 1000 milliseconds.
Definition from_nanos (nanoseconds : Z) : Duration := from_parts NANOS_PER_SEC nanoseconds.

Definition half (d : Duration) : Duration :=
  if bool_decide (d = INFINITE) then d
  else mkDuration (seconds d ÷ 2) (fraction d / 2).

(** [From<Duration> for CoreDuration]. *)
Definition to_core (d : Duration) : outcome CoreDuration :=
  core_duration_new (as_u64 (seconds d)) (as_u32 (NANOS_PER_SEC * fraction d / 2 ^ 32)).

(** [From<CoreDuration> for Duration]. *)
Definition of_core (d : CoreDuration) : Duration :=
  let frac_sec := F64.div (F64.of_Z (nanos d)) (F64.of_Z NANOS_PER_SEC) in
  let frac := F64.mul frac_sec (F64.of_Z (2 ^ 32)) in
  mkDuration (as_i32 (secs d)) (F64.as_u32_sat frac).

(** [Ord for Duration], as written: both sides are scaled by a billion and
    the raw fraction (units of 2^-32 s) is added. *)
Definition compare (x y : Duration) : comparison :=
  let left := seconds x * 1000000000 + fraction x in
  let right := seconds y * 1000000000 + fraction y in
  Z.compare left right.
Definition le (x y : Duration) : bool :=
  match compare x y with Gt => false | _ => true end.
Definition lt (x y : Duration) : bool :=
  match compare x y with Lt => true | _ => false end.

Definition wf (d : Duration) : Prop := in_s 32 (seconds d) ∧ in_u 32 (fraction d).

(** The real length, in units of 2^-32 s. *)
Definition ticks (d : Duration) : Z := seconds d * 2 ^ 32 + fraction d.
End Dur.

(** ** Timestamp *)
Record Timestamp := mkTimestamp { ts_seconds : Z; ts_fraction : Z }.
#[export] Instance Timestamp_eq_dec : EqDecision Timestamp.
Proof. solve_decision. Defined.

Module Ts.
Definition TIME_INVALID : Timestamp := mkTimestamp 0xFFFFFFFF 0xFFFFFFFF.
Definition TIME_ZERO : Timestamp := mkTimestamp 0 0.
Definition TIME_INFINITE : Timestamp := mkTimestamp 0xFFFFFFFF 0xFFFFFFFE.

(** [Timestamp::now] from the clock reading [helper::now()], in
    nanoseconds since the epoch. *)
Definition now (clock : option Z) : option Timestamp :=
  t ← clock;
  let frac_sec := F64.div (F64.of_Z (Z.rem t 1000000000)) (F64.of_Z 1000000000) in
  let frac := F64.mul frac_sec (F64.of_Z (2 ^ 32)) in
  Some (mkTimestamp (as_u32 (t ÷ 1000000000)) (F64.as_u32_sat frac)).

(** [to_nanos]: the two local computations [l] and [r] of [sub]. *)
Definition to_nanos (t : Timestamp) : Z :=
  ts_seconds t * 1000000000 + as_i64 (1000000000 * ts_fraction t / 2 ^ 32).

Definition sub (self rhs : Timestamp) : outcome CoreDuration :=
  Dur.to_core (Dur.from_nanos (to_nanos self - to_nanos rhs)).

Definition add (self : Timestamp) (rhs : CoreDuration) : Timestamp :=
  let s := ts_seconds self + secs rhs in
  let added_fraction := as_u32 (nanos rhs * 2 ^ 32 / 1000000000) in
  let sum := ts_fraction self + added_fraction in
  let s' := if bool_decide (2 ^ 32 ≤ sum) then s + 1 else s in
  mkTimestamp (as_u32 s') (as_u32 sum).

Definition wf (t : Timestamp) : Prop := in_u 32 (ts_seconds t) ∧ in_u 32 (ts_fraction t).
End Ts.

(** ** Theorems *)

(** One check per millisecond of a second: the binary64 route of
    [from_parts] gives the exact quotient. *)
Definition millis_fraction_exact (r : Z) : bool :=
  bool_decide (F64.as_u32_sat
      (F64.mul (F64.div (F64.of_Z r) (F64.of_Z 1000)) (F64.of_Z (2 ^ 32)))
    = r * 2 ^ 32 / 1000).

Lemma millis_fraction_exact_all : forallb millis_fraction_exact (seqZ 0 1000) = true.
Proof. vm_compute. reflexivity. Qed.

Lemma millis_fraction r :
  0 ≤ r < 1000 →
  F64.as_u32_sat (F64.mul (F64.div (F64.of_Z r) (F64.of_Z 1000)) (F64.of_Z (2 ^ 32)))
  = r * 2 ^ 32 / 1000.
Proof.
  intros Hr. pose proof millis_fraction_exact_all as Hall.
  rewrite forallb_forall in Hall.
  specialize (Hall r). rewrite <-list_elem_of_In, elem_of_seqZ in Hall.
  specialize (Hall ltac:(lia)). by apply bool_decide_eq_true in Hall.
Qed.

(** Although [from_millis] computes its fraction in binary64, the result is
    the exact value in units of 2^-32 s, rounded down, for every duration
    that fits in the 32-bit seconds field. *)
Theorem from_millis_exact (ms : Z) :
  0 ≤ ms < 2 ^ 31 * 1000 →
  Dur.from_millis ms = mkDuration (ms / 1000) (ms mod 1000 * 2 ^ 32 / 1000).
Proof.
  intros Hms. unfold Dur.from_millis, Dur.from_parts.
  rewrite Z.quot_div_nonneg by lia.
  replace (ms - ms / 1000 * 1000) with (ms mod 1000) by (rewrite Z.mod_eq; lia).
  rewrite millis_fraction by (apply Z.mod_pos_bound; lia).
  f_equal. apply wrap_s_small; [lia|]. unfold in_s.
  assert (0 ≤ ms / 1000 < 2 ^ 31) by (split; [apply Z.div_pos|apply Z.div_lt_upper_bound]; lia).
  simpl. lia.
Qed.

(** The conversion never panics, not even on a negative duration. *)
Lemma to_core_no_panic d : Dur.wf d → no_panic (Dur.to_core d).
Proof.
  intros [Hs Hf]. unfold in_s, in_u in *. unfold Dur.to_core, core_duration_new.
  assert (0 ≤ NANOS_PER_SEC * fraction d / 2 ^ 32 < NANOS_PER_SEC) as Hn.
  { split; [apply Z.div_pos; unfold NANOS_PER_SEC; lia|].
    apply Z.div_lt_upper_bound; unfold NANOS_PER_SEC; lia. }
  assert (NANOS_PER_SEC < 2 ^ 32) by done.
  rewrite (wrap_u_small 32) by (unfold in_u; lia). rewrite Z.div_small, Z.add_0_r by done.
  pose proof (wrap_u_range 64 (seconds d) ltac:(lia)) as [_ Hu].
  rewrite bool_decide_true by done. apply no_panic_Done.
Qed.

Lemma as_u32_sat_range x : in_u 32 (F64.as_u32_sat x).
Proof. unfold in_u. destruct x as [| [] | |]; unfold F64.as_u32_sat; lia. Qed.

Lemma from_parts_wf per v : Dur.wf (Dur.from_parts per v).
Proof. split; [by apply wrap_s_range|apply as_u32_sat_range]. Qed.

(** The difference of two timestamps is always defined: going back in time
    gives a huge duration. *)
Lemma ts_sub_no_panic t u : no_panic (Ts.sub t u).
Proof. apply to_core_no_panic, from_parts_wf. Qed.

Lemma half_wf d : Dur.wf d → Dur.wf (Dur.half d).
Proof.
  intros [Hs Hf]. unfold Dur.half. case_bool_decide; [done|]. unfold in_s, in_u in *. simpl in *. split.
  - unfold in_s; simpl. destruct (decide (0 ≤ seconds d)).
    + rewrite Z.quot_div_nonneg by lia. pose proof (Z.div_pos (seconds d) 2).
      pose proof (Z.div_le_upper_bound (seconds d) 2 (2 ^ 31 - 1)). lia.
    + rewrite <-(Z.opp_involutive (seconds d)), Z.quot_opp_l, Z.quot_div_nonneg by lia.
      pose proof (Z.div_pos (- seconds d) 2). pose proof (Z.div_le_upper_bound (- seconds d) 2 (2 ^ 31)). lia.
  - unfold in_u; simpl. pose proof (Z.div_pos (fraction d) 2).
    pose proof (Z.div_lt_upper_bound (fraction d) 2 (2 ^ 32)). lia.
Qed.
#[export] Hint Resolve to_core_no_panic ts_sub_no_panic half_wf from_parts_wf : umber.

Lemma to_core_Done d :
  Dur.wf d → 0 ≤ seconds d →
  Dur.to_core d = Done (mkCoreDuration (seconds d) (NANOS_PER_SEC * fraction d / 2 ^ 32)).
Proof.
  intros [Hs Hf] Hpos. unfold in_s, in_u in *. unfold Dur.to_core, core_duration_new.
  assert (0 ≤ NANOS_PER_SEC * fraction d / 2 ^ 32 < NANOS_PER_SEC) as Hn.
  { split; [apply Z.div_pos; unfold NANOS_PER_SEC; lia|].
    apply Z.div_lt_upper_bound; unfold NANOS_PER_SEC; lia. }
  assert (NANOS_PER_SEC < 2 ^ 32) by done.
  wrap_small. rewrite Z.div_small, Z.mod_small, Z.add_0_r by done.
  rewrite bool_decide_true by lia. done.
Qed.

(** Converting a non-negative [Duration] to [core::time::Duration] never
    panics, loses less than a nanosecond and is monotone in the real length. *)
Theorem to_core_accurate (d e : Duration) :
  Dur.wf d → Dur.wf e → 0 ≤ seconds d → 0 ≤ seconds e →
  ∃ c c', Dur.to_core d = Done c ∧ Dur.to_core e = Done c' ∧
    core_duration_wf c ∧
    core_nanos c * 2 ^ 32 ≤ Dur.ticks d * NANOS_PER_SEC < (core_nanos c + 1) * 2 ^ 32 ∧
    (Dur.ticks d ≤ Dur.ticks e → core_nanos c ≤ core_nanos c').
Proof.
  intros Hd He Hsd Hse. do 2 eexists.
  split; [by apply to_core_Done|]. split; [by apply to_core_Done|].
  destruct Hd as [Hs Hf], He as [Hs' Hf']. unfold in_s, in_u in *.
  unfold core_duration_wf, core_nanos, Dur.ticks, in_u; simpl.
  assert (∀ z, 0 ≤ z < 2 ^ 32 → 0 ≤ NANOS_PER_SEC * z / 2 ^ 32 < NANOS_PER_SEC ∧
    NANOS_PER_SEC * z / 2 ^ 32 * 2 ^ 32 ≤ NANOS_PER_SEC * z
      < (NANOS_PER_SEC * z / 2 ^ 32 + 1) * 2 ^ 32) as Hdiv.
  { intros z Hz. pose proof (Z.div_mod (NANOS_PER_SEC * z) (2 ^ 32) ltac:(lia)).
    pose proof (Z.mod_pos_bound (NANOS_PER_SEC * z) (2 ^ 32) ltac:(lia)).
    unfold NANOS_PER_SEC in *. lia. }
  pose proof (Hdiv _ Hf) as [? ?]. pose proof (Hdiv _ Hf') as [? ?].
  change (2 ^ (32 - 1)) with 2147483648 in *.
  unfold NANOS_PER_SEC in *.
  split; [lia|]. split; [lia|]. intros Hle.
  destruct (decide (seconds d = seconds e)) as [Heq|Hne].
  - assert (1000000000 * fraction d / 2 ^ 32 ≤ 1000000000 * fraction e / 2 ^ 32)
      by (apply Z.div_le_mono; lia). lia.
  - lia.
Qed.

(** [Ord for Duration] is not the order of time: a duration whose fraction
    exceeds 10^9 (0.233 s) can compare above a longer one; here 900 ms
    compares above one second. *)
Theorem duration_ord_not_time_order :
  ∃ d e : Duration, Dur.wf d ∧ Dur.wf e ∧
    Dur.ticks d < Dur.ticks e ∧ Dur.compare d e = Gt.
Proof.
  exists (Dur.from_millis 900), (Dur.from_secs 1).
  unfold Dur.wf, in_s, in_u. repeat split; vm_compute; done.
Qed.

(** Within the same second, and for durations with small fractions, the
    implemented order is the order of time. *)
Theorem duration_ord_small_fraction (d e : Duration) :
  (seconds d = seconds e ∨
   (0 ≤ fraction d < 1000000000 ∧ 0 ≤ fraction e < 1000000000)) →
  in_u 32 (fraction d) → in_u 32 (fraction e) →
  Dur.compare d e = (Dur.ticks d ?= Dur.ticks e).
Proof.
  unfold in_u, Dur.compare, Dur.ticks. intros Hcase ? ?.
  destruct (Z.compare_spec (seconds d * 2 ^ 32 + fraction d) (seconds e * 2 ^ 32 + fraction e));
    rewrite ?Z.compare_eq_iff, ?Z.compare_lt_iff, ?Z.compare_gt_iff; lia.
Qed.

(** [half] halves seconds and fraction separately: the odd second is lost. *)
Theorem half_loses_odd_second (d : Duration) :
  d ≠ Dur.INFINITE → 0 ≤ seconds d → 0 ≤ fraction d →
  2 * Dur.ticks (Dur.half d) + seconds d mod 2 * 2 ^ 32 + fraction d mod 2 = Dur.ticks d.
Proof.
  intros Hd Hs Hf. unfold Dur.half, Dur.ticks. rewrite bool_decide_false by done; simpl.
  rewrite Z.quot_div_nonneg by lia.
  pose proof (Z.div_mod (seconds d) 2 ltac:(lia)).
  pose proof (Z.div_mod (fraction d) 2 ltac:(lia)). lia.
Qed.

(** Adding a duration below a second to a timestamp advances the tick count
    by the converted fraction, with the carry into the seconds. *)
Theorem timestamp_add_ticks (t : Timestamp) (d : CoreDuration) :
  Ts.wf t → core_duration_wf d → ts_seconds t + secs d + 1 < 2 ^ 32 →
  ts_seconds (Ts.add t d) * 2 ^ 32 + ts_fraction (Ts.add t d)
  = ts_seconds t * 2 ^ 32 + ts_fraction t + secs d * 2 ^ 32 + nanos d * 2 ^ 32 / 1000000000.
Proof.
  intros [Hs Hf] [Hd Hn] Hsum. unfold in_u, NANOS_PER_SEC in *. unfold Ts.add.
  assert (0 ≤ nanos d * 2 ^ 32 / 1000000000 < 2 ^ 32) as Hadd.
  { split; [apply Z.div_pos; lia|]. apply Z.div_lt_upper_bound; lia. }
  rewrite (wrap_u_small 32 (nanos d * 2 ^ 32 / 1000000000)) by done.
  case_bool_decide; simpl.
  - rewrite (wrap_u_small 32 (ts_seconds t + secs d + 1)) by (unfold in_u; lia).
    unfold wrap_u. rewrite (Z.mod_eq _ (2 ^ 32)) by lia.
    assert ((ts_fraction t + nanos d * 2 ^ 32 / 1000000000) / 2 ^ 32 = 1) as ->; [|lia].
    symmetry. apply Z.div_unique with (ts_fraction t + nanos d * 2 ^ 32 / 1000000000 - 2 ^ 32); lia.
  - rewrite (wrap_u_small 32 (ts_seconds t + secs d)) by (unfold in_u; lia).
    rewrite wrap_u_small by (unfold in_u; lia). lia.
Qed.

(** *** Witnesses *)

Lemma from_millis_exact_witness :
  Dur.from_millis 1500 = mkDuration (1500 / 1000) (1500 mod 1000 * 2 ^ 32 / 1000).
Proof. apply from_millis_exact. lia. Defined.

Lemma to_core_accurate_witness :
  ∃ c c', Dur.to_core (mkDuration 1 (2 ^ 31)) = Done c ∧ Dur.to_core (mkDuration 2 0) = Done c' ∧
    core_nanos c ≤ core_nanos c'.
Proof.
  destruct (to_core_accurate (mkDuration 1 (2 ^ 31)) (mkDuration 2 0)) as (c & c' & Hc & Hc' & _ & _ & Hle).
  - split; split; vm_compute; congruence.
  - split; split; vm_compute; congruence.
  - vm_compute. congruence.
  - vm_compute. congruence.
  - exists c, c'. split; [exact Hc|]. split; [exact Hc'|]. apply Hle. vm_compute. congruence.
Defined.

Lemma duration_ord_small_fraction_witness :
  Dur.compare (mkDuration 1 5) (mkDuration 2 3) = (Dur.ticks (mkDuration 1 5) ?= Dur.ticks (mkDuration 2 3)).
Proof.
  apply duration_ord_small_fraction; [right; simpl; lia|split; vm_compute; congruence|split; vm_compute; congruence].
Defined.

Lemma timestamp_add_ticks_witness :
  ts_seconds (Ts.add (mkTimestamp 1 (2 ^ 31)) (mkCoreDuration 1 500000000)) * 2 ^ 32
    + ts_fraction (Ts.add (mkTimestamp 1 (2 ^ 31)) (mkCoreDuration 1 500000000)) = 3 * 2 ^ 32.
Proof.
  rewrite timestamp_add_ticks.
  - vm_compute. reflexivity.
  - split; split; vm_compute; congruence.
  - split; split; vm_compute; congruence.
  - vm_compute. reflexivity.
Defined.
