(* ===== verification/SeqNum.v ===== *)
(** * Sequence numbers and sequence number sets

    [SequenceNumber], [NumberSet] and [SequenceNumberSet] of
    src/src/message/submessage/element.rs.  A [SequenceNumber] is its i64. *)
From stdpp Require Import base tactics numbers list gmap sorting.
From S2P Require Import Prelude Ordered.

Module Sn.
Definition SEQUENCENUMBER_UNKNOWN : Z := as_i64 (Z.shiftl (2 ^ 32 - 1) 32).
Definition MAX : Z := i64_MAX.
Definition MIN : Z := i64_MIN.
Definition add (a b : Z) : Z := as_i64 (a + b).
Definition sub (a b : Z) : Z := as_i64 (a - b).
End Sn.

Lemma sn_add_small a b : in_s 64 (a + b) → Sn.add a b = a + b.
Proof. intros. by apply wrap_s_small. Qed.
Lemma sn_sub_small a b : in_s 64 (a - b) → Sn.sub a b = a - b.
Proof. intros. by apply wrap_s_small. Qed.

(** [high: i32, low: u32], the wire form of [Readable]/[Writable]. *)
Definition sn_to_wire (sn : Z) : Z * Z := (as_i32 (Z.shiftr sn 32), as_u32 sn).
Definition sn_of_wire (high low : Z) : Z := as_i64 (Z.shiftl high 32 + low).

Lemma sn_wire_roundtrip sn :
  in_s 64 sn →
  let '(high, low) := sn_to_wire sn in
  in_s 32 high ∧ in_u 32 low ∧ sn_of_wire high low = sn.
Proof.
  intros Hsn. simpl. split; [by apply wrap_s_range|]. split; [by apply wrap_u_range|].
  unfold sn_of_wire. rewrite Z.shiftr_div_pow2 by lia.
  assert (in_s 32 (sn / 2 ^ 32)) as Hhigh.
  { unfold in_s in *. split; [apply Z.div_le_lower_bound|apply Z.div_lt_upper_bound]; lia. }
  rewrite (wrap_s_small 32) by (done || lia). rewrite Z.shiftl_mul_pow2 by lia. unfold wrap_u.
  rewrite Z.mul_comm, <-Z.div_mod by lia. apply wrap_s_small; [lia|done].
Qed.

Lemma sn_of_wire_range high low : in_s 64 (sn_of_wire high low).
Proof. by apply wrap_s_range. Qed.

Record NumberSet := mkNumberSet {
  bitmap_base : Z;
  num_bits : Z;
  bitmap : list Z;
}.
#[export] Instance NumberSet_eq_dec : EqDecision NumberSet.
Proof. solve_decision. Defined.

(** [u32::div_ceil(32)]. *)
Definition div_ceil32 (n : Z) : Z := n / 32 + (if bool_decide (0 < n mod 32) then 1 else 0).

(** [map & (1 << (31 - offset)) == 1 << (31 - offset)]. *)
Definition bit_set (map offset : Z) : bool :=
  let m := Z.shiftl 1 (31 - offset) in bool_decide (Z.land map m = m).

(** One word of the bitmap. *)
Definition set_line (base num_bits map_line map : Z) : list Z :=
  let bitmap_end := Z.min 32 (as_u32 (num_bits - as_u32 (map_line * 32))) in
  omap (λ offset, if bit_set map offset
                  then Some (as_i64 (base + 32 * map_line + offset)) else None)
       (seqZ 0 bitmap_end).

Fixpoint set_from (base num_bits map_line : Z) (bm : list Z) : list Z :=
  match bm with
  | [] => []
  | map :: bm' => set_line base num_bits map_line map ++ set_from base num_bits (map_line + 1) bm'
  end.

(** [SequenceNumberSet::set]. *)
Definition sn_set (s : NumberSet) : list Z :=
  set_from (bitmap_base s) (num_bits s) 0 (bitmap s).

(** One iteration of the loop of [from_vec].  [Vec::resize] truncates as well
    as extends; it panics when the capacity overflows, the indexing when the
    line is out of range. *)
Definition from_vec_step (base : Z) (acc : Z * list Z) (seq_num : Z) : outcome (Z * list Z) :=
  let '(num_bits, bitmap) := acc in
  let offset_from_base := as_i64 (seq_num - base) in
  let num_bits := Z.max num_bits (as_u32 (as_u32 offset_from_base + 1)) in
  let line := offset_from_base ÷ 32 in
  let offset_in_line := Z.rem offset_from_base 32 in
  let len := as_usize (as_usize line + 1) in
  if bool_decide (2 ^ 63 ≤ 4 * len) then Panic else
  let bitmap := resize (Z.to_nat len) 0 bitmap in
  w ← unwrap (bitmap !! Z.to_nat (as_usize line));
  let w' := Z.lor w (Z.shiftl 1 (Z.land (31 - offset_in_line) 31)) in
  Done (num_bits, <[Z.to_nat (as_usize line) := w']> bitmap).

Definition from_vec (base : Z) (set : list Z) : outcome NumberSet :=
  '(num_bits, bitmap) ← foldM (from_vec_step base) (0, []) set;
  Done (mkNumberSet base num_bits bitmap).

Definition sns_size (s : NumberSet) : Z := as_u16 (12 + as_u16 (as_u16 (length (bitmap s)) * 4)).

Definition sns_is_valid (s : NumberSet) : bool :=
  bool_decide (1 ≤ bitmap_base s) && bool_decide (num_bits s < 256) &&
  bool_decide (as_u32 (length (bitmap s)) = div_ceil32 (num_bits s)).

(** A set as [read_from] can deliver it. *)
Definition sns_wf (s : NumberSet) : Prop :=
  in_s 64 (bitmap_base s) ∧ in_u 32 (num_bits s) ∧ Forall (in_u 32) (bitmap s) ∧
  Z.of_nat (length (bitmap s)) = div_ceil32 (num_bits s).

(** ** Facts *)

Lemma div_ceil32_alt n : div_ceil32 n = (n + 31) / 32.
Proof.
  unfold div_ceil32. pose proof (Z.div_mod n 32 ltac:(lia)).
  pose proof (Z.mod_pos_bound n 32 ltac:(lia)).
  case_bool_decide.
  - apply Z.div_unique with (n mod 32 - 1); lia.
  - apply Z.div_unique with 31; lia.
Qed.

Lemma bit_set_testbit map offset :
  0 ≤ offset < 32 → bit_set map offset = Z.testbit map (31 - offset).
Proof.
  intros Ho. unfold bit_set.
  assert (Hb : ∀ i, Z.testbit (Z.shiftl 1 (31 - offset)) i = bool_decide (i = 31 - offset)).
  { intros i. rewrite Z.shiftl_1_l, Z.pow2_bits_eqb by lia.
    case_bool_decide; [subst; apply Z.eqb_refl|apply Z.eqb_neq; lia]. }
  destruct (Z.testbit map (31 - offset)) eqn:E; case_bool_decide as Hc; try done.
  - exfalso. apply Hc. apply Z.bits_inj. intros i. rewrite Z.land_spec, Hb.
    case_bool_decide; subst; [by rewrite E|apply andb_false_r].
  - exfalso. apply (f_equal (λ z, Z.testbit z (31 - offset))) in Hc.
    rewrite Z.land_spec, Hb, bool_decide_true, E in Hc by done. done.
Qed.

(** The bit of number [base + o]. *)
Definition nbit (bm : list Z) (o : Z) : bool :=
  match bm !! Z.to_nat (o / 32) with
  | Some w => Z.testbit w (31 - o mod 32)
  | None => false
  end.

Section set_facts.
Context (base nbits : Z).
Context (Hbase : i64_MIN ≤ base) (Htop : base + nbits - 1 ≤ i64_MAX) (Hn : 0 ≤ nbits < 2 ^ 32).

Lemma elem_of_set_line line map x :
  0 ≤ line → 32 * line < nbits →
  x ∈ set_line base nbits line map ↔
    base + 32 * line ≤ x < base + 32 * line + 32 ∧ x < base + nbits ∧
    Z.testbit map (31 - (x - base - 32 * line)) = true.
Proof using Hbase Htop Hn.
  intros Hl Hline. unfold set_line, i64_MIN, i64_MAX in *.
  rewrite (wrap_u_small 32 (line * 32)) by (unfold in_u; lia).
  rewrite (wrap_u_small 32 (nbits - line * 32)) by (unfold in_u; lia).
  rewrite list_elem_of_omap. setoid_rewrite elem_of_seqZ. split.
  - intros (o & Ho & Hx). rewrite bit_set_testbit in Hx by lia.
    destruct (Z.testbit map (31 - o)) eqn:E; [|done]. injection Hx as <-.
    wrap_small.
    replace (31 - (base + 32 * line + o - base - 32 * line)) with (31 - o) by lia.
    repeat split; [lia|lia|lia|done].
  - intros (Hx & Hx' & Hb). exists (x - base - 32 * line). split; [lia|].
    rewrite bit_set_testbit by lia. rewrite Hb. f_equal.
    wrap_small. lia.
Qed.

Lemma elem_of_set_from line bm x :
  0 ≤ line → Z.of_nat (length bm) = Z.max 0 ((nbits - 32 * line + 31) / 32) →
  x ∈ set_from base nbits line bm ↔
    base + 32 * line ≤ x < base + nbits ∧ nbit bm (x - base - 32 * line) = true.
Proof using Hbase Htop Hn.
  revert line. induction bm as [|map bm IH]; intros line Hl Hlen; simpl.
  - split; [by intros ?%elem_of_nil|]. by intros [_ ?].
  - simpl in Hlen.
    assert (32 * line < nbits) by (destruct (decide (32 * line < nbits)); [done|];
      assert ((nbits - 32 * line + 31) / 32 < 1) by (apply Z.div_lt_upper_bound; lia); lia).
    rewrite elem_of_app, elem_of_set_line, IH by (try lia;
      replace (nbits - 32 * (line + 1) + 31) with (nbits - 32 * line + 31 + (-1) * 32) by lia;
      rewrite Z.div_add by lia; lia).
    unfold nbit. simpl. set (o := x - base - 32 * line).
    replace (x - base - 32 * (line + 1)) with (o + (-1) * 32) by lia.
    rewrite Z.div_add, Z.mod_add by lia.
    destruct (decide (0 ≤ o < 32)) as [Ho|Ho].
    + rewrite (Z.div_small o 32), (Z.mod_small o 32) by done. simpl. split; [intros [(? & ? & ?)|[? ?]]|intros [? ?]; left]; (lia || (split_and!; (done || lia))).
    + destruct (decide (o < 0)); [lia|].
      assert (1 ≤ o / 32) by (apply Z.div_le_lower_bound; lia).
      replace (Z.to_nat (o / 32)) with (S (Z.to_nat (o / 32 + -1))) by lia. simpl.
      split; [intros [?|[? ?]]|intros [? ?]; right]; [lia| |]; (split; [lia|done]).
Qed.

Lemma set_line_sorted line map :
  0 ≤ line → 32 * line < nbits → StronglySorted ord_lt (set_line base nbits line map).
Proof using Hbase Htop Hn.
  intros Hl Hline. unfold set_line, i64_MIN, i64_MAX in *.
  rewrite (wrap_u_small 32 (line * 32)) by (unfold in_u; lia).
  rewrite (wrap_u_small 32 (nbits - line * 32)) by (unfold in_u; lia).
  assert (Hgen : ∀ (n : nat) m, 0 ≤ m → m + n ≤ Z.min 32 (nbits - line * 32) →
    StronglySorted ord_lt (omap (λ offset, if bit_set map offset
      then Some (as_i64 (base + 32 * line + offset)) else None) (seqZ m n))).
  { induction n as [|n IHn]; intros m Hm Hle; [constructor|].
    rewrite seqZ_cons by lia. replace (Z.pred (S n)) with (Z.of_nat n) by lia. simpl.
    destruct (bit_set map m); [|apply IHn; lia].
    constructor; [apply IHn; lia|]. rewrite Forall_forall. intros y.
    rewrite list_elem_of_omap. intros (o & Ho & Hy). rewrite elem_of_seqZ in Ho.
    destruct (bit_set map o); [|done]. injection Hy as <-.
    rewrite ord_lt_Z. wrap_small. lia. }
  specialize (Hgen (Z.to_nat (Z.min 32 (nbits - line * 32))) 0).
  rewrite Z2Nat.id in Hgen by lia. apply Hgen; lia.
Qed.

Lemma set_from_sorted line bm :
  0 ≤ line → Z.of_nat (length bm) = Z.max 0 ((nbits - 32 * line + 31) / 32) →
  StronglySorted ord_lt (set_from base nbits line bm).
Proof using Hbase Htop Hn.
  revert line. induction bm as [|map bm IH]; intros line Hl Hlen; simpl; [constructor|].
  simpl in Hlen.
  assert (32 * line < nbits) by (destruct (decide (32 * line < nbits)); [done|];
    assert ((nbits - 32 * line + 31) / 32 < 1) by (apply Z.div_lt_upper_bound; lia); lia).
  assert (Z.of_nat (length bm) = Z.max 0 ((nbits - 32 * (line + 1) + 31) / 32)).
  { replace (nbits - 32 * (line + 1) + 31) with (nbits - 32 * line + 31 + (-1) * 32) by lia.
    rewrite Z.div_add by lia. lia. }
  apply StronglySorted_app_2; [|by apply set_line_sorted|apply IH; lia].
  intros x y Hx Hy. apply elem_of_set_line in Hx; [|done..].
  apply elem_of_set_from in Hy; [|lia|done]. apply ord_lt_Z. lia.
Qed.
End set_facts.

(** The elements of a well-formed set are exactly the numbers whose bit is
    set, in ascending order. *)
Lemma elem_of_sn_set s x :
  sns_wf s → bitmap_base s + num_bits s - 1 ≤ i64_MAX →
  x ∈ sn_set s ↔
    bitmap_base s ≤ x < bitmap_base s + num_bits s ∧ nbit (bitmap s) (x - bitmap_base s) = true.
Proof.
  intros (Hb & Hn & _ & Hlen) Htop. unfold in_s, in_u in *. rewrite div_ceil32_alt in Hlen.
  unfold sn_set. rewrite elem_of_set_from; [| |done|lia|lia|].
  - rewrite Z.mul_0_r, Z.add_0_r, Z.sub_0_r. done.
  - unfold i64_MIN. simpl in Hb. lia.
  - rewrite Z.mul_0_r, Z.sub_0_r, Hlen.
    assert (0 ≤ (num_bits s + 31) / 32) by (apply Z.div_pos; lia). lia.
Qed.

Lemma sn_set_sorted s :
  sns_wf s → bitmap_base s + num_bits s - 1 ≤ i64_MAX → StronglySorted ord_lt (sn_set s).
Proof.
  intros (Hb & Hn & _ & Hlen) Htop. unfold in_s, in_u in *. rewrite div_ceil32_alt in Hlen.
  unfold sn_set. apply set_from_sorted; [|done|lia|lia|].
  - unfold i64_MIN. simpl in Hb. lia.
  - rewrite Z.mul_0_r, Z.sub_0_r, Hlen.
    assert (0 ≤ (num_bits s + 31) / 32) by (apply Z.div_pos; lia). lia.
Qed.

(** ** [from_vec] on an ascending vector *)

Lemma nbit_resize bm n o : (length bm ≤ n)%nat → nbit (resize n 0 bm) o = nbit bm o.
Proof.
  intros Hn. unfold nbit. rewrite resize_ge by done.
  destruct (decide (Z.to_nat (o / 32) < length bm)%nat).
  - by rewrite lookup_app_l.
  - rewrite lookup_app_r by lia. rewrite (lookup_ge_None_2 bm) by lia.
    destruct (replicate _ _ !! _) eqn:E; [|done].
    apply lookup_replicate in E as [-> _]. apply Z.testbit_0_l.
Qed.

Lemma nbit_insert bm o o' w :
  0 ≤ o → 0 ≤ o' → bm !! Z.to_nat (o / 32) = Some w →
  nbit (<[Z.to_nat (o / 32) := Z.lor w (Z.shiftl 1 (31 - o mod 32))]> bm) o' = true ↔
  nbit bm o' = true ∨ o' = o.
Proof.
  intros Ho Ho' Hw. unfold nbit.
  pose proof (Z.div_mod o 32 ltac:(lia)). pose proof (Z.div_mod o' 32 ltac:(lia)).
  pose proof (Z.mod_pos_bound o 32 ltac:(lia)). pose proof (Z.mod_pos_bound o' 32 ltac:(lia)).
  pose proof (Z.div_pos o 32 ltac:(lia) ltac:(lia)). pose proof (Z.div_pos o' 32 ltac:(lia) ltac:(lia)).
  destruct (decide (o / 32 = o' / 32)) as [E|E].
  - rewrite <-E, list_lookup_insert_eq, Hw by (by eapply lookup_lt_Some).
    rewrite Z.lor_spec, Z.shiftl_1_l, Z.pow2_bits_eqb by lia.
    rewrite orb_true_iff, Z.eqb_eq. split; (intros [?|?]; [by left|right; lia]).
  - rewrite list_lookup_insert_ne by lia. split; [by left|]. intros [?| ->]; done.
Qed.

Definition from_vec_inv (base : Z) (l : list Z) (acc : Z * list Z) : Prop :=
  let '(n, bm) := acc in
  in_u 32 n ∧ Forall (in_u 32) bm ∧ Z.of_nat (length bm) = (n + 31) / 32 ∧
  (n = 0 ∨ base + n - 1 ∈ l) ∧ (∀ x, x ∈ l → base ≤ x < base + n) ∧
  (∀ o, 0 ≤ o → nbit bm o = true ↔ base + o ∈ l).

Lemma lor_u32 w o : in_u 32 w → 0 ≤ o < 32 → in_u 32 (Z.lor w (Z.shiftl 1 (31 - o))).
Proof.
  unfold in_u. intros Hw Ho. rewrite Z.shiftl_1_l.
  assert (0 < 2 ^ (31 - o)) by (apply Z.pow_pos_nonneg; lia).
  assert (0 ≤ Z.lor w (2 ^ (31 - o))) by (apply Z.lor_nonneg; lia).
  split; [done|].
  destruct (decide (Z.lor w (2 ^ (31 - o)) = 0)); [lia|].
  apply Z.log2_lt_pow2; [lia|]. rewrite Z.log2_lor, Z.log2_pow2 by lia.
  destruct (decide (w = 0)) as [->|]; [simpl; lia|].
  assert (Z.log2 w < 32) by (apply Z.log2_lt_pow2; lia). lia.
Qed.

Lemma Forall_in_u_resize n bm : Forall (in_u 32) bm → Forall (in_u 32) (resize n 0 bm).
Proof. intros. apply Forall_resize; [by unfold in_u|done]. Qed.

Lemma from_vec_step_ok base l acc x :
  from_vec_inv base l acc → in_s 64 base → base ≤ x ≤ base + 2 ^ 32 - 2 → x ≤ i64_MAX →
  (∀ y, y ∈ l → y < x) →
  ∃ acc', from_vec_step base acc x = Done acc' ∧ from_vec_inv base (l ++ [x]) acc'.
Proof.
  destruct acc as [n bm]. intros (Hn & Hbm & Hlen & Htop & Hrange & Hbits) Hbase Hx Hmax Hlt.
  unfold in_s, in_u, i64_MAX in *. simpl in Hbase. unfold from_vec_step.
  rewrite (wrap_s_small 64 (x - base)) by (unfold in_s; lia). set (o := x - base).
  assert (Ho : 0 ≤ o ≤ 2 ^ 32 - 2) by (unfold o; lia).
  pose proof (Z.div_mod o 32 ltac:(lia)). pose proof (Z.mod_pos_bound o 32 ltac:(lia)).
  pose proof (Z.div_pos o 32 ltac:(lia) ltac:(lia)).
  assert (Hno : n ≤ o) by (destruct Htop as [?|Htop%Hlt]; unfold o; lia).
  rewrite Z.quot_div_nonneg, Z.rem_mod_nonneg by lia.
  rewrite (wrap_u_small 32 o), (wrap_u_small 32 (o + 1)) by (unfold in_u; lia).
  rewrite (wrap_u_small 64 (o / 32)) by (unfold in_u; lia).
  rewrite (wrap_u_small 64 (o / 32 + 1)) by (unfold in_u; lia).
  rewrite bool_decide_false by lia. rewrite Z.max_r by lia.
  set (bm' := resize (Z.to_nat (o / 32 + 1)) 0 bm).
  assert (Hlen' : length bm' = Z.to_nat (o / 32 + 1)) by apply length_resize.
  destruct (lookup_lt_is_Some_2 bm' (Z.to_nat (o / 32))) as [w Hw]; [lia|].
  rewrite Hw. simpl. change 31 with (Z.ones 5) at 2.
  rewrite Z.land_ones, (Z.mod_small (31 - o mod 32)) by lia.
  assert (Forall (in_u 32) bm') as Hbm' by by apply Forall_in_u_resize.
  assert (Hres : ∀ o', nbit bm' o' = nbit bm o').
  { intros o'. apply nbit_resize.
    assert ((n + 31) / 32 ≤ o / 32 + 1); [|lia].
    rewrite <-Z.div_add by lia. apply Z.div_le_mono; lia. }
  eexists. split; [done|]. split_and!; [unfold in_u; lia|..].
  - apply Forall_insert; [done|]. apply lor_u32; [by eapply Forall_lookup_1|done].
  - rewrite length_insert, Hlen', Z2Nat.id by lia.
    apply Z.div_unique with (o mod 32); lia.
  - right. apply elem_of_app. right. apply list_elem_of_singleton. unfold o. lia.
  - intros y [Hin%Hrange| ->%list_elem_of_singleton]%elem_of_app; unfold o in *; lia.
  - intros o' Ho'. rewrite nbit_insert, Hres, elem_of_app, list_elem_of_singleton by (done || lia).
    rewrite Hbits by done. unfold o. split; (intros [?|?]; [by left|right; lia]).
Qed.

Lemma from_vec_inv_Done base l :
  in_s 64 base → StronglySorted ord_lt l →
  (∀ x, x ∈ l → base ≤ x ≤ base + 2 ^ 32 - 2 ∧ x ≤ i64_MAX) →
  ∃ acc, foldM (from_vec_step base) (0, []) l = Done acc ∧ from_vec_inv base l acc.
Proof.
  intros Hbase Hsort Hall.
  assert (Hgen : ∀ k pre acc, from_vec_inv base pre acc → StronglySorted ord_lt k →
    (∀ x y, x ∈ pre → y ∈ k → x < y) →
    (∀ x, x ∈ k → base ≤ x ≤ base + 2 ^ 32 - 2 ∧ x ≤ i64_MAX) →
    ∃ acc', foldM (from_vec_step base) acc k = Done acc' ∧ from_vec_inv base (pre ++ k) acc').
  { induction k as [|x k IH]; intros pre acc Hinv Hk Hpre Hkall; simpl.
    { rewrite app_nil_r. by eauto. }
    apply StronglySorted_inv in Hk as [Hk Hx]. rewrite Forall_forall in Hx.
    destruct (from_vec_step_ok base pre acc x) as (acc' & -> & Hinv'); [done|done| | | |].
    1-3: set_solver.
    simpl. destruct (IH (pre ++ [x]) acc') as (acc'' & Hf & Hinv''); [done|done| | |].
    - intros y z [?| ->%list_elem_of_singleton]%elem_of_app ?; [set_solver|].
      by apply ord_lt_Z, Hx.
    - set_solver.
    - exists acc''. by rewrite <-(assoc_L (++)) in Hinv''. }
  apply (Hgen l [] (0, [])); [|done|set_solver|done].
  split_and!; [by unfold in_u|constructor|done|by left|set_solver|].
  intros o Ho. unfold nbit. rewrite lookup_nil. set_solver.
Qed.

Lemma from_vec_main (base : Z) (l : list Z) :
  in_s 64 base → StronglySorted ord_lt l →
  (∀ x, x ∈ l → base ≤ x ≤ base + 2 ^ 32 - 2 ∧ x ≤ i64_MAX) →
  ∃ s, from_vec base l = Done s ∧ sns_wf s ∧ bitmap_base s = base ∧ sn_set s = l ∧
    (∀ x, last l = Some x → num_bits s = x - base + 1) ∧ (l = [] → num_bits s = 0).
Proof.
  intros Hbase Hsort Hall.
  destruct (from_vec_inv_Done base l) as ([n bm] & Hf & Hinv); [done..|].
  destruct Hinv as (Hn & Hbm & Hlen & Htop & Hrange & Hbits).
  assert (Hwf : sns_wf (mkNumberSet base n bm)).
  { split_and!; simpl; [done..|]. by rewrite div_ceil32_alt. }
  assert (Hmax : base + n - 1 ≤ i64_MAX).
  { destruct Htop as [->|Htop%Hall]; [|lia]. unfold in_s, i64_MAX in *. simpl in Hbase. lia. }
  exists (mkNumberSet base n bm). unfold from_vec. rewrite Hf. simpl.
  split_and!; [done|done|done|..].
  - apply sorted_unique; [by apply sn_set_sorted|done|].
    intros x. rewrite elem_of_sn_set by done; simpl.
    split.
    + intros [? Hb]. apply Hbits in Hb; [|lia]. by replace (base + (x - base)) with x in Hb by lia.
    + intros Hx. split; [by apply Hrange|]. apply Hbits; [apply Hrange in Hx; lia|].
      by replace (base + (x - base)) with x by lia.
  - intros x Hlast. apply last_Some in Hlast as [l' ->].
    pose proof (Hrange x ltac:(set_solver)) as Hx.
    destruct Htop as [->|Htop]; [lia|].
    apply elem_of_app in Htop as [Htop|Htop]; [|apply list_elem_of_singleton in Htop; lia].
    exfalso. assert (base + n - 1 < x); [|lia].
    apply ord_lt_Z. eapply StronglySorted_app_1_elem_of; [done|done|by left].
  - intros ->. destruct Htop as [?|?]; [done|set_solver].
Qed.

Lemma from_vec_valid (base x : Z) (l : list Z) (s : NumberSet) :
  in_s 64 base → StronglySorted ord_lt l →
  (∀ y, y ∈ l → base ≤ y ≤ base + 2 ^ 32 - 2 ∧ y ≤ i64_MAX) →
  last l = Some x → from_vec base l = Done s →
  sns_is_valid s = true ↔ 1 ≤ base ∧ x - base < 255.
Proof.
  intros Hbase Hsort Hall Hlast Hs.
  destruct (from_vec_main base l) as (s' & Hs' & Hwf & Hb & _ & Hn & _); [done..|].
  rewrite Hs in Hs'. injection Hs' as <-. specialize (Hn x Hlast).
  destruct Hwf as (_ & Hnr & _ & Hlen). unfold in_u in Hnr.
  unfold sns_is_valid. rewrite Hb, !andb_true_iff, !bool_decide_eq_true, Hlen.
  rewrite wrap_u_small; [split; [intros [[? ?] _]|intros [? ?]; split_and!]; lia|].
  rewrite div_ceil32_alt. unfold in_u.
  split; [apply Z.div_pos; lia|apply Z.div_lt_upper_bound; lia].
Qed.

(** Building a set from an ascending vector of numbers above the base never
    panics, gives a well-formed set, and listing that set gives the vector
    back. *)
Theorem from_vec_set_roundtrip (base : Z) (l : list Z) :
  in_s 64 base → StronglySorted ord_lt l →
  (∀ x, x ∈ l → base ≤ x ≤ base + 2 ^ 32 - 2 ∧ x ≤ i64_MAX) →
  ∃ s, from_vec base l = Done s ∧ sns_wf s ∧ bitmap_base s = base ∧ sn_set s = l ∧
    (∀ x, last l = Some x → num_bits s = x - base + 1) ∧ (l = [] → num_bits s = 0).
Proof. apply from_vec_main. Qed.

(** The set built from a non-empty ascending vector based at its first
    element is valid exactly when the first number is positive and the span
    is below 255: a wider one has more than 255 bits. *)
Theorem from_vec_is_valid_iff (base x : Z) (l : list Z) (s : NumberSet) :
  in_s 64 base → StronglySorted ord_lt l →
  (∀ y, y ∈ l → base ≤ y ≤ base + 2 ^ 32 - 2 ∧ y ≤ i64_MAX) →
  last l = Some x → from_vec base l = Done s →
  sns_is_valid s = true ↔ 1 ≤ base ∧ x - base < 255.
Proof. apply from_vec_valid. Qed.

(** What [is_valid] guarantees of a received set: it lists at most 255
    numbers, all of them positive and within 255 of the base. *)
Theorem sns_is_valid_bounds (s : NumberSet) :
  sns_wf s → sns_is_valid s = true → bitmap_base s ≤ i64_MAX - 255 →
  Z.of_nat (length (sn_set s)) ≤ num_bits s < 256 ∧
  (∀ x, x ∈ sn_set s → 1 ≤ bitmap_base s ≤ x ∧ x < bitmap_base s + num_bits s).
Proof.
  intros Hwf Hv Hmax. pose proof Hwf as (Hb & Hn & _ & _).
  unfold sns_is_valid in Hv. rewrite !andb_true_iff, !bool_decide_eq_true in Hv.
  destruct Hv as [[Hb1 Hn1] _]. unfold in_u in Hn.
  assert (Hin : ∀ x, x ∈ sn_set s → bitmap_base s ≤ x < bitmap_base s + num_bits s).
  { intros x Hx. apply elem_of_sn_set in Hx as [? _]; [done|done|lia]. }
  split; [|intros x Hx%Hin; lia]. split; [|done].
  transitivity (Z.of_nat (length (seqZ (bitmap_base s) (num_bits s)))); [|rewrite length_seqZ; lia].
  apply inj_le, submseteq_length, NoDup_submseteq.
  - apply sorted_lt_NoDup, sn_set_sorted; [done|lia].
  - intros x Hx%Hin. apply elem_of_seqZ. lia.
Qed.

(** [resize] truncates: on a vector that is not ascending the earlier numbers
    of later words are lost. *)
Example from_vec_unsorted :
  (from_vec 1 [40; 5] ≫= λ s, Done (sn_set s)) = Done [5].
Proof. vm_compute. reflexivity. Qed.

(** The two unit tests of element.rs. *)
Example test_sequence_number_set :
  let s := mkNumberSet 2 12 [0xfff00000] in
  sns_is_valid s = true ∧ sn_set s = seqZ 2 12.
Proof. vm_compute. done. Qed.

Example test_sequence_number_from_vec :
  (from_vec 2 (seqZ 5 38) ≫= λ s, Done (sns_is_valid s, sn_set s)) = Done (true, seqZ 5 38).
Proof. vm_compute. done. Qed.

(** *** Witnesses *)

Lemma from_vec_set_roundtrip_witness :
  ∃ s, from_vec 5 [5; 7; 40] = Done s ∧ sns_wf s ∧ bitmap_base s = 5 ∧ sn_set s = [5; 7; 40].
Proof.
  destruct (from_vec_set_roundtrip 5 [5; 7; 40]) as (s & Hs & Hwf & Hb & Hset & _).
  - split; vm_compute; congruence.
  - repeat (apply SSorted_cons; [|eapply bool_decide_unpack; vm_compute; exact I]). apply SSorted_nil.
  - intros x Hx. repeat (apply elem_of_cons in Hx as [->|Hx]; [unfold i64_MAX; lia|]). by apply elem_of_nil in Hx.
  - exists s. split; [exact Hs|]. split; [exact Hwf|]. split; [exact Hb|exact Hset].
Defined.

Lemma from_vec_is_valid_iff_witness :
  ∃ s, from_vec 5 [5; 7; 300] = Done s ∧ (sns_is_valid s = true ↔ 1 ≤ 5 ∧ 300 - 5 < 255).
Proof.
  destruct (from_vec 5 [5; 7; 300]) as [s|] eqn:Hs; [|exfalso; vm_compute in Hs; discriminate].
  exists s. split; [reflexivity|]. apply (from_vec_is_valid_iff 5 300 [5; 7; 300] s).
  - split; vm_compute; congruence.
  - repeat (apply SSorted_cons; [|eapply bool_decide_unpack; vm_compute; exact I]). apply SSorted_nil.
  - intros x Hx. repeat (apply elem_of_cons in Hx as [->|Hx]; [unfold i64_MAX; lia|]). by apply elem_of_nil in Hx.
  - reflexivity.
  - exact Hs.
Defined.

Lemma sns_is_valid_bounds_witness :
  let s := mkNumberSet 2 12 [0xfff00000] in
  Z.of_nat (length (sn_set s)) ≤ num_bits s < 256 ∧
  (∀ x, x ∈ sn_set s → 1 ≤ bitmap_base s ≤ x ∧ x < bitmap_base s + num_bits s).
Proof.
  cbv zeta. apply sns_is_valid_bounds.
  - split; [split; vm_compute; congruence|]. split; [split; vm_compute; congruence|]. split; [|reflexivity].
    apply Forall_cons. split; [split; vm_compute; congruence|]. by apply Forall_nil.
  - reflexivity.
  - vm_compute. congruence.
Defined.
