(* ===== verification/Qos.v ===== *)
(** * QoS policies

    src/src/dds/qos.rs: the policies that the RTPS core consults, the policy
    collections of DataWriter, DataReader and Topic, their builders, the
    compatibility checks and [combine].  The text of an incompatibility
    message is not modelled; which policies it names is. *)
From stdpp Require Import base tactics numbers list.
From S2P Require Import Prelude Ordered Time.

(** ** Policies *)
Definition LENGTH_UNLIMITED : Z := -1.

Inductive HistoryQosKind := KeepLast | KeepAll.
Inductive Durability := Volatile | TransientLocal.
Inductive Ownership := Shared | Exclusive.
Inductive LivelinessQosKind := Automatic | ManualByParticipant | ManualByTopic.
Inductive ReliabilityQosKind := Reliable | BestEffort.
Inductive DestinationOrder := ByReceptionTimestamp | BySourceTimestamp.
#[export] Instance HistoryQosKind_eq_dec : EqDecision HistoryQosKind.
Proof. solve_decision. Defined.
#[export] Instance Durability_eq_dec : EqDecision Durability.
Proof. solve_decision. Defined.
#[export] Instance Ownership_eq_dec : EqDecision Ownership.
Proof. solve_decision. Defined.
#[export] Instance LivelinessQosKind_eq_dec : EqDecision LivelinessQosKind.
Proof. solve_decision. Defined.
#[export] Instance ReliabilityQosKind_eq_dec : EqDecision ReliabilityQosKind.
Proof. solve_decision. Defined.
#[export] Instance DestinationOrder_eq_dec : EqDecision DestinationOrder.
Proof. solve_decision. Defined.

(** Discriminants: the [repr(i32)] values, which [write_to] sends, and the
    [match] of [read_from]. *)
Definition history_kind_disc (k : HistoryQosKind) : Z :=
  match k with KeepLast => 0 | KeepAll => 1 end.
Definition history_kind_read (v : Z) : option HistoryQosKind :=
  match v with 0 => Some KeepLast | 1 => Some KeepAll | _ => None end.
Definition durability_disc (k : Durability) : Z :=
  match k with Volatile => 0 | TransientLocal => 1 end.
Definition durability_read (v : Z) : option Durability :=
  match v with 0 => Some Volatile | 1 => Some TransientLocal | _ => None end.
Definition ownership_disc (k : Ownership) : Z :=
  match k with Shared => 0 | Exclusive => 1 end.
Definition ownership_read (v : Z) : option Ownership :=
  match v with 0 => Some Shared | 1 => Some Exclusive | _ => None end.
Definition liveliness_kind_disc (k : LivelinessQosKind) : Z :=
  match k with Automatic => 0 | ManualByParticipant => 1 | ManualByTopic => 2 end.
Definition liveliness_kind_read (v : Z) : option LivelinessQosKind :=
  match v with
  | 0 => Some Automatic | 1 => Some ManualByTopic | 2 => Some ManualByParticipant
  | _ => None
  end.
Definition reliability_kind_disc (k : ReliabilityQosKind) : Z :=
  match k with Reliable => 2 | BestEffort => 1 end.
Definition reliability_kind_read (v : Z) : option ReliabilityQosKind :=
  match v with 2 => Some Reliable | 1 => Some BestEffort | _ => None end.
Definition destination_order_disc (k : DestinationOrder) : Z :=
  match k with ByReceptionTimestamp => 0 | BySourceTimestamp => 1 end.
Definition destination_order_read (v : Z) : option DestinationOrder :=
  match v with 0 => Some ByReceptionTimestamp | 1 => Some BySourceTimestamp | _ => None end.

Record DurabilityService := mkDurabilityService {
  service_cleanup_delay : Duration;
  ds_history_kind : HistoryQosKind;
  ds_history_depth : Z;
  ds_max_samples : Z;
  ds_max_instance : Z;
  ds_max_samples_per_instanse : Z;
}.
Record Deadline := mkDeadline { period : Duration }.
Record LatencyBudget := mkLatencyBudget { latency : Duration }.
Record OwnershipStrength := mkOwnershipStrength { strength : Z }.
Record Liveliness := mkLiveliness {
  liveliness_kind : LivelinessQosKind;
  lease_duration : Duration;
}.
Record TimeBasedFilter := mkTimeBasedFilter { minimun_separation : Duration }.
Record Reliability := mkReliability {
  reliability_kind : ReliabilityQosKind;
  max_bloking_time : Duration;
}.
Record History := mkHistory { history_kind : HistoryQosKind; depth : Z }.
Record ResourceLimits := mkResourceLimits {
  max_samples : Z;
  max_instance : Z;
  max_samples_per_instanse : Z;
}.
Record Lifespan := mkLifespan { lifespan_duration : Duration }.
Record UserData := mkUserData { user_data_value : list Z }.
Record TopicData := mkTopicData { topic_data_value : list Z }.
Record WriterDataLifecycle := mkWriterDataLifecycle { autodispose_unregistered_instance : bool }.
Record ReaderDataLifecycle := mkReaderDataLifecycle {
  autopurge_nowriter_samples_delay : Duration;
  autopurge_dispose_samples_delay : Duration;
}.
Record TransportPriority := mkTransportPriority { priority : Z }.
Inductive PresentationQosAccessScopeKind := ScopeInstance | ScopeTopic | ScopeGroup.
Record Presentation := mkPresentation {
  access_scope : PresentationQosAccessScopeKind;
  coherent_access : bool;
  ordered_access : bool;
}.
Record Partition := mkPartition { partition_name : list (list Z) }.
Record GroupData := mkGroupData { group_data_value : list Z }.
#[export] Instance DurabilityService_eq_dec : EqDecision DurabilityService.
Proof. solve_decision. Defined.
#[export] Instance Deadline_eq_dec : EqDecision Deadline.
Proof. solve_decision. Defined.
#[export] Instance LatencyBudget_eq_dec : EqDecision LatencyBudget.
Proof. solve_decision. Defined.
#[export] Instance OwnershipStrength_eq_dec : EqDecision OwnershipStrength.
Proof. solve_decision. Defined.
#[export] Instance Liveliness_eq_dec : EqDecision Liveliness.
Proof. solve_decision. Defined.
#[export] Instance TimeBasedFilter_eq_dec : EqDecision TimeBasedFilter.
Proof. solve_decision. Defined.
#[export] Instance Reliability_eq_dec : EqDecision Reliability.
Proof. solve_decision. Defined.
#[export] Instance History_eq_dec : EqDecision History.
Proof. solve_decision. Defined.
#[export] Instance ResourceLimits_eq_dec : EqDecision ResourceLimits.
Proof. solve_decision. Defined.
#[export] Instance Lifespan_eq_dec : EqDecision Lifespan.
Proof. solve_decision. Defined.
#[export] Instance UserData_eq_dec : EqDecision UserData.
Proof. solve_decision. Defined.
#[export] Instance TopicData_eq_dec : EqDecision TopicData.
Proof. solve_decision. Defined.
#[export] Instance WriterDataLifecycle_eq_dec : EqDecision WriterDataLifecycle.
Proof. solve_decision. Defined.
#[export] Instance ReaderDataLifecycle_eq_dec : EqDecision ReaderDataLifecycle.
Proof. solve_decision. Defined.
#[export] Instance TransportPriority_eq_dec : EqDecision TransportPriority.
Proof. solve_decision. Defined.
#[export] Instance PresentationQosAccessScopeKind_eq_dec : EqDecision PresentationQosAccessScopeKind.
Proof. solve_decision. Defined.
#[export] Instance Presentation_eq_dec : EqDecision Presentation.
Proof. solve_decision. Defined.
#[export] Instance Partition_eq_dec : EqDecision Partition.
Proof. solve_decision. Defined.
#[export] Instance GroupData_eq_dec : EqDecision GroupData.
Proof. solve_decision. Defined.

(** ** Defaults *)
Class HasDefault (A : Type) : Type := qos_default : A.
#[export] Instance Durability_default : HasDefault Durability := Volatile.
#[export] Instance Ownership_default : HasDefault Ownership := Shared.
#[export] Instance DestinationOrder_default : HasDefault DestinationOrder := ByReceptionTimestamp.
#[export] Instance DurabilityService_default : HasDefault DurabilityService :=
  mkDurabilityService Dur.ZERO KeepLast 1 LENGTH_UNLIMITED LENGTH_UNLIMITED LENGTH_UNLIMITED.
#[export] Instance Deadline_default : HasDefault Deadline := mkDeadline Dur.INFINITE.
#[export] Instance LatencyBudget_default : HasDefault LatencyBudget := mkLatencyBudget Dur.ZERO.
#[export] Instance OwnershipStrength_default : HasDefault OwnershipStrength := mkOwnershipStrength 0.
#[export] Instance Liveliness_default : HasDefault Liveliness := mkLiveliness Automatic Dur.INFINITE.
#[export] Instance TimeBasedFilter_default : HasDefault TimeBasedFilter := mkTimeBasedFilter Dur.ZERO.
#[export] Instance History_default : HasDefault History := mkHistory KeepLast 1.
#[export] Instance ResourceLimits_default : HasDefault ResourceLimits :=
  mkResourceLimits LENGTH_UNLIMITED LENGTH_UNLIMITED LENGTH_UNLIMITED.
#[export] Instance Lifespan_default : HasDefault Lifespan := mkLifespan Dur.INFINITE.
#[export] Instance UserData_default : HasDefault UserData := mkUserData [].
#[export] Instance TopicData_default : HasDefault TopicData := mkTopicData [].
#[export] Instance WriterDataLifecycle_default : HasDefault WriterDataLifecycle := mkWriterDataLifecycle true.
#[export] Instance ReaderDataLifecycle_default : HasDefault ReaderDataLifecycle :=
  mkReaderDataLifecycle Dur.INFINITE Dur.INFINITE.
#[export] Instance TransportPriority_default : HasDefault TransportPriority := mkTransportPriority 0.

Definition default_besteffort : Reliability := mkReliability BestEffort (Dur.from_millis 100).
Definition default_reliable : Reliability := mkReliability Reliable (Dur.from_millis 100).

(** ** Compatibility of one policy: offered by the writer, requested by the reader *)
Definition durability_compatible (offered requested : Durability) : bool :=
  bool_decide (durability_disc requested ≤ durability_disc offered).
Definition deadline_compatible (offered requested : Deadline) : bool :=
  bool_decide (period requested = period (qos_default : Deadline)) ||
  Dur.le (period offered) (period requested).
Definition latency_budget_compatible (offered requested : LatencyBudget) : bool :=
  Dur.le (latency offered) (latency requested).
Definition ownership_compatible (offered requested : Ownership) : bool :=
  bool_decide (ownership_disc offered = ownership_disc requested).
Definition liveliness_compatible (offered requested : Liveliness) : bool :=
  bool_decide (liveliness_kind_disc (liveliness_kind requested)
               ≤ liveliness_kind_disc (liveliness_kind offered)) &&
  Dur.le (lease_duration offered) (lease_duration requested).
Definition reliability_compatible (offered requested : Reliability) : bool :=
  bool_decide (reliability_kind_disc (reliability_kind requested)
               ≤ reliability_kind_disc (reliability_kind offered)).
Definition destination_order_compatible (offered requested : DestinationOrder) : bool :=
  bool_decide (destination_order_disc requested ≤ destination_order_disc offered).

(** ** Policy collections

    Each member carries the flag "explicitly set by the user". *)
Record DataWriterQosPolicies := mkDataWriterQosPolicies {
  w_durability : Durability * bool;
  w_durability_service : DurabilityService * bool;
  w_deadline : Deadline * bool;
  w_latency_budget : LatencyBudget * bool;
  w_liveliness : Liveliness * bool;
  w_reliability : Reliability * bool;
  w_destination_order : DestinationOrder * bool;
  w_history : History * bool;
  w_resource_limits : ResourceLimits * bool;
  w_transport_priority : TransportPriority * bool;
  w_lifespan : Lifespan * bool;
  w_user_data : UserData * bool;
  w_ownership : Ownership * bool;
  w_ownership_strength : OwnershipStrength * bool;
  w_writer_data_lifecycle : WriterDataLifecycle * bool;
}.
Record DataReaderQosPolicies := mkDataReaderQosPolicies {
  r_durability : Durability * bool;
  r_deadline : Deadline * bool;
  r_latency_budget : LatencyBudget * bool;
  r_liveliness : Liveliness * bool;
  r_reliability : Reliability * bool;
  r_destination_order : DestinationOrder * bool;
  r_history : History * bool;
  r_resource_limits : ResourceLimits * bool;
  r_user_data : UserData * bool;
  r_ownership : Ownership * bool;
  r_time_based_filter : TimeBasedFilter * bool;
  r_reader_data_lifecycle : ReaderDataLifecycle * bool;
}.
Record TopicQosPolicies := mkTopicQosPolicies {
  t_topic_data : TopicData * bool;
  t_durability : Durability * bool;
  t_durability_service : DurabilityService * bool;
  t_deadline : Deadline * bool;
  t_latency_budget : LatencyBudget * bool;
  t_liveliness : Liveliness * bool;
  t_reliability : Reliability * bool;
  t_destination_order : DestinationOrder * bool;
  t_history : History * bool;
  t_resource_limits : ResourceLimits * bool;
  t_transport_priority : TransportPriority * bool;
  t_lifespan : Lifespan * bool;
  t_ownership : Ownership * bool;
}.
#[export] Instance DataWriterQosPolicies_eq_dec : EqDecision DataWriterQosPolicies.
Proof. solve_decision. Defined.
#[export] Instance DataReaderQosPolicies_eq_dec : EqDecision DataReaderQosPolicies.
Proof. solve_decision. Defined.

(** The policies a compatibility check can reject. *)
Inductive PolicyId :=
| PDurability | PDeadline | PLatencyBudget | POwnership | PLiveliness | PReliability
| PDestinationOrder.
#[export] Instance PolicyId_eq_dec : EqDecision PolicyId.
Proof. solve_decision. Defined.

(** Result of [is_compatible]: [inl] lists the policies of the message, in
    the order the checks append them. *)
Definition compat_result (checks : list (PolicyId * bool)) : list PolicyId + unit :=
  match omap (λ c : PolicyId * bool, if c.2 then None else Some c.1) checks with
  | [] => inr tt
  | msg => inl msg
  end.

(** [DataWriterQosPolicies::is_compatible(&self, qos)]. *)
Definition writer_is_compatible (self : DataWriterQosPolicies) (qos : DataReaderQosPolicies)
    : list PolicyId + unit :=
  compat_result
    [(PDurability, durability_compatible (w_durability self).1 (r_durability qos).1);
     (PDeadline, deadline_compatible (w_deadline self).1 (r_deadline qos).1);
     (PLatencyBudget, latency_budget_compatible (w_latency_budget self).1 (r_latency_budget qos).1);
     (POwnership, ownership_compatible (w_ownership self).1 (r_ownership qos).1);
     (PLiveliness, liveliness_compatible (w_liveliness self).1 (r_liveliness qos).1);
     (PReliability, reliability_compatible (w_reliability self).1 (r_reliability qos).1);
     (PDestinationOrder,
       destination_order_compatible (w_destination_order self).1 (r_destination_order qos).1)].

(** [DataReaderQosPolicies::is_compatible(&self, qos)]. *)
Definition reader_is_compatible (self : DataReaderQosPolicies) (qos : DataWriterQosPolicies)
    : list PolicyId + unit :=
  compat_result
    [(PDurability, durability_compatible (w_durability qos).1 (r_durability self).1);
     (PDeadline, deadline_compatible (w_deadline qos).1 (r_deadline self).1);
     (PLatencyBudget, latency_budget_compatible (w_latency_budget qos).1 (r_latency_budget self).1);
     (POwnership, ownership_compatible (w_ownership qos).1 (r_ownership self).1);
     (PLiveliness, liveliness_compatible (w_liveliness qos).1 (r_liveliness self).1);
     (PReliability, reliability_compatible (w_reliability qos).1 (r_reliability self).1);
     (PDestinationOrder,
       destination_order_compatible (w_destination_order qos).1 (r_destination_order self).1)].

(** ** combine *)

(** The macro [combine_policy!]. *)
Definition combine_policy {A} `{EqDecision A} (self policies : A * bool) : A * bool :=
  if bool_decide (self.1 = policies.1)
  then (self.1, self.2 || policies.2)
  else if policies.2 then policies else self.

(** The statement written out for [reliability]. *)
Definition combine_reliability (self policies : Reliability * bool) : Reliability * bool :=
  if negb (bool_decide (self.1 = policies.1)) && policies.2 then policies else self.

Definition writer_combine (self policies : DataWriterQosPolicies) : DataWriterQosPolicies :=
  mkDataWriterQosPolicies
    (combine_policy (w_durability self) (w_durability policies))
    (combine_policy (w_durability_service self) (w_durability_service policies))
    (combine_policy (w_deadline self) (w_deadline policies))
    (combine_policy (w_latency_budget self) (w_latency_budget policies))
    (combine_policy (w_liveliness self) (w_liveliness policies))
    (combine_reliability (w_reliability self) (w_reliability policies))
    (combine_policy (w_destination_order self) (w_destination_order policies))
    (combine_policy (w_history self) (w_history policies))
    (combine_policy (w_resource_limits self) (w_resource_limits policies))
    (combine_policy (w_transport_priority self) (w_transport_priority policies))
    (combine_policy (w_lifespan self) (w_lifespan policies))
    (combine_policy (w_user_data self) (w_user_data policies))
    (combine_policy (w_ownership self) (w_ownership policies))
    (combine_policy (w_ownership_strength self) (w_ownership_strength policies))
    (combine_policy (w_writer_data_lifecycle self) (w_writer_data_lifecycle policies)).
Definition reader_combine (self policies : DataReaderQosPolicies) : DataReaderQosPolicies :=
  mkDataReaderQosPolicies
    (combine_policy (r_durability self) (r_durability policies))
    (combine_policy (r_deadline self) (r_deadline policies))
    (combine_policy (r_latency_budget self) (r_latency_budget policies))
    (combine_policy (r_liveliness self) (r_liveliness policies))
    (combine_reliability (r_reliability self) (r_reliability policies))
    (combine_policy (r_destination_order self) (r_destination_order policies))
    (combine_policy (r_history self) (r_history policies))
    (combine_policy (r_resource_limits self) (r_resource_limits policies))
    (combine_policy (r_user_data self) (r_user_data policies))
    (combine_policy (r_ownership self) (r_ownership policies))
    (combine_policy (r_time_based_filter self) (r_time_based_filter policies))
    (combine_policy (r_reader_data_lifecycle self) (r_reader_data_lifecycle policies)).

(** ** Builders *)
Definition decide_value {A} `{HasDefault A} (o : option A) : A * bool :=
  match o with Some p => (p, true) | None => (qos_default, false) end.

Record DataWriterQosBuilder := mkDataWriterQosBuilder {
  wb_durability : option Durability;
  wb_durability_service : option DurabilityService;
  wb_deadline : option Deadline;
  wb_latency_budget : option LatencyBudget;
  wb_liveliness : option Liveliness;
  wb_reliability : option Reliability;
  wb_destination_order : option DestinationOrder;
  wb_history : option History;
  wb_resource_limits : option ResourceLimits;
  wb_transport_priority : option TransportPriority;
  wb_lifespan : option Lifespan;
  wb_user_data : option UserData;
  wb_ownership : option Ownership;
  wb_ownership_strength : option OwnershipStrength;
  wb_writer_data_lifecycle : option WriterDataLifecycle;
}.
Definition DataWriterQosBuilder_new : DataWriterQosBuilder :=
  mkDataWriterQosBuilder None None None None None None None None None None None None None None None.
Definition DataWriterQosBuilder_build (b : DataWriterQosBuilder) : DataWriterQosPolicies :=
  mkDataWriterQosPolicies
    (decide_value (wb_durability b))
    (decide_value (wb_durability_service b))
    (decide_value (wb_deadline b))
    (decide_value (wb_latency_budget b))
    (decide_value (wb_liveliness b))
    (match wb_reliability b with Some r => (r, true) | None => (default_reliable, false) end)
    (decide_value (wb_destination_order b))
    (decide_value (wb_history b))
    (decide_value (wb_resource_limits b))
    (decide_value (wb_transport_priority b))
    (decide_value (wb_lifespan b))
    (decide_value (wb_user_data b))
    (decide_value (wb_ownership b))
    (decide_value (wb_ownership_strength b))
    (decide_value (wb_writer_data_lifecycle b)).
Record DataReaderQosBuilder := mkDataReaderQosBuilder {
  rb_durability : option Durability;
  rb_deadline : option Deadline;
  rb_latency_budget : option LatencyBudget;
  rb_liveliness : option Liveliness;
  rb_reliability : option Reliability;
  rb_destination_order : option DestinationOrder;
  rb_history : option History;
  rb_resource_limits : option ResourceLimits;
  rb_user_data : option UserData;
  rb_ownership : option Ownership;
  rb_time_based_filter : option TimeBasedFilter;
  rb_reader_data_lifecycle : option ReaderDataLifecycle;
}.
Definition DataReaderQosBuilder_new : DataReaderQosBuilder :=
  mkDataReaderQosBuilder None None None None None None None None None None None None.
Definition DataReaderQosBuilder_build (b : DataReaderQosBuilder) : DataReaderQosPolicies :=
  mkDataReaderQosPolicies
    (decide_value (rb_durability b))
    (decide_value (rb_deadline b))
    (decide_value (rb_latency_budget b))
    (decide_value (rb_liveliness b))
    (match rb_reliability b with Some r => (r, true) | None => (default_besteffort, false) end)
    (decide_value (rb_destination_order b))
    (decide_value (rb_history b))
    (decide_value (rb_resource_limits b))
    (decide_value (rb_user_data b))
    (decide_value (rb_ownership b))
    (decide_value (rb_time_based_filter b))
    (decide_value (rb_reader_data_lifecycle b)).
Record TopicQosBuilder := mkTopicQosBuilder {
  tb_topic_data : option TopicData;
  tb_durability : option Durability;
  tb_durability_service : option DurabilityService;
  tb_deadline : option Deadline;
  tb_latency_budget : option LatencyBudget;
  tb_liveliness : option Liveliness;
  tb_reliability : option Reliability;
  tb_destination_order : option DestinationOrder;
  tb_history : option History;
  tb_resource_limits : option ResourceLimits;
  tb_transport_priority : option TransportPriority;
  tb_lifespan : option Lifespan;
  tb_ownership : option Ownership;
}.
Definition TopicQosBuilder_new : TopicQosBuilder :=
  mkTopicQosBuilder None None None None None None None None None None None None None.
Definition TopicQosBuilder_build (b : TopicQosBuilder) : TopicQosPolicies :=
  mkTopicQosPolicies
    (decide_value (tb_topic_data b))
    (decide_value (tb_durability b))
    (decide_value (tb_durability_service b))
    (decide_value (tb_deadline b))
    (decide_value (tb_latency_budget b))
    (decide_value (tb_liveliness b))
    (match tb_reliability b with Some r => (r, true) | None => (default_besteffort, false) end)
    (decide_value (tb_destination_order b))
    (decide_value (tb_history b))
    (decide_value (tb_resource_limits b))
    (decide_value (tb_transport_priority b))
    (decide_value (tb_lifespan b))
    (decide_value (tb_ownership b)).

Definition to_datawriter_qos (t : TopicQosPolicies) : DataWriterQosPolicies :=
  mkDataWriterQosPolicies
    (t_durability t)
    (t_durability_service t)
    (t_deadline t)
    (t_latency_budget t)
    (t_liveliness t)
    (t_reliability t)
    (t_destination_order t)
    (t_history t)
    (t_resource_limits t)
    (t_transport_priority t)
    (t_lifespan t)
    (qos_default, false)
    (t_ownership t)
    (qos_default, false)
    (qos_default, false).
Definition to_datareader_qos (t : TopicQosPolicies) : DataReaderQosPolicies :=
  mkDataReaderQosPolicies
    (t_durability t)
    (t_deadline t)
    (t_latency_budget t)
    (t_liveliness t)
    (t_reliability t)
    (t_destination_order t)
    (t_history t)
    (t_resource_limits t)
    (qos_default, false)
    (t_ownership t)
    (qos_default, false)
    (qos_default, false).

(** ** Theorems *)

Lemma compat_result_ok checks :
  compat_result checks = inr tt ↔ Forall (λ c : PolicyId * bool, c.2 = true) checks.
Proof.
  unfold compat_result.
  assert (H : omap (λ c : PolicyId * bool, if c.2 then None else Some c.1) checks = []
    ↔ Forall (λ c : PolicyId * bool, c.2 = true) checks).
  { induction checks as [|[p b] l IH]; simpl; [done|]. rewrite Forall_cons, <-IH.
    destruct b; simpl; naive_solver. }
  rewrite <-H. destruct (omap _ _); naive_solver.
Qed.

(** Writer and reader decide alike whether they match, and accept exactly
    when all seven policy checks pass. *)
Theorem writer_is_compatible_iff (w : DataWriterQosPolicies) (r : DataReaderQosPolicies) :
  reader_is_compatible r w = writer_is_compatible w r ∧
  (writer_is_compatible w r = inr tt ↔
    ((w_durability w).1 = TransientLocal ∨ (r_durability r).1 = Volatile) ∧
    ((r_deadline r).1 = qos_default ∨
       Dur.compare (period (w_deadline w).1) (period (r_deadline r).1) ≠ Gt) ∧
    Dur.compare (latency (w_latency_budget w).1) (latency (r_latency_budget r).1) ≠ Gt ∧
    (w_ownership w).1 = (r_ownership r).1 ∧
    (liveliness_kind_disc (liveliness_kind (r_liveliness r).1)
       ≤ liveliness_kind_disc (liveliness_kind (w_liveliness w).1) ∧
     Dur.compare (lease_duration (w_liveliness w).1) (lease_duration (r_liveliness r).1) ≠ Gt) ∧
    (reliability_kind (w_reliability w).1 = Reliable ∨
       reliability_kind (r_reliability r).1 = BestEffort) ∧
    ((w_destination_order w).1 = BySourceTimestamp ∨
       (r_destination_order r).1 = ByReceptionTimestamp)).
Proof.
  split; [done|]. unfold writer_is_compatible. rewrite compat_result_ok, !Forall_cons; simpl.
  assert (Hle : ∀ x y, Dur.le x y = true ↔ Dur.compare x y ≠ Gt)
    by (intros x y; unfold Dur.le; destruct (Dur.compare x y); naive_solver).
  unfold durability_compatible, deadline_compatible, latency_budget_compatible,
    ownership_compatible, liveliness_compatible, reliability_compatible,
    destination_order_compatible.
  rewrite orb_true_iff, andb_true_iff, !bool_decide_eq_true, !Hle.
  assert ((r_deadline r).1 = qos_default ↔ period (r_deadline r).1 = period (qos_default : Deadline)) as <-.
  { destruct (r_deadline r) as [[p] b]; simpl. split; [by intros [= ->]|by intros ->]. }
  assert (∀ a b, durability_disc a ≤ durability_disc b ↔ b = TransientLocal ∨ a = Volatile) as ->
    by (intros [] []; simpl; naive_solver lia).
  assert (∀ a b, ownership_disc a = ownership_disc b ↔ a = b) as -> by (intros [] []; naive_solver).
  assert (∀ a b, reliability_kind_disc a ≤ reliability_kind_disc b ↔ b = Reliable ∨ a = BestEffort)
    as -> by (intros [] []; simpl; naive_solver lia).
  assert (∀ a b, destination_order_disc a ≤ destination_order_disc b
    ↔ b = BySourceTimestamp ∨ a = ByReceptionTimestamp) as -> by (intros [] []; simpl; naive_solver lia).
  naive_solver.
Qed.

(** A deadline of 900 ms offered to a reader that requests one second is
    rejected, because durations are not compared as times. *)
Theorem shorter_deadline_rejected :
  ∃ offered requested : Deadline,
    Dur.ticks (period offered) < Dur.ticks (period requested) ∧
    deadline_compatible offered requested = false.
Proof.
  exists (mkDeadline (Dur.from_millis 900)), (mkDeadline (Dur.from_secs 1)).
  split; vm_compute; done.
Qed.

(** Every policy value survives [combine] by the documented rule: the
    argument's value wins when the user set it, the old one stays otherwise. *)
Lemma combine_policy_value {A} `{EqDecision A} (self policies : A * bool) :
  (combine_policy self policies).1 = if policies.2 then policies.1 else self.1.
Proof.
  destruct self as [a s], policies as [b p]; unfold combine_policy; simpl.
  case_bool_decide; simpl; subst; by destruct p.
Qed.
Lemma combine_policy_flag {A} `{EqDecision A} (self policies : A * bool) :
  (combine_policy self policies).2 = self.2 || policies.2.
Proof.
  destruct self as [a s], policies as [b p]; unfold combine_policy; simpl.
  case_bool_decide; simpl; subst; [done|]. destruct p; simpl; [by rewrite orb_true_r|by rewrite orb_false_r].
Qed.

(** Wire values of the policy enumerations. *)
Lemma history_kind_roundtrip k : history_kind_read (history_kind_disc k) = Some k.
Proof. by destruct k. Qed.
Lemma durability_roundtrip k : durability_read (durability_disc k) = Some k.
Proof. by destruct k. Qed.
Lemma ownership_roundtrip k : ownership_read (ownership_disc k) = Some k.
Proof. by destruct k. Qed.
Lemma reliability_kind_roundtrip k : reliability_kind_read (reliability_kind_disc k) = Some k.
Proof. by destruct k. Qed.
Lemma destination_order_roundtrip k : destination_order_read (destination_order_disc k) = Some k.
Proof. by destruct k. Qed.

(** [LivelinessQosKind] is the exception: what is written for the two manual
    kinds is read back as the other one; only [Automatic] survives. *)
Theorem liveliness_kind_not_roundtrip (k : LivelinessQosKind) :
  liveliness_kind_read (liveliness_kind_disc k) =
    Some (match k with
          | Automatic => Automatic
          | ManualByParticipant => ManualByTopic
          | ManualByTopic => ManualByParticipant
          end).
Proof. by destruct k. Qed.
