(* ===== verification/Topic.v ===== *)
(** * Topics

    src/src/dds/topic.rs and the topic data that discovery announces
    (src/src/discovery/structure/data.rs): a topic is its name, its type and
    the QoS it was created with, from which the announced policies come. *)
From stdpp Require Import base tactics numbers list strings.
From S2P Require Import Prelude Ids Time Qos.

(** [Topic]; the participant it belongs to is not consulted. *)
Record Topic := mkTopic {
  topic_name : string;
  topic_type_desc : string;
  my_qos_policies : TopicQosPolicies;
  topic_kind_of : TopicKind;
}.

(** [Topic::new]: the kind follows from the type having a key. *)
Definition topic_new (name type_desc : string) (is_with_key : bool) (qos : TopicQosPolicies) : Topic :=
  mkTopic name type_desc qos (if is_with_key then WithKey else NoKey).

Record SubscriptionBuiltinTopicData := mkSubscriptionBuiltinTopicData {
  sub_key : option unit;
  sub_publication_key : option unit;
  sub_topic_name : option string;
  sub_type_name : option string;
  sub_durability : option Durability;
  sub_deadline : option Deadline;
  sub_latency_budget : option LatencyBudget;
  sub_liveliness : option Liveliness;
  sub_reliability : option Reliability;
  sub_ownership : option Ownership;
  sub_destination_order : option DestinationOrder;
  sub_user_data : option UserData;
  sub_time_based_filter : option TimeBasedFilter;
  sub_presentation : option Presentation;
  sub_partition : option Partition;
  sub_topic_data : option TopicData;
  sub_group_data : option GroupData;
  sub_durability_service : option DurabilityService;
  sub_lifespan : option Lifespan;
}.

Record PublicationBuiltinTopicData := mkPublicationBuiltinTopicData {
  pub_key : option unit;
  pub_publication_key : option unit;
  pub_topic_name : option string;
  pub_type_name : option string;
  pub_durability : option Durability;
  pub_durability_service : option DurabilityService;
  pub_deadline : option Deadline;
  pub_latency_budget : option LatencyBudget;
  pub_liveliness : option Liveliness;
  pub_reliability : option Reliability;
  pub_lifespan : option Lifespan;
  pub_user_data : option UserData;
  pub_time_based_filter : option TimeBasedFilter;
  pub_ownership : option Ownership;
  pub_ownership_strength : option OwnershipStrength;
  pub_destination_order : option DestinationOrder;
  pub_presentation : option Presentation;
  pub_partition : option Partition;
  pub_topic_data : option TopicData;
  pub_group_data : option GroupData;
}.

Definition pub_builtin_topic_data (t : Topic) : PublicationBuiltinTopicData :=
  let q := my_qos_policies t in
  mkPublicationBuiltinTopicData None None (Some (topic_name t)) (Some (topic_type_desc t))
    (Some (t_durability q).1) None (Some (t_deadline q).1) (Some (t_latency_budget q).1)
    (Some (t_liveliness q).1) (Some (t_reliability q).1) (Some (t_lifespan q).1)
    None None (Some (t_ownership q).1) None (Some (t_destination_order q).1)
    None None None None.

(** Deadline and liveliness are left out on purpose (a comment in the source
    says another implementation reports incompatible QoS otherwise). *)
Definition sub_builtin_topic_data (t : Topic) : SubscriptionBuiltinTopicData :=
  let q := my_qos_policies t in
  mkSubscriptionBuiltinTopicData None None (Some (topic_name t)) (Some (topic_type_desc t))
    (Some (t_durability q).1) None (Some (t_latency_budget q).1) None
    (Some (t_reliability q).1) (Some (t_ownership q).1) (Some (t_destination_order q).1)
    None None None None None None None (Some (t_lifespan q).1).
