(* ===== verification/HistoryCache.v ===== *)
(** * The history cache

    src/src/rtps/cache.rs.  The cache is shared by a DataWriter and its RTPS
    Writer, or by an RTPS Reader and its DataReader, behind a read-write
    lock: every method is one atomic step on [HistoryCache], and the
    interleavings of the two parties are the sequences of [hc_step]. *)
From stdpp Require Import base tactics numbers list gmap sorting.
From S2P Require Import Prelude Ordered Ids Time SeqNum Qos.

(** ** Data *)
Record SerializedPayload := mkSerializedPayload {
  representation_identifier : list Z;
  representation_options : list Z;
  sp_value : list Z;
}.
#[export] Instance SerializedPayload_eq_dec : EqDecision SerializedPayload.
Proof. solve_decision. Defined.

Inductive ChangeKind :=
| Alive | AliveFiltered | NotAlive | NotAliveDisposed | NotAliveUnregistered.
#[export] Instance ChangeKind_eq_dec : EqDecision ChangeKind.
Proof. solve_decision. Defined.
Definition ChangeKind_num (k : ChangeKind) : nat :=
  match k with
  | Alive => 0 | AliveFiltered => 1 | NotAlive => 2 | NotAliveDisposed => 3
  | NotAliveUnregistered => 4
  end.
#[export] Instance ChangeKind_countable : Countable ChangeKind.
Proof.
  refine (inj_countable' ChangeKind_num
    (λ n, match n with
          | 0%nat => Alive | 1%nat => AliveFiltered | 2%nat => NotAlive
          | 3%nat => NotAliveDisposed | _ => NotAliveUnregistered
          end) _). by intros [].
Defined.

Record CacheChange := mkCacheChange {
  change_kind : ChangeKind;
  writer_guid : GUID;
  sequence_number : Z;
  timestamp : Timestamp;
  data_value : option SerializedPayload;
}.
#[export] Instance CacheChange_eq_dec : EqDecision CacheChange.
Proof. solve_decision. Defined.

Record HCKey := mkHCKey { hk_guid : GUID; hk_seq_num : Z }.
#[export] Instance HCKey_eq_dec : EqDecision HCKey.
Proof. solve_decision. Defined.
Definition HCKey_view (k : HCKey) : Z * GUID := (hk_seq_num k, hk_guid k).
#[export] Instance HCKey_view_inj : Inj (=) (=) HCKey_view.
Proof. intros [] [] [=]. by subst. Qed.
#[export] Instance HCKey_countable : Countable HCKey.
Proof. refine (inj_countable' HCKey_view (λ v, mkHCKey v.2 v.1) _). by intros []. Defined.
(** [Ord for HCKey]: the sequence number first, then the writer. *)
#[export] Instance HCKey_ord : RustOrd HCKey :=
  λ x y, lex (cmp (hk_seq_num x) (hk_seq_num y)) (cmp (hk_guid x) (hk_guid y)).
#[export] Instance HCKey_ord_laws : RustOrdLaws HCKey.
Proof. apply (inj_ord_laws HCKey_view _). done. Qed.

Definition change_key (c : CacheChange) : HCKey := mkHCKey (writer_guid c) (sequence_number c).

Inductive HistoryCacheType := HcReader | HcWriter | HcDummy.
#[export] Instance HistoryCacheType_eq_dec : EqDecision HistoryCacheType.
Proof. solve_decision. Defined.

Inductive AddChangeErr := WouldBlock.

(** The unused [min_seq_num]/[max_seq_num] caches, which are only ever set to
    [None], are kept as fields. *)
Record HistoryCache := mkHistoryCache {
  changes : gmap HCKey CacheChange;
  ts2key : list HCKey;
  kind2key : gmap ChangeKind (gset HCKey);
  hc_type : HistoryCacheType;
  unprocessed_seqnum : gset Z;
  taken_key : gset HCKey;
  ready_key : gset HCKey;
  last_added : gmap GUID Timestamp;
  min_seq_num : option Z;
  max_seq_num : option Z;
}.

Definition hc_new (ty : HistoryCacheType) : HistoryCache :=
  mkHistoryCache ∅ [] ∅ ty ∅ ∅ ∅ ∅ None None.

(** Field updates. *)
Definition set_changes f hc := mkHistoryCache (f (changes hc)) (ts2key hc) (kind2key hc)
  (hc_type hc) (unprocessed_seqnum hc) (taken_key hc) (ready_key hc) (last_added hc)
  (min_seq_num hc) (max_seq_num hc).
Definition set_ts2key f hc := mkHistoryCache (changes hc) (f (ts2key hc)) (kind2key hc)
  (hc_type hc) (unprocessed_seqnum hc) (taken_key hc) (ready_key hc) (last_added hc)
  (min_seq_num hc) (max_seq_num hc).
Definition set_kind2key f hc := mkHistoryCache (changes hc) (ts2key hc) (f (kind2key hc))
  (hc_type hc) (unprocessed_seqnum hc) (taken_key hc) (ready_key hc) (last_added hc)
  (min_seq_num hc) (max_seq_num hc).
Definition set_unprocessed f hc := mkHistoryCache (changes hc) (ts2key hc) (kind2key hc)
  (hc_type hc) (f (unprocessed_seqnum hc)) (taken_key hc) (ready_key hc) (last_added hc)
  (min_seq_num hc) (max_seq_num hc).
Definition set_taken f hc := mkHistoryCache (changes hc) (ts2key hc) (kind2key hc)
  (hc_type hc) (unprocessed_seqnum hc) (f (taken_key hc)) (ready_key hc) (last_added hc)
  (min_seq_num hc) (max_seq_num hc).
Definition set_ready f hc := mkHistoryCache (changes hc) (ts2key hc) (kind2key hc)
  (hc_type hc) (unprocessed_seqnum hc) (taken_key hc) (f (ready_key hc)) (last_added hc)
  (min_seq_num hc) (max_seq_num hc).
Definition set_last_added f hc := mkHistoryCache (changes hc) (ts2key hc) (kind2key hc)
  (hc_type hc) (unprocessed_seqnum hc) (taken_key hc) (ready_key hc) (f (last_added hc))
  (min_seq_num hc) (max_seq_num hc).
Definition clear_min_max hc := mkHistoryCache (changes hc) (ts2key hc) (kind2key hc)
  (hc_type hc) (unprocessed_seqnum hc) (taken_key hc) (ready_key hc) (last_added hc)
  None None.

Definition is_hc_reader (hc : HistoryCache) : bool := bool_decide (hc_type hc = HcReader).
Definition is_hc_writer (hc : HistoryCache) : bool := bool_decide (hc_type hc = HcWriter).

(** ** Operations *)

(** [add_empty_change]; [now] is [Timestamp::now()]. *)
Definition add_empty_change (guid : GUID) (now : option Timestamp) (hc : HistoryCache)
    : outcome HistoryCache :=
  ts ← unwrap now;
  Done (set_last_added <[guid := ts]> hc).

(** [kind2key.get_mut(&kind)] followed by [v.remove(key)]. *)
Definition kind2key_remove (kind : ChangeKind) (key : HCKey) (m : gmap ChangeKind (gset HCKey))
    : gmap ChangeKind (gset HCKey) :=
  match m !! kind with
  | Some v => <[kind := v ∖ {[key]}]> m
  | None => m
  end.

Definition kind2key_insert (kind : ChangeKind) (key : HCKey) (m : gmap ChangeKind (gset HCKey))
    : gmap ChangeKind (gset HCKey) :=
  <[kind := {[key]} ∪ default ∅ (m !! kind)]> m.

Definition remove_change (key : HCKey) (taken : bool) (hc : HistoryCache) : HistoryCache :=
  if bool_decide (hk_seq_num key ∈ unprocessed_seqnum hc) then hc
  else
    let hc1 :=
      match changes hc !! key with
      | Some c =>
          let hc := set_changes (delete key) hc in
          let hc := if is_hc_reader hc
                    then set_ready (λ r, r ∖ {[key]})
                           (if taken then set_taken (λ t, {[key]} ∪ t) hc else hc)
                    else hc in
          set_kind2key (kind2key_remove (change_kind c) key) hc
      | None => hc
      end in
    clear_min_max (set_ts2key (remove_first key) hc1).

Definition remove_changes (keys : list HCKey) (hc : HistoryCache) : HistoryCache :=
  foldl (λ hc key, remove_change key false hc) hc keys.

(** The keys that [KeepLast] drops: all but the [depth] largest. *)
Definition keep_last_excess (depth : Z) (hc : HistoryCache) : list HCKey :=
  drop (Z.to_nat (as_usize depth)) (rev (bt_keys (changes hc))).

(** Room for one more change, from the resource limits: [inl] is an early
    return of [add_change]. *)
Definition make_room (is_reliable : bool) (limits : ResourceLimits) (hc : HistoryCache)
    : outcome ((AddChangeErr + unit) + HistoryCache) :=
  if negb (bool_decide (max_samples limits = LENGTH_UNLIMITED)) &&
     bool_decide (as_usize (max_samples limits) ≤ Z.of_nat (size (changes hc)) + 1)
  then
    match hc_type hc with
    | HcWriter =>
        if is_reliable then Done (inl (inl WouldBlock))
        else oldest ← unwrap (head (ts2key hc)); Done (inr (remove_change oldest false hc))
    | HcReader =>
        if is_reliable then Done (inl (inr tt))
        else oldest ← unwrap (head (ts2key hc)); Done (inr (remove_change oldest false hc))
    | HcDummy => Panic
    end
  else Done (inr hc).

(** The insertion proper. *)
Definition insert_change (change : CacheChange) (history : History) (hc : HistoryCache)
    : HistoryCache :=
  let key := change_key change in
  let hc := set_last_added <[hk_guid key := timestamp change]> hc in
  let hc := set_ts2key (λ l, l ++ [key]) hc in
  let hc := set_kind2key (kind2key_insert (change_kind change) key) hc in
  let hc := set_changes <[key := change]> hc in
  let hc := if is_hc_reader hc && bool_decide (history_kind history = KeepLast)
            then remove_changes (keep_last_excess (depth history) hc) hc else hc in
  if is_hc_writer hc then set_unprocessed (λ u, {[hk_seq_num key]} ∪ u) hc else hc.

Definition add_change (change : CacheChange) (is_reliable : bool) (limits : ResourceLimits)
    (history : History) (hc : HistoryCache) : outcome (HistoryCache * (AddChangeErr + unit)) :=
  let key := change_key change in
  match changes hc !! key with
  | Some c =>
      if bool_decide (data_value c = data_value change) then
        match hc_type hc with
        | HcReader => Done (set_last_added <[hk_guid key := timestamp change]> hc, inr tt)
        | HcWriter =>
            Done (set_unprocessed (λ u, {[hk_seq_num key]} ∪ u)
                    (set_last_added <[hk_guid key := timestamp change]> hc), inr tt)
        | HcDummy => Panic
        end
      else Panic
  | None =>
      room ← make_room is_reliable limits hc;
      match room with
      | inl ret => Done (hc, ret)
      | inr hc => Done (insert_change change history hc, inr tt)
      end
  end.

Definition get_unprocessed (hc : HistoryCache) : outcome (HistoryCache * gset Z) :=
  if is_hc_writer hc then Done (set_unprocessed (λ _, ∅) hc, unprocessed_seqnum hc) else Panic.

Definition get_taken (hc : HistoryCache) : outcome (HistoryCache * gset HCKey) :=
  if is_hc_reader hc then Done (set_taken (λ _, ∅) hc, taken_key hc) else Panic.

(** [BTreeSet::retain], which visits the keys in ascending order. *)
Definition get_taken_less_than (guid : GUID) (seq_num : Z) (hc : HistoryCache)
    : outcome (HistoryCache * list HCKey) :=
  if is_hc_reader hc then
    let p k := hk_guid k = guid ∧ hk_seq_num k < seq_num in
    Done (set_taken (filter (λ k, ¬ p k)) hc, filter p (bt_elems (taken_key hc)))
  else Panic.

Definition get_change (guid : GUID) (seq_num : Z) (hc : HistoryCache) : option CacheChange :=
  changes hc !! mkHCKey guid seq_num.

Definition get_last_added_ts (guid : GUID) (hc : HistoryCache) : option Timestamp :=
  last_added hc !! guid.

(** [flush] makes every change ready and says whether there was one. *)
Definition flush (hc : HistoryCache) : outcome (HistoryCache * bool) :=
  if is_hc_reader hc
  then Done (set_ready (λ r, r ∪ dom (changes hc)) hc,
             negb (bool_decide (dom (changes hc) = ∅)))
  else Panic.

Definition get_ready_changes (hc : HistoryCache) : outcome (list HCKey * list CacheChange) :=
  match kind2key hc !! Alive with
  | Some keys =>
      res ← foldM (λ acc k, c ← unwrap (changes hc !! k); Done (acc ++ [(k, c)])) []
              (filter (λ k, k ∈ ready_key hc) (bt_elems keys));
      let res := merge_sort by_key res in
      Done (res.*1, res.*2)
  | None => Done ([], [])
  end.

Definition remove_change_from_writer (guid : GUID) (hc : HistoryCache) : HistoryCache :=
  if is_hc_reader hc
  then remove_changes (filter (λ k, hk_guid k = guid) (bt_keys (changes hc))) hc
  else hc.

Definition remove_change_if_exist (key : HCKey) (hc : HistoryCache) : HistoryCache :=
  match changes hc !! key with Some _ => remove_change key false hc | None => hc end.

Definition get_seq_num_min (hc : HistoryCache) : Z :=
  let min := foldl (λ min k,
      if bool_decide (hk_seq_num k < min) && negb (bool_decide (hk_seq_num k ∈ unprocessed_seqnum hc))
      then hk_seq_num k else min) Sn.MAX (bt_keys (changes hc)) in
  if bool_decide (min = Sn.MAX) then 0 else min.

Definition get_seq_num_max (hc : HistoryCache) : Z :=
  let max := foldl (λ max k,
      if bool_decide (max < hk_seq_num k) && negb (bool_decide (hk_seq_num k ∈ unprocessed_seqnum hc))
      then hk_seq_num k else max) Sn.MIN (bt_keys (changes hc)) in
  if bool_decide (max = Sn.MIN) then 0 else max.

(** ** The representation invariant

    [ts2key] (arrival order) and [kind2key] (index by kind) are views of
    [changes]; the reader's and the writer's private sets stay within it. *)
Record hc_wf (hc : HistoryCache) : Prop := {
  wf_ts2key_nodup : NoDup (ts2key hc);
  wf_ts2key : ∀ k, k ∈ ts2key hc ↔ is_Some (changes hc !! k);
  wf_kind2key : ∀ kind k, k ∈ default ∅ (kind2key hc !! kind) ↔
    ∃ c, changes hc !! k = Some c ∧ change_kind c = kind;
  wf_key : ∀ k c, changes hc !! k = Some c → k = change_key c;
  wf_ready : ∀ k, k ∈ ready_key hc → is_Some (changes hc !! k);
  wf_unprocessed : ∀ s, s ∈ unprocessed_seqnum hc →
    ∃ k, is_Some (changes hc !! k) ∧ hk_seq_num k = s;
  wf_not_writer : hc_type hc ≠ HcWriter → unprocessed_seqnum hc = ∅;
  wf_not_reader : hc_type hc ≠ HcReader → ready_key hc = ∅ ∧ taken_key hc = ∅;
}.
#[export] Hint Resolve wf_ts2key_nodup : umber.

Lemma hc_new_wf ty : hc_wf (hc_new ty).
Proof.
  split; simpl; try done.
  - constructor.
  - intros k. rewrite lookup_empty. split; [set_solver|by intros []].
  - intros kind k. rewrite lookup_empty. set_solver.
Qed.

(** *** Views of [remove_change] *)

Definition removable (key : HCKey) (hc : HistoryCache) : Prop :=
  hk_seq_num key ∉ unprocessed_seqnum hc.

Lemma remove_change_refused key taken hc :
  ¬ removable key hc → remove_change key taken hc = hc.
Proof. intros H. unfold remove_change. rewrite bool_decide_true; [done|]. by apply dec_stable. Qed.

Lemma hc_type_remove_change key taken hc : hc_type (remove_change key taken hc) = hc_type hc.
Proof.
  unfold remove_change, is_hc_reader. case_bool_decide; [done|].
  destruct (changes hc !! key); [|done]. case_bool_decide; [|done]. by destruct taken.
Qed.

Lemma unprocessed_remove_change key taken hc :
  unprocessed_seqnum (remove_change key taken hc) = unprocessed_seqnum hc.
Proof.
  unfold remove_change, is_hc_reader. case_bool_decide; [done|].
  destruct (changes hc !! key); [|done]. case_bool_decide; [|done]. by destruct taken.
Qed.

Lemma changes_remove_change key taken hc :
  removable key hc → changes (remove_change key taken hc) = delete key (changes hc).
Proof.
  intros Hr. unfold remove_change, is_hc_reader. rewrite bool_decide_false by done.
  destruct (changes hc !! key) eqn:E; simpl; [|by rewrite delete_id].
  case_bool_decide; [|done]. by destruct taken.
Qed.

Lemma ts2key_remove_change key taken hc :
  removable key hc → ts2key (remove_change key taken hc) = remove_first key (ts2key hc).
Proof.
  intros Hr. unfold remove_change, is_hc_reader. rewrite bool_decide_false by done.
  destruct (changes hc !! key); [|done]. simpl. case_bool_decide; [|done]. by destruct taken.
Qed.

Lemma kind2key_remove_change key taken hc :
  removable key hc →
  kind2key (remove_change key taken hc) =
    match changes hc !! key with
    | Some c => kind2key_remove (change_kind c) key (kind2key hc)
    | None => kind2key hc
    end.
Proof.
  intros Hr. unfold remove_change, is_hc_reader. rewrite bool_decide_false by done.
  destruct (changes hc !! key); [|done]. simpl. case_bool_decide; [|done]. by destruct taken.
Qed.

Lemma last_added_remove_change key taken hc :
  last_added (remove_change key taken hc) = last_added hc.
Proof.
  unfold remove_change, is_hc_reader. case_bool_decide; [done|].
  destruct (changes hc !! key); [|done]. case_bool_decide; [|done]. by destruct taken.
Qed.

Lemma ready_remove_change key taken hc k :
  hc_wf hc → removable key hc →
  k ∈ ready_key (remove_change key taken hc) ↔ k ∈ ready_key hc ∧ k ≠ key.
Proof.
  intros Hwf Hr. unfold remove_change, is_hc_reader. rewrite bool_decide_false by done.
  assert (Hk : changes hc !! key = None → k ∈ ready_key hc → k ≠ key).
  { intros E Hk ->. apply (wf_ready _ Hwf) in Hk as [? ?]. congruence. }
  destruct (changes hc !! key) eqn:E; simpl; [|naive_solver].
  case_bool_decide as Hty; [destruct taken; simpl; set_solver|]. simpl.
  rewrite (proj1 (wf_not_reader _ Hwf Hty)). set_solver.
Qed.

Lemma taken_remove_change key taken hc :
  removable key hc →
  taken_key (remove_change key taken hc) =
    if is_hc_reader hc && taken && bool_decide (is_Some (changes hc !! key))
    then {[key]} ∪ taken_key hc else taken_key hc.
Proof.
  intros Hr. unfold remove_change. rewrite bool_decide_false by done.
  destruct (changes hc !! key); simpl.
  - rewrite andb_true_r. unfold is_hc_reader; simpl. case_bool_decide; by destruct taken.
  - by rewrite andb_false_r.
Qed.

Lemma kind2key_remove_spec kind key m kind' k :
  k ∈ default ∅ (kind2key_remove kind key m !! kind') ↔
  k ∈ default ∅ (m !! kind') ∧ ¬ (kind = kind' ∧ k = key).
Proof.
  unfold kind2key_remove. destruct (m !! kind) as [v|] eqn:E.
  - rewrite lookup_insert. case_decide; subst; [rewrite E|]; simpl; set_solver.
  - split; [|naive_solver]. intros Hk. split; [done|]. intros [-> ->].
    rewrite E in Hk. simpl in Hk. set_solver.
Qed.

Lemma kind2key_insert_spec kind key m kind' k :
  k ∈ default ∅ (kind2key_insert kind key m !! kind') ↔
  k ∈ default ∅ (m !! kind') ∨ (kind = kind' ∧ k = key).
Proof.
  unfold kind2key_insert. rewrite lookup_insert. case_decide; subst; simpl; set_solver.
Qed.

(** A removal (with or without [taken]) preserves the invariant. *)
Lemma remove_change_wf key taken hc : hc_wf hc → hc_wf (remove_change key taken hc).
Proof.
  intros Hwf. destruct (decide (removable key hc)) as [Hr|Hr];
    [|by rewrite remove_change_refused].
  split.
  - rewrite ts2key_remove_change by done. auto using NoDup_remove_first with umber.
  - intros k. rewrite ts2key_remove_change, changes_remove_change by done.
    rewrite elem_of_remove_first_NoDup, (wf_ts2key _ Hwf) by auto with umber.
    rewrite lookup_delete. case_decide; [subst|]; (split; [naive_solver|]).
    + by intros [].
    + naive_solver.
  - intros kind k. rewrite kind2key_remove_change, changes_remove_change by done.
    rewrite lookup_delete. destruct (changes hc !! key) as [c|] eqn:E.
    + rewrite kind2key_remove_spec, (wf_kind2key _ Hwf).
      case_decide; subst; [|naive_solver]. split; [|by intros (? & ? & ?)].
      intros [(c' & Hc & ?) Hn]. exfalso. apply Hn. naive_solver.
    + rewrite (wf_kind2key _ Hwf). case_decide; subst; naive_solver.
  - intros k c. rewrite changes_remove_change by done.
    rewrite lookup_delete_Some. intros [_ ?]. by apply (wf_key _ Hwf).
  - intros k. rewrite ready_remove_change by done. intros [Hk%(wf_ready _ Hwf) ?].
    rewrite changes_remove_change, lookup_delete_ne by done. done.
  - intros s. rewrite unprocessed_remove_change. intros Hs.
    destruct (wf_unprocessed _ Hwf s Hs) as (k & Hk & <-). exists k. split; [|done].
    rewrite changes_remove_change, lookup_delete_ne by (done || by intros ->). done.
  - rewrite hc_type_remove_change, unprocessed_remove_change. apply (wf_not_writer _ Hwf).
  - rewrite hc_type_remove_change. intros Ht.
    destruct (wf_not_reader _ Hwf Ht) as [Hready Htaken]. split.
    + apply set_eq. intros k. rewrite ready_remove_change, Hready by done. set_solver.
    + rewrite taken_remove_change by done. unfold is_hc_reader.
      rewrite bool_decide_false by congruence. done.
Qed.

Lemma remove_changes_wf keys hc : hc_wf hc → hc_wf (remove_changes keys hc).
Proof.
  unfold remove_changes. revert hc. induction keys as [|k keys IH]; intros hc Hwf; simpl; [done|].
  by apply IH, remove_change_wf.
Qed.
#[export] Hint Resolve hc_new_wf remove_change_wf remove_changes_wf : umber.

Lemma hc_type_remove_changes keys hc : hc_type (remove_changes keys hc) = hc_type hc.
Proof.
  unfold remove_changes. revert hc. induction keys as [|k keys IH]; intros hc; simpl; [done|].
  by rewrite IH, hc_type_remove_change.
Qed.

Lemma last_added_remove_changes keys hc : last_added (remove_changes keys hc) = last_added hc.
Proof.
  unfold remove_changes. revert hc. induction keys as [|k keys IH]; intros hc; simpl; [done|].
  by rewrite IH, last_added_remove_change.
Qed.

Lemma unprocessed_remove_changes keys hc :
  unprocessed_seqnum (remove_changes keys hc) = unprocessed_seqnum hc.
Proof.
  unfold remove_changes. revert hc. induction keys as [|k keys IH]; intros hc; simpl; [done|].
  by rewrite IH, unprocessed_remove_change.
Qed.

(** Removing a list of keys removes those that are not refused. *)
Lemma lookup_remove_changes_gen keys hc k :
  changes (remove_changes keys hc) !! k =
    if bool_decide (k ∈ keys ∧ removable k hc) then None else changes hc !! k.
Proof.
  unfold remove_changes. revert hc. induction keys as [|k' keys IH]; intros hc.
  { rewrite bool_decide_false; [done|]. by intros [?%elem_of_nil _]. }
  simpl. rewrite IH. unfold removable. rewrite unprocessed_remove_change.
  destruct (decide (hk_seq_num k ∈ unprocessed_seqnum hc)) as [Hu|Hu].
  - rewrite !bool_decide_false by tauto.
    destruct (decide (removable k' hc)); [|by rewrite remove_change_refused].
    rewrite changes_remove_change, lookup_delete_ne by (done || by intros ->). done.
  - destruct (decide (k' = k)) as [->|Hne].
    + rewrite (bool_decide_true (k ∈ k :: keys ∧ _)) by (split; [by left|done]).
      destruct (bool_decide _); [done|]. by rewrite changes_remove_change, lookup_delete_eq.
    + rewrite (bool_decide_ext (k ∈ k' :: keys ∧ _) (k ∈ keys ∧ hk_seq_num k ∉ unprocessed_seqnum hc))
        by (rewrite elem_of_cons; naive_solver).
      destruct (bool_decide _); [done|].
      destruct (decide (removable k' hc)); [|by rewrite remove_change_refused].
      by rewrite changes_remove_change, lookup_delete_ne.
Qed.

(** Where nothing is unprocessed, it removes them all. *)
Lemma lookup_remove_changes keys hc k :
  unprocessed_seqnum hc = ∅ →
  changes (remove_changes keys hc) !! k = if bool_decide (k ∈ keys) then None else changes hc !! k.
Proof.
  intros Hu. rewrite lookup_remove_changes_gen.
  rewrite (bool_decide_ext (k ∈ keys ∧ removable k hc) (k ∈ keys)); [done|].
  unfold removable. rewrite Hu. set_solver.
Qed.

(** *** The insertions *)

(** The state of [insert_change] before the KeepLast clean-up. *)
Definition pushed (change : CacheChange) (hc : HistoryCache) : HistoryCache :=
  let key := change_key change in
  set_changes <[key := change]>
    (set_kind2key (kind2key_insert (change_kind change) key)
      (set_ts2key (λ l, l ++ [key])
        (set_last_added <[hk_guid key := timestamp change]> hc))).

Lemma insert_change_pushed change history hc :
  insert_change change history hc =
    let hc1 := if is_hc_reader hc && bool_decide (history_kind history = KeepLast)
               then remove_changes (keep_last_excess (depth history) (pushed change hc))
                      (pushed change hc)
               else pushed change hc in
    if is_hc_writer hc1 then set_unprocessed (λ u, {[sequence_number change]} ∪ u) hc1 else hc1.
Proof. reflexivity. Qed.

Lemma pushed_wf change hc :
  hc_wf hc → changes hc !! change_key change = None →
  hc_wf (pushed change hc).
Proof.
  intros Hwf Hnew. set (key := change_key change) in *.
  assert (Hfresh : key ∉ ts2key hc).
  { rewrite (wf_ts2key _ Hwf), Hnew. by intros []. }
  split; simpl; fold key.
  - apply NoDup_app. split_and!; [auto with umber| |apply NoDup_singleton].
    intros k ? ->%list_elem_of_singleton. done.
  - intros k. rewrite elem_of_app, list_elem_of_singleton, (wf_ts2key _ Hwf), lookup_insert.
    case_decide; subst; [|naive_solver]. split; [by eauto|]. by right.
  - intros kind k. rewrite kind2key_insert_spec, (wf_kind2key _ Hwf), lookup_insert.
    case_decide; subst; [|naive_solver]. rewrite Hnew. naive_solver.
  - intros k c. rewrite lookup_insert_Some. intros [[<- <-]|[_ ?]]; [done|by apply (wf_key _ Hwf)].
  - intros k Hk%(wf_ready _ Hwf). rewrite lookup_insert. by case_decide.
  - intros s Hs. destruct (wf_unprocessed _ Hwf s Hs) as (k & ? & ?). exists k.
    rewrite lookup_insert. by case_decide.
  - apply (wf_not_writer _ Hwf).
  - apply (wf_not_reader _ Hwf).
Qed.

Lemma set_unprocessed_insert_wf s hc :
  hc_wf hc → hc_type hc = HcWriter → (∃ k, is_Some (changes hc !! k) ∧ hk_seq_num k = s) →
  hc_wf (set_unprocessed (λ u, {[s]} ∪ u) hc).
Proof.
  intros Hwf Hty Hs. split; simpl; try apply Hwf; [|congruence].
  intros s' [->%elem_of_singleton|?]%elem_of_union; [done|by apply (wf_unprocessed _ Hwf)].
Qed.

Lemma set_last_added_wf f hc : hc_wf hc → hc_wf (set_last_added f hc).
Proof. intros Hwf. split; simpl; apply Hwf. Qed.

Lemma insert_change_wf change history hc :
  hc_wf hc → changes hc !! change_key change = None →
  hc_wf (insert_change change history hc).
Proof.
  intros Hwf Hnew. pose proof (pushed_wf _ _ Hwf Hnew) as Hp.
  rewrite insert_change_pushed. simpl. destruct (is_hc_reader hc) eqn:Er.
  - unfold is_hc_reader in Er. apply bool_decide_eq_true in Er. simpl.
    assert (∀ b : bool, is_hc_writer (if b then remove_changes
      (keep_last_excess (depth history) (pushed change hc)) (pushed change hc)
      else pushed change hc) = false) as ->.
    { intros []; unfold is_hc_writer; rewrite ?hc_type_remove_changes; simpl; by rewrite Er. }
    case_bool_decide; auto with umber.
  - simpl. unfold is_hc_writer; simpl. case_bool_decide; [|done].
    apply set_unprocessed_insert_wf; [done|done|]. exists (change_key change).
    split; [|done]. simpl. by rewrite lookup_insert_eq.
Qed.

Lemma make_room_wf rel limits hc hc' :
  hc_wf hc → make_room rel limits hc = Done (inr hc') →
  hc_wf hc' ∧ hc_type hc' = hc_type hc ∧ (∀ k, changes hc !! k = None → changes hc' !! k = None).
Proof.
  intros Hwf. unfold make_room.
  assert (Hrm : ∀ k hc', Done (inr (A := AddChangeErr + unit) (remove_change k false hc)) = Done (inr hc') →
    hc_wf hc' ∧ hc_type hc' = hc_type hc ∧ (∀ k, changes hc !! k = None → changes hc' !! k = None)).
  { intros k ? [= <-]. split_and!; [auto with umber|by rewrite hc_type_remove_change|].
    intros k' Hk'. destruct (decide (removable k hc)).
    - rewrite changes_remove_change by done. rewrite lookup_delete. by case_decide.
    - by rewrite remove_change_refused. }
  destruct (_ && _); [|intros [= <-]; done].
  destruct (hc_type hc), rel; simpl; try done; destruct (head (ts2key hc)); simpl; try done; apply Hrm.
Qed.

(** [add_change] preserves the invariant on every branch. *)
Lemma add_change_wf change rel limits history hc hc' r :
  hc_wf hc → add_change change rel limits history hc = Done (hc', r) → hc_wf hc'.
Proof.
  intros Hwf. unfold add_change. destruct (changes hc !! change_key change) as [c|] eqn:E.
  - case_bool_decide; [|done]. destruct (hc_type hc) eqn:Et; intros [= <- <-];
      [by apply set_last_added_wf|].
    apply set_unprocessed_insert_wf; [by apply set_last_added_wf|done|].
    exists (change_key change). simpl. by rewrite E.
  - destruct (make_room rel limits hc) as [[ret|hc1]|] eqn:Em; simpl; [by intros [= <- <-]| |done].
    intros [= <- <-]. destruct (make_room_wf _ _ _ _ Hwf Em) as (Hwf1 & Hty & Hnone).
    apply insert_change_wf; [done|by apply Hnone].
Qed.

Lemma flush_wf hc hc' b : hc_wf hc → flush hc = Done (hc', b) → hc_wf hc'.
Proof.
  intros Hwf. unfold flush. destruct (is_hc_reader hc) eqn:Er; [|done]. intros [= <- <-].
  unfold is_hc_reader in Er. apply bool_decide_eq_true in Er.
  split; simpl; try apply Hwf; [|congruence].
  intros k [Hk|Hk]%elem_of_union; [by apply (wf_ready _ Hwf)|by apply elem_of_dom].
Qed.

Lemma get_unprocessed_wf hc hc' s : hc_wf hc → get_unprocessed hc = Done (hc', s) → hc_wf hc'.
Proof.
  intros Hwf. unfold get_unprocessed. destruct (is_hc_writer hc); [|done]. intros [= <- <-].
  split; simpl; try apply Hwf; [set_solver|done].
Qed.

Lemma set_taken_wf f hc : hc_wf hc → hc_type hc = HcReader → hc_wf (set_taken f hc).
Proof. intros Hwf Hty. split; simpl; try apply Hwf. congruence. Qed.

(** ** The cache as a state machine

    One constructor per public method; the DataReader/DataWriter side and the
    RTPS side interleave freely.  The QoS passed to [add_change] is the
    entity's, which is fixed when the entity is created.  Steps that panic end
    the process and have no successor state. *)
Inductive hc_step (rel : bool) (limits : ResourceLimits) (history : History)
    : HistoryCache → HistoryCache → Prop :=
| step_add_empty_change guid now hc hc' :
    add_empty_change guid now hc = Done hc' → hc_step rel limits history hc hc'
| step_add_change change hc hc' r :
    add_change change rel limits history hc = Done (hc', r) → hc_step rel limits history hc hc'
| step_get_unprocessed hc hc' s :
    get_unprocessed hc = Done (hc', s) → hc_step rel limits history hc hc'
| step_get_taken hc hc' s : get_taken hc = Done (hc', s) → hc_step rel limits history hc hc'
| step_get_taken_less_than guid sn hc hc' l :
    get_taken_less_than guid sn hc = Done (hc', l) → hc_step rel limits history hc hc'
| step_flush hc hc' b : flush hc = Done (hc', b) → hc_step rel limits history hc hc'
| step_remove_change_from_writer guid hc :
    hc_step rel limits history hc (remove_change_from_writer guid hc)
| step_remove_change_if_exist key hc :
    hc_step rel limits history hc (remove_change_if_exist key hc)
| step_remove_change key taken hc :
    hc_step rel limits history hc (remove_change key taken hc).

Inductive hc_reachable (rel : bool) (limits : ResourceLimits) (history : History)
    (ty : HistoryCacheType) : HistoryCache → Prop :=
| reach_new : hc_reachable rel limits history ty (hc_new ty)
| reach_step hc hc' :
    hc_reachable rel limits history ty hc → hc_step rel limits history hc hc' →
    hc_reachable rel limits history ty hc'.

Lemma hc_step_wf rel limits history hc hc' :
  hc_wf hc → hc_step rel limits history hc hc' → hc_wf hc'.
Proof.
  intros Hwf Hstep. destruct Hstep as
    [guid now hc hc' H|change hc hc' r H|hc hc' s H|hc hc' s H|guid sn hc hc' l H
    |hc hc' b H|guid hc|key hc|key taken hc].
  - unfold add_empty_change in H. outcome_simplify. by apply set_last_added_wf.
  - by eapply add_change_wf.
  - by eapply get_unprocessed_wf.
  - unfold get_taken, is_hc_reader in H. case_bool_decide; simplify_eq. by apply set_taken_wf.
  - unfold get_taken_less_than, is_hc_reader in H. case_bool_decide; simplify_eq. by apply set_taken_wf.
  - by eapply flush_wf.
  - unfold remove_change_from_writer. destruct (is_hc_reader hc); auto with umber.
  - unfold remove_change_if_exist. destruct (changes hc !! key); auto with umber.
  - auto with umber.
Qed.

Lemma reachable_wf rel limits history ty hc : hc_reachable rel limits history ty hc → hc_wf hc.
Proof. induction 1; [apply hc_new_wf|by eapply hc_step_wf]. Qed.
#[export] Hint Resolve reachable_wf : umber.

Lemma hc_type_insert_change change history hc : hc_type (insert_change change history hc) = hc_type hc.
Proof.
  rewrite insert_change_pushed. cbv zeta.
  set (hc1 := if _ && _ then _ else _).
  assert (H1 : hc_type hc1 = hc_type hc).
  { unfold hc1. destruct (_ && _); [by rewrite hc_type_remove_changes|done]. }
  by destruct (is_hc_writer hc1).
Qed.

(** The role of a cache never changes. *)
Lemma hc_step_type rel limits history hc hc' :
  hc_wf hc → hc_step rel limits history hc hc' → hc_type hc' = hc_type hc.
Proof.
  intros Hwf Hstep. destruct Hstep as
    [guid now hc hc' H|change hc hc' r H|hc hc' s H|hc hc' s H|guid sn hc hc' l H
    |hc hc' b H|guid hc|key hc|key taken hc].
  - unfold add_empty_change in H. by outcome_simplify.
  - unfold add_change in H. destruct (changes hc !! _).
    + case_bool_decide; [|done]. destruct (hc_type hc) eqn:Et; by simplify_eq.
    + destruct (make_room rel limits hc) as [[|hc1]|] eqn:Em; simplify_eq/=; [done|].
      rewrite hc_type_insert_change. by apply (make_room_wf _ _ _ _ Hwf Em).
  - unfold get_unprocessed in H. by destruct (is_hc_writer hc); simplify_eq.
  - unfold get_taken in H. by destruct (is_hc_reader hc); simplify_eq.
  - unfold get_taken_less_than in H. by destruct (is_hc_reader hc); simplify_eq.
  - unfold flush in H. by destruct (is_hc_reader hc); simplify_eq.
  - unfold remove_change_from_writer. destruct (is_hc_reader hc); [|done]. apply hc_type_remove_changes.
  - unfold remove_change_if_exist. destruct (changes hc !! key); [|done]. apply hc_type_remove_change.
  - apply hc_type_remove_change.
Qed.

(** C38. In every state a history cache can reach, through any interleaving of its
    methods, the arrival list and the kind index agree with the stored
    changes, ready and unprocessed keys refer to stored changes, and only a
    reader's cache has ready/taken keys, only a writer's unprocessed ones. *)
Theorem hc_reachable_wf rel limits history (ty : HistoryCacheType) (hc : HistoryCache) :
  hc_reachable rel limits history ty hc → hc_wf hc.
Proof. apply reachable_wf. Qed.

(** ** get_ready_changes *)

Lemma ready_loop (m : gmap HCKey CacheChange) keys acc :
  (∀ k, k ∈ keys → is_Some (m !! k)) →
  ∃ cs, foldM (λ acc k, c ← unwrap (m !! k); Done (acc ++ [(k, c)])) acc keys
        = Done (acc ++ zip keys cs) ∧
    Forall2 (λ k c, m !! k = Some c) keys cs.
Proof.
  revert acc. induction keys as [|k keys IH]; intros acc Hk.
  { exists []. simpl. by rewrite app_nil_r. }
  destruct (Hk k ltac:(left)) as [c Hc].
  destruct (IH (acc ++ [(k, c)])) as (cs & Hf & Hcs); [intros; apply Hk; by right|].
  exists (c :: cs). simpl. rewrite Hc. simpl. rewrite Hf, <-(assoc_L (++)). by split; [|constructor].
Qed.

(** In a well-formed cache [get_ready_changes] does not hit its panic, and
    returns exactly the ready changes of kind [Alive] with their keys, in
    ascending key order. *)
Theorem get_ready_changes_spec (hc : HistoryCache) :
  hc_wf hc →
  ∃ keys cs, get_ready_changes hc = Done (keys, cs) ∧
    StronglySorted ord_lt keys ∧
    (∀ k, k ∈ keys ↔ k ∈ ready_key hc ∧
       ∃ c, changes hc !! k = Some c ∧ change_kind c = Alive) ∧
    Forall2 (λ k c, changes hc !! k = Some c) keys cs.
Proof.
  intros Hwf. unfold get_ready_changes.
  pose proof (λ k, wf_kind2key _ Hwf Alive k) as Hal.
  destruct (kind2key hc !! Alive) as [keys|]; simpl in Hal; last first.
  { exists [], []. split_and!; [done|constructor| |constructor].
    intros k. rewrite <-Hal. set_solver. }
  set (l := filter (λ k, k ∈ ready_key hc) (bt_elems keys)).
  assert (Hl : ∀ k, k ∈ l ↔ k ∈ ready_key hc ∧ ∃ c, changes hc !! k = Some c ∧ change_kind c = Alive).
  { intros k. unfold l. rewrite list_elem_of_filter, elem_of_bt_elems. naive_solver. }
  destruct (ready_loop (changes hc) l []) as (cs & -> & Hcs).
  { intros k (? & c & ? & ?)%Hl. eauto. }
  simpl. pose proof (Forall2_length _ _ _ Hcs) as Hlen.
  assert (StronglySorted ord_lt l) by apply sorted_filter, bt_elems_sorted.
  rewrite sort_by_key_sorted by by rewrite fst_zip by lia.
  exists l, cs. rewrite fst_zip, snd_zip by lia. done.
Qed.

(** ** add_change: errors, panics, limits *)

(** The test of the resource limit. *)
Definition full (limits : ResourceLimits) (hc : HistoryCache) : Prop :=
  max_samples limits ≠ LENGTH_UNLIMITED ∧
  as_usize (max_samples limits) ≤ Z.of_nat (size (changes hc)) + 1.
#[export] Instance full_dec limits hc : Decision (full limits hc).
Proof. unfold full. apply _. Defined.

Lemma make_room_alt rel limits hc :
  make_room rel limits hc =
    if decide (full limits hc) then
      match hc_type hc with
      | HcDummy => Panic
      | ty => if rel then Done (inl (if decide (ty = HcWriter) then inl WouldBlock else inr tt))
              else oldest ← unwrap (head (ts2key hc)); Done (inr (remove_change oldest false hc))
      end
    else Done (inr hc).
Proof.
  unfold make_room, full. destruct (decide _) as [[H1 H2]|Hn].
  - rewrite bool_decide_false, bool_decide_true by done. simpl.
    destruct (hc_type hc); simpl; try done; by destruct rel.
  - destruct (negb _ && _) eqn:E; [|done]. exfalso. apply Hn.
    rewrite andb_true_iff, negb_true_iff, bool_decide_eq_true, bool_decide_eq_false in E. done.
Qed.

Lemma wf_ts2key_nil hc : hc_wf hc → head (ts2key hc) = None ↔ changes hc = ∅.
Proof.
  intros Hwf. destruct (ts2key hc) as [|k l] eqn:E; simpl; split; try done.
  - intros _. apply map_empty. intros k. apply eq_None_not_Some.
    rewrite <-(wf_ts2key _ Hwf), E. by apply not_elem_of_nil.
  - intros He. pose proof (wf_ts2key _ Hwf k) as [Hk _]. rewrite E, He, lookup_empty in Hk.
    destruct Hk as [? ?]; [by left|done].
Qed.

(** [add_change] panics exactly in two situations: a known key arrives with
    different data, or a best-effort endpoint whose limit leaves no room for
    a single sample ([max_samples] 0 or 1) gets its first change. *)
Theorem add_change_panics_iff change rel limits history hc :
  hc_wf hc → hc_type hc ≠ HcDummy →
  add_change change rel limits history hc = Panic ↔
    (∃ c, changes hc !! change_key change = Some c ∧ data_value c ≠ data_value change) ∨
    (full limits hc ∧ rel = false ∧ changes hc = ∅).
Proof.
  intros Hwf Hty. unfold add_change. destruct (changes hc !! change_key change) as [c|] eqn:E.
  - case_bool_decide as Hd.
    + split; [by destruct (hc_type hc)|]. intros [(c' & [= <-] & ?)|(_ & _ & He)]; [done|].
      by rewrite He in E.
    + split; [left; eauto|done].
  - rewrite make_room_alt. pose proof (wf_ts2key_nil _ Hwf) as Hnil.
    destruct (decide (full limits hc)) as [Hf|Hf]; simpl; last first.
    { split; [done|]. intros [(? & ? & _)|(? & _)]; done. }
    destruct (hc_type hc), rel; simpl; try done.
    all: try (split; [done|]; intros [(? & ? & _)|(_ & ? & _)]; done).
    all: destruct (head (ts2key hc)) eqn:Eh; simpl; (split; [try done|]).
    all: try (intros [(? & ? & _)|(_ & _ & He)]; [done|]; by apply Hnil in He).
    all: right; split_and!; [done..|by apply Hnil].
Qed.

(** A reliable writer reports [WouldBlock] exactly when a new change meets a
    full cache, and then leaves the cache alone; no other endpoint ever
    reports it.  A reliable reader silently discards the change instead. *)
Theorem add_change_blocks_iff change rel limits history hc :
  (∃ hc', add_change change rel limits history hc = Done (hc', inl WouldBlock)) ↔
    changes hc !! change_key change = None ∧ full limits hc ∧ rel = true ∧ hc_type hc = HcWriter.
Proof.
  unfold add_change. destruct (changes hc !! change_key change) as [c|] eqn:E.
  { split; [|naive_solver]. intros [hc' H]. case_bool_decide; [|done]. by destruct (hc_type hc). }
  rewrite make_room_alt. destruct (decide (full limits hc)) as [Hf|Hf]; simpl; last first.
  { split; [by intros [? [=]]|]. naive_solver. }
  destruct (hc_type hc) eqn:Et, rel; simpl.
  all: split; [intros [? H]; try done; destruct (head (ts2key hc)); done|naive_solver].
Qed.

(** *** KeepLast *)

Lemma keep_last_split depth hc k :
  0 ≤ depth < 2 ^ 63 → hc_wf hc → unprocessed_seqnum hc = ∅ →
  changes (remove_changes (keep_last_excess depth hc) hc) !! k =
    if bool_decide (k ∈ take (Z.to_nat depth) (rev (bt_keys (changes hc))))
    then changes hc !! k else None.
Proof.
  intros Hd Hwf Hu. rewrite lookup_remove_changes by done. unfold keep_last_excess.
  rewrite (wrap_u_small 64) by (unfold in_u; lia).
  set (l := rev (bt_keys (changes hc))). set (n := Z.to_nat depth).
  assert (Hnd : NoDup (take n l ++ drop n l)).
  { rewrite take_drop. unfold l. auto using NoDup_rev with umber. }
  apply NoDup_app in Hnd as (_ & Hdisj & _).
  assert (Hin : k ∈ take n l ∨ k ∈ drop n l ↔ is_Some (changes hc !! k)).
  { rewrite <-elem_of_app, take_drop. unfold l. rewrite elem_of_rev.
    apply elem_of_bt_keys. }
  repeat case_bool_decide; try done; [naive_solver|].
  destruct (changes hc !! k) eqn:E; [|done]. naive_solver.
Qed.

(** A KeepLast reader that accepts a new change keeps the [depth] largest
    keys (sequence number first) of what it had and the new one, with their
    contents; everything it drops is older than everything it keeps. *)
Theorem keep_last_spec change rel limits history hc hc' :
  hc_wf hc → hc_type hc = HcReader → ¬ full limits hc →
  changes hc !! change_key change = None →
  history_kind history = KeepLast → 0 ≤ depth history < 2 ^ 63 →
  add_change change rel limits history hc = Done (hc', inr tt) →
  let all := <[change_key change := change]> (changes hc) in
  changes hc' ⊆ all ∧
  Z.of_nat (size (changes hc')) = Z.min (depth history) (Z.of_nat (size all)) ∧
  (∀ k k', is_Some (changes hc' !! k) → is_Some (all !! k') → changes hc' !! k' = None → ord_lt k' k).
Proof.
  intros Hwf Hty Hf Hnew Hk Hd Hadd all.
  pose proof (pushed_wf _ _ Hwf Hnew) as Hp.
  unfold add_change in Hadd. rewrite Hnew, make_room_alt, decide_False in Hadd by done.
  simpl in Hadd. injection Hadd as <-. rewrite insert_change_pushed. simpl.
  unfold is_hc_reader. rewrite !bool_decide_true by done. simpl.
  unfold is_hc_writer. rewrite hc_type_remove_changes; simpl. rewrite bool_decide_false by congruence.
  assert (Hu : unprocessed_seqnum (pushed change hc) = ∅)
    by (apply (wf_not_writer _ Hp); simpl; congruence).
  pose proof (λ k, keep_last_split _ _ k Hd Hp Hu) as Hlook.
  set (hc1 := remove_changes _ _) in *. set (l := rev (bt_keys (changes (pushed change hc)))) in *.
  set (n := Z.to_nat (depth history)) in *. change (changes (pushed change hc)) with all in *.
  assert (Hl : ∀ k, k ∈ l ↔ is_Some (all !! k)).
  { intros k. unfold l. rewrite elem_of_rev. apply elem_of_bt_keys. }
  assert (Hnd : NoDup l).
  { unfold l. auto using NoDup_rev with umber. }
  split_and!.
  - apply map_subseteq_spec. intros k c. rewrite Hlook. by case_bool_decide.
  - rewrite <-size_dom.
    assert (dom (changes hc1) = list_to_set (take n l)) as ->.
    { apply set_eq. intros k. rewrite elem_of_dom, Hlook, elem_of_list_to_set.
      case_bool_decide as Ht; [|split; [by intros []|done]].
      split; [done|]. intros _. apply Hl. by eapply elem_of_take_1. }
    rewrite size_list_to_set by (by eapply sublist_NoDup; [exact Hnd|apply sublist_take]). rewrite length_take.
    assert (length l = size all) as ->; [|lia].
    unfold l. rewrite length_rev. apply length_bt_keys.
  - intros k k' Hkk Hk' Hnone. rewrite Hlook in Hkk, Hnone.
    assert (Hkt : k ∈ take n l).
    { destruct (decide (k ∈ take n l)); [done|].
      rewrite bool_decide_false in Hkk by done. by destruct Hkk. }
    assert (Hkd : k' ∈ drop n l).
    { apply Hl in Hk'. rewrite <-(take_drop n l) in Hk'. apply elem_of_app in Hk' as [Hk'|]; [|done].
      rewrite bool_decide_true in Hnone by done. apply elem_of_take_1, Hl in Hk' as [? ?]. congruence. }
    assert (Hs : StronglySorted ord_lt (rev (drop n l) ++ rev (take n l))).
    { rewrite <-rev_app_distr, take_drop. unfold l. rewrite rev_involutive. apply bt_keys_sorted. }
    eapply StronglySorted_app_1_elem_of; [exact Hs|..];
      by rewrite elem_of_rev.
Qed.

(** *** The bound on the number of changes *)

Lemma remove_change_subseteq key taken hc : changes (remove_change key taken hc) ⊆ changes hc.
Proof.
  destruct (decide (removable key hc)) as [Hr|Hr].
  - rewrite changes_remove_change by done. apply delete_subseteq.
  - by rewrite remove_change_refused.
Qed.

Lemma remove_changes_subseteq keys hc : changes (remove_changes keys hc) ⊆ changes hc.
Proof.
  unfold remove_changes. revert hc. induction keys as [|k keys IH]; intros hc; simpl; [done|].
  etrans; [apply IH|apply remove_change_subseteq].
Qed.

Lemma size_subseteq (m1 m2 : gmap HCKey CacheChange) : m1 ⊆ m2 → (size m1 ≤ size m2)%nat.
Proof. intros H. rewrite <-!size_dom. by apply subseteq_size, subseteq_dom. Qed.

(** No method but [add_change] stores a change. *)
Lemma hc_step_changes rel limits history hc hc' :
  hc_step rel limits history hc hc' →
  changes hc' ⊆ changes hc ∨
  ∃ change r, add_change change rel limits history hc = Done (hc', r).
Proof.
  intros Hstep. destruct Hstep as
    [guid now hc hc' H|change hc hc' r H|hc hc' s H|hc hc' s H|guid sn hc hc' l H
    |hc hc' b H|guid hc|key hc|key taken hc].
  - unfold add_empty_change in H. outcome_simplify. by left.
  - right. eauto.
  - unfold get_unprocessed in H. destruct (is_hc_writer hc); simplify_eq. by left.
  - unfold get_taken in H. destruct (is_hc_reader hc); simplify_eq. by left.
  - unfold get_taken_less_than in H. destruct (is_hc_reader hc); simplify_eq. by left.
  - unfold flush in H. destruct (is_hc_reader hc); simplify_eq. by left.
  - unfold remove_change_from_writer. left. destruct (is_hc_reader hc); auto using remove_changes_subseteq.
  - unfold remove_change_if_exist. left. destruct (changes hc !! key); auto using remove_change_subseteq.
  - left. apply remove_change_subseteq.
Qed.

Lemma insert_change_size change history hc :
  Z.of_nat (size (changes (insert_change change history hc))) ≤ Z.of_nat (size (changes hc)) + 1.
Proof.
  rewrite insert_change_pushed. cbv zeta.
  assert (Hp : (size (changes (pushed change hc)) ≤ S (size (changes hc)))%nat).
  { simpl. rewrite map_size_insert. destruct (changes hc !! _); simpl; lia. }
  set (hc1 := if _ && _ then _ else _).
  assert (H1 : (size (changes hc1) ≤ size (changes (pushed change hc)))%nat).
  { unfold hc1. destruct (_ && _); [|done]. apply size_subseteq, remove_changes_subseteq. }
  destruct (is_hc_writer hc1); simpl; lia.
Qed.

Lemma add_change_size change rel limits history hc hc' r :
  hc_wf hc → hc_type hc ≠ HcWriter ∨ rel = true →
  max_samples limits ≠ LENGTH_UNLIMITED → 2 ≤ as_usize (max_samples limits) →
  Z.of_nat (size (changes hc)) < as_usize (max_samples limits) →
  add_change change rel limits history hc = Done (hc', r) →
  Z.of_nat (size (changes hc')) < as_usize (max_samples limits).
Proof.
  intros Hwf Hty Hlim HM Hsz. unfold add_change.
  destruct (changes hc !! change_key change) eqn:E.
  { case_bool_decide; [|done]. destruct (hc_type hc); intros [= <- <-]; done. }
  rewrite make_room_alt. destruct (decide (full limits hc)) as [Hf|Hf]; simpl; last first.
  { intros [= <- <-]. pose proof (insert_change_size change history hc).
    assert (¬ as_usize (max_samples limits) ≤ Z.of_nat (size (changes hc)) + 1) by (by intros ?; apply Hf).
    lia. }
  destruct (hc_type hc) eqn:Et, rel; simpl; try by intros [= <- <-].
  2: by destruct Hty.
  destruct (head (ts2key hc)) as [k|] eqn:Eh; simpl; [|done]. intros [= <- <-].
  pose proof (insert_change_size change history (remove_change k false hc)) as Hi.
  assert (is_Some (changes hc !! k)) as Hk.
  { apply (wf_ts2key _ Hwf). destruct (ts2key hc); simplify_eq/=. by left. }
  assert (Hr : removable k hc).
  { unfold removable. rewrite (wf_not_writer _ Hwf) by congruence. set_solver. }
  rewrite changes_remove_change in Hi by done.
  rewrite map_size_delete_Some in Hi by done. lia.
Qed.

(** C39. The size bound that the resource limit guarantees, whatever the
    interleaving: a reader's cache, and a reliable writer's, always hold fewer
    than [max_samples] changes when [max_samples] is at least 2 (one fewer
    than the QoS promises, the test being [len + 1 >= max_samples]). *)
Theorem resource_limit_bound rel limits history ty hc :
  ty ≠ HcWriter ∨ rel = true →
  max_samples limits ≠ LENGTH_UNLIMITED → 2 ≤ as_usize (max_samples limits) →
  hc_reachable rel limits history ty hc →
  Z.of_nat (size (changes hc)) < as_usize (max_samples limits).
Proof.
  intros Hty Hlim HM Hr.
  enough (hc_type hc = ty ∧ Z.of_nat (size (changes hc)) < as_usize (max_samples limits)) by naive_solver.
  induction Hr as [|hc hc' Hr IH Hstep]; [split; [done|]; simpl changes; rewrite map_size_empty; lia|].
  destruct IH as [<- IH].
  assert (Hwf : hc_wf hc) by by eapply reachable_wf. split; [by eapply hc_step_type|].
  apply hc_step_changes in Hstep as [Hsub|(change & r & Hadd)].
  - apply size_subseteq in Hsub. lia.
  - by eapply add_change_size.
Qed.

(** *** Sequence-number bounds *)

(** A stored change that the writer has already processed. *)
Definition processed (hc : HistoryCache) (s : Z) : Prop :=
  s ∉ unprocessed_seqnum hc ∧ ∃ k, is_Some (changes hc !! k) ∧ hk_seq_num k = s.

Lemma min_loop (u : gset Z) (l : list HCKey) (m0 : Z) :
  let m := foldl (λ m k, if bool_decide (hk_seq_num k < m) && negb (bool_decide (hk_seq_num k ∈ u))
                         then hk_seq_num k else m) m0 l in
  m ≤ m0 ∧ (m = m0 ∨ ∃ k, k ∈ l ∧ hk_seq_num k = m ∧ m ∉ u) ∧
  (∀ k, k ∈ l → hk_seq_num k ∉ u → m ≤ hk_seq_num k).
Proof.
  revert m0. induction l as [|k l IH]; intros m0; simpl; [set_solver by lia|].
  set (m1 := if _ && _ then _ else _). specialize (IH m1). cbv zeta in IH.
  set (m := foldl _ m1 l) in *. clearbody m. destruct IH as (H1 & H2 & H3).
  assert (Hm1 : m1 ≤ m0 ∧ (m1 = m0 ∨ m1 = hk_seq_num k ∧ m1 ∉ u) ∧ (hk_seq_num k ∉ u → m1 ≤ hk_seq_num k)).
  { unfold m1. destruct (bool_decide_case (hk_seq_num k < m0)) as [[-> ?]|[-> ?]];
      destruct (bool_decide_case (hk_seq_num k ∈ u)) as [[-> ?]|[-> ?]]; simpl;
      split_and!; auto with lia. done. }
  destruct Hm1 as (Ha & Hb & Hc). split_and!; [lia| |].
  - destruct H2 as [->|(k' & ? & ? & ?)]; [destruct Hb as [->|[Hb ?]]|].
    + by left.
    + right. exists k. split_and!; [by left|done|done].
    + right. exists k'. split_and!; [by right|done|done].
  - intros k' [->|Hk']%elem_of_cons Hu; [specialize (Hc Hu); lia|by apply H3].
Qed.

Lemma max_loop (u : gset Z) (l : list HCKey) (m0 : Z) :
  let m := foldl (λ m k, if bool_decide (m < hk_seq_num k) && negb (bool_decide (hk_seq_num k ∈ u))
                         then hk_seq_num k else m) m0 l in
  m0 ≤ m ∧ (m = m0 ∨ ∃ k, k ∈ l ∧ hk_seq_num k = m ∧ m ∉ u) ∧
  (∀ k, k ∈ l → hk_seq_num k ∉ u → hk_seq_num k ≤ m).
Proof.
  revert m0. induction l as [|k l IH]; intros m0; simpl; [set_solver by lia|].
  set (m1 := if _ && _ then _ else _). specialize (IH m1). cbv zeta in IH.
  set (m := foldl _ m1 l) in *. clearbody m. destruct IH as (H1 & H2 & H3).
  assert (Hm1 : m0 ≤ m1 ∧ (m1 = m0 ∨ m1 = hk_seq_num k ∧ m1 ∉ u) ∧ (hk_seq_num k ∉ u → hk_seq_num k ≤ m1)).
  { unfold m1. destruct (bool_decide_case (m0 < hk_seq_num k)) as [[-> ?]|[-> ?]];
      destruct (bool_decide_case (hk_seq_num k ∈ u)) as [[-> ?]|[-> ?]]; simpl;
      split_and!; auto with lia. done. }
  destruct Hm1 as (Ha & Hb & Hc). split_and!; [lia| |].
  - destruct H2 as [->|(k' & ? & ? & ?)]; [destruct Hb as [->|[Hb ?]]|].
    + by left.
    + right. exists k. split_and!; [by left|done|done].
    + right. exists k'. split_and!; [by right|done|done].
  - intros k' [->|Hk']%elem_of_cons Hu; [specialize (Hc Hu); lia|by apply H3].
Qed.

(** Sequence numbers that a writer can have given to a change. *)
Definition positive_seqs (hc : HistoryCache) : Prop :=
  ∀ k, is_Some (changes hc !! k) → 0 < hk_seq_num k < Sn.MAX.

Lemma get_seq_num_min_cases hc :
  positive_seqs hc →
  let m := get_seq_num_min hc in
  (m = 0 ∧ ∀ s, ¬ processed hc s) ∨ (processed hc m ∧ ∀ s, processed hc s → m ≤ s).
Proof.
  intros Hpos. unfold get_seq_num_min. cbv zeta.
  pose proof (min_loop (unprocessed_seqnum hc) (bt_keys (changes hc)) Sn.MAX) as Hl. cbv zeta in Hl.
  set (m := foldl _ _ _) in *. clearbody m. destruct Hl as (H1 & H2 & H3).
  assert (H3' : ∀ s, processed hc s → m ≤ s).
  { intros s (Hs & k & Hk & <-). apply H3; [by apply elem_of_bt_keys|done]. }
  destruct (bool_decide_case (m = Sn.MAX)) as [[-> ->]|[-> Hm]].
  - left. split; [done|]. intros s Hs. pose proof (H3' s Hs).
    destruct Hs as (? & k & Hk & <-). apply Hpos in Hk. lia.
  - right. destruct H2 as [?|(k & Hk & <- & Hu)]; [done|]. split; [|done].
    split; [done|]. exists k. split; [by apply elem_of_bt_keys|done].
Qed.

Lemma get_seq_num_max_cases hc :
  positive_seqs hc →
  let m := get_seq_num_max hc in
  (m = 0 ∧ ∀ s, ¬ processed hc s) ∨ (processed hc m ∧ ∀ s, processed hc s → s ≤ m).
Proof.
  intros Hpos. unfold get_seq_num_max. cbv zeta.
  pose proof (max_loop (unprocessed_seqnum hc) (bt_keys (changes hc)) Sn.MIN) as Hl. cbv zeta in Hl.
  set (m := foldl _ _ _) in *. clearbody m. destruct Hl as (H1 & H2 & H3).
  assert (H3' : ∀ s, processed hc s → s ≤ m).
  { intros s (Hs & k & Hk & <-). apply H3; [by apply elem_of_bt_keys|done]. }
  assert (HMIN : Sn.MIN < 0) by done.
  destruct (bool_decide_case (m = Sn.MIN)) as [[-> ->]|[-> Hm]].
  - left. split; [done|]. intros s Hs. pose proof (H3' s Hs).
    destruct Hs as (? & k & Hk & <-). apply Hpos in Hk. lia.
  - right. destruct H2 as [?|(k & Hk & <- & Hu)]; [done|]. split; [|done].
    split; [done|]. exists k. split; [by apply elem_of_bt_keys|done].
Qed.

(** [get_seq_num_min] and [get_seq_num_max] delimit the changes the writer
    has processed: both are 0 when there is none, and otherwise both belong
    to such a change and every other one lies between them. *)
Theorem get_seq_num_min_max_spec hc :
  positive_seqs hc →
  (get_seq_num_min hc = 0 ∧ get_seq_num_max hc = 0 ∧ ∀ s, ¬ processed hc s) ∨
  (processed hc (get_seq_num_min hc) ∧ processed hc (get_seq_num_max hc) ∧
   ∀ s, processed hc s → get_seq_num_min hc ≤ s ≤ get_seq_num_max hc).
Proof.
  intros Hpos. pose proof (get_seq_num_min_cases _ Hpos). pose proof (get_seq_num_max_cases _ Hpos).
  naive_solver.
Qed.

(** *** Taken keys *)

(** [get_taken_less_than] splits the taken keys: it returns, in ascending
    order, those of the writer below the bound and leaves the others. *)
Theorem get_taken_less_than_splits guid sn hc hc' l :
  get_taken_less_than guid sn hc = Done (hc', l) →
  StronglySorted ord_lt l ∧ changes hc' = changes hc ∧
  (∀ k, k ∈ l ↔ k ∈ taken_key hc ∧ hk_guid k = guid ∧ hk_seq_num k < sn) ∧
  (∀ k, k ∈ taken_key hc' ↔ k ∈ taken_key hc ∧ k ∉ l).
Proof.
  unfold get_taken_less_than. destruct (is_hc_reader hc); [|done]. intros [= <- <-].
  assert (Hl : ∀ k, k ∈ filter (λ k, hk_guid k = guid ∧ hk_seq_num k < sn) (bt_elems (taken_key hc)) ↔
     k ∈ taken_key hc ∧ hk_guid k = guid ∧ hk_seq_num k < sn).
  { intros k. rewrite list_elem_of_filter, elem_of_bt_elems. naive_solver. }
  split_and!; [apply sorted_filter, bt_elems_sorted|done|done|].
  intros k. simpl. rewrite elem_of_filter, Hl. naive_solver.
Qed.

(** *** Removing a writer's changes *)

(** When a remote writer is lost, exactly its changes leave the reader's
    cache; the changes of the other writers stay. *)
Theorem remove_change_from_writer_spec guid hc k :
  hc_wf hc → hc_type hc = HcReader →
  changes (remove_change_from_writer guid hc) !! k =
    if bool_decide (hk_guid k = guid) then None else changes hc !! k.
Proof.
  intros Hwf Hty. unfold remove_change_from_writer, is_hc_reader.
  rewrite bool_decide_true, lookup_remove_changes by
    (done || apply (wf_not_writer _ Hwf); congruence).
  destruct (bool_decide_case (hk_guid k = guid)) as [[-> Hg]|[-> Hg]].
  - destruct (changes hc !! k) as [c|] eqn:E; [|by case_bool_decide].
    rewrite bool_decide_true; [done|]. apply list_elem_of_filter. split; [done|].
    apply elem_of_bt_keys. eauto.
  - rewrite bool_decide_false; [done|]. rewrite list_elem_of_filter. naive_solver.
Qed.

(** ** Concrete caches *)
Definition sample_writer (n : Z) : GUID :=
  mkGUID (mkGuidPrefix (replicate 12 n)) (mkEntityId (0, 0, 1) Kind.WRITER_NO_KEY_USER_DEFIND).
Definition sample_change (g : GUID) (sn : Z) : CacheChange :=
  mkCacheChange Alive g sn (mkTimestamp 1 0) (Some (mkSerializedPayload [0; 1] [0; 0] [sn])).
Definition keep_last_2 : History := mkHistory KeepLast 2.
Definition keep_all : History := mkHistory KeepAll 1.
Definition limit (n : Z) : ResourceLimits := mkResourceLimits n LENGTH_UNLIMITED LENGTH_UNLIMITED.

Section sample_runs.
Context (rel : bool) (limits : ResourceLimits) (history : History).

Definition add_sample (hc : HistoryCache) (k : GUID * Z) : outcome HistoryCache :=
  r ← add_change (sample_change k.1 k.2) rel limits history hc; Done r.1.

(** The cache after the given additions. *)
Definition sample_cache (ty : HistoryCacheType) (l : list (GUID * Z)) : HistoryCache :=
  match foldM add_sample (hc_new ty) l with Done hc => hc | Panic => hc_new ty end.

Lemma sample_cache_reachable ty l : hc_reachable rel limits history ty (sample_cache ty l).
Proof.
  unfold sample_cache. pose proof (reach_new rel limits history ty) as H. revert H.
  generalize (hc_new ty) at 1 2. intros hc Hhc. destruct (foldM add_sample hc l) as [hc'|] eqn:E;
    [|apply reach_new]. revert hc Hhc E. induction l as [|k l IH]; intros hc Hhc E.
  - by injection E as <-.
  - rewrite foldM_cons in E. apply outcome_bind_Done in E as (hc1 & H1 & E).
    apply outcome_bind_Done in H1 as ([hc2 r] & H1 & [= <-]).
    eapply IH; [|exact E]. eapply reach_step; [exact Hhc|by eapply step_add_change].
Qed.

Lemma sample_cache_wf ty l : hc_wf (sample_cache ty l).
Proof. eapply reachable_wf, sample_cache_reachable. Qed.
End sample_runs.

Definition w1_changes : list (GUID * Z) := [(sample_writer 1, 1); (sample_writer 1, 2)].
Definition two_writers : list (GUID * Z) := w1_changes ++ [(sample_writer 2, 1)].

Lemma hc_reachable_wf_witness :
  hc_reachable true (limit (-1)) keep_all HcReader
    (sample_cache true (limit (-1)) keep_all HcReader two_writers) ∧
  hc_wf (sample_cache true (limit (-1)) keep_all HcReader two_writers).
Proof.
  split; [apply sample_cache_reachable|]. eapply hc_reachable_wf, sample_cache_reachable.
Defined.

Lemma get_ready_changes_spec_witness :
  let hc := set_ready (λ _, {[mkHCKey (sample_writer 1) 1]})
              (sample_cache true (limit (-1)) keep_all HcReader two_writers) in
  hc_wf hc ∧ ∃ keys cs, get_ready_changes hc = Done (keys, cs) ∧
    StronglySorted ord_lt keys ∧
    (∀ k, k ∈ keys ↔ k ∈ ready_key hc ∧ ∃ c, changes hc !! k = Some c ∧ change_kind c = Alive) ∧
    Forall2 (λ k c, changes hc !! k = Some c) keys cs.
Proof.
  cbv zeta. assert (Hwf : hc_wf (set_ready (λ _, {[mkHCKey (sample_writer 1) 1]})
      (sample_cache true (limit (-1)) keep_all HcReader two_writers))).
  { pose proof (sample_cache_wf true (limit (-1)) keep_all HcReader two_writers) as H0.
    split; simpl; try apply H0; [|done].
    intros k ->%elem_of_singleton. vm_compute. by eexists. }
  split; [exact Hwf|]. apply (get_ready_changes_spec _ Hwf).
Defined.

Lemma add_change_panics_iff_witness :
  let hc := sample_cache false (limit 1) keep_all HcReader [] in
  hc_wf hc ∧ hc_type hc ≠ HcDummy ∧
  add_change (sample_change (sample_writer 1) 1) false (limit 1) keep_all hc = Panic.
Proof.
  cbv zeta. split; [apply sample_cache_wf|]. split; [done|].
  apply (add_change_panics_iff _ false (limit 1) keep_all); [apply sample_cache_wf|done|].
  right. split; [split; vm_compute; done|]. split; done.
Defined.

Lemma keep_last_spec_witness :
  let hc := sample_cache true (limit (-1)) keep_last_2 HcReader w1_changes in
  let change := sample_change (sample_writer 1) 3 in
  let hc' := sample_cache true (limit (-1)) keep_last_2 HcReader (w1_changes ++ [(sample_writer 1, 3)]) in
  add_change change true (limit (-1)) keep_last_2 hc = Done (hc', inr tt) ∧
  Z.of_nat (size (changes hc')) = 2.
Proof.
  cbv zeta. split; [vm_compute; reflexivity|].
  destruct (keep_last_spec (sample_change (sample_writer 1) 3) true (limit (-1)) keep_last_2
    (sample_cache true (limit (-1)) keep_last_2 HcReader w1_changes)
    (sample_cache true (limit (-1)) keep_last_2 HcReader (w1_changes ++ [(sample_writer 1, 3)])))
    as (_ & Hsize & _).
  - apply sample_cache_wf.
  - vm_compute. reflexivity.
  - intros [H _]. by apply H.
  - vm_compute. reflexivity.
  - reflexivity.
  - split; vm_compute; congruence.
  - vm_compute. reflexivity.
  - rewrite Hsize. vm_compute. reflexivity.
Defined.

Lemma resource_limit_bound_witness :
  let hc := sample_cache true (limit 3) keep_all HcWriter two_writers in
  Z.of_nat (size (changes hc)) < 3.
Proof.
  cbv zeta. apply (resource_limit_bound true (limit 3) keep_all HcWriter);
    [by right|done|vm_compute; congruence|apply sample_cache_reachable].
Defined.

Lemma get_seq_num_min_max_spec_witness :
  let hc := set_unprocessed (λ _, {[2]}) (sample_cache true (limit (-1)) keep_all HcWriter w1_changes) in
  positive_seqs hc ∧
  ((get_seq_num_min hc = 0 ∧ get_seq_num_max hc = 0 ∧ ∀ s, ¬ processed hc s) ∨
  (processed hc (get_seq_num_min hc) ∧ processed hc (get_seq_num_max hc) ∧
   ∀ s, processed hc s → get_seq_num_min hc ≤ s ≤ get_seq_num_max hc)).
Proof.
  cbv zeta. set (hc := set_unprocessed _ _).
  assert (Hpos : positive_seqs hc).
  { intros k [c Hk].
    assert (Hall : map_Forall (λ k (_ : CacheChange), 0 < hk_seq_num k < Sn.MAX) (changes hc))
      by (eapply bool_decide_unpack; vm_compute; exact I).
    exact (Hall k c Hk). }
  split; [exact Hpos|]. exact (get_seq_num_min_max_spec hc Hpos).
Defined.

Lemma get_taken_less_than_splits_witness :
  let hc := set_taken (λ _, {[mkHCKey (sample_writer 1) 1; mkHCKey (sample_writer 1) 2]})
              (hc_new HcReader) in
  ∃ hc' l, get_taken_less_than (sample_writer 1) 2 hc = Done (hc', l) ∧
    (∀ k, k ∈ l ↔ k ∈ taken_key hc ∧ hk_guid k = sample_writer 1 ∧ hk_seq_num k < 2).
Proof.
  cbv zeta. eexists _, _. split; [reflexivity|].
  apply (get_taken_less_than_splits (sample_writer 1) 2
    (set_taken (λ _, {[mkHCKey (sample_writer 1) 1; mkHCKey (sample_writer 1) 2]}) (hc_new HcReader)) _ _ eq_refl).
Defined.

Lemma remove_change_from_writer_spec_witness :
  let hc := sample_cache true (limit (-1)) keep_all HcReader two_writers in
  changes (remove_change_from_writer (sample_writer 1) hc) !! mkHCKey (sample_writer 1) 1 = None ∧
  changes (remove_change_from_writer (sample_writer 1) hc) !! mkHCKey (sample_writer 2) 1
    = Some (sample_change (sample_writer 2) 1).
Proof.
  cbv zeta. rewrite !(remove_change_from_writer_spec (sample_writer 1)) by (apply sample_cache_wf || done).
  split; vm_compute; reflexivity.
Defined.

(** *** A best-effort writer can outgrow its limit

    The oldest change is refused removal while it is unprocessed, and
    [add_change] stores the new one all the same. *)
Example best_effort_writer_outgrows :
  let limits := mkResourceLimits 3 LENGTH_UNLIMITED LENGTH_UNLIMITED in
  let history := mkHistory KeepAll 1 in
  let add hc sn : outcome HistoryCache :=
    r ← add_change (sample_change (sample_writer 1) sn) false limits history hc; Done r.1 in
  (λ hc, size (changes hc)) <$> foldM add (hc_new HcWriter) [1; 2; 3; 4] = Done 4%nat.
Proof. vm_compute. reflexivity. Qed.
