(* ===== verification/Message.v ===== *)
(** * RTPS messages

    src/src/message/message_header.rs, submessage.rs, submessage/*.rs,
    submessage/element/*.rs and message_builder.rs: the data of a message,
    the validity tests of its submessages and their construction.  A
    [BitFlags] value is its [bits()]. *)
From stdpp Require Import base tactics numbers list gmap sorting.
From S2P Require Import Prelude Ordered Ids Time SeqNum Qos HistoryCache.

Inductive Endianness := LittleEndian | BigEndian.
#[export] Instance Endianness_eq_dec : EqDecision Endianness.
Proof. solve_decision. Defined.

(** ** Flags *)
Module Flag.
Definition Endianness : Z := 1.
Module AckNack.
Definition Final : Z := 2.
End AckNack.
Module Data.
Definition InlineQos : Z := 2.
Definition Data : Z := 4.
Definition Key : Z := 8.
Definition NonStandardPayload : Z := 16.
End Data.
Module DataFrag.
Definition InlineQos : Z := 2.
Definition NonStandardPayload : Z := 4.
Definition Key : Z := 8.
End DataFrag.
Module Gap.
Definition GroupInfo : Z := 2.
End Gap.
Module Heartbeat.
Definition Final : Z := 2.
Definition Liveliness : Z := 4.
Definition GroupInfo : Z := 8.
End Heartbeat.
Module InfoReply.
Definition Multicast : Z := 2.
End InfoReply.
Module InfoTimestamp.
Definition Invalidate : Z := 2.
End InfoTimestamp.
End Flag.

Definition contains (flags flag : Z) : bool := bool_decide (Z.land flags flag = flag).
Definition from_enndianness (e : Endianness) : Z :=
  match e with LittleEndian => Flag.Endianness | BigEndian => 0 end.

(** ** Submessage headers *)
Inductive SubMessageKind :=
| PAD | ACKNACK | HEARTBEAT | GAP | INFO_TS | INFO_SRC | INFO_REPLY_IP4 | INFO_DST
| INFO_REPLY | NACK_FRAG | HEARTBEAT_FRAG | DATA | DATA_FRAG | UNKNOWN_RTPS | VENDORSPECIFIC.
#[export] Instance SubMessageKind_eq_dec : EqDecision SubMessageKind.
Proof. solve_decision. Defined.

(** [kind as u8]; the last two take the values after 0x16. *)
Definition kind_as_u8 (k : SubMessageKind) : Z :=
  match k with
  | PAD => 0x01 | ACKNACK => 0x06 | HEARTBEAT => 0x07 | GAP => 0x08 | INFO_TS => 0x09
  | INFO_SRC => 0x0c | INFO_REPLY_IP4 => 0x0d | INFO_DST => 0x0e | INFO_REPLY => 0x0f
  | NACK_FRAG => 0x12 | HEARTBEAT_FRAG => 0x13 | DATA => 0x15 | DATA_FRAG => 0x16
  | UNKNOWN_RTPS => 0x17 | VENDORSPECIFIC => 0x18
  end.

Record SubMessageHeader := mkSubMessageHeader {
  submessage_id : Z;
  flags : Z;
  submessage_length : Z;
}.
#[export] Instance SubMessageHeader_eq_dec : EqDecision SubMessageHeader.
Proof. solve_decision. Defined.

Definition get_endian (h : SubMessageHeader) : Endianness :=
  if bool_decide (Z.land (flags h) 1 = 0) then BigEndian else LittleEndian.

Definition get_submessagekind (h : SubMessageHeader) : SubMessageKind :=
  match submessage_id h with
  | 0x01 => PAD | 0x06 => ACKNACK | 0x07 => HEARTBEAT | 0x08 => GAP | 0x09 => INFO_TS
  | 0x0c => INFO_SRC | 0x0d => INFO_REPLY_IP4 | 0x0e => INFO_DST | 0x0f => INFO_REPLY
  | 0x12 => NACK_FRAG | 0x13 => HEARTBEAT_FRAG | 0x15 => DATA | 0x16 => DATA_FRAG
  | id => if bool_decide (id ≤ 0x7f) then UNKNOWN_RTPS else VENDORSPECIFIC
  end.

(** ** Submessages

    [Param] is the source's [Parameter]. *)
Record Param := mkParam { parameter_id : Z; parameter_value : list Z }.
#[export] Instance Param_eq_dec : EqDecision Param.
Proof. solve_decision. Defined.
Definition ParameterList := list Param.

Record Data := mkData {
  data_reader_id : EntityId;
  data_writer_id : EntityId;
  data_writer_sn : Z;
  data_inline_qos : option ParameterList;
  data_serialized_payload : option SerializedPayload;
}.
#[export] Instance Data_eq_dec : EqDecision Data.
Proof. solve_decision. Defined.

Record DataFrag := mkDataFrag {
  datafrag_reader_id : EntityId;
  datafrag_writer_id : EntityId;
  datafrag_writer_sn : Z;
  fragment_starting_num : Z;
  fragments_in_submessage : Z;
  data_size : Z;
  fragment_size : Z;
  datafrag_inline_qos : option ParameterList;
  datafrag_serialized_payload : SerializedPayload;
}.
#[export] Instance DataFrag_eq_dec : EqDecision DataFrag.
Proof. solve_decision. Defined.

Record Heartbeat := mkHeartbeat {
  hb_reader_id : EntityId;
  hb_writer_id : EntityId;
  first_sn : Z;
  last_sn : Z;
  hb_count : Z;
  current_gsn : option Z;
  first_gsn : option Z;
  last_gsn : option Z;
  writer_set : option (list Z);
  secure_writer_set : option (list Z);
}.
#[export] Instance Heartbeat_eq_dec : EqDecision Heartbeat.
Proof. solve_decision. Defined.

Record HeartbeatFrag := mkHeartbeatFrag {
  hbf_reader_id : EntityId;
  hbf_writer_id : EntityId;
  hbf_writer_sn : Z;
  last_fragment_num : Z;
  hbf_count : Z;
}.
#[export] Instance HeartbeatFrag_eq_dec : EqDecision HeartbeatFrag.
Proof. solve_decision. Defined.

Record Gap := mkGap {
  gap_reader_id : EntityId;
  gap_writer_id : EntityId;
  gap_start : Z;
  gap_list : NumberSet;
  gap_start_gsn : option Z;
  gap_end_gsn : option Z;
}.
#[export] Instance Gap_eq_dec : EqDecision Gap.
Proof. solve_decision. Defined.

Record AckNack := mkAckNack {
  an_reader_id : EntityId;
  an_writer_id : EntityId;
  reader_sn_state : NumberSet;
  an_count : Z;
}.
#[export] Instance AckNack_eq_dec : EqDecision AckNack.
Proof. solve_decision. Defined.

(** [fragment_number_state] is a set of [u32] numbers. *)
Record NackFrag := mkNackFrag {
  nf_reader_id : EntityId;
  nf_writer_id : EntityId;
  nf_writer_sn : Z;
  fragment_number_state : NumberSet;
  nf_count : Z;
}.
#[export] Instance NackFrag_eq_dec : EqDecision NackFrag.
Proof. solve_decision. Defined.

Record ProtocolVersion := mkProtocolVersion { major : Z; minor : Z }.
#[export] Instance ProtocolVersion_eq_dec : EqDecision ProtocolVersion.
Proof. solve_decision. Defined.
Definition PROTOCOLVERSION : ProtocolVersion := mkProtocolVersion 2 3.
(** [b"RTPS"]. *)
Definition PROTOCOLVID : list Z := [0x52; 0x54; 0x50; 0x53].

Record InfoSource := mkInfoSource {
  is_unused : Z;
  is_protocol_version : ProtocolVersion;
  is_vendor_id : list Z;
  is_guid_prefix : GuidPrefix;
}.
#[export] Instance InfoSource_eq_dec : EqDecision InfoSource.
Proof. solve_decision. Defined.

Record InfoReply := mkInfoReply {
  ir_unicast_locator_list : list Locator;
  ir_multicast_locator_list : option (list Locator);
}.
#[export] Instance InfoReply_eq_dec : EqDecision InfoReply.
Proof. solve_decision. Defined.

Inductive EntitySubmessage :=
| EData (d : Data) (f : Z)
| EDataFrag (d : DataFrag) (f : Z)
| EHeartBeat (h : Heartbeat) (f : Z)
| EHeartbeatFrag (h : HeartbeatFrag) (f : Z)
| EGap (g : Gap) (f : Z)
| EAckNack (a : AckNack) (f : Z)
| ENackFrag (n : NackFrag) (f : Z).

Inductive InterpreterSubmessage :=
| IInfoSource (s : InfoSource) (f : Z)
| IInfoDestination (guid_prefix : GuidPrefix) (f : Z)
| IInfoTimestamp (timestamp : option Timestamp) (f : Z)
| IInfoReply (r : InfoReply) (f : Z)
| IInfoReplyIp4 (r : InfoReply) (f : Z).

Inductive SubMessageBody :=
| Entity (e : EntitySubmessage)
| Interpreter (i : InterpreterSubmessage).
#[export] Instance EntitySubmessage_eq_dec : EqDecision EntitySubmessage.
Proof. solve_decision. Defined.
#[export] Instance InterpreterSubmessage_eq_dec : EqDecision InterpreterSubmessage.
Proof. solve_decision. Defined.
#[export] Instance SubMessageBody_eq_dec : EqDecision SubMessageBody.
Proof. solve_decision. Defined.

Record SubMessage := mkSubMessage {
  sm_header : SubMessageHeader;
  sm_body : SubMessageBody;
}.
#[export] Instance SubMessage_eq_dec : EqDecision SubMessage.
Proof. solve_decision. Defined.

Record Header := mkHeader {
  protocol : list Z;
  version : ProtocolVersion;
  vendor_id : list Z;
  header_guid_prefix : GuidPrefix;
}.
#[export] Instance Header_eq_dec : EqDecision Header.
Proof. solve_decision. Defined.

Definition header_new (p : GuidPrefix) : Header :=
  mkHeader PROTOCOLVID PROTOCOLVERSION VENDORID_THIS_IMPLEMENTATION p.

Record Message := mkMessage {
  msg_header : Header;
  submessages : list SubMessage;
}.
#[export] Instance Message_eq_dec : EqDecision Message.
Proof. solve_decision. Defined.

(** ** Validity of received submessages *)

Definition acknack_is_valid (a : AckNack) : bool := sns_is_valid (reader_sn_state a).

(** [Gap::is_valid]. *)
Definition gap_is_valid (g : Gap) (flag : Z) : bool :=
  if bool_decide (gap_start g ≤ 0) then false
  else if negb (sns_is_valid (gap_list g)) then false
  else if contains flag Flag.Gap.GroupInfo then
    match gap_start_gsn g with
    | None => false
    | Some gs =>
        if bool_decide (gs ≤ 0) then false
        else match gap_end_gsn g with
             | None => false
             | Some ge =>
                 if bool_decide (ge ≤ 0) then false
                 else negb (bool_decide (ge < Sn.sub gs 1))
             end
    end
  else true.

(** [Heartbeat::is_valid]: the group information is [unwrap]ped. *)
Definition heartbeat_is_valid (h : Heartbeat) (flag : Z) : outcome bool :=
  if bool_decide (first_sn h ≤ 0) then Done false
  else if bool_decide (last_sn h < 0) then Done false
  else if bool_decide (last_sn h < Sn.sub (first_sn h) 1) then Done false
  else if contains flag Flag.Heartbeat.GroupInfo then
    cur ← unwrap (current_gsn h);
    if bool_decide (cur ≤ 0) then Done false else
    fst ← unwrap (first_gsn h);
    if bool_decide (fst ≤ 0) then Done false else
    lst ← unwrap (last_gsn h);
    if bool_decide (lst < 0) then Done false else
    if bool_decide (lst < Sn.sub fst 1) then Done false else
    if bool_decide (cur < fst) then Done false else
    if bool_decide (cur < lst) then Done false else Done true
  else Done true.

(** ** MessageBuilder *)
Module Build.
Definition t := list SubMessage.
Definition new : t := [].

Definition push (kind : SubMessageKind) (flag length : Z) (body : SubMessageBody) (b : t) : t :=
  b ++ [mkSubMessage (mkSubMessageHeader (kind_as_u8 kind) flag length) body].

Definition info_ts (e : Endianness) (timestamp : option Timestamp) (b : t) : t :=
  let '(ts, flag) :=
    match timestamp with
    | Some t => (t, from_enndianness e)
    | None => (Ts.TIME_INVALID, Z.lor (from_enndianness e) Flag.InfoTimestamp.Invalidate)
    end in
  push INFO_TS flag 8 (Interpreter (IInfoTimestamp (Some ts) flag)) b.

Definition info_dst (e : Endianness) (destination : GuidPrefix) (b : t) : t :=
  let flag := from_enndianness e in
  push INFO_DST flag 12 (Interpreter (IInfoDestination destination flag)) b.

Definition acknack (e : Endianness) (writer_id reader_id : EntityId) (state : NumberSet)
    (count : Z) (is_final : bool) (b : t) : t :=
  let flag := if is_final then Z.lor (from_enndianness e) Flag.AckNack.Final
              else from_enndianness e in
  push ACKNACK flag (as_u16 (12 + sns_size state))
    (Entity (EAckNack (mkAckNack reader_id writer_id state count) flag)) b.

Definition heartbeat (e : Endianness) (liveliness : bool) (writer_id reader_id : EntityId)
    (first_sn last_sn count : Z) (is_final : bool) (b : t) : t :=
  let flag := from_enndianness e in
  let flag := if is_final then Z.lor flag Flag.Heartbeat.Final else flag in
  let flag := if liveliness then Z.lor flag Flag.Heartbeat.Liveliness else flag in
  push HEARTBEAT flag 28
    (Entity (EHeartBeat (mkHeartbeat reader_id writer_id first_sn last_sn count
                           None None None None None) flag)) b.

Definition data (e : Endianness) (writer_id reader_id : EntityId) (c : CacheChange) (b : t) : t :=
  let '(flag, payload_length) :=
    match data_value c with
    | Some payload => (Z.lor (from_enndianness e) Flag.Data.Data, 4 + Z.of_nat (length (sp_value payload)))
    | None => (from_enndianness e, 0)
    end in
  let inline_qos_len := 0 in
  push DATA flag (as_u16 (2 + 2 + 4 + 4 + 8 + inline_qos_len + payload_length))
    (Entity (EData (mkData reader_id writer_id (sequence_number c) None (data_value c)) flag)) b.

Definition gap (e : Endianness) (writer_id reader_id : EntityId) (gap_start : Z)
    (gap_list : NumberSet) (b : t) : t :=
  let flag := from_enndianness e in
  push GAP flag (as_u16 (16 + sns_size gap_list))
    (Entity (EGap (mkGap reader_id writer_id gap_start gap_list None None) flag)) b.

Definition build (self_guid_prefix : GuidPrefix) (b : t) : Message :=
  mkMessage (header_new self_guid_prefix) b.
End Build.
