(* ===== verification/Proxy.v ===== *)
(** * Reader and writer proxies

    src/src/structure/proxy.rs and the change-for-reader/change-from-writer
    records of src/src/rtps/cache.rs.  A proxy holds what one endpoint knows
    of one matched remote endpoint: its locators, its QoS and the status of
    every change.  The handle on the shared history cache that the proxies
    carry is read only while a [ReaderProxy] is created, where it is an
    argument. *)
From stdpp Require Import base tactics numbers list gmap sorting.
From S2P Require Import Prelude Ordered Ids Time SeqNum Qos HistoryCache.

(** ** Changes as one endpoint sees them *)
Inductive ChangeForReaderStatusKind :=
| Unsent | Unacknowledged | Requested | Acknowledged | Underway.
#[export] Instance ChangeForReaderStatusKind_eq_dec : EqDecision ChangeForReaderStatusKind.
Proof. solve_decision. Defined.

Record ChangeForReader := mkChangeForReader {
  cfr_seq_num : Z;
  cfr_status : ChangeForReaderStatusKind;
  cfr_is_relevant : bool;
}.
#[export] Instance ChangeForReader_eq_dec : EqDecision ChangeForReader.
Proof. solve_decision. Defined.

Inductive ChangeFromWriterStatusKind :=
| Lost | Missing | Received | Uuknown.
#[export] Instance ChangeFromWriterStatusKind_eq_dec : EqDecision ChangeFromWriterStatusKind.
Proof. solve_decision. Defined.

Record ChangeFromWriter := mkChangeFromWriter {
  cfw_seq_num : Z;
  cfw_status : ChangeFromWriterStatusKind;
  cfw_is_relevant : bool;
}.
#[export] Instance ChangeFromWriter_eq_dec : EqDecision ChangeFromWriter.
Proof. solve_decision. Defined.

Definition cfr_set_status (st : ChangeForReaderStatusKind) (c : ChangeForReader) : ChangeForReader :=
  mkChangeForReader (cfr_seq_num c) st (cfr_is_relevant c).
Definition cfw_set_status (st : ChangeFromWriterStatusKind) (c : ChangeFromWriter) : ChangeFromWriter :=
  mkChangeFromWriter (cfw_seq_num c) st (cfw_is_relevant c).

(** The four locator lists of a proxy. *)
Record Locators := mkLocators {
  unicast_locator_list : list Locator;
  multicast_locator_list : list Locator;
  default_unicast_locator_list : list Locator;
  default_multicast_locator_list : list Locator;
}.
#[export] Instance Locators_eq_dec : EqDecision Locators.
Proof. solve_decision. Defined.

(** The assertion of both constructors. *)
Definition has_locator (ls : Locators) : bool :=
  bool_decide (0 < Z.of_nat (length (unicast_locator_list ls) + length (multicast_locator_list ls)
    + length (default_unicast_locator_list ls) + length (default_multicast_locator_list ls))).

Definition get_unicast_locator_list (ls : Locators) : list Locator :=
  if bool_decide (unicast_locator_list ls = []) then default_unicast_locator_list ls
  else unicast_locator_list ls.

Definition get_multicast_locator_list (ls : Locators) : list Locator :=
  if bool_decide (multicast_locator_list ls = []) then default_multicast_locator_list ls
  else multicast_locator_list ls.

(** ** ReaderProxy *)
Record ReaderProxy := mkReaderProxy {
  remote_reader_guid : GUID;
  expects_inline_qos : bool;
  rp_locators : Locators;
  rp_qos : DataReaderQosPolicies;
  rp_cache_state : gmap Z ChangeForReader;
}.

Definition rp_set_cache_state f rp := mkReaderProxy (remote_reader_guid rp) (expects_inline_qos rp)
  (rp_locators rp) (rp_qos rp) (f (rp_cache_state rp)).

(** [ReaderProxy::new]. [hc] is the writer's cache at that moment; the index
    [ts2key[len - 1]] is evaluated once per stored change. *)
Definition rp_initial_relevant (guid : GUID) (durability : Durability) (latest k : HCKey) : bool :=
  match durability with
  | Volatile => false
  | TransientLocal =>
      if is_builtin (entity_id guid) then true else bool_decide (k = latest)
  end.

Definition rp_new (guid : GUID) (inline : bool) (ls : Locators) (qos : DataReaderQosPolicies)
    (hc : HistoryCache) (push_mode : bool) : outcome ReaderProxy :=
  if negb (has_locator ls) then Panic
  else
    let status := if push_mode then Unsent else Unacknowledged in
    cs ← foldM (λ m k,
           latest ← unwrap (last (ts2key hc));
           let rel := rp_initial_relevant guid (r_durability qos).1 latest k in
           Done (<[hk_seq_num k := mkChangeForReader (hk_seq_num k) status rel]> m))
         ∅ (bt_keys (changes hc));
    Done (mkReaderProxy guid inline ls qos cs).

Definition rp_update_cache_state (seq_num : Z) (is_relevant : bool)
    (state : ChangeForReaderStatusKind) (rp : ReaderProxy) : ReaderProxy :=
  rp_set_cache_state <[seq_num := mkChangeForReader seq_num state is_relevant]> rp.

(** [acked_changes_set]: collect, then update. *)
Definition acked_changes_set (commited : Z) (rp : ReaderProxy) : ReaderProxy :=
  let to_update := omap (λ s, c ← rp_cache_state rp !! s;
                           if decide (s ≤ commited) then Some (s, cfr_is_relevant c) else None)
                        (bt_keys (rp_cache_state rp)) in
  foldl (λ rp u, rp_update_cache_state u.1 u.2 Acknowledged rp) rp to_update.

Definition changes_with (st : ChangeForReaderStatusKind) (rp : ReaderProxy) : list ChangeForReader :=
  filter (λ c, cfr_status c = st) (bt_values (rp_cache_state rp)).

Definition requested_changes := changes_with Requested.
Definition unsent_changes := changes_with Unsent.
Definition unacked_changes := changes_with Unacknowledged.

(** [next_requested_change]/[next_unsent_change]: the least sequence number,
    then a search for it. *)
Definition find_min (l : list ChangeForReader) : option ChangeForReader :=
  let next := foldl (λ m c, Z.min m (cfr_seq_num c)) Sn.MAX l in
  snd <$> list_find (λ c, cfr_seq_num c = next) l.

Definition next_requested_change (rp : ReaderProxy) : option ChangeForReader :=
  find_min (requested_changes rp).
Definition next_unsent_change (rp : ReaderProxy) : option ChangeForReader :=
  find_min (unsent_changes rp).

Definition requested_changes_set (req : list Z) (rp : ReaderProxy) : ReaderProxy :=
  foldl (λ rp s,
    match rp_cache_state rp !! s with
    | Some c => rp_set_cache_state <[s := cfr_set_status Requested c]> rp
    | None => rp_update_cache_state s true Requested rp
    end) rp req.

Definition is_acked (seq_num : Z) (rp : ReaderProxy) : bool :=
  match rp_cache_state rp !! seq_num with
  | Some c => if cfr_is_relevant c then bool_decide (cfr_status c = Acknowledged) else true
  | None => true
  end.

Definition rp_remove_cache_state (seq_num : Z) (rp : ReaderProxy) : ReaderProxy :=
  rp_set_cache_state (delete seq_num) rp.

(** The loop [while let Some(c) = next(proxy)] of the writer's handlers: [c]
    becomes [Underway] and is given to the loop's body. *)
Fixpoint drain {A} (fuel : nat) (next : ReaderProxy → option ChangeForReader)
    (body : ReaderProxy → A → ChangeForReader → A) (rp : ReaderProxy) (acc : A)
    : option (ReaderProxy * A) :=
  match fuel with
  | O => None
  | S fuel =>
      match next rp with
      | None => Some (rp, acc)
      | Some c =>
          let rp := rp_update_cache_state (cfr_seq_num c) (cfr_is_relevant c) Underway rp in
          drain fuel next body rp (body rp acc c)
      end
  end.

(** ** WriterProxy *)
Record WriterProxy := mkWriterProxy {
  remote_writer_guid : GUID;
  wp_locators : Locators;
  data_max_size_serialized : Z;
  wp_qos : DataWriterQosPolicies;
  wp_cache_state : gmap Z ChangeFromWriter;
}.

Definition wp_set_cache_state f wp := mkWriterProxy (remote_writer_guid wp) (wp_locators wp)
  (data_max_size_serialized wp) (wp_qos wp) (f (wp_cache_state wp)).

Definition wp_new (guid : GUID) (ls : Locators) (dmax : Z) (qos : DataWriterQosPolicies)
    : outcome WriterProxy :=
  if negb (has_locator ls) then Panic else Done (mkWriterProxy guid ls dmax qos ∅).

Definition wp_update_cache_state (seq_num : Z) (is_relevant : bool)
    (state : ChangeFromWriterStatusKind) (wp : WriterProxy) : WriterProxy :=
  wp_set_cache_state <[seq_num := mkChangeFromWriter seq_num state is_relevant]> wp.

Definition available_changes_max (wp : WriterProxy) : Z :=
  foldl (λ m s,
    match cfw_status <$> wp_cache_state wp !! s with
    | Some Received | Some Lost => Z.max m s
    | _ => m
    end) 0 (bt_keys (wp_cache_state wp)).

Definition irrelevant_change_set (seq_num : Z) (wp : WriterProxy) : WriterProxy :=
  wp_update_cache_state seq_num false Received wp.

Definition lost_changes_update (first : Z) (wp : WriterProxy) : WriterProxy :=
  wp_set_cache_state (map_imap (λ s c, Some
    match cfw_status c with
    | Uuknown | Missing => if decide (s < first) then cfw_set_status Lost c else c
    | _ => c
    end)) wp.

Definition missing_changes (wp : WriterProxy) : list Z :=
  filter (λ s, cfw_status <$> wp_cache_state wp !! s = Some Missing) (bt_keys (wp_cache_state wp)).

(** One round of the loop of [missing_changes_update], for a number of the
    range (so that the inner test against the end of the range is true). *)
Definition missing_step (last : Z) (wp : WriterProxy) (s : Z) : WriterProxy :=
  match wp_cache_state wp !! s with
  | Some c =>
      if bool_decide (cfw_status c = Uuknown)
      then if bool_decide (s ≤ last)
           then wp_set_cache_state <[s := cfw_set_status Missing c]> wp else wp
      else wp
  | None => wp_update_cache_state s true Missing wp
  end.

Definition missing_changes_update (first last : Z) (wp : WriterProxy) : WriterProxy :=
  foldl (missing_step last) wp (seqZ first (last - first + 1)).

Definition received_change_set (seq_num : Z) (wp : WriterProxy) : WriterProxy :=
  match wp_cache_state wp !! seq_num with
  | Some c => wp_set_cache_state <[seq_num := cfw_set_status Received c]> wp
  | None => wp_update_cache_state seq_num true Received wp
  end.

Definition wp_remove_cache_state (seq_num : Z) (wp : WriterProxy) : WriterProxy :=
  wp_set_cache_state (delete seq_num) wp.

(** ** Facts on the reader proxy *)

(** Each entry is stored under its own sequence number, an [i64]. *)
Definition rp_wf (rp : ReaderProxy) : Prop :=
  ∀ s c, rp_cache_state rp !! s = Some c → cfr_seq_num c = s ∧ s ≤ Sn.MAX.

(** A drain leaves the proxy as if every change of status [st] had been
    marked [Underway] at once. *)
Definition settle (st : ChangeForReaderStatusKind) : ReaderProxy → ReaderProxy :=
  rp_set_cache_state (fmap (λ c, if decide (cfr_status c = st) then cfr_set_status Underway c else c)).

Lemma changes_with_omap st rp :
  changes_with st rp =
    omap (λ s, c ← rp_cache_state rp !! s; if decide (cfr_status c = st) then Some c else None)
         (bt_keys (rp_cache_state rp)).
Proof.
  unfold changes_with, bt_values. induction (bt_keys (rp_cache_state rp)) as [|s l IH]; [done|].
  cbn [omap list_omap]. destruct (rp_cache_state rp !! s) as [c|]; cbn [mbind option_bind]; [|done].
  rewrite filter_cons, IH. by destruct (decide _).
Qed.

Lemma elem_of_changes_with st rp c :
  c ∈ changes_with st rp ↔ cfr_status c = st ∧ ∃ s, rp_cache_state rp !! s = Some c.
Proof. unfold changes_with. by rewrite list_elem_of_filter, elem_of_bt_values. Qed.

Lemma omap_sorted {B} (f : Z → option B) (g : B → Z) (l : list Z) :
  (∀ s b, f s = Some b → g b = s) → StronglySorted ord_lt l → StronglySorted ord_lt (g <$> omap f l).
Proof.
  intros Hfg. induction 1 as [|s l Hl IH Hs]; [constructor|].
  cbn [omap list_omap]. destruct (f s) as [b|] eqn:E; [|done]. cbn. constructor; [done|].
  rewrite (Hfg _ _ E). rewrite Forall_forall in *. intros s' (b' & -> & Hb')%list_elem_of_fmap.
  apply list_elem_of_omap in Hb' as (s'' & ? & Hf). rewrite (Hfg _ _ Hf). by apply Hs.
Qed.

Lemma changes_with_sorted st rp :
  rp_wf rp → StronglySorted ord_lt (cfr_seq_num <$> changes_with st rp).
Proof.
  intros Hwf. rewrite changes_with_omap. apply omap_sorted; [|apply bt_keys_sorted].
  intros s c. destruct (rp_cache_state rp !! s) eqn:E; simpl; [|done].
  destruct (decide _); [|done]. intros [= <-]. by apply Hwf in E as [? _].
Qed.

Lemma foldl_min_ge (l : list ChangeForReader) (m : Z) :
  Forall (λ c, m ≤ cfr_seq_num c) l → foldl (λ m c, Z.min m (cfr_seq_num c)) m l = m.
Proof.
  induction 1 as [|c l Hc Hl IH]; simpl; [done|]. by rewrite Z.min_l.
Qed.

(** The least unsent (requested) change is the first one of the list. *)
Lemma find_min_head l :
  StronglySorted ord_lt (cfr_seq_num <$> l) → Forall (λ c, cfr_seq_num c ≤ Sn.MAX) l →
  find_min l = head l.
Proof.
  intros Hs Hmax. destruct l as [|c l]; [done|].
  apply Forall_cons in Hmax as [Hc _]. unfold find_min. cbv zeta.
  rewrite fmap_cons in Hs. apply StronglySorted_inv in Hs as [_ Hs].
  replace (foldl _ Sn.MAX (c :: l)) with (cfr_seq_num c).
  - simpl. by rewrite decide_True.
  - simpl. rewrite Z.min_r by done. symmetry. apply foldl_min_ge.
    rewrite Forall_fmap in Hs. eapply Forall_impl; [exact Hs|]. intros c' Hc'.
    simpl in Hc'. rewrite ord_lt_Z in Hc'. lia.
Qed.

Lemma omap_update_head {B} (f f' : Z → option B) (l : list Z) k0 c rest :
  NoDup l → omap f l = c :: rest → f k0 = Some c → f' k0 = None →
  (∀ k, k ≠ k0 → f' k = f k) → (∀ k, f k = Some c → k = k0) → omap f' l = rest.
Proof.
  intros Hnd Hf Hk0 Hk0' Heq Hinj. induction Hnd as [|k l Hk Hnd IH]; [done|].
  cbn [omap list_omap] in *. destruct (f k) as [b|] eqn:E.
  - injection Hf as -> Hrest. assert (k = k0) as -> by by apply Hinj. rewrite Hk0'.
    rewrite <-Hrest. apply list_omap_ext. apply Forall2_same_length_lookup_2; [done|].
    intros i x y Hx Hy. simplify_eq. apply Heq. intros ->. by apply Hk, list_elem_of_lookup_2 with i.
  - rewrite Heq by congruence. rewrite E. by apply IH.
Qed.

Lemma changes_with_update st rp c rest :
  rp_wf rp → st ≠ Underway → changes_with st rp = c :: rest →
  let rp' := rp_update_cache_state (cfr_seq_num c) (cfr_is_relevant c) Underway rp in
  rp_wf rp' ∧ changes_with st rp' = rest ∧ settle st rp' = settle st rp.
Proof.
  intros Hwf Hst Hc rp'.
  assert (Hin : c ∈ changes_with st rp) by (rewrite Hc; by left).
  apply elem_of_changes_with in Hin as [Hcs [s Hs]]. destruct (Hwf _ _ Hs) as [<- Hmax].
  split_and!.
  - intros s c'. simpl. rewrite lookup_insert_Some. intros [[<- <-]|[_ ?]]; [done|by apply Hwf].
  - rewrite changes_with_omap in *.
    assert (bt_keys (rp_cache_state rp') = bt_keys (rp_cache_state rp)) as ->.
    { apply bt_keys_dom. simpl. rewrite dom_insert_L. apply elem_of_dom_2 in Hs. set_solver. }
    eapply (omap_update_head _ _ _ (cfr_seq_num c)); [apply NoDup_bt_keys|exact Hc|..].
    + cbv beta. rewrite Hs. simpl. by rewrite decide_True.
    + simpl. rewrite lookup_insert_eq. simpl. by rewrite decide_False.
    + intros k Hk. simpl. by rewrite lookup_insert_ne.
    + intros k Hk. cbv beta in Hk. destruct (rp_cache_state rp !! k) as [c'|] eqn:E; simpl in Hk; [|done].
      destruct (decide _); simplify_eq. by apply Hwf in E as [? _].
  - unfold settle, rp', rp_update_cache_state, rp_set_cache_state; simpl. f_equal.
    rewrite fmap_insert. simpl. rewrite decide_False by done. apply insert_id.
    rewrite lookup_fmap, Hs. simpl. by rewrite decide_True.
Qed.

Lemma changes_with_nil_settle st rp : changes_with st rp = [] → settle st rp = rp.
Proof.
  intros Hnil. destruct rp as [g i ls q cs]. unfold settle, rp_set_cache_state; simpl in *. f_equal.
  apply map_eq. intros s. rewrite lookup_fmap. destruct (cs !! s) as [c|] eqn:E; simpl; [|done].
  rewrite decide_False; [done|]. intros Hst.
  assert (c ∈ changes_with st (mkReaderProxy g i ls q cs)) as Hin
    by (apply elem_of_changes_with; eauto).
  rewrite Hnil in Hin. by apply elem_of_nil in Hin.
Qed.

(** With enough fuel the loop terminates, having visited exactly the changes
    of status [st], in ascending sequence order. *)
Lemma drain_total {A} st (body : ReaderProxy → A → ChangeForReader → A) fuel rp acc :
  rp_wf rp → st ≠ Underway → (∀ f rp, body (rp_set_cache_state f rp) = body rp) →
  (length (changes_with st rp) < fuel)%nat →
  drain fuel (λ rp, find_min (changes_with st rp)) body rp acc =
    Some (settle st rp, foldl (body rp) acc (changes_with st rp)).
Proof.
  intros Hwf Hst Hbody. revert rp acc Hwf. induction fuel as [|fuel IH]; intros rp acc Hwf Hf; [lia|].
  cbn [drain]. rewrite find_min_head; [|by apply changes_with_sorted|]; last first.
  { apply Forall_forall. intros c (_ & s & Hs)%elem_of_changes_with.
    destruct (Hwf _ _ Hs) as [<- ?]. done. }
  destruct (changes_with st rp) as [|c rest] eqn:E; cbn [head].
  - by rewrite changes_with_nil_settle.
  - cbv zeta. destruct (changes_with_update st rp c rest Hwf Hst E) as (Hwf' & Hrest & Hset).
    cbv zeta in *. rewrite IH; [|done|rewrite Hrest; simpl in Hf; lia].
    rewrite Hrest, Hset. simpl. unfold rp_update_cache_state at 1 2. by rewrite Hbody.
Qed.

(** *** Acknowledgements *)

Lemma acked_loop (l : list (Z * bool)) rp s :
  NoDup l.*1 →
  rp_cache_state (foldl (λ rp u, rp_update_cache_state u.1 u.2 Acknowledged rp) rp l) !! s =
    match list_find (λ u, u.1 = s) l with
    | Some (_, u) => Some (mkChangeForReader s Acknowledged u.2)
    | None => rp_cache_state rp !! s
    end.
Proof.
  revert rp. induction l as [|[s' r] l IH]; intros rp Hnd; [done|].
  rewrite fmap_cons in Hnd. apply NoDup_cons in Hnd as [Hs' Hnd].
  simpl. rewrite IH by done. destruct (decide (s' = s)) as [->|Hne].
  - destruct (list_find (λ u, u.1 = s) l) as [[i u]|] eqn:E; simpl.
    + apply list_find_Some in E as (Hi & <- & _). exfalso. apply Hs'.
      apply list_elem_of_fmap. exists u. split; [done|]. by eapply list_elem_of_lookup_2.
    + by rewrite lookup_insert_eq.
  - destruct (list_find (λ u, u.1 = s) l) as [[i u]|] eqn:E; simpl; [done|].
    by rewrite lookup_insert_ne.
Qed.

Lemma acked_changes_set_lookup n rp s :
  rp_wf rp →
  rp_cache_state (acked_changes_set n rp) !! s =
    (λ c, if decide (s ≤ n) then cfr_set_status Acknowledged c else c) <$> rp_cache_state rp !! s.
Proof.
  intros Hwf. unfold acked_changes_set. cbv zeta.
  set (f := λ s, c ← rp_cache_state rp !! s; if decide (s ≤ n) then Some (s, cfr_is_relevant c) else None).
  assert (Hf : ∀ k u, f k = Some u → u.1 = k).
  { intros k u. unfold f. destruct (rp_cache_state rp !! k); simpl; [|done].
    destruct (decide _); [|done]. by intros [= <-]. }
  rewrite acked_loop; last first.
  { apply sorted_lt_NoDup. apply omap_sorted; [exact Hf|apply bt_keys_sorted]. }
  destruct (list_find _ _) as [[i u]|] eqn:E.
  - apply list_find_Some in E as (Hi & <- & _).
    apply list_elem_of_lookup_2, list_elem_of_omap in Hi as (k & _ & Hk).
    rewrite (Hf _ _ Hk). unfold f in Hk. destruct (rp_cache_state rp !! k) as [c|] eqn:Ec; [|done].
    simpl in Hk |- *. destruct (decide (k ≤ n)); [|done]. injection Hk as <-.
    apply Hwf in Ec as [<- _]. done.
  - apply list_find_None in E. rewrite Forall_forall in E.
    destruct (rp_cache_state rp !! s) as [c|] eqn:Ec; simpl; [|done].
    rewrite decide_False; [done|]. intros Hs.
    apply (E (s, cfr_is_relevant c)); [|done]. apply list_elem_of_omap.
    exists s. split; [by apply elem_of_bt_keys; rewrite Ec|]. unfold f. rewrite Ec. simpl.
    by rewrite decide_True.
Qed.

Lemma requested_changes_set_lookup req rp s :
  rp_cache_state (requested_changes_set req rp) !! s =
    if decide (s ∈ req)
    then Some match rp_cache_state rp !! s with
              | Some c => cfr_set_status Requested c
              | None => mkChangeForReader s Requested true
              end
    else rp_cache_state rp !! s.
Proof.
  unfold requested_changes_set. revert rp. induction req as [|s' req IH]; intros rp; [done|].
  simpl. rewrite IH. destruct (decide (s' = s)) as [->|Hne].
  - rewrite (decide_True (P := s ∈ s :: req)) by by left.
    assert (Hlook : rp_cache_state match rp_cache_state rp !! s with
        | Some c => rp_set_cache_state <[s := cfr_set_status Requested c]> rp
        | None => rp_update_cache_state s true Requested rp end !! s =
      Some match rp_cache_state rp !! s with
           | Some c => cfr_set_status Requested c | None => mkChangeForReader s Requested true end).
    { destruct (rp_cache_state rp !! s); simpl; by rewrite lookup_insert_eq. }
    rewrite Hlook. destruct (decide (s ∈ req)); [|done].
    by destruct (rp_cache_state rp !! s).
  - assert (Hlook : rp_cache_state match rp_cache_state rp !! s' with
        | Some c => rp_set_cache_state <[s' := cfr_set_status Requested c]> rp
        | None => rp_update_cache_state s' true Requested rp end !! s = rp_cache_state rp !! s).
    { destruct (rp_cache_state rp !! s'); simpl; by rewrite lookup_insert_ne. }
    rewrite Hlook. destruct (decide (s ∈ req)) as [Hin|Hin].
    + by rewrite decide_True by by right.
    + by rewrite decide_False by set_solver.
Qed.

(** The fields other than [rp_cache_state] never change. *)
Definition same_reader (rp rp' : ReaderProxy) : Prop :=
  rp' = rp_set_cache_state (λ _, rp_cache_state rp') rp.

Lemma same_reader_refl rp : same_reader rp rp.
Proof. by destruct rp. Qed.
Lemma same_reader_set f rp rp' : same_reader rp rp' → same_reader rp (rp_set_cache_state f rp').
Proof. unfold same_reader. intros ->. done. Qed.
#[export] Hint Resolve same_reader_refl same_reader_set : umber.

Lemma acked_same_reader n rp : same_reader rp (acked_changes_set n rp).
Proof.
  unfold acked_changes_set. cbv zeta. generalize (omap (λ s, c ← rp_cache_state rp !! s;
    if decide (s ≤ n) then Some (s, cfr_is_relevant c) else None) (bt_keys (rp_cache_state rp))).
  intros l. assert (H := same_reader_refl rp). revert H. generalize rp at 2 4 as rp'.
  induction l as [|u l IH]; intros rp' H; simpl; [done|]. apply IH. unfold rp_update_cache_state.
  by apply same_reader_set.
Qed.

Lemma requested_same_reader req rp : same_reader rp (requested_changes_set req rp).
Proof.
  unfold requested_changes_set. assert (H := same_reader_refl rp). revert H. generalize rp at 2 4 as rp'.
  induction req as [|s l IH]; intros rp' H; simpl; [done|]. apply IH. unfold rp_update_cache_state.
  destruct (rp_cache_state rp' !! s); by apply same_reader_set.
Qed.

(** *** Well-formedness is preserved *)

Lemma rp_update_wf s r st rp : s ≤ Sn.MAX → rp_wf rp → rp_wf (rp_update_cache_state s r st rp).
Proof.
  intros Hs Hwf s' c. simpl. rewrite lookup_insert_Some. intros [[<- <-]|[_ ?]]; [done|by apply Hwf].
Qed.

Lemma acked_wf n rp : rp_wf rp → rp_wf (acked_changes_set n rp).
Proof.
  intros Hwf s c. rewrite acked_changes_set_lookup by done.
  destruct (rp_cache_state rp !! s) as [c'|] eqn:E; simpl; [|done]. apply Hwf in E.
  destruct (decide _); by intros [= <-].
Qed.

Lemma requested_wf req rp : Forall (λ s, s ≤ Sn.MAX) req → rp_wf rp → rp_wf (requested_changes_set req rp).
Proof.
  intros Hreq Hwf s c. rewrite requested_changes_set_lookup. destruct (decide _) as [Hin|]; [|apply Hwf].
  rewrite Forall_forall in Hreq. apply Hreq in Hin.
  destruct (rp_cache_state rp !! s) as [c'|] eqn:E; [apply Hwf in E|]; by intros [= <-].
Qed.

Lemma rp_remove_wf s rp : rp_wf rp → rp_wf (rp_remove_cache_state s rp).
Proof. intros Hwf s' c. simpl. rewrite lookup_delete_Some. intros [_ ?]. by apply Hwf. Qed.

Lemma settle_wf st rp : rp_wf rp → rp_wf (settle st rp).
Proof.
  intros Hwf s c. simpl. rewrite lookup_fmap_Some. intros (c' & <- & E). apply Hwf in E.
  by destruct (decide _).
Qed.
#[export] Hint Resolve rp_update_wf acked_wf requested_wf rp_remove_wf settle_wf : umber.

(** *** Creation *)

Lemma foldl_insert_lookup {V} (f : HCKey → V) keys (m : gmap Z V) k :
  (∀ k1 k2, k1 ∈ keys → k2 ∈ keys → hk_seq_num k1 = hk_seq_num k2 → k1 = k2) →
  NoDup keys → k ∈ keys →
  foldl (λ m k, <[hk_seq_num k := f k]> m) m keys !! hk_seq_num k = Some (f k).
Proof.
  intros Hinj Hnd. revert m k. induction Hnd as [|k' keys Hk' Hnd IH]; intros m k Hk; [by apply elem_of_nil in Hk|].
  apply elem_of_cons in Hk as [->|Hk]; simpl.
  - assert (Hnot : ∀ m : gmap Z V, foldl (λ m k, <[hk_seq_num k := f k]> m) m keys !! hk_seq_num k' = m !! hk_seq_num k').
    { assert (Hne : ∀ k, k ∈ keys → hk_seq_num k ≠ hk_seq_num k').
      { intros k Hk Heq. assert (k = k') as -> by (apply Hinj; [by right|by left|done]). done. }
      clear -Hne. induction keys as [|k keys IH]; intros m'; [done|]. simpl. rewrite IH by (intros; apply Hne; by right).
      by rewrite lookup_insert_ne by (apply Hne; by left). }
    by rewrite Hnot, lookup_insert_eq.
  - apply IH; [|done]. intros; apply Hinj; by (try right).
Qed.

Lemma foldl_insert_dom {V} (f : HCKey → V) keys (m : gmap Z V) s v :
  foldl (λ m k, <[hk_seq_num k := f k]> m) m keys !! s = Some v →
  m !! s = Some v ∨ ∃ k, k ∈ keys ∧ hk_seq_num k = s ∧ v = f k.
Proof.
  revert m. induction keys as [|k keys IH]; intros m; simpl; [by left|].
  intros [Hm|(k' & ? & ? & ?)]%IH.
  - rewrite lookup_insert_Some in Hm. destruct Hm as [[<- <-]|[_ ?]]; [|by left].
    right. exists k. split_and!; [by left|done|done].
  - right. exists k'. split_and!; [by right|done|done].
Qed.

(** The changes of one writer, which is all a writer's cache ever holds. *)
Definition single_writer (g : GUID) (hc : HistoryCache) : Prop :=
  ∀ k, is_Some (changes hc !! k) → hk_guid k = g.

Lemma single_writer_inj g hc k1 k2 :
  single_writer g hc → is_Some (changes hc !! k1) → is_Some (changes hc !! k2) →
  hk_seq_num k1 = hk_seq_num k2 → k1 = k2.
Proof. intros Hg H1%Hg H2%Hg Hs. destruct k1, k2; simpl in *; congruence. Qed.

Lemma rp_new_Done g guid inline ls qos hc push :
  hc_wf hc → single_writer g hc → has_locator ls = true →
  ∃ rp, rp_new guid inline ls qos hc push = Done rp ∧
    remote_reader_guid rp = guid ∧ rp_locators rp = ls ∧ rp_qos rp = qos ∧
    expects_inline_qos rp = inline ∧
    ∀ s, rp_cache_state rp !! s =
      (λ _, mkChangeForReader s (if push then Unsent else Unacknowledged)
              match (r_durability qos).1 with
              | Volatile => false
              | TransientLocal => is_builtin (entity_id guid) || bool_decide (last (ts2key hc) = Some (mkHCKey g s))
              end) <$> changes hc !! mkHCKey g s.
Proof.
  intros Hwf Hg Hls. unfold rp_new. rewrite Hls. simpl.
  set (status := if push then Unsent else Unacknowledged).
  destruct (last (ts2key hc)) as [latest|] eqn:El; last first.
  - assert (changes hc = ∅) as ->.
    { apply wf_ts2key_nil; [done|]. apply last_None in El. by rewrite El. }
    eexists. split; [reflexivity|]. by split_and!.
  - cbn [unwrap mbind outcome_bind]. rewrite (foldM_Done (λ (m : gmap Z ChangeForReader) k,
      <[hk_seq_num k := mkChangeForReader (hk_seq_num k) status
          (rp_initial_relevant guid (r_durability qos).1 latest k)]> m)).
    simpl. eexists. split; [reflexivity|]. simpl. split_and!; try done.
    intros s. destruct (changes hc !! mkHCKey g s) as [c|] eqn:E; simpl.
    + assert (Hk : mkHCKey g s ∈ bt_keys (changes hc)) by (apply elem_of_bt_keys; eauto).
      pose proof (foldl_insert_lookup (λ k, mkChangeForReader (hk_seq_num k) status
        (rp_initial_relevant guid (r_durability qos).1 latest k)) (bt_keys (changes hc)) ∅ (mkHCKey g s)) as Hl.
      simpl in Hl. rewrite Hl; [|intros k1 k2 H1 H2; apply (single_writer_inj g hc); [done|by apply elem_of_bt_keys..]
        |apply NoDup_bt_keys|done].
      f_equal. f_equal. unfold rp_initial_relevant. destruct (r_durability qos).1; [done|].
      destruct (is_builtin _); [done|]. simpl. apply bool_decide_ext. naive_solver.
    + destruct (foldl _ _ _ !! s) as [c|] eqn:Ef; [|done]. exfalso.
      apply (foldl_insert_dom (λ k, mkChangeForReader (hk_seq_num k) status
        (rp_initial_relevant guid (r_durability qos).1 latest k))) in Ef as [He|(k & Hk & <- & _)]; [by rewrite lookup_empty in He|].
      apply elem_of_bt_keys in Hk. pose proof (Hg _ Hk) as <-. destruct k; simpl in *.
      rewrite E in Hk. by destruct Hk.
Qed.

(** ** Facts on the writer proxy *)

Definition wp_wf (wp : WriterProxy) : Prop :=
  ∀ s c, wp_cache_state wp !! s = Some c → cfw_seq_num c = s.

Definition wp_status (wp : WriterProxy) (s : Z) : option ChangeFromWriterStatusKind :=
  cfw_status <$> wp_cache_state wp !! s.

Lemma wp_status_update s r st wp s' :
  wp_status (wp_update_cache_state s r st wp) s' = if decide (s = s') then Some st else wp_status wp s'.
Proof.
  unfold wp_status; simpl. rewrite lookup_insert. by destruct (decide _).
Qed.

Lemma wp_status_received s wp s' :
  wp_status (received_change_set s wp) s' = if decide (s = s') then Some Received else wp_status wp s'.
Proof.
  unfold received_change_set. destruct (wp_cache_state wp !! s) as [c|] eqn:E.
  - unfold wp_status; simpl. rewrite lookup_insert. by destruct (decide _).
  - apply wp_status_update.
Qed.

Lemma wp_status_irrelevant s wp s' :
  wp_status (irrelevant_change_set s wp) s' = if decide (s = s') then Some Received else wp_status wp s'.
Proof. apply wp_status_update. Qed.

Lemma wp_status_remove s wp s' :
  wp_status (wp_remove_cache_state s wp) s' = if decide (s = s') then None else wp_status wp s'.
Proof. unfold wp_status; simpl. rewrite lookup_delete. by destruct (decide _). Qed.

Lemma wp_status_lost first wp s :
  wp_status (lost_changes_update first wp) s =
    match wp_status wp s with
    | Some Missing | Some Uuknown =>
        if decide (s < first) then Some Lost else wp_status wp s
    | st => st
    end.
Proof.
  unfold wp_status; simpl. rewrite map_lookup_imap.
  destruct (wp_cache_state wp !! s) as [[sn [] r]|]; simpl; try done; by destruct (decide _).
Qed.

Lemma wp_status_missing_step last wp s s' :
  s ≤ last →
  wp_status (missing_step last wp s) s' =
    if decide (s = s')
    then match wp_status wp s with None | Some Uuknown => Some Missing | st => st end
    else wp_status wp s'.
Proof.
  intros Hs. unfold missing_step. destruct (wp_cache_state wp !! s) as [c|] eqn:E.
  - unfold wp_status at 2. rewrite E. simpl. destruct (decide (cfw_status c = Uuknown)) as [Hu|Hu].
    + rewrite !bool_decide_true by done. unfold wp_status; simpl. rewrite lookup_insert, Hu.
      by destruct (decide _).
    + rewrite bool_decide_false by done. unfold wp_status. destruct (decide (s = s')) as [<-|]; [|done].
      rewrite E. simpl. by destruct (cfw_status c).
  - rewrite wp_status_update. unfold wp_status at 2. by rewrite E.
Qed.

Lemma wp_status_missing first last wp s :
  wp_status (missing_changes_update first last wp) s =
    if decide (first ≤ s ≤ last)
    then match wp_status wp s with None | Some Uuknown => Some Missing | st => st end
    else wp_status wp s.
Proof.
  unfold missing_changes_update.
  assert (Hgen : ∀ l wp, Forall (λ s, s ≤ last) l →
    wp_status (foldl (missing_step last) wp l) s =
      if decide (s ∈ l)
      then match wp_status wp s with None | Some Uuknown => Some Missing | st => st end
      else wp_status wp s).
  { clear wp. induction l as [|s' l IH]; intros wp Hl; [done|].
    apply Forall_cons in Hl as [Hs' Hl]. simpl. rewrite IH, wp_status_missing_step by done.
    destruct (decide (s' = s)) as [->|Hne].
    - rewrite (decide_True (P := s ∈ s :: l)) by by left.
      destruct (decide (s ∈ l)); [|done]. by destruct (wp_status wp s) as [[]|].
    - destruct (decide (s ∈ l)) as [Hin|Hin].
      + by rewrite decide_True by by right.
      + by rewrite decide_False by set_solver. }
  rewrite Hgen by (apply Forall_forall; intros x Hx%elem_of_seqZ; lia).
  destruct (decide (s ∈ _)) as [Hin|Hin]; rewrite elem_of_seqZ in Hin.
  - by rewrite decide_True by lia.
  - by rewrite decide_False by lia.
Qed.

Lemma elem_of_missing_changes s wp : s ∈ missing_changes wp ↔ wp_status wp s = Some Missing.
Proof.
  unfold missing_changes, wp_status. rewrite list_elem_of_filter, elem_of_bt_keys.
  split; [by intros [? _]|]. intros H. split; [done|].
  destruct (wp_cache_state wp !! s); [done|discriminate].
Qed.

Lemma missing_changes_sorted wp : StronglySorted ord_lt (missing_changes wp).
Proof. apply sorted_filter, bt_keys_sorted. Qed.

Definition wp_done (wp : WriterProxy) (s : Z) : Prop :=
  wp_status wp s = Some Received ∨ wp_status wp s = Some Lost.

Lemma available_changes_max_spec' wp :
  let m := available_changes_max wp in
  (m = 0 ∨ wp_done wp m) ∧ 0 ≤ m ∧ ∀ s, wp_done wp s → s ≤ m.
Proof.
  unfold available_changes_max, wp_done, wp_status.
  assert (Hgen : ∀ l m0,
    let m := foldl (λ m s, match cfw_status <$> wp_cache_state wp !! s with
        | Some Received | Some Lost => Z.max m s | _ => m end) m0 l in
    (m = m0 ∨ wp_done wp m) ∧ m0 ≤ m ∧ ∀ s, s ∈ l → wp_done wp s → s ≤ m).
  { unfold wp_done, wp_status. induction l as [|s l IH]; intros m0; simpl.
    { split; [by left|]. split; [lia|]. intros s Hs. by apply elem_of_nil in Hs. }
    set (m1 := match _ with Some Lost | Some Received => _ | _ => _ end).
    destruct (IH m1) as (H1 & H2 & H3).
    assert (Hm1 : m0 ≤ m1 ∧ (m1 = m0 ∨ m1 = s ∧ wp_done wp s) ∧ (wp_done wp s → s ≤ m1)).
    { unfold m1, wp_done, wp_status. destruct (cfw_status <$> wp_cache_state wp !! s) as [[]|];
        (split; [lia|]); (split; [|intros [|]; (done || lia)]);
        try (by left); destruct (Z.max_spec m0 s) as [[_ ->]|[_ ->]]; auto. }
    destruct Hm1 as (Ha & Hb & Hc). unfold wp_done, wp_status in *. split_and!; [|lia|].
    - destruct H1 as [H1|]; [|by right]. rewrite H1.
      destruct Hb as [?|[-> ?]]; [by left|by right].
    - intros s' [->|Hs']%elem_of_cons Hd; [specialize (Hc Hd); lia|by apply H3]. }
  destruct (Hgen (bt_keys (wp_cache_state wp)) 0) as (H1 & H2 & H3). cbv zeta. split_and!; [done|done|].
  intros s Hs. apply H3; [|done]. apply elem_of_bt_keys.
  destruct (wp_cache_state wp !! s); [done|]. by destruct Hs.
Qed.

(** ** Properties *)

(** The loop [while let Some(c) = next_unsent_change()] of the writer, which
    searches the proxy anew in every round, terminates for any number of
    changes, visits every unsent change once in ascending sequence order, and
    leaves the proxy as if all of them had been marked [Underway] at once. *)
Theorem unsent_loop_spec {A} (body : ReaderProxy → A → ChangeForReader → A) fuel rp acc :
  rp_wf rp → (∀ f rp, body (rp_set_cache_state f rp) = body rp) →
  (length (unsent_changes rp) < fuel)%nat →
  drain fuel next_unsent_change body rp acc =
    Some (settle Unsent rp, foldl (body rp) acc (unsent_changes rp)) ∧
  StronglySorted ord_lt (cfr_seq_num <$> unsent_changes rp) ∧
  (∀ c, c ∈ unsent_changes rp ↔ cfr_status c = Unsent ∧ ∃ s, rp_cache_state rp !! s = Some c).
Proof.
  intros Hwf Hbody Hfuel. split; [by apply drain_total|].
  split; [by apply changes_with_sorted|]. intros c. apply elem_of_changes_with.
Qed.

Definition sample_proxy : ReaderProxy :=
  mkReaderProxy GUID_UNKNOW false (mkLocators [Loc.INVALID] [] [] [])
    (DataReaderQosBuilder_build DataReaderQosBuilder_new)
    {[1 := mkChangeForReader 1 Acknowledged true; 2 := mkChangeForReader 2 Unsent true;
      3 := mkChangeForReader 3 Unsent false]}.

Lemma sample_proxy_wf : rp_wf sample_proxy.
Proof.
  intros s c Hs. assert (Hall : map_Forall (λ s c, cfr_seq_num c = s ∧ s ≤ Sn.MAX) (rp_cache_state sample_proxy))
    by (eapply bool_decide_unpack; vm_compute; exact I). exact (Hall s c Hs).
Qed.

Lemma unsent_loop_spec_witness :
  drain 3 next_unsent_change (λ _ acc c, acc ++ [cfr_seq_num c]) sample_proxy [] =
    Some (settle Unsent sample_proxy, [2; 3]).
Proof.
  destruct (unsent_loop_spec (λ (_ : ReaderProxy) acc c, acc ++ [cfr_seq_num c]) 3 sample_proxy []) as [H _].
  - exact sample_proxy_wf.
  - reflexivity.
  - vm_compute. repeat constructor.
  - rewrite H. vm_compute. reflexivity.
Defined.

(** A proxy is created exactly for a reader with a locator.  It knows every
    change of the writer's cache; a Volatile reader needs none of them, a
    TransientLocal one needs the change added last (all of them, for a
    built-in endpoint). *)
Theorem rp_new_spec g guid inline ls qos hc push :
  hc_wf hc → single_writer g hc →
  (rp_new guid inline ls qos hc push = Panic ↔ has_locator ls = false) ∧
  ∀ rp, rp_new guid inline ls qos hc push = Done rp → ∀ s,
    rp_cache_state rp !! s =
      (λ _, mkChangeForReader s (if push then Unsent else Unacknowledged)
              match (r_durability qos).1 with
              | Volatile => false
              | TransientLocal =>
                  is_builtin (entity_id guid) || bool_decide (last (ts2key hc) = Some (mkHCKey g s))
              end) <$> changes hc !! mkHCKey g s.
Proof.
  intros Hwf Hg. destruct (has_locator ls) eqn:Hls.
  - destruct (rp_new_Done g guid inline ls qos hc push Hwf Hg Hls) as (rp' & -> & _ & _ & _ & _ & Hcs).
    split; [done|]. by intros rp [= <-].
  - unfold rp_new. by rewrite Hls.
Qed.

Lemma rp_new_spec_witness :
  let hc := sample_cache true (limit (-1)) keep_all HcWriter w1_changes in
  rp_new GUID_UNKNOW false (mkLocators [] [] [] []) (DataReaderQosBuilder_build DataReaderQosBuilder_new)
    hc true = Panic.
Proof.
  cbv zeta. apply (rp_new_spec (sample_writer 1)); [apply sample_cache_wf| |reflexivity].
  intros k [c Hk].
  assert (Hall : map_Forall (λ k (_ : CacheChange), hk_guid k = sample_writer 1)
    (changes (sample_cache true (limit (-1)) keep_all HcWriter w1_changes)))
    by (eapply bool_decide_unpack; vm_compute; exact I). exact (Hall k c Hk).
Defined.
