(* ===== verification/Writer.v ===== *)
(** * The RTPS writer

    src/src/rtps/writer.rs: the state of a stateful writer and its handlers.
    A handler is a function from the state to an [outcome] with the new
    state, the datagrams and notifications it emits in order ([WriterEvent])
    and its result.  The history cache shared with the DataWriter is part of
    the state; a handler runs as one step with respect to the DataWriter.
    A datagram is kept as the [Message] that is serialized into it. *)
From stdpp Require Import base tactics numbers list gmap sorting strings.
From S2P Require Import Prelude Ordered Ids Time SeqNum Qos HistoryCache Message Topic Proxy.

(** ** Data *)

Inductive WriterTimer :=
| TimerNack (self : EntityId) (reader : GUID)
| TimerDeadline (self : EntityId) (d : CoreDuration).

Inductive WriterCmd := WriteData | AssertLiveliness.

Inductive AckNackState := Waiting | Repairing | MustRepair.
#[export] Instance AckNackState_eq_dec : EqDecision AckNackState.
Proof. solve_decision. Defined.

(** [LivelinessLostStatus] and [PublicationMatchedStatus]. *)
Record LivelinessLostStatus := mkLivelinessLostStatus {
  ll_total_count : Z;
  ll_total_count_change : Z;
  ll_guid : GUID;
}.
Record PublicationMatchedStatus := mkPublicationMatchedStatus {
  pm_total_count : Z;
  pm_total_count_change : Z;
  pm_current_count : Z;
  pm_current_count_change : Z;
  pm_guid : GUID;
}.

Inductive DataWriterStatusChanged :=
| LivelinessLost (s : LivelinessLostStatus)
| OfferedDeadlineMissed
| OfferedIncompatibleQos (e : list PolicyId)
| PublicationMatched (s : PublicationMatchedStatus).

(** [ParticipantMessageData] of src/src/discovery/structure/data.rs. *)
Record ParticipantMessageData := mkParticipantMessageData {
  pmd_guid_prefix : GuidPrefix;
  pmd_kind : list Z;
  pmd_data : list Z;
}.
Definition AUTOMATIC_LIVELINESS_UPDATE : list Z := [0x00; 0x00; 0x00; 0x01].
Definition MANUAL_LIVELINESS_UPDATE : list Z := [0x00; 0x00; 0x00; 0x02].

(** What a handler does to the outside. *)
Inductive WriterEvent :=
| SendToMulticast (msg : Message) (addr : list Z) (port : Z)
| SendToUnicast (msg : Message) (addr : list Z) (port : Z)
| NotifyWriter (s : DataWriterStatusChanged)
| SendParticipantMessage (d : ParticipantMessageData).

Record WriterConf := mkWriterConf {
  w_guid : GUID;
  w_topic_kind : TopicKind;
  w_reliability_level : ReliabilityQosKind;
  w_unicast_locator_list : list Locator;
  w_multicast_locator_list : list Locator;
  w_push_mode : bool;
  w_heartbeat_period : Duration;
  w_nack_response_delay : Duration;
  w_data_max_size_serialized : Z;
  w_topic : Topic;
  w_qos : DataWriterQosPolicies;
  w_endianness : Endianness;
}.

Record Writer := mkWriter {
  conf : WriterConf;
  writer_cache : HistoryCache;
  matched_readers : gmap GUID ReaderProxy;
  total_matched_readers : gset GUID;
  hb_counter : Z;
  an_state : AckNackState;
  unmatch_count : Z;
  is_alive : bool;
}.

Definition set_writer_cache f w := mkWriter (conf w) (f (writer_cache w)) (matched_readers w)
  (total_matched_readers w) (hb_counter w) (an_state w) (unmatch_count w) (is_alive w).
Definition set_matched_readers f w := mkWriter (conf w) (writer_cache w) (f (matched_readers w))
  (total_matched_readers w) (hb_counter w) (an_state w) (unmatch_count w) (is_alive w).
Definition set_total_matched f w := mkWriter (conf w) (writer_cache w) (matched_readers w)
  (f (total_matched_readers w)) (hb_counter w) (an_state w) (unmatch_count w) (is_alive w).
Definition set_hb_counter n w := mkWriter (conf w) (writer_cache w) (matched_readers w)
  (total_matched_readers w) n (an_state w) (unmatch_count w) (is_alive w).
Definition set_an_state st w := mkWriter (conf w) (writer_cache w) (matched_readers w)
  (total_matched_readers w) (hb_counter w) st (unmatch_count w) (is_alive w).
Definition set_unmatch_count n w := mkWriter (conf w) (writer_cache w) (matched_readers w)
  (total_matched_readers w) (hb_counter w) (an_state w) n (is_alive w).
Definition set_alive b w := mkWriter (conf w) (writer_cache w) (matched_readers w)
  (total_matched_readers w) (hb_counter w) (an_state w) (unmatch_count w) b.

Definition wguid (w : Writer) : GUID := w_guid (conf w).
Definition wqos (w : Writer) : DataWriterQosPolicies := w_qos (conf w).
Definition is_reliable (w : Writer) : bool :=
  match w_reliability_level (conf w) with Reliable => true | BestEffort => false end.

(** [Writer::new]: the timer is that of a finite deadline. *)
Definition writer_new (cf : WriterConf) (whc : HistoryCache) (now : option Timestamp)
    : outcome (Writer * option WriterTimer) :=
  cache ← add_empty_change (w_guid cf) now whc;
  let d := period (w_deadline (w_qos cf)).1 in
  wt ← (if bool_decide (d = Dur.INFINITE) then Done None
        else c ← Dur.to_core d; Done (Some (TimerDeadline (entity_id (w_guid cf)) c)));
  Done (mkWriter cf cache ∅ ∅ 0 Waiting 0 true, wt).

(** ** Sending *)

(** [send_msg_to_locator]. *)
Definition send_msg_to_locator (loc : Locator) (msg : Message) : list WriterEvent :=
  if bool_decide (kind loc = Loc.KIND_UDPV4) then
    let addr := drop 12 (address loc) in
    if is_ipv4_multicast (address loc)
    then [SendToMulticast msg addr (as_u16 (port loc))]
    else [SendToUnicast msg addr (as_u16 (port loc))]
  else [].

Definition get_unicast_ll_from_proxy (rp : ReaderProxy) : option (list Locator) :=
  let ll_u := get_unicast_locator_list (rp_locators rp) in
  if bool_decide (ll_u = []) then
    let ll_m := get_multicast_locator_list (rp_locators rp) in
    if bool_decide (ll_m = []) then None else Some ll_m
  else Some ll_u.

Definition get_multicast_ll_from_proxy (rp : ReaderProxy) : option (list Locator) :=
  let ll_m := get_multicast_locator_list (rp_locators rp) in
  if bool_decide (ll_m = []) then
    let ll_u := get_unicast_locator_list (rp_locators rp) in
    if bool_decide (ll_u = []) then None else Some ll_u
  else Some ll_m.

Notation Readers := (list (GUID * list Locator)).

(** [min_message_cover]: one message with the unknown reader id to each
    locator that several readers share, one addressed message for the rest. *)
Definition add_reader_locator (guid : GUID) (m : gmap Locator (gset GUID)) (l : Locator)
    : gmap Locator (gset GUID) :=
  <[l := {[guid]} ∪ default ∅ (m !! l)]> m.

Definition locator_to_readers (rl : Readers) : gmap Locator (gset GUID) :=
  foldl (λ m e, foldl (add_reader_locator e.1) m e.2) ∅ rl.

Definition shared_locator (m : gmap Locator (gset GUID)) (loc : Locator) : bool :=
  bool_decide (1 < Z.of_nat (size (default ∅ (m !! loc)))).

Definition covered_pairs (m : gmap Locator (gset GUID)) (shared : list Locator) : gset (GUID * Locator) :=
  foldl (λ c loc, foldl (λ c r, {[(r, loc)]} ∪ c) c (bt_elems (default ∅ (m !! loc)))) ∅ shared.

Definition uncovered (covered : gset (GUID * Locator)) (e : GUID * list Locator)
    : list (EntityId * Locator) :=
  omap (λ loc, if bool_decide ((e.1, loc) ∈ covered) then None else Some (entity_id e.1, loc)) e.2.

Definition min_message_cover (rl : Readers) : list (EntityId * Locator) :=
  let m := locator_to_readers rl in
  let shared := filter (λ loc, shared_locator m loc = true) (bt_keys m) in
  (pair Eid.UNKNOW <$> shared) ++ concat (uncovered (covered_pairs m shared) <$> rl).

(** [to_send_data]/[to_send_gap]: who gets each sequence number. *)
Notation Queue := (gmap Z Readers).
Definition queue_push (s : Z) (e : GUID * list Locator) (q : Queue) : Queue :=
  <[s := default [] (q !! s) ++ [e]]> q.

(** Built-in endpoints prefer multicast, the others unicast. *)
Definition reader_locators (self : EntityId) (rp : ReaderProxy) : option (list Locator) :=
  if is_builtin self then get_multicast_ll_from_proxy rp else get_unicast_ll_from_proxy rp.

(** The body of the [while let] loops. *)
Definition queue_change (self : EntityId) (rp : ReaderProxy) (acc : Queue * Queue)
    (c : ChangeForReader) : Queue * Queue :=
  match reader_locators self rp with
  | None => acc
  | Some ll =>
      let e := (remote_reader_guid rp, ll) in
      if cfr_is_relevant c then (queue_push (cfr_seq_num c) e acc.1, acc.2)
      else (acc.1, queue_push (cfr_seq_num c) e acc.2)
  end.

(** One proxy: enough fuel for every change it knows. *)
Definition drain_proxy (self : EntityId) (next : ReaderProxy → option ChangeForReader)
    (rp : ReaderProxy) (acc : Queue * Queue) : outcome (ReaderProxy * (Queue * Queue)) :=
  unwrap (drain (S (size (rp_cache_state rp))) next (queue_change self) rp acc).

(** *** The messages *)

Definition data_msg (w : Writer) (reid : EntityId) (now : option Timestamp) (c : CacheChange) : Message :=
  Build.build (guid_prefix (wguid w))
    (Build.data LittleEndian (entity_id (wguid w)) reid c
      (Build.info_ts LittleEndian now Build.new)).

Definition gap_msg (w : Writer) (reid : EntityId) (gap_start : Z) (gap_list : NumberSet) : Message :=
  Build.build (guid_prefix (wguid w))
    (Build.gap LittleEndian (entity_id (wguid w)) reid gap_start gap_list Build.new).

Definition hb_msg (w : Writer) (reid : EntityId) (now : option Timestamp) (liveliness : bool)
    (first last count : Z) : Message :=
  Build.build (guid_prefix (wguid w))
    (Build.heartbeat (w_endianness (conf w)) liveliness (entity_id (wguid w)) reid first last count false
      (Build.info_ts LittleEndian now Build.new)).

(** [now s i] is the clock read before the [i]-th message about [s]. *)
Definition send_data (w : Writer) (now : Z → nat → option Timestamp) (s : Z) (c : CacheChange)
    (rl : Readers) : list WriterEvent :=
  concat (imap (λ i e, send_msg_to_locator e.2 (data_msg w e.1 (now s i) c)) (min_message_cover rl)).

Definition send_gap (w : Writer) (s : Z) (rl : Readers) : outcome (list WriterEvent) :=
  foldM (λ evs e,
    set ← from_vec (Sn.add s 1) [];
    Done (evs ++ send_msg_to_locator e.2 (gap_msg w e.1 s set)))
    [] (min_message_cover rl).

(** ** Removing acknowledged changes *)

Definition is_acked_by_all (s : Z) (w : Writer) : bool :=
  forallb (is_acked s) (bt_values (matched_readers w)).

Definition is_acked_all_changes (w : Writer) : bool :=
  forallb (λ k, is_acked_by_all (hk_seq_num k) w) (bt_keys (changes (writer_cache w))).

(** The keys that [remove_acked_changes] selects before it removes any. *)
Definition acked_keys (base_ : Z) (w : Writer) : list HCKey :=
  filter (λ k, hk_seq_num k ≤ base_ ∧ is_acked_by_all (hk_seq_num k) w = true)
         (bt_keys (changes (writer_cache w))).

Definition remove_acked_key (w : Writer) (k : HCKey) : Writer :=
  set_matched_readers (fmap (rp_remove_cache_state (hk_seq_num k)))
    (set_writer_cache (remove_change k false) w).

Definition remove_acked_changes (base : Z) (w : Writer) : Writer :=
  if is_builtin (entity_id (wguid w)) then w
  else
    let base_ := match (w_durability (wqos w)).1 with
                 | Volatile => base
                 | TransientLocal => Sn.sub base 1
                 end in
    foldl remove_acked_key w (acked_keys base_ w).

(** ** Heartbeats *)

Definition hb_readers (w : Writer) : Readers :=
  omap (λ rp, ll ← get_multicast_ll_from_proxy rp; Some (remote_reader_guid rp, ll))
       (bt_values (matched_readers w)).

(** [send_heart_beat]; the clock is read once. *)
Definition send_heart_beat (now : option Timestamp) (liveliness : bool) (w : Writer)
    : Writer * list WriterEvent :=
  if negb liveliness && is_acked_all_changes w then (w, [])
  else
    let w := if liveliness then set_alive true w else w in
    let w := remove_acked_changes (get_seq_num_max (writer_cache w)) w in
    let first := get_seq_num_min (writer_cache w) in
    let last := get_seq_num_max (writer_cache w) in
    if bool_decide (first ≤ 0) || bool_decide (last < 0) || bool_decide (last < as_i64 (first - 1))
    then (w, [])
    else
      let w := set_hb_counter (as_i32 (hb_counter w + 1)) w in
      (w, concat ((λ e, send_msg_to_locator e.2
             (hb_msg w e.1 now liveliness first last (as_i32 (hb_counter w - 1))))
           <$> min_message_cover (hb_readers w))).

(** ** Liveliness *)

(** [assert_liveliness], called periodically for kind Automatic. *)
Definition assert_liveliness (now : option Timestamp) (w : Writer)
    : outcome (Writer * list WriterEvent) :=
  let w := set_alive true w in
  let ld := lease_duration (w_liveliness (wqos w)).1 in
  if bool_decide (ld = Dur.INFINITE) then Done (w, [])
  else
    ts ← unwrap (get_last_added_ts (wguid w) (writer_cache w));
    now ← unwrap now;
    elapse ← Ts.sub now ts;
    ld ← Dur.to_core ld;
    if bool_decide (ord_lt ld elapse)
    then Done (w, [SendParticipantMessage
           (mkParticipantMessageData (guid_prefix (wguid w)) AUTOMATIC_LIVELINESS_UPDATE [])])
    else Done (w, []).

Definition assert_liveliness_manually (now : option Timestamp) (w : Writer)
    : Writer * list WriterEvent :=
  send_heart_beat now true (set_alive true w).

Definition writer_check_liveliness (now : option Timestamp) (w : Writer)
    : outcome (Writer * list WriterEvent) :=
  if is_alive w then
    let ld := lease_duration (w_liveliness (wqos w)).1 in
    if bool_decide (ld = Dur.INFINITE) then Done (w, [])
    else
      match get_last_added_ts (wguid w) (writer_cache w) with
      | Some ts =>
          now ← unwrap now;
          elapse ← Ts.sub now ts;
          ld ← Dur.to_core ld;
          if bool_decide (ord_lt ld elapse) then
            let w := set_alive false (set_unmatch_count (as_i32 (unmatch_count w + 1)) w) in
            Done (w, [NotifyWriter (LivelinessLost
              (mkLivelinessLostStatus (unmatch_count w) 1 (wguid w)))])
          else Done (w, [])
      | None => Done (w, [])
      end
  else Done (w, []).

Definition notify_offered_deadline_missed (w : Writer) : list WriterEvent :=
  [NotifyWriter OfferedDeadlineMissed].

(** [heartbeat_period]/[nack_response_delay]: the fraction (units of 2^-32 s)
    is handed over as nanoseconds. *)
Definition delay_core (d : Duration) : outcome CoreDuration :=
  core_duration_new (as_u64 (seconds d)) (fraction d).
Definition heartbeat_period (w : Writer) : outcome CoreDuration := delay_core (w_heartbeat_period (conf w)).
Definition nack_response_delay (w : Writer) : outcome CoreDuration :=
  delay_core (w_nack_response_delay (conf w)).

(** ** New data *)

(** Whether the [i]-th newest unprocessed change is relevant. *)
Definition unprocessed_relevant (q : DataWriterQosPolicies) (i : nat) : bool :=
  match history_kind (w_history q).1 with
  | KeepAll => true
  | KeepLast =>
      match (w_durability q).1 with
      | Volatile => bool_decide (i < as_usize (depth (w_history q).1))
      | TransientLocal => bool_decide (i ≤ as_usize (depth (w_history q).1))
      end
  end.

(** Registration of the unprocessed changes, newest first, in every proxy. *)
Definition register_unprocessed (seqs : list Z) (w : Writer) : Writer :=
  let status := if w_push_mode (conf w) then Unsent else Unacknowledged in
  foldl (λ w e, set_matched_readers
           (fmap (rp_update_cache_state e.2 (unprocessed_relevant (wqos w) e.1) status)) w)
        w (imap pair (rev seqs)).

(** The loop over the matched readers that empties their unsent changes. *)
Definition collect_one (self : EntityId) (acc : gmap GUID ReaderProxy * (Queue * Queue)) (g : GUID)
    : outcome (gmap GUID ReaderProxy * (Queue * Queue)) :=
  rp ← unwrap (acc.1 !! g);
  r ← drain_proxy self next_unsent_change rp acc.2;
  Done (<[g := r.1]> acc.1, r.2).

Definition collect_unsent (w : Writer) : outcome (Writer * (Queue * Queue)) :=
  r ← foldM (collect_one (entity_id (wguid w))) (matched_readers w, (∅, ∅)) (bt_keys (matched_readers w));
  Done (set_matched_readers (λ _, r.1) w, r.2).

(** A best-effort writer forgets a change once it is sent. *)
Definition forget_if_best_effort (s : Z) (w : Writer) : Writer :=
  if is_reliable w then w
  else set_writer_cache (remove_change (mkHCKey (wguid w) s) false) w.

Definition send_one_data (now : Z → nat → option Timestamp) (q : Queue)
    (acc : Writer * list WriterEvent) (s : Z) : outcome (Writer * list WriterEvent) :=
  let '(w, evs) := acc in
  c ← unwrap (get_change (wguid w) s (writer_cache w));
  rl ← unwrap (q !! s);
  Done (forget_if_best_effort s w, evs ++ send_data w now s c rl).

Definition send_one_gap (q : Queue) (acc : Writer * list WriterEvent) (s : Z)
    : outcome (Writer * list WriterEvent) :=
  let '(w, evs) := acc in
  rl ← unwrap (q !! s);
  sent ← send_gap w s rl;
  Done (forget_if_best_effort s w, evs ++ sent).

Definition deadline_timer (w : Writer) : outcome (option WriterTimer) :=
  let d := period (w_deadline (wqos w)).1 in
  if bool_decide (d = Dur.INFINITE) then Done None
  else c ← Dur.to_core d; Done (Some (TimerDeadline (entity_id (wguid w)) c)).

Definition handle_write_data_cmd (now : Z → nat → option Timestamp) (w : Writer)
    : outcome (Writer * list WriterEvent * option WriterTimer) :=
  let w := set_alive true w in
  u ← get_unprocessed (writer_cache w);
  let '(cache, seq_nums) := u in
  let w := set_writer_cache (λ _, cache) w in
  match bt_elems seq_nums with
  | [] => Done (w, [], None)
  | oldest_unprocessed :: _ =>
      let w := register_unprocessed (bt_elems seq_nums) w in
      let w := if is_reliable w then remove_acked_changes oldest_unprocessed w else w in
      wt ← deadline_timer w;
      r ← collect_unsent w;
      let '(w, (to_send_data, to_send_gap)) := r in
      r ← foldM (send_one_data now to_send_data) (w, []) (bt_keys to_send_data);
      r ← foldM (send_one_gap to_send_gap) r (bt_keys to_send_gap);
      Done (r, wt)
  end.

(** [handle_writer_cmd]: all pending commands, in order. *)
Definition handle_one_cmd (now : nat → Z → nat → option Timestamp)
    (acc : Writer * list WriterEvent * list WriterTimer) (cmd : nat * WriterCmd)
    : outcome (Writer * list WriterEvent * list WriterTimer) :=
  let '(w, evs, wts) := acc in
  match cmd.2 with
  | WriteData =>
      r ← handle_write_data_cmd (now cmd.1) w;
      let '(w, evs', wt) := r in
      Done (w, evs ++ evs', wts ++ match wt with Some t => [t] | None => [] end)
  | AssertLiveliness =>
      let '(w, evs') := assert_liveliness_manually (now cmd.1 0 0%nat) w in
      Done (w, evs ++ evs', wts)
  end.

Definition handle_writer_cmd (now : nat → Z → nat → option Timestamp) (cmds : list WriterCmd)
    (w : Writer) : outcome (Writer * list WriterEvent * option (list WriterTimer)) :=
  r ← foldM (handle_one_cmd now) (w, [], []) (imap pair cmds);
  let '(w, evs, wts) := r in
  Done (w, evs, if bool_decide (length wts = 0%nat) then None else Some wts).

(** The announcement of a participant to given locators. *)
Definition send_builtin_data_for_loc (now : option Timestamp) (builtin_data : SerializedPayload)
    (locators : list Locator) (w : Writer) : outcome (list WriterEvent) :=
  ts ← unwrap now;
  let c := mkCacheChange Alive (wguid w) 1 ts (Some builtin_data) in
  let msg := data_msg w Eid.SPDP_BUILTIN_PARTICIPANT_DETECTOR (Some ts) c in
  Done (concat ((λ loc, send_msg_to_locator loc msg) <$> locators)).

(** ** Acknowledgements *)

(** One requested change: DATA while it is in the cache, otherwise a
    heartbeat that starts after it. *)
Definition resend_one (now : Z → nat → option Timestamp) (q : Queue)
    (acc : Writer * list WriterEvent) (s : Z) : outcome (Writer * list WriterEvent) :=
  let '(w, evs) := acc in
  rl ← unwrap (q !! s);
  match get_change (wguid w) s (writer_cache w) with
  | Some c => Done (w, evs ++ send_data w now s c rl)
  | None =>
      let w := set_hb_counter (as_i32 (hb_counter w + 1)) w in
      Done (w, evs ++ concat ((λ e, send_msg_to_locator e.2
               (hb_msg w e.1 (now s 0%nat) false (Sn.add s 1) (get_seq_num_max (writer_cache w))
                  (as_i32 (hb_counter w - 1)))) <$> min_message_cover rl))
  end.

Definition resend_gap (q : Queue) (acc : Writer * list WriterEvent) (s : Z)
    : outcome (Writer * list WriterEvent) :=
  let '(w, evs) := acc in
  rl ← unwrap (q !! s);
  sent ← send_gap w s rl;
  Done (w, evs ++ sent).

Definition handle_nack_response_timeout (now : Z → nat → option Timestamp) (reader_guid : GUID)
    (w : Writer) : outcome (Writer * list WriterEvent) :=
  let w := set_an_state Repairing w in
  r ← match matched_readers w !! reader_guid with
      | Some rp =>
          r ← drain_proxy (entity_id (wguid w)) next_requested_change rp (∅, ∅);
          Done (set_matched_readers <[reader_guid := r.1]> w, r.2)
      | None => Done (w, (∅, ∅))
      end;
  let '(w, (to_send_data, to_send_gap)) := r in
  r ← foldM (resend_one now to_send_data) (w, []) (bt_keys to_send_data);
  r ← foldM (resend_gap to_send_gap) r (bt_keys to_send_gap);
  Done (set_an_state Waiting r.1, r.2).

Definition handle_acknack (now : Z → nat → option Timestamp) (acknack : AckNack) (reader_guid : GUID)
    (w : Writer) : outcome (Writer * list WriterEvent * option WriterTimer) :=
  match matched_readers w !! reader_guid with
  | None => Done (w, [], None)
  | Some rp =>
      let base := bitmap_base (reader_sn_state acknack) in
      let rp := requested_changes_set (sn_set (reader_sn_state acknack))
                  (acked_changes_set (Sn.sub base 1) rp) in
      let w := set_matched_readers <[reader_guid := rp]> w in
      r ← match an_state w with
          | Waiting =>
              if bool_decide (requested_changes rp = []) then Done (w, [], None)
              else if bool_decide (w_nack_response_delay (conf w) = Dur.ZERO) then
                r ← handle_nack_response_timeout now reader_guid w;
                Done (r, None)
              else Done (set_an_state MustRepair w, [], Some (TimerNack (entity_id (wguid w)) reader_guid))
          | MustRepair => Done (w, [], None)
          | Repairing => Panic
          end;
      let '(w, evs, wt) := r in
      Done (remove_acked_changes (Sn.sub base 1) w, evs, wt)
  end.

(** ** Matching *)

Definition matched_reader_add_with_default_locator (guid : GUID) (inline : bool) (ls : Locators)
    (qos : DataReaderQosPolicies) (w : Writer) : outcome (Writer * list WriterEvent) :=
  match matched_readers w !! guid with
  | None =>
      match writer_is_compatible (wqos w) qos with
      | inl e => Done (w, [NotifyWriter (OfferedIncompatibleQos e)])
      | inr _ =>
          rp ← rp_new guid inline ls qos (writer_cache w) (w_push_mode (conf w));
          let w := set_total_matched (λ t, {[guid]} ∪ t) (set_matched_readers <[guid := rp]> w) in
          Done (w, [NotifyWriter (PublicationMatched (mkPublicationMatchedStatus
            (as_i32 (size (total_matched_readers w))) 1 (as_i32 (size (matched_readers w))) 1 guid))])
      end
  | Some rp =>
      Done (set_matched_readers
              <[guid := mkReaderProxy (remote_reader_guid rp) inline ls qos (rp_cache_state rp)]> w, [])
  end.

Definition matched_reader_add (guid : GUID) (inline : bool) (unicast multicast : list Locator)
    (qos : DataReaderQosPolicies) (w : Writer) : outcome (Writer * list WriterEvent) :=
  matched_reader_add_with_default_locator guid inline (mkLocators unicast multicast [] []) qos w.

Definition is_reader_match (topic_name' data_type : string) (w : Writer) : bool :=
  bool_decide (topic_name (w_topic (conf w)) = topic_name') &&
  bool_decide (topic_type_desc (w_topic (conf w)) = data_type).

Definition matched_reader_remove (guid : GUID) (w : Writer) : Writer * list WriterEvent :=
  let w := set_matched_readers (delete guid) w in
  (w, [NotifyWriter (PublicationMatched (mkPublicationMatchedStatus
         (as_i32 (size (total_matched_readers w))) 0 (as_i32 (size (matched_readers w))) (-1) guid))]).

Definition delete_reader_proxy (p : GuidPrefix) (w : Writer) : Writer * list WriterEvent :=
  foldl (λ acc g, let '(w, evs) := matched_reader_remove g acc.1 in (w, acc.2 ++ evs))
    (w, []) (filter (λ g, guid_prefix g = p) (bt_keys (matched_readers w))).

(** ** min_message_cover *)

(** Reader [g] of the list is reached at locator [l]. *)
Definition listens (rl : Readers) (g : GUID) (l : Locator) : Prop := ∃ ll, (g, ll) ∈ rl ∧ l ∈ ll.

(** Two different readers are reached at [l]. *)
Definition shared (rl : Readers) (l : Locator) : Prop :=
  ∃ g g', g ≠ g' ∧ listens rl g l ∧ listens rl g' l.

Lemma add_reader_locators_spec g ll (m : gmap Locator (gset GUID)) l g' :
  g' ∈ default ∅ (foldl (add_reader_locator g) m ll !! l) ↔
  g' ∈ default ∅ (m !! l) ∨ (g' = g ∧ l ∈ ll).
Proof.
  revert m. induction ll as [|l' ll IH]; intros m; simpl; [set_solver|].
  rewrite IH. unfold add_reader_locator. rewrite lookup_insert.
  destruct (decide (l' = l)) as [->|]; simpl; set_solver.
Qed.

Lemma locator_to_readers_spec rl l g : g ∈ default ∅ (locator_to_readers rl !! l) ↔ listens rl g l.
Proof.
  unfold locator_to_readers, listens.
  assert (Hgen : ∀ m, g ∈ default ∅ (foldl (λ m e, foldl (add_reader_locator e.1) m e.2) m rl !! l) ↔
    g ∈ default ∅ (m !! l) ∨ ∃ ll, (g, ll) ∈ rl ∧ l ∈ ll).
  { induction rl as [|[g' ll'] rl IH]; intros m; simpl; [set_solver|].
    rewrite IH, add_reader_locators_spec. simpl. set_solver. }
  rewrite Hgen, lookup_empty. simpl. set_solver.
Qed.

Lemma shared_locator_spec rl l : shared_locator (locator_to_readers rl) l = true ↔ shared rl l.
Proof.
  unfold shared_locator, shared. rewrite bool_decide_eq_true.
  setoid_rewrite <-locator_to_readers_spec. set (s := default ∅ (locator_to_readers rl !! l)).
  split.
  - intros Hs. destruct (set_choose_or_empty s) as [[g Hg]|He]; last first.
    { apply leibniz_equiv in He. rewrite He, size_empty in Hs. done. }
    destruct (set_choose_or_empty (s ∖ {[g]})) as [[g' Hg']|He]; [exists g, g'; set_solver|].
    apply leibniz_equiv in He. pose proof (size_difference_alt s {[g]}) as Hd.
    rewrite He, size_empty in Hd. assert (Hsub : s ∩ {[g]} ⊆ {[g]}) by set_solver.
    apply subseteq_size in Hsub. rewrite size_singleton in Hsub. lia.
  - intros (g & g' & Hne & Hg & Hg'). assert (Hsub : {[g]} ∪ {[g']} ⊆ s) by set_solver.
    apply subseteq_size in Hsub. rewrite size_union, !size_singleton in Hsub by set_solver. lia.
Qed.

Lemma covered_pairs_spec m sh g l :
  (g, l) ∈ covered_pairs m sh ↔ l ∈ sh ∧ g ∈ default ∅ (m !! l).
Proof.
  assert (Hin : ∀ (rs : list GUID) l' (c : gset (GUID * Locator)),
    (g, l) ∈ foldl (λ c r, {[(r, l')]} ∪ c) c rs ↔ (g, l) ∈ c ∨ (l' = l ∧ g ∈ rs)).
  { induction rs as [|r rs IH]; intros l' c; simpl; [set_solver|]. rewrite IH. set_solver. }
  unfold covered_pairs.
  assert (Hgen : ∀ c : gset (GUID * Locator),
    (g, l) ∈ foldl (λ c loc, foldl (λ c r, {[(r, loc)]} ∪ c) c (bt_elems (default ∅ (m !! loc)))) c sh ↔
    (g, l) ∈ c ∨ (l ∈ sh ∧ g ∈ default ∅ (m !! l))).
  { induction sh as [|l' sh IH]; intros c; simpl; [set_solver|].
    rewrite IH, Hin, elem_of_bt_elems. set_solver. }
  rewrite Hgen. set_solver.
Qed.

Lemma elem_of_cover_shared rl l :
  l ∈ filter (λ loc, shared_locator (locator_to_readers rl) loc = true) (bt_keys (locator_to_readers rl))
  ↔ shared rl l.
Proof.
  rewrite list_elem_of_filter, shared_locator_spec, elem_of_bt_keys.
  split; [by intros [? _]|]. intros Hs. split; [done|].
  destruct Hs as (g & _ & _ & Hg & _). apply locator_to_readers_spec in Hg.
  destruct (locator_to_readers rl !! l); [done|set_solver].
Qed.

Lemma elem_of_covered rl g l :
  let m := locator_to_readers rl in
  (g, l) ∈ covered_pairs m (filter (λ loc, shared_locator m loc = true) (bt_keys m))
  ↔ shared rl l ∧ listens rl g l.
Proof. cbv zeta. by rewrite covered_pairs_spec, elem_of_cover_shared, locator_to_readers_spec. Qed.

Lemma elem_of_uncovered covered e p :
  p ∈ uncovered covered e ↔ p.1 = entity_id e.1 ∧ p.2 ∈ e.2 ∧ (e.1, p.2) ∉ covered.
Proof.
  unfold uncovered. rewrite list_elem_of_omap. destruct p as [i l]; simpl. split.
  - intros (l' & Hl' & H). case_bool_decide; simplify_eq. done.
  - intros (-> & Hl & Hc). exists l. split; [done|]. by rewrite bool_decide_false.
Qed.

Lemma elem_of_min_message_cover rl e l :
  (e, l) ∈ min_message_cover rl ↔
  (e = Eid.UNKNOW ∧ shared rl l) ∨ (∃ g, e = entity_id g ∧ listens rl g l ∧ ¬ shared rl l).
Proof.
  unfold min_message_cover. cbv zeta. rewrite elem_of_app, list_elem_of_fmap, elem_of_concat.
  setoid_rewrite list_elem_of_fmap. split.
  - intros [(l' & [= -> ->] & Hl)|(? & (x & -> & Hx) & Hp)].
    + left. split; [done|]. by apply elem_of_cover_shared.
    + right. apply elem_of_uncovered in Hp as (He & Hl & Hc). simpl in *.
      rewrite elem_of_covered in Hc. destruct x as [g ll]; simpl in *.
      assert (listens rl g l) by (exists ll; done). exists g. naive_solver.
  - intros [[-> Hs]|(g & -> & [ll [Hg Hl]] & Hs)].
    + left. exists l. split; [done|]. by apply elem_of_cover_shared.
    + right. eexists. split; [exists (g, ll); split; [reflexivity|done]|].
      apply elem_of_uncovered. simpl. split_and!; [done|done|].
      rewrite elem_of_covered. by intros [? _].
Qed.

Lemma cover_shared_once rl l :
  shared rl l → filter (λ p, p.2 = l) (min_message_cover rl) = [(Eid.UNKNOW, l)].
Proof.
  intros Hs. unfold min_message_cover. cbv zeta. rewrite filter_app.
  assert (filter (λ p, p.2 = l) (concat (uncovered (covered_pairs (locator_to_readers rl)
     (filter (λ loc, shared_locator (locator_to_readers rl) loc = true) (bt_keys (locator_to_readers rl)))) <$> rl))
     = []) as ->.
  { apply elem_of_nil_inv. intros [e l']. rewrite list_elem_of_filter. simpl. intros [-> Hin].
    apply elem_of_concat in Hin as (? & (x & -> & Hx)%list_elem_of_fmap & Hp).
    apply elem_of_uncovered in Hp as (_ & Hl & Hc). simpl in *. apply Hc, elem_of_covered.
    split; [done|]. exists x.2. destruct x; done. }
  rewrite app_nil_r.
  assert (Hgen : ∀ sh : list Locator, NoDup sh → l ∈ sh →
    filter (λ p : EntityId * Locator, p.2 = l) (pair Eid.UNKNOW <$> sh) = [(Eid.UNKNOW, l)]).
  { clear. induction 1 as [|l' sh Hl' Hnd IH]; [by intros ?%elem_of_nil|].
    intros Hl. rewrite fmap_cons, filter_cons. simpl. destruct (decide (l' = l)) as [->|Hne].
    - f_equal. apply elem_of_nil_inv. intros [e x]. rewrite list_elem_of_filter, list_elem_of_fmap. simpl.
      intros [-> (? & [= _ ->] & ?)]. done.
    - apply IH. set_solver. }
  apply Hgen; [|by apply elem_of_cover_shared]. apply NoDup_filter, NoDup_bt_keys.
Qed.

(** C40. Message minimisation is correct and saves messages: the list reaches
    exactly the (reader, locator) pairs asked for, a shared locator gets one
    message, addressed to nobody in particular, and any other locator only
    messages addressed to its reader. *)
Theorem min_message_cover_spec rl e l :
  ((e, l) ∈ min_message_cover rl ↔
    (e = Eid.UNKNOW ∧ shared rl l) ∨ (∃ g, e = entity_id g ∧ listens rl g l ∧ ¬ shared rl l)) ∧
  (shared rl l → filter (λ p, p.2 = l) (min_message_cover rl) = [(Eid.UNKNOW, l)]).
Proof. split; [apply elem_of_min_message_cover|apply cover_shared_once]. Qed.

(** ** Acknowledged changes *)

Lemma is_acked_by_all_spec s w :
  is_acked_by_all s w = true ↔
  ∀ g rp c, matched_readers w !! g = Some rp → rp_cache_state rp !! s = Some c →
    cfr_is_relevant c = true → cfr_status c = Acknowledged.
Proof.
  unfold is_acked_by_all. rewrite forallb_forall. setoid_rewrite <-list_elem_of_In.
  setoid_rewrite elem_of_bt_values. unfold is_acked. split.
  - intros H g rp c Hg Hc Hr. specialize (H rp ltac:(eauto)). rewrite Hc, Hr in H.
    by apply bool_decide_eq_true in H.
  - intros H rp [g Hg]. destruct (rp_cache_state rp !! s) as [c|] eqn:E; [|done].
    destruct (cfr_is_relevant c) eqn:Er; [|done]. apply bool_decide_eq_true. by eapply H.
Qed.

Lemma remove_acked_keys_alt ks w :
  foldl remove_acked_key w ks =
    set_matched_readers (fmap (λ rp, foldl (λ rp k, rp_remove_cache_state (hk_seq_num k) rp) rp ks))
      (set_writer_cache (remove_changes ks) w).
Proof.
  revert w. induction ks as [|k ks IH]; intros w; simpl.
  - unfold set_matched_readers, set_writer_cache, remove_changes; simpl. rewrite map_fmap_id. by destruct w.
  - rewrite IH. unfold set_matched_readers, set_writer_cache, remove_changes; simpl. f_equal.
    by rewrite <-map_fmap_compose.
Qed.

Lemma rp_remove_keys_lookup ks rp s :
  rp_cache_state (foldl (λ rp k, rp_remove_cache_state (hk_seq_num k) rp) rp ks) !! s =
    if bool_decide (s ∈ hk_seq_num <$> ks) then None else rp_cache_state rp !! s.
Proof.
  revert rp. induction ks as [|k ks IH]; intros rp; [done|]. cbn [foldl fmap list_fmap].
  rewrite IH. simpl. rewrite lookup_delete.
  destruct (decide (s ∈ hk_seq_num <$> ks)) as [Hin|Hin].
  - rewrite !bool_decide_true by (done || by right). done.
  - rewrite (bool_decide_false (s ∈ hk_seq_num <$> ks)) by done.
    destruct (decide (hk_seq_num k = s)) as [<-|Hne].
    + by rewrite bool_decide_true by by left.
    + rewrite bool_decide_false; [done|]. by intros [?|?]%elem_of_cons.
Qed.

Lemma rp_remove_keys_same ks rp :
  same_reader rp (foldl (λ rp k, rp_remove_cache_state (hk_seq_num k) rp) rp ks).
Proof.
  assert (H := same_reader_refl rp). revert H. generalize rp at 2 4 as rp'.
  induction ks as [|k l IH]; intros rp' H; simpl; [done|]. apply IH. unfold rp_remove_cache_state.
  by apply same_reader_set.
Qed.

(** The bound below which [remove_acked_changes] looks. *)
Definition acked_base (base : Z) (w : Writer) : Z :=
  match (w_durability (wqos w)).1 with Volatile => base | TransientLocal => Sn.sub base 1 end.

Lemma remove_acked_changes_alt base w :
  remove_acked_changes base w =
    if is_builtin (entity_id (wguid w)) then w
    else foldl remove_acked_key w (acked_keys (acked_base base w) w).
Proof. done. Qed.

Lemma elem_of_acked_keys b w k :
  k ∈ acked_keys b w ↔
    is_Some (changes (writer_cache w) !! k) ∧ hk_seq_num k ≤ b ∧ is_acked_by_all (hk_seq_num k) w = true.
Proof. unfold acked_keys. rewrite list_elem_of_filter, elem_of_bt_keys. naive_solver. Qed.

(** The only changes that [remove_acked_changes] takes out of the cache are
    those at or below its bound that no matched reader still needs (every
    reader that finds it relevant has acknowledged it) and that the writer
    has processed; all the others stay, unchanged. *)
Theorem remove_acked_changes_spec base w k :
  is_builtin (entity_id (wguid w)) = false →
  changes (writer_cache (remove_acked_changes base w)) !! k =
    if bool_decide (hk_seq_num k ≤ acked_base base w ∧ is_acked_by_all (hk_seq_num k) w = true ∧
                    hk_seq_num k ∉ unprocessed_seqnum (writer_cache w))
    then None else changes (writer_cache w) !! k.
Proof.
  intros Hb. rewrite remove_acked_changes_alt, Hb, remove_acked_keys_alt. simpl.
  rewrite lookup_remove_changes_gen. unfold removable.
  destruct (changes (writer_cache w) !! k) as [c|] eqn:E.
  - rewrite (bool_decide_ext (k ∈ _ ∧ _) (hk_seq_num k ≤ acked_base base w ∧
      is_acked_by_all (hk_seq_num k) w = true ∧ hk_seq_num k ∉ unprocessed_seqnum (writer_cache w))); [done|].
    rewrite elem_of_acked_keys, E. naive_solver.
  - by destruct (bool_decide _), (bool_decide _).
Qed.
