(* ===== verification/WriterProofs.v ===== *)
(** * Correctness of the RTPS writer

    The invariant of a writer, its preservation by every handler, and what
    the handlers send. *)
From stdpp Require Import base tactics numbers list gmap sorting strings.
From S2P Require Import Prelude Ordered Ids Time SeqNum Qos HistoryCache Message Topic Proxy Writer.

(** ** The invariant *)

(** [stored s w]: the writer still has its change number [s]. *)
Definition stored (s : Z) (w : Writer) : Prop :=
  is_Some (changes (writer_cache w) !! mkHCKey (wguid w) s).

Record writer_wf (w : Writer) : Prop := {
  ww_cache : hc_wf (writer_cache w);
  ww_type : hc_type (writer_cache w) = HcWriter;
  ww_single : single_writer (wguid w) (writer_cache w);
  ww_pos : positive_seqs (writer_cache w);
  ww_readers : ∀ g rp, matched_readers w !! g = Some rp → rp_wf rp ∧ remote_reader_guid rp = g;
  ww_total : dom (matched_readers w) ⊆ total_matched_readers w;
  ww_state : an_state w ≠ Repairing;
  ww_added : is_Some (get_last_added_ts (wguid w) (writer_cache w));
}.

(** A change that some reader is still to be sent is in the cache. *)
Definition unsent_stored (w : Writer) : Prop :=
  ∀ g rp s c, matched_readers w !! g = Some rp → rp_cache_state rp !! s = Some c →
    cfr_is_relevant c = true → cfr_status c = Unsent → stored s w.

Definition no_unsent (w : Writer) : Prop :=
  ∀ g rp, matched_readers w !! g = Some rp → unsent_changes rp = [].

Lemma no_unsent_stored w : no_unsent w → unsent_stored w.
Proof.
  intros Hn g rp s c Hg Hs _ Hu. specialize (Hn g rp Hg).
  assert (c ∈ unsent_changes rp) as Hin by (apply elem_of_changes_with; eauto).
  rewrite Hn in Hin. by apply elem_of_nil in Hin.
Qed.

(** Updates that leave the invariant's ingredients alone. *)
Lemma writer_wf_scalars w cf_alive n u st :
  st ≠ Repairing → writer_wf w →
  writer_wf (set_alive cf_alive (set_hb_counter n (set_unmatch_count u (set_an_state st w)))).
Proof. intros Hst [? ? ? ? ? ? ? ?]. split; simpl; done. Qed.

Lemma set_alive_wf b w : writer_wf w → writer_wf (set_alive b w).
Proof. intros [? ? ? ? ? ? ? ?]. split; simpl; done. Qed.
Lemma set_hb_counter_wf n w : writer_wf w → writer_wf (set_hb_counter n w).
Proof. intros [? ? ? ? ? ? ? ?]. split; simpl; done. Qed.
Lemma set_unmatch_count_wf n w : writer_wf w → writer_wf (set_unmatch_count n w).
Proof. intros [? ? ? ? ? ? ? ?]. split; simpl; done. Qed.
Lemma set_an_state_wf st w : st ≠ Repairing → writer_wf w → writer_wf (set_an_state st w).
Proof. intros ? [? ? ? ? ? ? ? ?]. split; simpl; done. Qed.

Lemma set_matched_readers_wf f w :
  writer_wf w → dom (f (matched_readers w)) = dom (matched_readers w) →
  (∀ g rp, f (matched_readers w) !! g = Some rp → rp_wf rp ∧ remote_reader_guid rp = g) →
  writer_wf (set_matched_readers f w).
Proof. intros [? ? ? ? ? ? ? ?] Hdom Hf. split; simpl; try done. by rewrite Hdom. Qed.

(** Applying one function to every proxy. *)
Lemma fmap_readers_wf (h : ReaderProxy → ReaderProxy) w :
  writer_wf w →
  (∀ rp, rp_wf rp → rp_wf (h rp) ∧ remote_reader_guid (h rp) = remote_reader_guid rp) →
  writer_wf (set_matched_readers (fmap h) w).
Proof.
  intros Hwf Hh. apply set_matched_readers_wf; [done|apply dom_fmap_L|].
  intros g rp. rewrite lookup_fmap_Some. intros (rp' & <- & Hg).
  apply (ww_readers _ Hwf) in Hg as [? <-]. by apply Hh.
Qed.

(** Updating one proxy. *)
Lemma insert_reader_wf g rp rp' w :
  writer_wf w → matched_readers w !! g = Some rp → rp_wf rp' →
  remote_reader_guid rp' = remote_reader_guid rp →
  writer_wf (set_matched_readers <[g := rp']> w).
Proof.
  intros Hwf Hg Hrp' Hguid. apply set_matched_readers_wf; [done| |].
  - rewrite dom_insert_L. apply elem_of_dom_2 in Hg. set_solver.
  - intros g' rp''. rewrite lookup_insert_Some. intros [[<- <-]|[_ ?]]; [|by apply (ww_readers _ Hwf)].
    split; [done|]. rewrite Hguid. by apply (ww_readers _ Hwf).
Qed.

(** Removing changes from the cache. *)
Lemma single_writer_subseteq g hc hc' :
  changes hc' ⊆ changes hc → single_writer g hc → single_writer g hc'.
Proof. intros Hsub Hg k [c Hc]. apply Hg. exists c. by eapply lookup_weaken. Qed.

Lemma positive_seqs_subseteq hc hc' :
  changes hc' ⊆ changes hc → positive_seqs hc → positive_seqs hc'.
Proof. intros Hsub Hg k [c Hc]. apply Hg. exists c. by eapply lookup_weaken. Qed.

Lemma shrink_cache_wf f w :
  writer_wf w → hc_wf (f (writer_cache w)) → hc_type (f (writer_cache w)) = hc_type (writer_cache w) →
  changes (f (writer_cache w)) ⊆ changes (writer_cache w) →
  last_added (f (writer_cache w)) = last_added (writer_cache w) →
  writer_wf (set_writer_cache f w).
Proof.
  intros [? ? ? ? ? ? ? ?] Hf Hty Hsub Hla. split; simpl; try done; [congruence|..].
  - by eapply single_writer_subseteq.
  - by eapply positive_seqs_subseteq.
  - unfold get_last_added_ts in *. by rewrite Hla.
Qed.

Lemma remove_key_wf k w : writer_wf w → writer_wf (set_writer_cache (remove_change k false) w).
Proof.
  intros Hwf. apply shrink_cache_wf; [done|apply remove_change_wf, Hwf|apply hc_type_remove_change| |].
  - apply remove_change_subseteq.
  - apply last_added_remove_change.
Qed.

Lemma remove_acked_changes_wf base w : writer_wf w → writer_wf (remove_acked_changes base w).
Proof.
  intros Hwf. rewrite remove_acked_changes_alt. destruct (is_builtin _); [done|].
  rewrite remove_acked_keys_alt. apply fmap_readers_wf.
  - apply shrink_cache_wf; [done|apply remove_changes_wf, Hwf|apply hc_type_remove_changes| |].
    + apply remove_changes_subseteq.
    + apply last_added_remove_changes.
  - intros rp Hrp. split; [|by rewrite (rp_remove_keys_same _ rp)].
    intros s c. rewrite rp_remove_keys_lookup. case_bool_decide; [done|]. apply Hrp.
Qed.
#[export] Hint Resolve set_alive_wf set_hb_counter_wf set_unmatch_count_wf remove_key_wf
  remove_acked_changes_wf : umber.

Lemma remove_acked_conf base w : conf (remove_acked_changes base w) = conf w.
Proof.
  rewrite remove_acked_changes_alt. destruct (is_builtin _); [done|]. by rewrite remove_acked_keys_alt.
Qed.

Lemma remove_acked_subseteq base w :
  changes (writer_cache (remove_acked_changes base w)) ⊆ changes (writer_cache w).
Proof.
  rewrite remove_acked_changes_alt. destruct (is_builtin _); [done|]. rewrite remove_acked_keys_alt.
  apply remove_changes_subseteq.
Qed.

(** Acknowledged changes are not awaited by anyone. *)
Lemma remove_acked_unsent base w : unsent_stored w → unsent_stored (remove_acked_changes base w).
Proof.
  intros Hu. rewrite remove_acked_changes_alt. destruct (is_builtin _); [done|].
  rewrite remove_acked_keys_alt. set (ks := acked_keys _ w).
  intros g rp s c Hg Hs Hr Hst. simpl in Hg. rewrite lookup_fmap_Some in Hg.
  destruct Hg as (rp' & <- & Hg). rewrite rp_remove_keys_lookup in Hs.
  destruct (bool_decide_case (s ∈ hk_seq_num <$> ks)) as [[Hb Hin]|[Hb Hin]]; rewrite Hb in Hs; [done|].
  unfold stored. simpl. rewrite lookup_remove_changes_gen, bool_decide_false.
  - by eapply Hu.
  - intros [Hk _]. apply Hin, list_elem_of_fmap. by exists (mkHCKey (wguid w) s).
Qed.

(** ** Registration of new changes *)

Definition register_proxy (q : DataWriterQosPolicies) (st : ChangeForReaderStatusKind)
    (l : list (nat * Z)) (rp : ReaderProxy) : ReaderProxy :=
  foldl (λ rp e, rp_update_cache_state e.2 (unprocessed_relevant q e.1) st rp) rp l.

Definition new_status (w : Writer) : ChangeForReaderStatusKind :=
  if w_push_mode (conf w) then Unsent else Unacknowledged.

Lemma register_unprocessed_alt seqs w :
  register_unprocessed seqs w =
    set_matched_readers (fmap (register_proxy (wqos w) (new_status w) (imap pair (rev seqs)))) w.
Proof.
  unfold register_unprocessed. cbv zeta. fold (new_status w). generalize (new_status w) as st.
  generalize (imap pair (rev seqs)) as l. intros l st. revert w.
  induction l as [|e l IH]; intros w; simpl.
  - unfold set_matched_readers, register_proxy; simpl. rewrite map_fmap_id. by destruct w.
  - rewrite IH. unfold set_matched_readers; simpl. f_equal. by rewrite <-map_fmap_compose.
Qed.

Lemma register_proxy_lookup q st l rp s :
  NoDup l.*2 →
  rp_cache_state (register_proxy q st l rp) !! s =
    match list_find (λ e, e.2 = s) l with
    | Some (_, e) => Some (mkChangeForReader s st (unprocessed_relevant q e.1))
    | None => rp_cache_state rp !! s
    end.
Proof.
  unfold register_proxy. revert rp. induction l as [|[i s'] l IH]; intros rp Hnd; [done|].
  rewrite fmap_cons in Hnd. apply NoDup_cons in Hnd as [Hs' Hnd].
  simpl. rewrite IH by done. destruct (decide (s' = s)) as [->|Hne].
  - destruct (list_find (λ e, e.2 = s) l) as [[j e]|] eqn:E; simpl.
    + apply list_find_Some in E as (Hj & <- & _). exfalso. apply Hs'.
      apply list_elem_of_fmap. exists e. split; [done|]. by eapply list_elem_of_lookup_2.
    + by rewrite lookup_insert_eq.
  - destruct (list_find (λ e, e.2 = s) l) as [[j e]|] eqn:E; simpl; [done|].
    by rewrite lookup_insert_ne.
Qed.

Lemma imap_pair_snd {A} (l : list A) : (imap pair l).*2 = l.
Proof.
  apply list_eq. intros i. rewrite list_lookup_fmap, list_lookup_imap. by destruct (l !! i).
Qed.

(** The two cases of the lookup after registration. *)
Lemma register_proxy_new q st l rp s i :
  NoDup l → l !! i = Some s →
  rp_cache_state (register_proxy q st (imap pair l) rp) !! s =
    Some (mkChangeForReader s st (unprocessed_relevant q i)).
Proof.
  intros Hnd Hi. rewrite register_proxy_lookup by by rewrite imap_pair_snd.
  destruct (list_find _ _) as [[j e]|] eqn:E.
  - apply list_find_Some in E as (Hj & <- & _). rewrite list_lookup_imap in Hj.
    destruct (l !! j) as [s'|] eqn:Ej; simplify_eq/=. by rewrite (NoDup_lookup _ _ _ _ Hnd Hi Ej).
  - apply list_find_None in E. rewrite Forall_forall in E. exfalso.
    apply (E (i, s)); [|done]. apply list_elem_of_lookup_2 with i. by rewrite list_lookup_imap, Hi.
Qed.

Lemma register_proxy_old q st l rp s :
  NoDup l → s ∉ l →
  rp_cache_state (register_proxy q st (imap pair l) rp) !! s = rp_cache_state rp !! s.
Proof.
  intros Hnd Hs. rewrite register_proxy_lookup by by rewrite imap_pair_snd.
  destruct (list_find _ _) as [[j e]|] eqn:E; [|done].
  apply list_find_Some in E as (Hj & <- & _). rewrite list_lookup_imap in Hj.
  destruct (l !! j) as [s'|] eqn:Ej; simplify_eq/=. exfalso. by apply Hs, list_elem_of_lookup_2 with j.
Qed.

Lemma register_proxy_same q st l rp : same_reader rp (register_proxy q st l rp).
Proof.
  unfold register_proxy. assert (H := same_reader_refl rp). revert H. generalize rp at 2 4 as rp'.
  induction l as [|k l IH]; intros rp' H; simpl; [done|]. apply IH. unfold rp_update_cache_state.
  by apply same_reader_set.
Qed.

Lemma register_proxy_wf q st l rp :
  NoDup l → Forall (λ s, s ≤ Sn.MAX) l → rp_wf rp → rp_wf (register_proxy q st (imap pair l) rp).
Proof.
  intros Hnd Hl Hwf s c. destruct (decide (s ∈ l)) as [Hin|Hin].
  - pose proof Hin as [i Hi]%list_elem_of_lookup. rewrite (register_proxy_new _ _ _ _ _ i) by done.
    intros [= <-]. rewrite Forall_forall in Hl. split; [done|by apply Hl].
  - rewrite register_proxy_old by done. apply Hwf.
Qed.

(** ** Draining the unsent changes *)

Definition queue_all (self : EntityId) (st : ChangeForReaderStatusKind) (rps : list ReaderProxy)
    (q : Queue * Queue) : Queue * Queue :=
  foldl (λ q rp, foldl (queue_change self rp) q (changes_with st rp)) q rps.

Lemma changes_with_length st rp : (length (changes_with st rp) ≤ size (rp_cache_state rp))%nat.
Proof.
  unfold changes_with, bt_values. etrans; [apply length_filter|].
  etrans; [apply omap_length_le|]. by rewrite length_bt_keys.
Qed.

Lemma queue_change_same self f rp : queue_change self (rp_set_cache_state f rp) = queue_change self rp.
Proof. done. Qed.

Lemma drain_proxy_total self st rp acc :
  rp_wf rp → st ≠ Underway →
  drain_proxy self (λ rp, find_min (changes_with st rp)) rp acc =
    Done (settle st rp, foldl (queue_change self rp) acc (changes_with st rp)).
Proof.
  intros Hwf Hst. unfold drain_proxy. rewrite drain_total; [done|done|done|apply queue_change_same|].
  pose proof (changes_with_length st rp). lia.
Qed.

Lemma collect_one_total self (rs : gmap GUID ReaderProxy) q g rp :
  rs !! g = Some rp → rp_wf rp →
  collect_one self (rs, q) g =
    Done (<[g := settle Unsent rp]> rs, foldl (queue_change self rp) q (changes_with Unsent rp)).
Proof.
  intros Hrp Hwf. unfold collect_one. cbn [fst snd]. rewrite Hrp. cbn [unwrap mbind outcome_bind].
  unfold next_unsent_change, unsent_changes. by rewrite drain_proxy_total.
Qed.

Lemma collect_fold self keys (rs : gmap GUID ReaderProxy) q :
  NoDup keys → (∀ g, g ∈ keys → ∃ rp, rs !! g = Some rp ∧ rp_wf rp) →
  ∃ rs', foldM (collect_one self) (rs, q) keys =
      Done (rs', queue_all self Unsent (omap (λ g, rs !! g) keys) q) ∧
    ∀ g, rs' !! g = if decide (g ∈ keys) then settle Unsent <$> rs !! g else rs !! g.
Proof.
  intros Hnd. revert rs q. induction Hnd as [|g keys Hg Hnd IH]; intros rs q Hkeys.
  { exists rs. split; [done|]. intros g. by rewrite decide_False by apply not_elem_of_nil. }
  destruct (Hkeys g ltac:(left)) as (rp & Hrp & Hwf).
  rewrite foldM_cons, (collect_one_total _ _ _ _ rp) by done. cbn [mbind outcome_bind].
  destruct (IH (<[g := settle Unsent rp]> rs)
    (foldl (queue_change self rp) q (changes_with Unsent rp))) as (rs' & Hf & Hrs').
  { intros g' Hg'. rewrite lookup_insert_ne by by intros ->. apply Hkeys. by right. }
  exists rs'. split.
  - rewrite Hf. do 2 f_equal.
    unfold queue_all. cbn [omap list_omap]. rewrite Hrp. simpl. f_equal.
    apply list_omap_ext, Forall2_same_length_lookup_2; [done|].
    intros i x y Hx Hy. simplify_eq. rewrite lookup_insert_ne; [done|].
    intros ->. by apply Hg, list_elem_of_lookup_2 with i.
  - intros g'. rewrite Hrs'. destruct (decide (g' = g)) as [->|Hne].
    + rewrite decide_False by done. rewrite lookup_insert_eq, decide_True, Hrp by by left. done.
    + rewrite lookup_insert_ne by done. destruct (decide (g' ∈ keys)).
      * by rewrite decide_True by by right.
      * by rewrite decide_False by set_solver.
Qed.

Lemma collect_unsent_total w :
  writer_wf w →
  collect_unsent w =
    Done (set_matched_readers (fmap (settle Unsent)) w,
          queue_all (entity_id (wguid w)) Unsent (bt_values (matched_readers w)) (∅, ∅)).
Proof.
  intros Hwf. unfold collect_unsent.
  destruct (collect_fold (entity_id (wguid w)) (bt_keys (matched_readers w)) (matched_readers w) (∅, ∅))
    as (rs' & -> & Hrs').
  - apply NoDup_bt_keys.
  - intros g [rp Hg]%elem_of_bt_keys. exists rp. split; [done|]. by eapply ww_readers.
  - simpl. do 2 f_equal. unfold set_matched_readers. f_equal. apply map_eq. intros g.
    rewrite Hrs', lookup_fmap. destruct (decide (g ∈ _)) as [|Hn]; [done|].
    rewrite elem_of_bt_keys in Hn. destruct (matched_readers w !! g); [|done]. exfalso. apply Hn. eauto.
Qed.

(** *** What is queued *)

(** Reader [rp] has change [s] with status [st], relevant or not. *)
Definition has_change (st : ChangeForReaderStatusKind) (rel : bool) (s : Z) (rp : ReaderProxy) : Prop :=
  ∃ c, rp_cache_state rp !! s = Some c ∧ cfr_status c = st ∧ cfr_is_relevant c = rel.

Definition queued (q : Queue) (s : Z) (g : GUID) (ll : list Locator) : Prop :=
  (g, ll) ∈ default [] (q !! s).

Lemma queue_push_spec s e q s' e' :
  e' ∈ default [] (queue_push s e q !! s') ↔ e' ∈ default [] (q !! s') ∨ (s' = s ∧ e' = e).
Proof.
  unfold queue_push. rewrite lookup_insert. destruct (decide (s = s')) as [->|]; simpl.
  - rewrite elem_of_app, list_elem_of_singleton. naive_solver.
  - naive_solver.
Qed.

(** Change [c] puts the entry [e] of reader [rp] into the queue of [s]. *)
Definition queues (self : EntityId) (rp : ReaderProxy) (rel : bool) (s : Z) (e : GUID * list Locator)
    (c : ChangeForReader) : Prop :=
  ∃ ll, reader_locators self rp = Some ll ∧ e = (remote_reader_guid rp, ll) ∧
    cfr_seq_num c = s ∧ cfr_is_relevant c = rel.

Lemma queue_change_spec self rp c q s e :
  (e ∈ default [] ((queue_change self rp q c).1 !! s) ↔
     e ∈ default [] (q.1 !! s) ∨ queues self rp true s e c) ∧
  (e ∈ default [] ((queue_change self rp q c).2 !! s) ↔
     e ∈ default [] (q.2 !! s) ∨ queues self rp false s e c).
Proof.
  unfold queue_change, queues. destruct (reader_locators self rp) as [ll|] eqn:El.
  - assert (Hpush : ∀ q : Queue, e ∈ default [] (queue_push (cfr_seq_num c) (remote_reader_guid rp, ll) q !! s)
      ↔ e ∈ default [] (q !! s) ∨ ∃ ll0, Some ll = Some ll0 ∧ e = (remote_reader_guid rp, ll0) ∧
          cfr_seq_num c = s ∧ cfr_is_relevant c = cfr_is_relevant c).
    { intros q'. rewrite queue_push_spec. naive_solver. }
    destruct (cfr_is_relevant c) eqn:Er; simpl; (split; [try apply Hpush|try apply Hpush]);
      (split; [by left|]); intros [H|(? & _ & _ & _ & ?)]; done.
  - split; (split; [by left|]); intros [H|(? & ? & _)]; done.
Qed.

Lemma queue_changes_spec self rp cs q s e :
  (e ∈ default [] ((foldl (queue_change self rp) q cs).1 !! s) ↔
     e ∈ default [] (q.1 !! s) ∨ Exists (queues self rp true s e) cs) ∧
  (e ∈ default [] ((foldl (queue_change self rp) q cs).2 !! s) ↔
     e ∈ default [] (q.2 !! s) ∨ Exists (queues self rp false s e) cs).
Proof.
  revert q. induction cs as [|c cs IH]; intros q; simpl; [by rewrite !Exists_nil; tauto|].
  destruct (IH (queue_change self rp q c)) as [-> ->].
  destruct (queue_change_spec self rp c q s e) as [-> ->]. rewrite !Exists_cons. tauto.
Qed.

Lemma queue_all_spec self st rps q s e :
  let add rel := Exists (λ rp, Exists (queues self rp rel s e) (changes_with st rp)) rps in
  (e ∈ default [] ((queue_all self st rps q).1 !! s) ↔ e ∈ default [] (q.1 !! s) ∨ add true) ∧
  (e ∈ default [] ((queue_all self st rps q).2 !! s) ↔ e ∈ default [] (q.2 !! s) ∨ add false).
Proof.
  cbv zeta. unfold queue_all. revert q. induction rps as [|rp rps IH]; intros q; simpl.
  { by rewrite !Exists_nil; tauto. }
  destruct (IH (foldl (queue_change self rp) q (changes_with st rp))) as [-> ->].
  destruct (queue_changes_spec self rp (changes_with st rp) q s e) as [-> ->]. rewrite !Exists_cons. tauto.
Qed.

(** Queued sequence numbers are never left without a reader. *)
Definition queue_ok (q : Queue) : Prop := ∀ s rl, q !! s = Some rl → rl ≠ [].

Lemma queue_push_ok s e q : queue_ok q → queue_ok (queue_push s e q).
Proof.
  intros Hq s' rl. unfold queue_push. rewrite lookup_insert. destruct (decide (s = s')); [|apply Hq].
  intros [= <-]. by destruct (default [] (q !! s)).
Qed.

Lemma queue_all_ok self st rps q :
  queue_ok q.1 → queue_ok q.2 → queue_ok (queue_all self st rps q).1 ∧ queue_ok (queue_all self st rps q).2.
Proof.
  intros H1 H2. unfold queue_all.
  enough (Hgen : ∀ cs rp q, queue_ok q.1 → queue_ok q.2 →
    queue_ok (foldl (queue_change self rp) q cs).1 ∧ queue_ok (foldl (queue_change self rp) q cs).2).
  { revert q H1 H2. induction rps as [|rp rps IH]; intros q H1 H2; [done|]. simpl. apply IH; by apply Hgen. }
  clear. induction cs as [|c cs IH]; intros rp q H1 H2; [done|]. simpl. apply IH;
    unfold queue_change; destruct (reader_locators self rp); try done;
    destruct (cfr_is_relevant c); simpl; auto using queue_push_ok.
Qed.

Lemma queue_ok_empty : queue_ok ∅.
Proof. intros s rl. by rewrite lookup_empty. Qed.

(** The queue of [s] lists exactly the reachable readers with [s] in status
    [st]: DATA for the relevant ones, GAP for the others. *)
Definition to_send (st : ChangeForReaderStatusKind) (w : Writer) : Queue * Queue :=
  queue_all (entity_id (wguid w)) st (bt_values (matched_readers w)) (∅, ∅).

Definition awaits (st : ChangeForReaderStatusKind) (rel : bool) (s : Z) (g : GUID) (ll : list Locator)
    (w : Writer) : Prop :=
  ∃ rp, matched_readers w !! g = Some rp ∧
    reader_locators (entity_id (wguid w)) rp = Some ll ∧ has_change st rel s rp.

Lemma Exists_queues_spec self st rp rel s e :
  rp_wf rp →
  Exists (queues self rp rel s e) (changes_with st rp) ↔
  ∃ ll, reader_locators self rp = Some ll ∧ e = (remote_reader_guid rp, ll) ∧ has_change st rel s rp.
Proof.
  intros Hwf. rewrite Exists_exists. unfold queues, has_change. setoid_rewrite elem_of_changes_with. split.
  - intros (c & (Hst & s' & Hs') & ll & Hll & He & Hs & Hr). exists ll. split_and!; [done..|].
    exists c. split; [|done]. destruct (Hwf _ _ Hs') as [<- _]. by rewrite <-Hs.
  - intros (ll & Hll & He & c & Hc & Hst & Hr). exists c. split; [eauto|].
    exists ll. split_and!; try done. by apply Hwf in Hc as [? _].
Qed.

Lemma to_send_spec st w s g ll :
  writer_wf w →
  ((g, ll) ∈ default [] ((to_send st w).1 !! s) ↔ awaits st true s g ll w) ∧
  ((g, ll) ∈ default [] ((to_send st w).2 !! s) ↔ awaits st false s g ll w).
Proof.
  intros Hwf. unfold to_send.
  destruct (queue_all_spec (entity_id (wguid w)) st (bt_values (matched_readers w)) (∅, ∅) s (g, ll))
    as [H1 H2]. cbv zeta in H1, H2. rewrite H1, H2. cbn [fst snd]. rewrite lookup_empty. cbn [default].
  assert (Hgen : ∀ rel, (g, ll) ∈ @nil (GUID * list Locator) ∨
      Exists (λ rp, Exists (queues (entity_id (wguid w)) rp rel s (g, ll)) (changes_with st rp))
        (bt_values (matched_readers w)) ↔ awaits st rel s g ll w); [|by split].
  intros rel. rewrite Exists_exists. unfold awaits. split.
  - intros [?%elem_of_nil|(rp & [g' Hg']%elem_of_bt_values & HE)]; [done|].
    destruct (ww_readers _ Hwf _ _ Hg') as [Hrp <-].
    apply Exists_queues_spec in HE as (ll' & Hll & [= -> ->] & Hh); [|done]. eauto.
  - intros (rp & Hg & Hll & Hh). right. destruct (ww_readers _ Hwf _ _ Hg) as [Hrp <-].
    exists rp. split; [by apply elem_of_bt_values; eauto|]. apply Exists_queues_spec; [done|]. eauto.
Qed.

Lemma to_send_some st w s rl :
  writer_wf w → (to_send st w).1 !! s = Some rl → ∃ g ll, (g, ll) ∈ rl ∧ awaits st true s g ll w.
Proof.
  intros Hwf Hs. destruct (queue_all_ok (entity_id (wguid w)) st (bt_values (matched_readers w)) (∅, ∅))
    as [Hok _]; [apply queue_ok_empty..|]. pose proof (Hok _ _ Hs) as Hne.
  destruct rl as [|[g ll] rl]; [done|]. exists g, ll. split; [by left|].
  apply to_send_spec; [done|]. rewrite Hs. by left.
Qed.

(** ** The sending loops *)

Lemma get_change_stored s w : is_Some (get_change (wguid w) s (writer_cache w)) ↔ stored s w.
Proof. done. Qed.

(** Forgetting one change does not affect the others. *)
Lemma forget_other s s' w :
  s ≠ s' → changes (writer_cache (forget_if_best_effort s w)) !! mkHCKey (wguid w) s' =
           changes (writer_cache w) !! mkHCKey (wguid w) s'.
Proof.
  intros Hne. unfold forget_if_best_effort. destruct (is_reliable w); [done|]. simpl.
  destruct (decide (removable (mkHCKey (wguid w) s) (writer_cache w))).
  - rewrite changes_remove_change, lookup_delete_ne by (done || congruence). done.
  - by rewrite remove_change_refused.
Qed.

Lemma forget_wf s w : writer_wf w → writer_wf (forget_if_best_effort s w).
Proof. intros. unfold forget_if_best_effort. destruct (is_reliable w); auto with umber. Qed.

(** What a handler never changes. *)
Definition same_conf (w w' : Writer) : Prop :=
  conf w' = conf w ∧ matched_readers w' = matched_readers w.

Lemma forget_same s w : same_conf w (forget_if_best_effort s w).
Proof. unfold forget_if_best_effort. by destruct (is_reliable w). Qed.

Lemma send_data_conf w w' now s c rl : conf w' = conf w → send_data w' now s c rl = send_data w now s c rl.
Proof. intros Hc. unfold send_data, data_msg, wguid. by rewrite Hc. Qed.

(** The DATA loop does not panic while its changes are stored, and sends each
    change to its readers. *)
Lemma send_data_loop now q ks w evs :
  NoDup ks → writer_wf w → (∀ s, s ∈ ks → is_Some (q !! s) ∧ stored s w) →
  ∃ w' evs', foldM (send_one_data now q) (w, evs) ks = Done (w', evs ++ evs') ∧
    writer_wf w' ∧ same_conf w w' ∧ (is_reliable w = true → w' = w) ∧
    ∀ s rl, s ∈ ks → q !! s = Some rl →
      ∃ c, changes (writer_cache w) !! mkHCKey (wguid w) s = Some c ∧ send_data w now s c rl ⊆ evs'.
Proof.
  intros Hnd. revert w evs. induction Hnd as [|s ks Hs Hnd IH]; intros w evs Hwf Hks.
  { exists w, []. rewrite app_nil_r. split_and!; try done. intros s rl ?%elem_of_nil. done. }
  destruct (Hks s ltac:(left)) as [[rl Hrl] [c Hc]].
  rewrite foldM_cons. unfold send_one_data at 2. unfold get_change. rewrite Hc, Hrl.
  cbn [unwrap mbind outcome_bind].
  pose proof (forget_same s w) as [Hcf Hmr]. set (w1 := forget_if_best_effort s w) in *.
  assert (Hg1 : wguid w1 = wguid w) by (unfold wguid; by rewrite Hcf).
  destruct (IH w1 (evs ++ send_data w now s c rl)) as (w' & evs' & Hf & Hwf' & [Hcf' Hmr'] & Hrel & Hsent).
  { by apply forget_wf. }
  { intros s' Hs'. destruct (Hks s' ltac:(by right)) as [? Hst]. split; [done|].
    unfold stored. rewrite Hg1. unfold w1. rewrite forget_other; [done|]. by intros ->. }
  exists w', (send_data w now s c rl ++ evs'). rewrite Hf, <-(assoc_L (++)). split_and!; try done.
  - by split; etrans; eauto.
  - intros Hr. assert (Hw1 : w1 = w) by (unfold w1, forget_if_best_effort; by rewrite Hr).
    rewrite <-Hw1. apply Hrel. by rewrite Hw1.
  - intros s' rl' [->|Hs']%elem_of_cons Hrl'.
    + assert (rl' = rl) as -> by congruence. exists c. split; [done|]. by apply list_subseteq_app_l.
    + destruct (Hsent s' rl' Hs' Hrl') as (c' & Hc' & Hsub). exists c'. split.
      * rewrite <-Hc', Hg1. unfold w1. rewrite forget_other; [done|]. by intros ->.
      * rewrite (send_data_conf w w1) in Hsub by done. by apply list_subseteq_app_r.
Qed.

(** A GAP names its start only: the list is empty. *)
Definition gap_events (w : Writer) (s : Z) (rl : Readers) : list WriterEvent :=
  concat ((λ e, send_msg_to_locator e.2 (gap_msg w e.1 s (mkNumberSet (Sn.add s 1) 0 [])))
          <$> min_message_cover rl).

Lemma send_gap_total w s rl : send_gap w s rl = Done (gap_events w s rl).
Proof.
  unfold send_gap, gap_events.
  assert (Hgen : ∀ l evs, foldM (λ evs e,
      set ← from_vec (Sn.add s 1) []; Done (evs ++ send_msg_to_locator e.2 (gap_msg w e.1 s set))) evs l
    = Done (evs ++ concat ((λ e, send_msg_to_locator e.2 (gap_msg w e.1 s (mkNumberSet (Sn.add s 1) 0 [])))
          <$> l))); [|by rewrite Hgen].
  induction l as [|e l IH]; intros evs; [by rewrite app_nil_r|].
  rewrite foldM_cons. cbn [from_vec foldM mbind outcome_bind fmap list_fmap concat].
  by rewrite IH, <-(assoc_L (++)).
Qed.

Lemma gap_events_conf w w' s rl : conf w' = conf w → gap_events w' s rl = gap_events w s rl.
Proof. intros Hc. unfold gap_events, gap_msg, wguid. by rewrite Hc. Qed.

Lemma send_gap_loop q ks w evs :
  writer_wf w → (∀ s, s ∈ ks → is_Some (q !! s)) →
  ∃ w' evs', foldM (send_one_gap q) (w, evs) ks = Done (w', evs ++ evs') ∧
    writer_wf w' ∧ same_conf w w' ∧ (is_reliable w = true → w' = w) ∧
    ∀ s rl, s ∈ ks → q !! s = Some rl → gap_events w s rl ⊆ evs'.
Proof.
  revert w evs. induction ks as [|s ks IH]; intros w evs Hwf Hks.
  { exists w, []. rewrite app_nil_r. split_and!; try done. intros s rl ?%elem_of_nil. done. }
  destruct (Hks s ltac:(left)) as [rl Hrl].
  rewrite foldM_cons. unfold send_one_gap at 2. rewrite Hrl.
  cbn [unwrap mbind outcome_bind]. rewrite send_gap_total. cbn [mbind outcome_bind].
  pose proof (forget_same s w) as [Hcf Hmr]. pose proof (forget_wf s w Hwf) as Hwf1.
  assert (Hr1 : is_reliable w = true → forget_if_best_effort s w = w)
    by (intros Hr; unfold forget_if_best_effort; by rewrite Hr).
  set (w1 := forget_if_best_effort s w) in *.
  destruct (IH w1 (evs ++ gap_events w s rl) Hwf1) as (w' & evs' & Hf & Hwf' & [Hcf' Hmr'] & Hrel & Hsent).
  { intros s' Hs'. apply Hks. by right. }
  exists w', (gap_events w s rl ++ evs'). rewrite Hf, <-(assoc_L (++)). split_and!; try done.
  - by split; etrans; eauto.
  - intros Hr. rewrite <-(Hr1 Hr). apply Hrel. by rewrite (Hr1 Hr).
  - intros s' rl' [->|Hs']%elem_of_cons Hrl'.
    + assert (rl' = rl) as -> by congruence. by apply list_subseteq_app_l.
    + specialize (Hsent s' rl' Hs' Hrl'). rewrite (gap_events_conf w w1) in Hsent by done.
      by apply list_subseteq_app_r.
Qed.

(** ** handle_write_data_cmd *)

Lemma settle_no_unsent w : no_unsent (set_matched_readers (fmap (settle Unsent)) w).
Proof.
  intros g rp. simpl. rewrite lookup_fmap_Some. intros (rp' & <- & _).
  apply elem_of_nil_inv. intros c (Hst & s & Hs)%elem_of_changes_with.
  simpl in Hs. rewrite lookup_fmap_Some in Hs. destruct Hs as (c' & <- & _).
  by destruct (decide (cfr_status c' = Unsent)).
Qed.

Lemma settle_all_wf st w : writer_wf w → writer_wf (set_matched_readers (fmap (settle st)) w).
Proof. intros Hwf. apply fmap_readers_wf; [done|]. intros rp Hrp. split; [by apply settle_wf|done]. Qed.

(** Taking the unprocessed numbers out of the cache. *)
Lemma get_unprocessed_writer w :
  writer_wf w →
  ∃ cache, get_unprocessed (writer_cache w) = Done (cache, unprocessed_seqnum (writer_cache w)) ∧
    changes cache = changes (writer_cache w) ∧ unprocessed_seqnum cache = ∅ ∧
    last_added cache = last_added (writer_cache w) ∧ writer_wf (set_writer_cache (λ _, cache) w).
Proof.
  intros Hwf. unfold get_unprocessed, is_hc_writer. rewrite bool_decide_true by apply (ww_type _ Hwf).
  eexists. split; [reflexivity|]. split_and!; try done.
  apply (shrink_cache_wf (set_unprocessed (λ _, ∅))); [done| |done|done|done].
  eapply get_unprocessed_wf; [apply (ww_cache _ Hwf)|].
  unfold get_unprocessed, is_hc_writer. by rewrite bool_decide_true by apply (ww_type _ Hwf).
Qed.

Lemma unprocessed_stored s w :
  writer_wf w → s ∈ unprocessed_seqnum (writer_cache w) → stored s w ∧ 0 < s < Sn.MAX.
Proof.
  intros Hwf Hs. destruct (wf_unprocessed _ (ww_cache _ Hwf) s Hs) as (k & Hk & <-).
  pose proof (ww_single _ Hwf _ Hk) as Hg. pose proof (ww_pos _ Hwf _ Hk).
  split; [|done]. unfold stored. destruct k as [g sn]; simpl in *. by subst g.
Qed.

(** The state when the new changes have been registered. *)
Lemma register_unprocessed_wf seqs w :
  writer_wf w → NoDup seqs → Forall (λ s, s ≤ Sn.MAX) seqs → writer_wf (register_unprocessed seqs w).
Proof.
  intros Hwf Hnd Hmax. rewrite register_unprocessed_alt. apply fmap_readers_wf; [done|].
  intros rp Hrp. split.
  - apply register_proxy_wf; [by apply NoDup_rev| |done]. by apply Forall_rev.
  - by rewrite (register_proxy_same _ _ _ rp).
Qed.

Lemma register_unprocessed_unsent seqs w :
  NoDup seqs → (∀ s, s ∈ seqs → stored s w) → unsent_stored w →
  unsent_stored (register_unprocessed seqs w).
Proof.
  intros Hnd Hst Hu. rewrite register_unprocessed_alt. intros g rp s c Hg Hc Hr Hun.
  simpl in Hg. rewrite lookup_fmap_Some in Hg. destruct Hg as (rp' & <- & Hg).
  destruct (decide (s ∈ seqs)) as [Hs|Hs]; [by apply Hst|].
  rewrite register_proxy_old in Hc by (by apply NoDup_rev || by rewrite elem_of_rev).
  by eapply Hu.
Qed.

(** The state in which the readers' queues are collected. *)
Definition prepared (w : Writer) : Writer :=
  let seqs := bt_elems (unprocessed_seqnum (writer_cache w)) in
  let w1 := register_unprocessed seqs
              (set_writer_cache (set_unprocessed (λ _, ∅)) (set_alive true w)) in
  if is_reliable w then remove_acked_changes (default 0 (head seqs)) w1 else w1.

Lemma prepared_conf w : conf (prepared w) = conf w.
Proof.
  unfold prepared. cbv zeta. rewrite register_unprocessed_alt.
  destruct (is_reliable w); [|done]. by rewrite remove_acked_conf.
Qed.

Lemma prepared_wf w : writer_wf w → unsent_stored w → writer_wf (prepared w) ∧ unsent_stored (prepared w).
Proof.
  intros Hwf Hu. unfold prepared. cbv zeta. set (seqs := bt_elems _).
  assert (Hwf0 : writer_wf (set_alive true w)) by auto with umber.
  destruct (get_unprocessed_writer _ Hwf0) as (cache & Hg & _ & _ & _ & Hwf1).
  unfold get_unprocessed, is_hc_writer in Hg. rewrite bool_decide_true in Hg by apply (ww_type _ Hwf0).
  injection Hg as <-. change (set_writer_cache (λ _, ?c) (set_alive true w))
    with (set_writer_cache (set_unprocessed (λ _, ∅)) (set_alive true w)) in Hwf1.
  set (w0 := set_writer_cache _ _) in *.
  assert (Hst : ∀ s, s ∈ seqs → stored s w0 ∧ 0 < s < Sn.MAX).
  { intros s Hs. apply elem_of_bt_elems in Hs. by apply (unprocessed_stored s w Hwf) in Hs. }
  assert (Hnd : NoDup seqs) by apply NoDup_bt_elems.
  assert (writer_wf (register_unprocessed seqs w0)).
  { apply register_unprocessed_wf; [done|done|]. apply Forall_forall. intros s Hs%Hst. lia. }
  assert (unsent_stored (register_unprocessed seqs w0)).
  { apply register_unprocessed_unsent; [done|by intros s [? _]%Hst|exact Hu]. }
  destruct (is_reliable w); auto using remove_acked_unsent with umber.
Qed.

Lemma deadline_timer_total w :
  Dur.wf (period (w_deadline (wqos w)).1) → no_panic (deadline_timer w).
Proof.
  intros Hd. unfold deadline_timer. cbv zeta. case_bool_decide; [apply no_panic_Done|].
  apply no_panic_bind; [by apply to_core_no_panic|]. intros; apply no_panic_Done.
Qed.

Lemma to_send_conf st w w' :
  conf w' = conf w → matched_readers w' = matched_readers w → to_send st w' = to_send st w.
Proof. intros Hc Hm. unfold to_send, wguid. by rewrite Hc, Hm. Qed.

Lemma get_unprocessed_eq hc :
  hc_type hc = HcWriter → get_unprocessed hc = Done (set_unprocessed (λ _, ∅) hc, unprocessed_seqnum hc).
Proof. intros Hty. unfold get_unprocessed, is_hc_writer. by rewrite bool_decide_true. Qed.

Lemma set_unprocessed_id hc : unprocessed_seqnum hc = ∅ → set_unprocessed (λ _, ∅) hc = hc.
Proof. destruct hc. unfold set_unprocessed. simpl. by intros ->. Qed.

(** The handler in one piece: no panic, the invariant, and the messages. *)
Lemma handle_write_data_cmd_main now w :
  writer_wf w → unsent_stored w → Dur.wf (period (w_deadline (wqos w)).1) →
  ∃ w' evs wt, handle_write_data_cmd now w = Done (w', evs, wt) ∧
    (conf w' = conf w ∧ writer_wf w' ∧ unsent_stored w') ∧
    (unprocessed_seqnum (writer_cache w) ≠ ∅ →
     no_unsent w' ∧
     (is_reliable w = true → changes (writer_cache w') = changes (writer_cache (prepared w))) ∧
     (∀ s rl, (to_send Unsent (prepared w)).1 !! s = Some rl →
        ∃ c, changes (writer_cache (prepared w)) !! mkHCKey (wguid w) s = Some c ∧
             send_data w now s c rl ⊆ evs) ∧
     (∀ s rl, (to_send Unsent (prepared w)).2 !! s = Some rl → gap_events w s rl ⊆ evs)).
Proof.
  intros Hwf Hu Hd. unfold handle_write_data_cmd. cbv zeta.
  rewrite get_unprocessed_eq by apply (ww_type _ Hwf). cbn [mbind outcome_bind].
  destruct (prepared_wf w Hwf Hu) as [Hpwf Hpu].
  pose proof (prepared_conf w) as Hpc.
  change (unprocessed_seqnum (writer_cache (set_alive true w))) with (unprocessed_seqnum (writer_cache w)).
  change (set_writer_cache (λ _, set_unprocessed _ _) (set_alive true w))
    with (set_writer_cache (set_unprocessed (λ _, ∅)) (set_alive true w)).
  destruct (bt_elems (unprocessed_seqnum (writer_cache w))) as [|oldest seqs] eqn:Eseqs.
  { unfold prepared in *. rewrite Eseqs in *. eexists _, _, _. split; [reflexivity|].
    assert (He : unprocessed_seqnum (writer_cache w) = ∅) by by apply bt_elems_nil.
    split; [|done]. split_and!; [done| |exact Hu].
    apply (shrink_cache_wf (set_unprocessed (λ _, ∅))); [auto with umber| |done|done|done].
    change (writer_cache (set_alive true w)) with (writer_cache w).
    rewrite set_unprocessed_id by done. apply (ww_cache _ Hwf). }
  assert (Hp : prepared w =
    let w1 := register_unprocessed (oldest :: seqs)
                (set_writer_cache (set_unprocessed (λ _, ∅)) (set_alive true w)) in
    if is_reliable w1 then remove_acked_changes oldest w1 else w1).
  { unfold prepared. rewrite Eseqs. cbv zeta. by rewrite register_unprocessed_alt. }
  cbv zeta in Hp. rewrite <-Hp. clear Hp.
  destruct (deadline_timer_total (prepared w)) as [wt ->]; [unfold wqos in *; by rewrite Hpc|].
  cbn [mbind outcome_bind]. rewrite collect_unsent_total by done. cbn [mbind outcome_bind].
  fold (to_send Unsent (prepared w)). destruct (to_send Unsent (prepared w)) as [qd qg] eqn:Eq.
  set (w2 := set_matched_readers (fmap (settle Unsent)) (prepared w)) in *.
  assert (Hw2 : writer_wf w2) by by apply settle_all_wf.
  assert (Hg2 : wguid w2 = wguid w) by (unfold wguid; by rewrite <-Hpc).
  destruct (send_data_loop now qd (bt_keys qd) w2 []) as (w3 & evs & -> & Hw3 & [Hc3 Hm3] & Hrel3 & Hsent3).
  { apply NoDup_bt_keys. } { done. }
  { intros s Hs%elem_of_bt_keys. split; [done|]. destruct Hs as [rl Hrl].
    destruct (to_send_some Unsent (prepared w) s rl) as (g & ll & _ & rp & Hg & _ & c & Hc & Hst & Hr);
      [done|by rewrite Eq|]. by eapply (Hpu g rp s c). }
  cbn [mbind outcome_bind app].
  destruct (send_gap_loop qg (bt_keys qg) w3 evs Hw3) as (w4 & evs' & -> & Hw4 & [Hc4 Hm4] & Hrel4 & Hsent4).
  { intros s Hs%elem_of_bt_keys. done. }
  cbn [mbind outcome_bind]. exists w4, (evs ++ evs'), wt.
  assert (Hn : no_unsent w4).
  { unfold no_unsent. rewrite Hm4, Hm3. apply settle_no_unsent. }
  split; [done|]. split; [split_and!; [|done|by apply no_unsent_stored]|].
  { rewrite Hc4, Hc3. exact Hpc. }
  intros _. split_and!; [done|..].
  - intros Hr. rewrite Hrel4, Hrel3; [done|..]; unfold is_reliable in *; rewrite ?Hc3; by rewrite <-Hpc in Hr.
  - intros s rl Hs. destruct (Hsent3 s rl) as (c & Hc & Hsub); [apply elem_of_bt_keys; eauto|done|].
    exists c. rewrite <-Hg2. split; [exact Hc|]. rewrite (send_data_conf w w2) in Hsub by done.
    by apply list_subseteq_app_l.
  - intros s rl Hs. specialize (Hsent4 s rl). rewrite (gap_events_conf w w3) in Hsent4 by (rewrite Hc3; exact Hpc).
    apply list_subseteq_app_r, Hsent4; [apply elem_of_bt_keys; eauto|done].
Qed.

(** ** Delivery of new data *)

(** [s] is the [i]-th newest number the DataWriter has handed over. *)
Definition newest (w : Writer) (i : nat) (s : Z) : Prop :=
  rev (bt_elems (unprocessed_seqnum (writer_cache w))) !! i = Some s.

(** The message about [s] reaches locator [l] of reader [g], addressed to it
    or, on a locator shared with others, to all. *)
Definition data_sent (now : Z → nat → option Timestamp) (w : Writer) (evs : list WriterEvent) (s : Z)
    (c : CacheChange) (g : GUID) (l : Locator) : Prop :=
  ∃ reid i, (reid = Eid.UNKNOW ∨ reid = entity_id g) ∧
    send_msg_to_locator l (data_msg w reid (now s i) c) ⊆ evs.

Lemma send_data_covers w now s c rl g ll l :
  (g, ll) ∈ rl → l ∈ ll → data_sent now w (send_data w now s c rl) s c g l.
Proof.
  intros Hg Hl. assert (Hlis : listens rl g l) by by exists ll.
  assert (∃ reid, (reid = Eid.UNKNOW ∨ reid = entity_id g) ∧ (reid, l) ∈ min_message_cover rl)
    as (reid & Hreid & Hin).
  { destruct (shared_locator (locator_to_readers rl) l) eqn:E.
    - exists Eid.UNKNOW. split; [by left|]. apply elem_of_min_message_cover. left.
      by rewrite <-shared_locator_spec.
    - exists (entity_id g). split; [by right|]. apply elem_of_min_message_cover. right. exists g.
      split_and!; [done|done|]. by rewrite <-shared_locator_spec, E. }
  apply list_elem_of_lookup in Hin as [j Hj]. exists reid, j. split; [done|].
  intros ev Hev. unfold send_data. apply elem_of_concat.
  exists (send_msg_to_locator l (data_msg w reid (now s j) c)). split; [|done].
  apply list_elem_of_lookup. exists j. by rewrite list_lookup_imap, Hj.
Qed.

Lemma prepared_awaits w i s g rp ll :
  writer_wf w → w_push_mode (conf w) = true → newest w i s →
  unprocessed_relevant (wqos w) i = true → matched_readers w !! g = Some rp →
  reader_locators (entity_id (wguid w)) rp = Some ll →
  awaits Unsent true s g ll (prepared w).
Proof.
  intros Hwf Hpush Hi Hrel Hg Hll. unfold newest in Hi. unfold prepared. cbv zeta.
  set (seqs := bt_elems _) in *. set (w0 := set_writer_cache _ _).
  assert (Hnd : NoDup (rev seqs)) by apply NoDup_rev, NoDup_bt_elems.
  set (rp1 := register_proxy (wqos w) Unsent (imap pair (rev seqs)) rp).
  assert (Hs : rp_cache_state rp1 !! s = Some (mkChangeForReader s Unsent true)).
  { unfold rp1. rewrite (register_proxy_new _ _ _ _ _ i) by done. by rewrite Hrel. }
  assert (Hg1 : matched_readers (register_unprocessed seqs w0) !! g = Some rp1).
  { rewrite register_unprocessed_alt. simpl. rewrite lookup_fmap, Hg. simpl.
    unfold new_status. simpl. by rewrite Hpush. }
  assert (Hll1 : reader_locators (entity_id (wguid w)) rp1 = Some ll).
  { unfold rp1. by rewrite (register_proxy_same _ _ _ rp). }
  assert (Hconf : conf (register_unprocessed seqs w0) = conf w) by by rewrite register_unprocessed_alt.
  destruct (is_reliable w); last first.
  { exists rp1. unfold wguid. rewrite Hconf. split_and!; [done|done|]. by exists (mkChangeForReader s Unsent true). }
  rewrite remove_acked_changes_alt. set (w1 := register_unprocessed seqs w0) in *.
  assert (Hg2 : wguid w1 = wguid w) by (unfold wguid; by rewrite Hconf).
  destruct (is_builtin _).
  { exists rp1. rewrite Hg2. split_and!; [done|done|]. by exists (mkChangeForReader s Unsent true). }
  rewrite remove_acked_keys_alt. set (ks := acked_keys _ _).
  exists (foldl (λ rp k, rp_remove_cache_state (hk_seq_num k) rp) rp1 ks). split_and!.
  - simpl. by rewrite lookup_fmap, Hg1.
  - rewrite (rp_remove_keys_same ks rp1). change (wguid (set_matched_readers _ _)) with (wguid w1).
    by rewrite Hg2.
  - exists (mkChangeForReader s Unsent true). split; [|done]. rewrite rp_remove_keys_lookup, bool_decide_false; [done|].
    intros (k & -> & Hk)%list_elem_of_fmap. apply elem_of_acked_keys in Hk as (_ & _ & Hall).
    rewrite is_acked_by_all_spec in Hall. by specialize (Hall g rp1 _ Hg1 Hs eq_refl).
Qed.

Lemma data_sent_mono now w evs evs' s c g l :
  evs ⊆ evs' → data_sent now w evs s c g l → data_sent now w evs' s c g l.
Proof. intros Hsub (reid & i & Hr & He). exists reid, i. split; [done|]. by etrans. Qed.

Lemma prepared_changes_subseteq w : changes (writer_cache (prepared w)) ⊆ changes (writer_cache w).
Proof.
  unfold prepared. cbv zeta. rewrite register_unprocessed_alt.
  destruct (is_reliable w); [|done]. etrans; [apply remove_acked_subseteq|done].
Qed.

(** A writer whose awaited changes are in its cache handles the command
    without reaching its [unreachable!]; afterwards nothing is left unsent,
    and the invariant holds again.  Termination of the [while let] loops is
    part of the statement. *)
Theorem handle_write_data_cmd_total now w :
  writer_wf w → unsent_stored w → Dur.wf (period (w_deadline (wqos w)).1) →
  ∃ w' evs wt, handle_write_data_cmd now w = Done (w', evs, wt) ∧
    writer_wf w' ∧ unsent_stored w' ∧
    (unprocessed_seqnum (writer_cache w) ≠ ∅ → no_unsent w').
Proof.
  intros Hwf Hu Hd. destruct (handle_write_data_cmd_main now w Hwf Hu Hd)
    as (w' & evs & wt & Hh & (_ & Hwf' & Hu') & Hrest).
  exists w', evs, wt. split_and!; [done..|]. intros Hne. by apply Hrest.
Qed.

(** What [new_data_is_sent] states. *)
Lemma new_data_main now w w' evs wt i s g rp ll l :
  writer_wf w → unsent_stored w → Dur.wf (period (w_deadline (wqos w)).1) →
  w_push_mode (conf w) = true →
  newest w i s → unprocessed_relevant (wqos w) i = true →
  matched_readers w !! g = Some rp → reader_locators (entity_id (wguid w)) rp = Some ll → l ∈ ll →
  handle_write_data_cmd now w = Done (w', evs, wt) →
  ∃ c, changes (writer_cache w) !! mkHCKey (wguid w) s = Some c ∧ data_sent now w evs s c g l.
Proof.
  intros Hwf Hu Hd Hpush Hi Hrel Hg Hll Hl Hh.
  destruct (handle_write_data_cmd_main now w Hwf Hu Hd) as (? & ? & ? & Hh' & _ & Hrest).
  rewrite Hh in Hh'. injection Hh' as <- <- <-.
  destruct Hrest as (_ & _ & Hsent & _).
  { intros He. unfold newest in Hi. apply list_elem_of_lookup_2 in Hi.
    rewrite elem_of_rev, He, elem_of_bt_elems in Hi. set_solver. }
  pose proof (prepared_awaits w i s g rp ll Hwf Hpush Hi Hrel Hg Hll) as Haw.
  destruct (prepared_wf w Hwf Hu) as [Hpwf _].
  destruct (to_send_spec Unsent (prepared w) s g ll Hpwf) as [Hq _]. rewrite <-Hq in Haw.
  destruct ((to_send Unsent (prepared w)).1 !! s) as [rl|] eqn:E; [|by apply elem_of_nil in Haw].
  destruct (Hsent s rl E) as (c & Hc & Hsub). exists c. split.
  - eapply lookup_weaken; [exact Hc|apply prepared_changes_subseteq].
  - eapply data_sent_mono; [exact Hsub|]. by eapply send_data_covers.
Qed.

(** C17. Every new change that is still relevant (with KeepLast: one of the
    [depth] newest) goes out as DATA to every locator of every matched
    reader, with the stored contents. *)
Theorem new_data_is_sent now w w' evs wt i s g rp ll l :
  writer_wf w → unsent_stored w → Dur.wf (period (w_deadline (wqos w)).1) →
  w_push_mode (conf w) = true →
  newest w i s → unprocessed_relevant (wqos w) i = true →
  matched_readers w !! g = Some rp → reader_locators (entity_id (wguid w)) rp = Some ll → l ∈ ll →
  handle_write_data_cmd now w = Done (w', evs, wt) →
  ∃ c, changes (writer_cache w) !! mkHCKey (wguid w) s = Some c ∧ data_sent now w evs s c g l.
Proof. apply new_data_main. Qed.

(** ** Answering negative acknowledgements *)

Lemma set_hb_counter_id w : set_hb_counter (hb_counter w) w = w.
Proof. by destruct w. Qed.

Lemma set_matched_readers_id f w : f (matched_readers w) = matched_readers w → set_matched_readers f w = w.
Proof. destruct w. unfold set_matched_readers. simpl. by intros ->. Qed.

Lemma resend_loop now q ks w evs :
  (∀ s, s ∈ ks → is_Some (q !! s)) →
  ∃ n evs', foldM (resend_one now q) (w, evs) ks = Done (set_hb_counter n w, evs ++ evs') ∧
    ∀ s rl c, s ∈ ks → q !! s = Some rl → changes (writer_cache w) !! mkHCKey (wguid w) s = Some c →
      send_data w now s c rl ⊆ evs'.
Proof.
  revert w evs. induction ks as [|s ks IH]; intros w evs Hks.
  { exists (hb_counter w), []. rewrite app_nil_r, set_hb_counter_id. split; [done|].
    by intros s rl c ?%elem_of_nil. }
  destruct (Hks s ltac:(left)) as [rl Hrl].
  assert (∃ n evs1, resend_one now q (w, evs) s = Done (set_hb_counter n w, evs ++ evs1) ∧
    ∀ c, changes (writer_cache w) !! mkHCKey (wguid w) s = Some c → evs1 = send_data w now s c rl)
    as (n & evs1 & Hone & H1).
  { unfold resend_one, get_change. rewrite Hrl. cbn [unwrap mbind outcome_bind].
    destruct (changes (writer_cache w) !! mkHCKey (wguid w) s) as [c|].
    - exists (hb_counter w), (send_data w now s c rl). rewrite set_hb_counter_id.
      split; [done|]. by intros ? [= ->].
    - eexists _, _. split; [reflexivity|done]. }
  rewrite foldM_cons, Hone. cbn [mbind outcome_bind].
  destruct (IH (set_hb_counter n w) (evs ++ evs1)) as (n' & evs2 & -> & H2); [intros; apply Hks; by right|].
  exists n', (evs1 ++ evs2). rewrite <-(assoc_L (++)). split; [done|].
  intros s' rl' c [->|Hs']%elem_of_cons Hrl' Hc.
  - assert (rl' = rl) as -> by congruence. rewrite <-(H1 c Hc). by apply list_subseteq_app_l.
  - apply list_subseteq_app_r. by apply (H2 s' rl' c).
Qed.

Lemma resend_gap_loop q ks w evs :
  (∀ s, s ∈ ks → is_Some (q !! s)) →
  ∃ evs', foldM (resend_gap q) (w, evs) ks = Done (w, evs ++ evs').
Proof.
  revert evs. induction ks as [|s ks IH]; intros evs Hks; [exists []; by rewrite app_nil_r|].
  destruct (Hks s ltac:(left)) as [rl Hrl].
  rewrite foldM_cons. unfold resend_gap at 2. rewrite Hrl.
  cbn [unwrap mbind outcome_bind]. rewrite send_gap_total. cbn [mbind outcome_bind].
  destruct (IH (evs ++ gap_events w s rl)) as (evs' & ->); [intros; apply Hks; by right|].
  eexists. by rewrite <-(assoc_L (++)).
Qed.

Lemma nack_response_main now g w :
  writer_wf (set_an_state Waiting w) →
  ∃ n w' evs, handle_nack_response_timeout now g w = Done (w', evs) ∧
    w' = set_an_state Waiting (set_hb_counter n (set_matched_readers (alter (settle Requested) g) w)) ∧
    ∀ rp ll s c l, matched_readers w !! g = Some rp →
      reader_locators (entity_id (wguid w)) rp = Some ll → l ∈ ll →
      has_change Requested true s rp → changes (writer_cache w) !! mkHCKey (wguid w) s = Some c →
      data_sent now w evs s c g l.
Proof.
  intros Hwf. unfold handle_nack_response_timeout. cbv zeta.
  change (matched_readers (set_an_state Repairing w)) with (matched_readers w).
  set (self := entity_id (wguid (set_an_state Repairing w))).
  set (q := from_option (λ rp, queue_all self Requested [rp] (∅, ∅)) (∅, ∅) (matched_readers w !! g)).
  set (w1 := set_matched_readers (alter (settle Requested) g) (set_an_state Repairing w)).
  match goal with |- context [mbind ?k ?m] => assert (m = Done (w1, q)) as -> end.
  { unfold q. destruct (matched_readers w !! g) as [rp|] eqn:Hg; simpl.
    - destruct (ww_readers _ Hwf _ _ Hg) as [Hrp _].
      unfold next_requested_change, requested_changes. rewrite drain_proxy_total by done.
      cbn [mbind outcome_bind fst snd]. do 2 f_equal. unfold w1, set_matched_readers; simpl. f_equal.
      apply map_eq. intros g'. rewrite lookup_insert. destruct (decide (g = g')) as [<-|Hne].
      + by rewrite lookup_alter_eq, Hg.
      + by rewrite lookup_alter_ne.
    - do 2 f_equal. symmetry. apply set_matched_readers_id. simpl. apply alter_id. intros; congruence. }
  cbn [mbind outcome_bind]. destruct q as [qd qg] eqn:Eq.
  destruct (resend_loop now qd (bt_keys qd) w1 []) as (n & evs & -> & Hsent).
  { intros s Hs%elem_of_bt_keys. done. }
  cbn [mbind outcome_bind app].
  destruct (resend_gap_loop qg (bt_keys qg) (set_hb_counter n w1) evs) as (evs' & ->).
  { intros s Hs%elem_of_bt_keys. done. }
  cbn [mbind outcome_bind fst snd]. exists n. eexists _, _. split; [reflexivity|]. split; [done|].
  intros rp ll s c l Hg Hll Hl Hh Hc. destruct (ww_readers _ Hwf _ _ Hg) as [Hrp Hguid].
  assert (Hin : (g, ll) ∈ default [] (qd !! s)).
  { change qd with (qd, qg).1. rewrite <-Eq. unfold q. rewrite Hg. cbn [from_option].
    destruct (queue_all_spec self Requested [rp] (∅, ∅) s (g, ll)) as [H1 _]. cbv zeta in H1.
    apply H1. right. apply Exists_cons_hd, Exists_queues_spec; [done|]. exists ll. by rewrite Hguid. }
  destruct (qd !! s) as [rl|] eqn:E; [|by apply elem_of_nil in Hin].
  eapply data_sent_mono; [|by eapply (send_data_covers w now s c rl)].
  apply list_subseteq_app_l.
  assert (send_data w1 now s c rl = send_data w now s c rl) as <- by by apply send_data_conf.
  apply (Hsent s rl c); [apply elem_of_bt_keys; eauto|done|done].
Qed.

(** ** handle_acknack *)

Lemma sn_set_range s : Forall (λ n, n ≤ Sn.MAX) (sn_set s).
Proof.
  apply Forall_forall. intros n. unfold sn_set. generalize 0 as line.
  induction (bitmap s) as [|m bm IH]; intros line; simpl; [by intros ?%elem_of_nil|].
  intros [Hn|Hn]%elem_of_app; [|by eapply IH].
  unfold set_line in Hn. apply list_elem_of_omap in Hn as (o & _ & Ho).
  destruct (bit_set m o); [|done]. injection Ho as <-.
  pose proof (wrap_s_range 64 (bitmap_base s + 32 * line + o) ltac:(lia)) as [_ Hr].
  unfold Sn.MAX, i64_MAX. change (2 ^ (64 - 1)) with (2 ^ 63) in Hr. lia.
Qed.

(** The proxy after the acknowledgement has been taken in. *)
Definition acknowledged_proxy (a : AckNack) (rp : ReaderProxy) : ReaderProxy :=
  requested_changes_set (sn_set (reader_sn_state a))
    (acked_changes_set (Sn.sub (bitmap_base (reader_sn_state a)) 1) rp).

Lemma acknowledged_proxy_wf a rp :
  rp_wf rp → rp_wf (acknowledged_proxy a rp) ∧
  remote_reader_guid (acknowledged_proxy a rp) = remote_reader_guid rp ∧
  rp_locators (acknowledged_proxy a rp) = rp_locators rp.
Proof.
  intros Hwf. unfold acknowledged_proxy. split_and!.
  - apply requested_wf; [apply sn_set_range|by apply acked_wf].
  - rewrite (requested_same_reader _ (acked_changes_set _ rp)). simpl.
    by rewrite (acked_same_reader _ rp).
  - rewrite (requested_same_reader _ (acked_changes_set _ rp)). simpl.
    by rewrite (acked_same_reader _ rp).
Qed.

Lemma acknowledged_proxy_lookup a rp s :
  rp_wf rp →
  rp_cache_state (acknowledged_proxy a rp) !! s =
    let old := (λ c, if decide (s ≤ Sn.sub (bitmap_base (reader_sn_state a)) 1)
                     then cfr_set_status Acknowledged c else c) <$> rp_cache_state rp !! s in
    if decide (s ∈ sn_set (reader_sn_state a))
    then Some match old with
              | Some c => cfr_set_status Requested c
              | None => mkChangeForReader s Requested true
              end
    else old.
Proof.
  intros Hwf. unfold acknowledged_proxy. rewrite requested_changes_set_lookup.
  by rewrite acked_changes_set_lookup.
Qed.

(** An acknowledgement creates no unsent change. *)
Lemma acknowledged_unsent a rp s c :
  rp_wf rp → rp_cache_state (acknowledged_proxy a rp) !! s = Some c → cfr_status c = Unsent →
  rp_cache_state rp !! s = Some c.
Proof.
  intros Hwf. rewrite acknowledged_proxy_lookup by done. cbv zeta.
  destruct (decide (s ∈ sn_set _)).
  - intros [= <-]. by destruct ((λ c, _) <$> _).
  - destruct (rp_cache_state rp !! s) as [c'|]; simpl; [|done].
    destruct (decide _); by intros [= <-].
Qed.

Lemma alter_settle_wf st g w : writer_wf w → writer_wf (set_matched_readers (alter (settle st) g) w).
Proof.
  intros Hwf. apply set_matched_readers_wf; [done|apply dom_alter_L|].
  intros g' rp. rewrite lookup_alter_Some. intros [(<- & rp' & Hg & ->)|[_ Hg]].
  - apply (ww_readers _ Hwf) in Hg as [? ?]. split; [by apply settle_wf|done].
  - by apply (ww_readers _ Hwf).
Qed.

Lemma alter_settle_unsent st g w : unsent_stored w → unsent_stored (set_matched_readers (alter (settle st) g) w).
Proof.
  intros Hu g' rp s c. simpl. rewrite lookup_alter_Some. intros [(<- & rp' & Hg & ->)|[_ Hg]]; [|by eapply Hu].
  simpl. rewrite lookup_fmap_Some. intros (c' & <- & Hc) Hr Hst.
  destruct (decide (cfr_status c' = st)); [done|]. by eapply Hu.
Qed.

(** The nack response as a state change. *)
Definition nack_answered (n : Z) (g : GUID) (w : Writer) : Writer :=
  set_an_state Waiting (set_hb_counter n (set_matched_readers (alter (settle Requested) g) w)).

Lemma nack_answered_wf n g w : writer_wf (set_an_state Waiting w) → writer_wf (nack_answered n g w).
Proof.
  intros Hwf. apply (alter_settle_wf Requested g) in Hwf.
  by apply (set_hb_counter_wf n) in Hwf.
Qed.

Lemma nack_answered_unsent n g w : unsent_stored w → unsent_stored (nack_answered n g w).
Proof. apply (alter_settle_unsent Requested g). Qed.

(** The acknowledged proxy put back. *)
Definition acknowledged (a : AckNack) (g : GUID) (rp : ReaderProxy) (w : Writer) : Writer :=
  set_matched_readers <[g := acknowledged_proxy a rp]> w.

Lemma acknowledged_wf a g rp w :
  writer_wf w → matched_readers w !! g = Some rp → writer_wf (acknowledged a g rp w).
Proof.
  intros Hwf Hg. destruct (ww_readers _ Hwf _ _ Hg) as [Hrp _].
  destruct (acknowledged_proxy_wf a rp Hrp) as (? & ? & _). by eapply insert_reader_wf.
Qed.

Lemma acknowledged_stays_stored a g rp w :
  writer_wf w → matched_readers w !! g = Some rp → unsent_stored w → unsent_stored (acknowledged a g rp w).
Proof.
  intros Hwf Hg Hu g' rp' s c. simpl. rewrite lookup_insert_Some. intros [[<- <-]|[_ Hg']]; [|by eapply Hu].
  intros Hc Hr Hst. destruct (ww_readers _ Hwf _ _ Hg) as [Hrp _].
  apply acknowledged_unsent in Hc; [|done|done]. by eapply (Hu g rp).
Qed.

Lemma handle_acknack_main now a g w :
  writer_wf w → unsent_stored w →
  ∃ w' evs wt, handle_acknack now a g w = Done (w', evs, wt) ∧
    conf w' = conf w ∧ writer_wf w' ∧ unsent_stored w'.
Proof.
  intros Hwf Hu. unfold handle_acknack. destruct (matched_readers w !! g) as [rp|] eqn:Hg; [|by eauto 10].
  cbv zeta. fold (acknowledged_proxy a rp). change (set_matched_readers <[g := acknowledged_proxy a rp]> w)
    with (acknowledged a g rp w).
  pose proof (acknowledged_wf a g rp w Hwf Hg) as Hwf1.
  pose proof (acknowledged_stays_stored a g rp w Hwf Hg Hu) as Hu1.
  set (w1 := acknowledged a g rp w) in *.
  assert (∃ w2 evs wt, match an_state w1 with
      | Waiting =>
          if bool_decide (requested_changes (acknowledged_proxy a rp) = []) then Done (w1, [], None)
          else if bool_decide (w_nack_response_delay (conf w1) = Dur.ZERO) then
            r ← handle_nack_response_timeout now g w1; Done (r, None)
          else Done (set_an_state MustRepair w1, [], Some (TimerNack (entity_id (wguid w1)) g))
      | MustRepair => Done (w1, [], None)
      | Repairing => Panic
      end = Done (w2, evs, wt) ∧ conf w2 = conf w ∧ writer_wf w2 ∧ unsent_stored w2)
    as (w2 & evs & wt & -> & Hc2 & Hwf2 & Hu2).
  { pose proof (ww_state _ Hwf1) as Hst. destruct (an_state w1) eqn:Est; [|done|by eauto 10].
    case_bool_decide; [by eauto 10|]. case_bool_decide.
    - assert (Hwf1' : writer_wf (set_an_state Waiting w1)) by by apply set_an_state_wf.
      destruct (nack_response_main now g w1 Hwf1') as (n & w2 & evs & -> & -> & _).
      cbn [mbind outcome_bind]. eexists _, _, _. split; [reflexivity|].
      split_and!; [done|by apply (nack_answered_wf n g)|by apply (nack_answered_unsent n g)].
    - eexists _, _, _. split; [reflexivity|]. split_and!; [done|by apply set_an_state_wf|done]. }
  cbn [mbind outcome_bind]. eexists _, _, _. split; [reflexivity|].
  split_and!; [by rewrite remove_acked_conf|by apply remove_acked_changes_wf|by apply remove_acked_unsent].
Qed.

(** Whatever a reader acknowledges or requests, the writer handles it
    without a panic (the [Repairing] case of the code is unreachable) and
    keeps its invariant. *)
Theorem handle_acknack_total now a g w :
  writer_wf w → unsent_stored w →
  ∃ w' evs wt, handle_acknack now a g w = Done (w', evs, wt) ∧ writer_wf w' ∧ unsent_stored w'.
Proof.
  intros Hwf Hu. destruct (handle_acknack_main now a g w Hwf Hu) as (w' & evs & wt & ? & _ & ? & ?). eauto 10.
Qed.

Lemma requested_data_main now a g rp ll l s c w w' evs wt :
  writer_wf w → an_state w = Waiting → w_nack_response_delay (conf w) = Dur.ZERO →
  matched_readers w !! g = Some rp → reader_locators (entity_id (wguid w)) rp = Some ll → l ∈ ll →
  s ∈ sn_set (reader_sn_state a) →
  (∀ cfr, rp_cache_state rp !! s = Some cfr → cfr_is_relevant cfr = true) →
  changes (writer_cache w) !! mkHCKey (wguid w) s = Some c →
  handle_acknack now a g w = Done (w', evs, wt) →
  data_sent now w evs s c g l.
Proof.
  intros Hwf Hst Hdelay Hg Hll Hl Hs Hrel Hc Hh. unfold handle_acknack in Hh. rewrite Hg in Hh.
  cbv zeta in Hh. fold (acknowledged_proxy a rp) in Hh.
  change (set_matched_readers <[g := acknowledged_proxy a rp]> w) with (acknowledged a g rp w) in Hh.
  pose proof (acknowledged_wf a g rp w Hwf Hg) as Hwf1.
  destruct (ww_readers _ Hwf _ _ Hg) as [Hrp _].
  change (an_state (acknowledged a g rp w)) with (an_state w) in Hh. rewrite Hst in Hh.
  set (w1 := acknowledged a g rp w) in *.
  assert (Hreq : has_change Requested true s (acknowledged_proxy a rp)).
  { unfold has_change. rewrite acknowledged_proxy_lookup by done. cbv zeta. rewrite decide_True by done.
    eexists. split; [reflexivity|]. destruct (rp_cache_state rp !! s) as [cfr|] eqn:E; simpl; [|done].
    pose proof (Hrel _ eq_refl). by destruct (decide _). }
  rewrite bool_decide_false in Hh; last first.
  { destruct Hreq as (cfr & E & Hr & _). intros Hnil.
    assert (cfr ∈ requested_changes (acknowledged_proxy a rp)) as Hin by (apply elem_of_changes_with; eauto).
    rewrite Hnil in Hin. by apply elem_of_nil in Hin. }
  change (w_nack_response_delay (conf w1)) with (w_nack_response_delay (conf w)) in Hh.
  rewrite bool_decide_true in Hh by done.
  assert (Hwf1' : writer_wf (set_an_state Waiting w1)) by by apply set_an_state_wf.
  destruct (nack_response_main now g w1 Hwf1') as (n & w2 & evs2 & Heq & -> & Hsent).
  rewrite Heq in Hh. cbn [mbind outcome_bind] in Hh. injection Hh as <- <- <-.
  destruct (acknowledged_proxy_wf a rp Hrp) as (_ & _ & Hlocs).
  apply (Hsent (acknowledged_proxy a rp) ll s c l); try done.
  - unfold w1, acknowledged. simpl. by rewrite lookup_insert_eq.
  - unfold reader_locators, get_multicast_ll_from_proxy, get_unicast_ll_from_proxy in *. by rewrite Hlocs.
Qed.


(** ** Heartbeats *)

Lemma send_msg_event loc msg ev :
  ev ∈ send_msg_to_locator loc msg →
  ∃ addr port, ev = SendToMulticast msg addr port ∨ ev = SendToUnicast msg addr port.
Proof.
  unfold send_msg_to_locator. case_bool_decide; [|by intros ?%elem_of_nil].
  destruct (is_ipv4_multicast _); intros ->%list_elem_of_singleton; eauto.
Qed.

(** The heartbeat inside [hb_msg]. *)
Definition hb_of (w : Writer) (reid : EntityId) (liveliness : bool) (first last count : Z)
    : Heartbeat * Z :=
  let flag := from_enndianness (w_endianness (conf w)) in
  (mkHeartbeat reid (entity_id (wguid w)) first last count None None None None None,
   if liveliness then Z.lor flag Flag.Heartbeat.Liveliness else flag).

Lemma hb_msg_body w reid now liv first last count :
  sm_body <$> submessages (hb_msg w reid now liv first last count) !! 1%nat =
    Some (Entity (EHeartBeat (hb_of w reid liv first last count).1 (hb_of w reid liv first last count).2)).
Proof.
  unfold hb_msg, hb_of, Build.build, Build.heartbeat, Build.info_ts. by destruct now.
Qed.

Lemma hb_of_valid w reid liv first last count :
  0 < first → first ≤ last → in_s 64 first →
  heartbeat_is_valid (hb_of w reid liv first last count).1 (hb_of w reid liv first last count).2 = Done true.
Proof.
  intros Hf Hl Hs. unfold heartbeat_is_valid. cbn [fst snd hb_of first_sn last_sn].
  rewrite !bool_decide_false; [|rewrite sn_sub_small; unfold in_s in *; lia|lia|lia].
  by destruct liv, (w_endianness (conf w)).
Qed.

(** Every heartbeat the writer sends passes the validity test of its
    receiver, and announces exactly the range of the changes that are
    processed and still in the cache. *)
Theorem heartbeat_announces_cache now liv w w' evs ev :
  writer_wf w → send_heart_beat now liv w = (w', evs) → ev ∈ evs →
  ∃ reid first last count addr port,
    (ev = SendToMulticast (hb_msg w reid now liv first last count) addr port ∨
     ev = SendToUnicast (hb_msg w reid now liv first last count) addr port) ∧
    heartbeat_is_valid (hb_of w reid liv first last count).1 (hb_of w reid liv first last count).2
      = Done true ∧
    processed (writer_cache w') first ∧ processed (writer_cache w') last ∧
    ∀ s, processed (writer_cache w') s → first ≤ s ≤ last.
Proof.
  intros Hwf. unfold send_heart_beat. destruct (negb liv && is_acked_all_changes w).
  { intros [= _ <-] ?%elem_of_nil. done. }
  cbv zeta. set (w0 := if liv then set_alive true w else w).
  assert (Hwf0 : writer_wf w0) by (unfold w0; destruct liv; auto with umber).
  assert (Hc0 : conf w0 = conf w) by (unfold w0; by destruct liv).
  set (base := get_seq_num_max (writer_cache w0)).
  pose proof (remove_acked_changes_wf base w0 Hwf0) as Hwf1.
  assert (Hc1 : conf (remove_acked_changes base w0) = conf w) by by rewrite remove_acked_conf.
  set (w1 := remove_acked_changes base w0) in *.
  pose proof (get_seq_num_min_cases _ (ww_pos _ Hwf1)) as Hmin.
  pose proof (get_seq_num_max_cases _ (ww_pos _ Hwf1)) as Hmax. cbv zeta in Hmin, Hmax.
  destruct (_ || _) eqn:E; [by intros [= _ <-] ?%elem_of_nil|].
  apply orb_false_iff in E as [[E1%bool_decide_eq_false _]%orb_false_iff _].
  intros [= <- <-] Hev. apply elem_of_concat in Hev as (? & ([reid l] & -> & _)%list_elem_of_fmap & Hev).
  destruct Hmin as [[Hmin _]|[Hmin Hmin']]; [lia|].
  destruct Hmax as [[_ Hmax]|[Hmax Hmax']]; [by apply Hmax in Hmin|].
  assert (Hmsg : ∀ f la n, hb_msg (set_hb_counter (as_i32 (hb_counter w1 + 1)) w1) reid now liv f la n =
    hb_msg w reid now liv f la n) by (intros; unfold hb_msg, wguid; simpl; by rewrite Hc1).
  rewrite Hmsg in Hev. apply send_msg_event in Hev as (addr & port & Hev).
  eexists reid, _, _, _, addr, port. split; [exact Hev|]. split_and!; [|done|done|by auto].
  apply hb_of_valid; [lia|by apply Hmin'|].
  destruct Hmin as (_ & k & Hk & <-). pose proof (ww_pos _ Hwf1 _ Hk) as Hpos.
  unfold in_s, Sn.MAX, i64_MAX in *. change (2 ^ (64 - 1)) with (2 ^ 63). lia.
Qed.

(** A manual liveliness assertion is silent when every change has been
    acknowledged and removed: the heartbeat that should carry it is not sent. *)
Theorem manual_liveliness_needs_a_change now w :
  writer_wf w → changes (writer_cache w) = ∅ →
  (assert_liveliness_manually now w).2 = [].
Proof.
  intros Hwf He. unfold assert_liveliness_manually, send_heart_beat. simpl.
  set (w0 := remove_acked_changes _ _).
  assert (Hwf0 : writer_wf w0) by (unfold w0; auto with umber).
  assert (Hsub : changes (writer_cache w0) ⊆ changes (writer_cache w)).
  { unfold w0. etrans; [apply remove_acked_subseteq|done]. }
  pose proof (get_seq_num_min_cases _ (ww_pos _ Hwf0)) as [[-> _]|[Hp _]]; [done|].
  destruct Hp as (_ & k & [c Hk] & _). apply (lookup_weaken _ _ _ _ Hk) in Hsub. rewrite He in Hsub.
  by rewrite lookup_empty in Hsub.
Qed.

(** ** Matching and unmatching *)

Lemma rp_new_inv g guid inline ls qos hc push rp :
  hc_wf hc → single_writer g hc → positive_seqs hc →
  rp_new guid inline ls qos hc push = Done rp →
  rp_wf rp ∧ remote_reader_guid rp = guid ∧
  ∀ s, is_Some (rp_cache_state rp !! s) → is_Some (changes hc !! mkHCKey g s).
Proof.
  intros Hwf Hg Hpos Hnew. destruct (has_locator ls) eqn:Hls; last first.
  { unfold rp_new in Hnew. by rewrite Hls in Hnew. }
  destruct (rp_new_Done g guid inline ls qos hc push Hwf Hg Hls) as (rp' & Hd & Hguid & _ & _ & _ & Hcs).
  rewrite Hd in Hnew. injection Hnew as <-. split_and!; [|done|].
  - intros s c. rewrite Hcs. destruct (changes hc !! mkHCKey g s) eqn:E; simpl; [|done]. intros [= <-].
    split; [done|]. pose proof (Hpos (mkHCKey g s) ltac:(eauto)) as Hp. simpl in *. lia.
  - intros s. by rewrite Hcs, fmap_is_Some.
Qed.

Lemma matched_reader_add_inv guid inline ls qos w w' evs :
  writer_wf w → matched_reader_add_with_default_locator guid inline ls qos w = Done (w', evs) →
  writer_wf w' ∧ writer_cache w' = writer_cache w ∧ conf w' = conf w ∧
  (unsent_stored w → unsent_stored w').
Proof.
  intros Hwf. unfold matched_reader_add_with_default_locator.
  destruct (matched_readers w !! guid) as [rp|] eqn:Hg.
  - intros [= <- <-]. destruct (ww_readers _ Hwf _ _ Hg) as [Hrp Hguid].
    split_and!; [by eapply insert_reader_wf|done|done|].
    intros Hu g rp' s c. simpl. rewrite lookup_insert_Some. intros [[<- <-]|[_ Hg']]; [|by eapply Hu].
    simpl. by eapply (Hu guid rp).
  - destruct (writer_is_compatible _ _); [by intros [= <- _]|].
    destruct (rp_new _ _ _ _ _ _) as [rp|] eqn:Hn; [|done]. cbn [mbind outcome_bind]. intros [= <- _].
    destruct (rp_new_inv (wguid w) _ _ _ _ _ _ _ (ww_cache _ Hwf) (ww_single _ Hwf) (ww_pos _ Hwf) Hn)
      as (Hrp & Hguid & Hst).
    split_and!; [|done|done|].
    + destruct Hwf as [? ? ? ? Hr Ht ?]. split; simpl; try done; [|set_solver].
      intros g rp'. rewrite lookup_insert_Some. intros [[<- <-]|[_ ?]]; [done|by apply Hr].
    + intros Hu g rp' s c. simpl. rewrite lookup_insert_Some. intros [[<- <-]|[_ Hg']]; [|by eapply Hu].
      intros Hs _ _. apply Hst. by rewrite Hs.
Qed.

Lemma matched_reader_remove_inv g w :
  writer_wf w → writer_wf (matched_reader_remove g w).1 ∧
  (unsent_stored w → unsent_stored (matched_reader_remove g w).1).
Proof.
  intros [? ? ? ? Hr Ht ?]. split.
  - split; simpl; try done; [|set_solver]. intros g' rp. rewrite lookup_delete_Some. intros [_ ?]. by apply Hr.
  - intros Hu g' rp s c. simpl. rewrite lookup_delete_Some. intros [_ ?]. by eapply Hu.
Qed.

Lemma delete_reader_proxy_inv p w :
  writer_wf w → writer_wf (delete_reader_proxy p w).1 ∧
  (unsent_stored w → unsent_stored (delete_reader_proxy p w).1).
Proof.
  intros Hwf. unfold delete_reader_proxy.
  generalize (filter (λ g, guid_prefix g = p) (bt_keys (matched_readers w))) as l.
  intros l. assert (Hgen : ∀ evs, let acc := foldl (λ acc g, let '(w, evs) := matched_reader_remove g acc.1 in
      (w, acc.2 ++ evs)) (w, evs) l in
    writer_wf acc.1 ∧ (unsent_stored w → unsent_stored acc.1)); [|apply Hgen].
  revert w Hwf. induction l as [|g l IH]; intros w Hwf evs; [done|]. cbn [foldl fst snd].
  destruct (matched_reader_remove_inv g w Hwf) as [H1 H2].
  destruct (matched_reader_remove g w) as [w1 evs1] eqn:E. cbn [fst] in *.
  destruct (IH w1 H1 (evs ++ evs1)) as [H3 H4]. split; [done|]; intros Hu; by apply H4, H2.
Qed.

Lemma delete_reader_proxy_conf p w : conf (delete_reader_proxy p w).1 = conf w.
Proof.
  unfold delete_reader_proxy. generalize (filter (λ g, guid_prefix g = p) (bt_keys (matched_readers w))) as l.
  intros l. generalize (@nil WriterEvent) as evs. revert w.
  induction l as [|g l IH]; intros w evs; [done|]. cbn [foldl fst snd matched_reader_remove].
  etrans; [apply IH|done].
Qed.

(** Exactly the proxies of the participant go. *)
Lemma delete_reader_proxy_lookup p w g :
  matched_readers (delete_reader_proxy p w).1 !! g =
    if bool_decide (guid_prefix g = p) then None else matched_readers w !! g.
Proof.
  unfold delete_reader_proxy.
  assert (Hgen : ∀ l evs w, matched_readers (foldl (λ acc g, let '(w, evs) := matched_reader_remove g acc.1 in
      (w, acc.2 ++ evs)) (w, evs) l).1 !! g = if bool_decide (g ∈ l) then None else matched_readers w !! g).
  { clear. induction l as [|g' l IH]; intros evs w; [done|]. cbn [foldl fst snd matched_reader_remove].
    rewrite IH. simpl. rewrite lookup_delete.
    destruct (decide (g ∈ l)); [rewrite !bool_decide_true by (done || by right); done|].
    rewrite (bool_decide_false (g ∈ l)) by done. destruct (decide (g' = g)) as [->|].
    - by rewrite bool_decide_true by by left.
    - rewrite bool_decide_false; [done|]. set_solver. }
  rewrite Hgen. destruct (decide (guid_prefix g = p)) as [Hp|Hp].
  - rewrite (bool_decide_true (guid_prefix g = p)) by done.
    destruct (matched_readers w !! g) as [rp|] eqn:E; [|by case_bool_decide].
    rewrite bool_decide_true; [done|]. apply list_elem_of_filter. split; [done|]. apply elem_of_bt_keys. by eexists.
  - rewrite !bool_decide_false; [done|done|]. by intros [? _]%list_elem_of_filter.
Qed.

(** ** The DataWriter's side *)

(** A reliable writer's cache never loses a change to a new one. *)
Lemma add_change_keeps change limits history hc hc' r :
  hc_type hc = HcWriter → add_change change true limits history hc = Done (hc', r) →
  changes hc ⊆ changes hc'.
Proof.
  intros Hty. unfold add_change. destruct (changes hc !! change_key change) eqn:E.
  { rewrite Hty. case_bool_decide; [|done]. by intros [= <- _]. }
  rewrite make_room_alt, Hty. destruct (decide (full limits hc)); simpl; [by intros [= <- _]|].
  intros [= <- _]. rewrite insert_change_pushed. unfold is_hc_reader. rewrite Hty. cbv zeta.
  rewrite bool_decide_false by done. cbn [andb]. destruct (is_hc_writer _); simpl; by apply insert_subseteq.
Qed.

Lemma insert_change_dom change history hc k :
  is_Some (changes (insert_change change history hc) !! k) → is_Some (changes hc !! k) ∨ k = change_key change.
Proof.
  rewrite insert_change_pushed. cbv zeta. set (hc1 := if _ && _ then _ else _).
  assert (Hsub : changes hc1 ⊆ changes (pushed change hc)).
  { unfold hc1. destruct (_ && _); [apply remove_changes_subseteq|done]. }
  assert (Hgen : is_Some (changes hc1 !! k) → is_Some (changes hc !! k) ∨ k = change_key change).
  { intros [c Hc]. apply (lookup_weaken _ _ _ _ Hc) in Hsub. simpl in Hsub.
    rewrite lookup_insert_Some in Hsub. destruct Hsub as [[<- _]|[_ ?]]; [by right|left; eauto]. }
  by destruct (is_hc_writer hc1).
Qed.

(** [add_change] stores nothing but the change it is given. *)
Lemma add_change_dom change rel limits history hc hc' r k :
  add_change change rel limits history hc = Done (hc', r) →
  is_Some (changes hc' !! k) → is_Some (changes hc !! k) ∨ k = change_key change.
Proof.
  unfold add_change. destruct (changes hc !! change_key change) eqn:E.
  { case_bool_decide; [|done]. destruct (hc_type hc); intros [= <- _]; by left. }
  rewrite make_room_alt. destruct (decide _); simpl.
  - destruct (hc_type hc), rel; simpl; try done; try (intros [= <- _]; by left).
    all: destruct (head (ts2key hc)) as [o|]; simpl; [|done]; intros [= <- _] Hk;
      apply insert_change_dom in Hk as [[c Hc]|?]; [left|by right];
      exists c; eapply lookup_weaken; [exact Hc|apply remove_change_subseteq].
  - intros [= <- _] Hk. by apply insert_change_dom in Hk.
Qed.

(** An addition that has been recorded remains recorded. *)
Lemma add_change_added change rel limits history hc hc' r g :
  add_change change rel limits history hc = Done (hc', r) →
  is_Some (get_last_added_ts g hc) → is_Some (get_last_added_ts g hc').
Proof.
  assert (Hi : ∀ k ts (m : gmap GUID Timestamp), is_Some (m !! g) → is_Some (<[k := ts]> m !! g))
    by (intros k ts m; rewrite lookup_insert_is_Some'; by right).
  assert (Hg : ∀ hc, is_Some (last_added hc !! g) → is_Some (last_added (insert_change change history hc) !! g)).
  { intros hc0 H0. rewrite insert_change_pushed. cbv zeta. destruct (is_hc_reader hc0 && _);
      destruct (is_hc_writer _); cbn; rewrite ?last_added_remove_changes; by apply Hi. }
  unfold get_last_added_ts, add_change. intros H Hs. destruct (changes hc !! change_key change).
  { case_bool_decide; [|done]. destruct (hc_type hc); injection H as <- _ || done; by apply Hi. }
  rewrite make_room_alt in H. destruct (decide _); simpl in H; [|injection H as <- _; by apply Hg].
  destruct (hc_type hc), rel; simpl in H; try done; try (by injection H as <- _).
  all: destruct (head (ts2key hc)); simpl in H; [|done]; injection H as <- _; apply Hg;
    by rewrite last_added_remove_change.
Qed.

Lemma write_wf change limits history w hc r :
  writer_wf w → writer_guid change = wguid w → 0 < sequence_number change < Sn.MAX →
  add_change change (is_reliable w) limits history (writer_cache w) = Done (hc, r) →
  writer_wf (set_writer_cache (λ _, hc) w).
Proof.
  intros [Hc Hty Hs Hp ? ? ? Hla] Hg Hsn Hadd. pose proof (λ k, add_change_dom _ _ _ _ _ _ _ k Hadd) as Hdom.
  split; simpl; try done.
  - by eapply add_change_wf.
  - rewrite <-Hty. eapply hc_step_type; [exact Hc|]. by eapply step_add_change.
  - intros k [?| ->]%Hdom; [by apply Hs|exact Hg].
  - intros k [?| ->]%Hdom; [by apply Hp|exact Hsn].
  - by eapply add_change_added.
Qed.

(** ** The writer as a state machine

    One constructor per handler, plus the DataWriter's [write], which adds
    the writer's own changes to the shared cache between the handlers.
    Handlers that panic have no successor. *)
Inductive writer_step : Writer → Writer → Prop :=
| ws_write change limits history w hc r :
    writer_guid change = wguid w → 0 < sequence_number change < Sn.MAX →
    add_change change (is_reliable w) limits history (writer_cache w) = Done (hc, r) →
    writer_step w (set_writer_cache (λ _, hc) w)
| ws_write_data now w w' evs wt :
    handle_write_data_cmd now w = Done (w', evs, wt) → writer_step w w'
| ws_assert_manually now w : writer_step w (assert_liveliness_manually now w).1
| ws_heartbeat now liv w : writer_step w (send_heart_beat now liv w).1
| ws_acknack now a g w w' evs wt :
    handle_acknack now a g w = Done (w', evs, wt) → writer_step w w'
| ws_nack_timeout now g w w' evs :
    handle_nack_response_timeout now g w = Done (w', evs) → writer_step w w'
| ws_add guid inline ls qos w w' evs :
    matched_reader_add_with_default_locator guid inline ls qos w = Done (w', evs) → writer_step w w'
| ws_delete p w : writer_step w (delete_reader_proxy p w).1
| ws_assert now w w' evs : assert_liveliness now w = Done (w', evs) → writer_step w w'
| ws_check now w w' evs : writer_check_liveliness now w = Done (w', evs) → writer_step w w'.

(** A writer starts with an empty cache of its own. *)
Inductive writer_reachable (cf : WriterConf) : Writer → Prop :=
| wr_new now w wt : writer_new cf (hc_new HcWriter) now = Done (w, wt) → writer_reachable cf w
| wr_step w w' : writer_reachable cf w → writer_step w w' → writer_reachable cf w'.

Lemma send_heart_beat_inv now liv w :
  writer_wf w → writer_wf (send_heart_beat now liv w).1 ∧ conf (send_heart_beat now liv w).1 = conf w ∧
  (unsent_stored w → unsent_stored (send_heart_beat now liv w).1).
Proof.
  intros Hwf. unfold send_heart_beat. destruct (negb liv && _); [done|]. cbv zeta.
  set (w0 := if liv then set_alive true w else w).
  assert (writer_wf w0 ∧ conf w0 = conf w ∧ (unsent_stored w → unsent_stored w0)) as (H0 & Hc0 & Hu0)
    by (unfold w0; destruct liv; auto with umber).
  set (base := get_seq_num_max _).
  pose proof (remove_acked_changes_wf base w0 H0) as H1.
  pose proof (remove_acked_unsent base w0) as Hu1.
  assert (Hc1 : conf (remove_acked_changes base w0) = conf w) by by rewrite remove_acked_conf.
  destruct (_ || _); simpl; (split_and!; [auto with umber|done|intros Hu; by apply Hu1, Hu0]).
Qed.

Lemma assert_liveliness_inv now w w' evs :
  assert_liveliness now w = Done (w', evs) → w' = set_alive true w.
Proof.
  unfold assert_liveliness. cbv zeta. case_bool_decide; [by intros [= <- _]|].
  intros H'. outcome_simplify. by case_bool_decide; simplify_eq.
Qed.

Lemma check_liveliness_inv now w w' evs :
  writer_check_liveliness now w = Done (w', evs) →
  w' = w ∨ w' = set_alive false (set_unmatch_count (as_i32 (unmatch_count w + 1)) w).
Proof.
  unfold writer_check_liveliness. destruct (is_alive w); [|intros [= <- _]; by left].
  cbv zeta. case_bool_decide; [intros [= <- _]; by left|].
  destruct (get_last_added_ts _ _); [|intros [= <- _]; by left].
  intros H'. outcome_simplify. case_bool_decide; simplify_eq; auto.
Qed.

(** A nack response timer fires for a reader or finds it gone; the state it
    leaves is [Waiting] in either case. *)
Lemma nack_timeout_inv now g w w' evs :
  writer_wf w → handle_nack_response_timeout now g w = Done (w', evs) →
  ∃ n, w' = nack_answered n g w.
Proof.
  intros Hwf Hh. assert (Hwf' : writer_wf (set_an_state Waiting w)) by by apply set_an_state_wf.
  destruct (nack_response_main now g w Hwf') as (n & w2 & evs2 & Heq & -> & _).
  rewrite Heq in Hh. injection Hh as <- _. by exists n.
Qed.

(** ** Reachable states *)

Lemma writer_new_inv cf now w wt :
  writer_new cf (hc_new HcWriter) now = Done (w, wt) → conf w = cf ∧ writer_wf w ∧ unsent_stored w.
Proof.
  unfold writer_new, add_empty_change. intros H. outcome_simplify. split_and!; [done| |].
  - split; simpl; try done.
    + apply set_last_added_wf, hc_new_wf.
    + intros k [c Hc]. simpl in Hc. by rewrite lookup_empty in Hc.
    + intros k [c Hc]. simpl in Hc. by rewrite lookup_empty in Hc.
    + unfold get_last_added_ts. simpl. rewrite lookup_insert_eq. by eexists.
  - intros g rp s c. simpl. by rewrite lookup_empty.
Qed.

Lemma write_unsent change limits history w hc r :
  writer_wf w → is_reliable w = true →
  add_change change (is_reliable w) limits history (writer_cache w) = Done (hc, r) →
  unsent_stored w → unsent_stored (set_writer_cache (λ _, hc) w).
Proof.
  intros Hwf Hr Hadd Hu g rp s c Hg Hs Hrel Hst. rewrite Hr in Hadd.
  apply add_change_keeps in Hadd; [|apply (ww_type _ Hwf)].
  destruct (Hu g rp s c Hg Hs Hrel Hst) as [c' Hc']. exists c'. by eapply lookup_weaken.
Qed.

(** One step of a reliable writer keeps the invariant. *)
Lemma writer_step_inv w w' :
  is_reliable w = true → Dur.wf (period (w_deadline (wqos w)).1) →
  writer_wf w ∧ unsent_stored w → writer_step w w' →
  conf w' = conf w ∧ writer_wf w' ∧ unsent_stored w'.
Proof.
  intros Hrel Hd [Hwf Hu] Hstep. destruct Hstep as
    [change limits history w hc r Hg Hsn Hadd|now w w' evs wt Hh|now w|now liv w|now a g w w' evs wt Hh
    |now g w w' evs Hh|guid inline ls qos w w' evs Hh|p w|now w w' evs Hh|now w w' evs Hh].
  - split_and!; [done|by eapply write_wf|by eapply write_unsent].
  - destruct (handle_write_data_cmd_main now w Hwf Hu Hd) as (? & ? & ? & Heq & Hinv & _).
    rewrite Heq in Hh. by injection Hh as <- _ _.
  - destruct (send_heart_beat_inv now true (set_alive true w)) as (? & Hc & Hu'); [auto with umber|].
    split_and!; [exact Hc|done|by apply Hu'].
  - destruct (send_heart_beat_inv now liv w Hwf) as (? & ? & Hu'). auto.
  - destruct (handle_acknack_main now a g w Hwf Hu) as (? & ? & ? & Heq & Hinv).
    rewrite Heq in Hh. by injection Hh as <- _ _.
  - destruct (nack_timeout_inv _ _ _ _ _ Hwf Hh) as [n ->]. split_and!; [done| |].
    + apply nack_answered_wf. by apply set_an_state_wf.
    + by apply nack_answered_unsent.
  - destruct (matched_reader_add_inv _ _ _ _ _ _ _ Hwf Hh) as (? & _ & ? & Hu'). auto.
  - destruct (delete_reader_proxy_inv p w Hwf) as [? Hu']. split_and!; auto. apply delete_reader_proxy_conf.
  - apply assert_liveliness_inv in Hh as ->. auto with umber.
  - apply check_liveliness_inv in Hh as [->| ->]; [done|]. auto with umber.
Qed.

Lemma reliable_reachable_inv cf w :
  w_reliability_level cf = Reliable → Dur.wf (period (w_deadline (w_qos cf)).1) →
  writer_reachable cf w → conf w = cf ∧ writer_wf w ∧ unsent_stored w.
Proof.
  intros Hrel Hd. induction 1 as [now w wt Hn|w w' Hr IH Hstep]; [by eapply writer_new_inv|].
  destruct IH as (Hc & Hinv). subst cf.
  apply writer_step_inv in Hstep; [|by unfold is_reliable; rewrite Hrel|done..]. done.
Qed.

(** C6. In every state a reliable writer can reach, with its DataWriter writing
    and its readers coming, going and acknowledging in any order, handling
    new data and any acknowledgement runs to the end without a panic. *)
Theorem reliable_writer_never_panics cf w now a g :
  w_reliability_level cf = Reliable → Dur.wf (period (w_deadline (w_qos cf)).1) →
  writer_reachable cf w →
  no_panic (handle_write_data_cmd now w) ∧ no_panic (handle_acknack now a g w) ∧
  no_panic (handle_nack_response_timeout now g w).
Proof.
  intros Hrel Hd Hreach. destruct (reliable_reachable_inv cf w Hrel Hd Hreach) as (Hc & Hwf & Hu).
  assert (Hd' : Dur.wf (period (w_deadline (wqos w)).1)) by (unfold wqos; by rewrite Hc).
  destruct (handle_write_data_cmd_main now w Hwf Hu Hd') as (? & ? & ? & -> & _).
  destruct (handle_acknack_main now a g w Hwf Hu) as (? & ? & ? & -> & _).
  assert (Hwf' : writer_wf (set_an_state Waiting w)) by by apply set_an_state_wf.
  destruct (nack_response_main now g w Hwf') as (? & ? & ? & -> & _). split_and!; apply no_panic_Done.
Qed.

(** ** Concrete runs *)
Module Sample.
Definition locator (n : Z) : Locator := Loc.new_from_ipv4 7411 [192; 168; 0; n].
Definition guid : GUID :=
  mkGUID (mkGuidPrefix (replicate 12 1)) (mkEntityId (0, 0, 1) Kind.WRITER_NO_KEY_USER_DEFIND).
Definition reader (n : Z) : GUID :=
  mkGUID (mkGuidPrefix (replicate 12 n)) (mkEntityId (0, 0, 1) Kind.READER_NO_KEY_USER_DEFIND).
Definition topic : Topic := mkTopic "Square" "ShapeType" (TopicQosBuilder_build TopicQosBuilder_new) NoKey.

Definition writer_qos (d : Durability) (r : Reliability) (limits : ResourceLimits) : DataWriterQosPolicies :=
  let q := DataWriterQosBuilder_build DataWriterQosBuilder_new in
  mkDataWriterQosPolicies (d, true) (w_durability_service q) (w_deadline q) (w_latency_budget q)
    (w_liveliness q) (r, true) (w_destination_order q) (w_history q) (limits, true)
    (w_transport_priority q) (w_lifespan q) (w_user_data q) (w_ownership q)
    (w_ownership_strength q) (w_writer_data_lifecycle q).
Definition reader_qos (d : Durability) (r : Reliability) : DataReaderQosPolicies :=
  let q := DataReaderQosBuilder_build DataReaderQosBuilder_new in
  mkDataReaderQosPolicies (d, true) (r_deadline q) (r_latency_budget q) (r_liveliness q) (r, true)
    (r_destination_order q) (r_history q) (r_resource_limits q) (r_user_data q) (r_ownership q)
    (r_time_based_filter q) (r_reader_data_lifecycle q).

Definition unlimited : ResourceLimits :=
  mkResourceLimits LENGTH_UNLIMITED LENGTH_UNLIMITED LENGTH_UNLIMITED.
Definition conf (d : Durability) (r : Reliability) (limits : ResourceLimits) : WriterConf :=
  mkWriterConf guid NoKey (reliability_kind r) [locator 1] [] true (Dur.from_secs 2) Dur.ZERO 0 topic
    (writer_qos d r limits) LittleEndian.

Definition ts : Timestamp := mkTimestamp 1 0.
Definition clock (s : Z) (i : nat) : option Timestamp := Some ts.
Definition change (s : Z) : CacheChange :=
  mkCacheChange Alive guid s ts (Some (mkSerializedPayload [0; 1] [0; 0] [s])).

(** One operation of the DataWriter or the writer; a panic ends the run. *)
Definition write (s : Z) (w : Writer) : outcome Writer :=
  r ← add_change (change s) (is_reliable w) (w_resource_limits (wqos w)).1 (w_history (wqos w)).1
        (writer_cache w);
  Done (set_writer_cache (λ _, r.1) w).
Definition process (w : Writer) : outcome Writer :=
  r ← handle_write_data_cmd clock w; Done r.1.1.
Definition join (n : Z) (q : DataReaderQosPolicies) (w : Writer) : outcome Writer :=
  r ← matched_reader_add (reader n) false [locator n] [] q w; Done r.1.
Definition start (cf : WriterConf) : outcome Writer :=
  r ← writer_new cf (hc_new HcWriter) (Some ts); Done r.1.
Definition run (cf : WriterConf) (l : list (Writer → outcome Writer)) : outcome Writer :=
  w ← start cf; foldM (λ w f, f w) w l.

Definition default_writer : Writer :=
  mkWriter (conf Volatile default_reliable unlimited) (hc_new HcWriter) ∅ ∅ 0 Waiting 0 true.
Definition the (m : outcome Writer) : Writer :=
  match m with Done w => w | Panic => default_writer end.

(** A reliable writer with two readers and one unprocessed change. *)
Definition reliable_conf : WriterConf := conf Volatile default_reliable unlimited.
Definition two_readers : list (Writer → outcome Writer) :=
  let q := reader_qos Volatile default_reliable in [join 2 q; join 3 q; write 1].
Definition ready : Writer := the (run reliable_conf two_readers).
(** ... and after it was sent. *)
Definition sent : Writer := the (run reliable_conf (two_readers ++ [process])).

Lemma ready_Done : run reliable_conf two_readers = Done ready.
Proof. vm_compute. reflexivity. Qed.
Lemma sent_Done : run reliable_conf (two_readers ++ [process]) = Done sent.
Proof. vm_compute. reflexivity. Qed.

Lemma start_reachable cf w : start cf = Done w → writer_reachable cf w.
Proof.
  unfold start. intros H. apply outcome_bind_Done in H as ([w' wt] & Hn & [= <-]). by eapply wr_new.
Qed.
Lemma join_step n q w w' : join n q w = Done w' → writer_step w w'.
Proof.
  unfold join. intros H. apply outcome_bind_Done in H as ([w1 evs] & Hn & [= <-]). by eapply ws_add.
Qed.
Lemma process_step w w' : process w = Done w' → writer_step w w'.
Proof.
  unfold process. intros H. apply outcome_bind_Done in H as ([[w1 evs] wt] & Hn & [= <-]).
  by eapply ws_write_data.
Qed.
Lemma write_step s w w' : 0 < s < Sn.MAX → wguid w = guid → write s w = Done w' → writer_step w w'.
Proof.
  intros Hs Hg H. apply outcome_bind_Done in H as ([hc r] & Hn & [= <-]). cbn [fst].
  eapply (ws_write (change s)); [by rewrite Hg|exact Hs|exact Hn].
Qed.

Lemma run_snoc cf l f w : run cf (l ++ [f]) = Done w → ∃ w0, run cf l = Done w0 ∧ f w0 = Done w.
Proof.
  unfold run. destruct (start cf) as [w1|]; [|done]. cbn [mbind outcome_bind]. revert w1.
  induction l as [|g l IH]; intros w1; cbn [app foldM].
  - intros H. apply outcome_bind_Done in H as (w2 & Hf & [= ->]). eauto.
  - destruct (g w1) as [w2|]; [|done]. apply IH.
Qed.

Lemma ready_reachable : writer_reachable reliable_conf ready.
Proof.
  pose proof ready_Done as H. change two_readers with ([] ++
    [join 2 (reader_qos Volatile default_reliable)] ++ [join 3 (reader_qos Volatile default_reliable)]
    ++ [write 1]) in H. rewrite !(assoc_L (++)) in H.
  apply run_snoc in H as (w3 & H & H3). apply run_snoc in H as (w2 & H & H2).
  apply run_snoc in H as (w1 & H & H1).
  assert (Hr1 : writer_reachable reliable_conf w1).
  { apply start_reachable. unfold run in H. apply outcome_bind_Done in H as (w0 & H & Hw).
    simpl in Hw. injection Hw as <-. exact H. }
  assert (Hr2 : writer_reachable reliable_conf w2) by (eapply wr_step; [exact Hr1|by eapply join_step]).
  assert (Hr3 : writer_reachable reliable_conf w3) by (eapply wr_step; [exact Hr2|by eapply join_step]).
  eapply wr_step; [exact Hr3|]. apply (write_step 1); [done| |exact H3].
  destruct (reliable_reachable_inv reliable_conf w3) as (Hc & _ & _); [done|done|done|].
  unfold wguid. by rewrite Hc.
Qed.

Lemma sent_reachable : writer_reachable reliable_conf sent.
Proof.
  pose proof sent_Done as H. apply run_snoc in H as (w & H & Hp). rewrite ready_Done in H.
  injection H as <-. eapply wr_step; [apply ready_reachable|by eapply process_step].
Qed.

Lemma ready_inv : writer_wf ready ∧ unsent_stored ready.
Proof.
  apply (reliable_reachable_inv reliable_conf); [done|done|apply ready_reachable].
Qed.
Lemma joined_wf :
  writer_wf (the (run reliable_conf [join 2 (reader_qos Volatile default_reliable)])).
Proof.
  destruct (run reliable_conf [join 2 (reader_qos Volatile default_reliable)]) as [w|] eqn:H;
    [|exfalso; vm_compute in H; discriminate].
  apply (run_snoc _ []) in H as (w0 & H & Hj). unfold run in H. apply outcome_bind_Done in H as (w1 & H & Hw).
  simpl in Hw. injection Hw as <-. apply start_reachable in H.
  apply (reliable_reachable_inv reliable_conf); [done|done|].
  eapply wr_step; [exact H|by eapply join_step].
Qed.
Lemma sent_inv : writer_wf sent ∧ unsent_stored sent.
Proof.
  apply (reliable_reachable_inv reliable_conf); [done|done|apply sent_reachable].
Qed.
End Sample.

Definition nack_of (base s : Z) : AckNack :=
  mkAckNack (entity_id (Sample.reader 2)) (entity_id Sample.guid)
    (mkNumberSet base 1 [2147483648]) 0.

Lemma remove_acked_changes_spec_witness :
  is_builtin (entity_id (wguid Sample.sent)) = false ∧
  changes (writer_cache (remove_acked_changes 1 Sample.sent)) !! mkHCKey Sample.guid 1
    = Some (Sample.change 1).
Proof.
  split; [vm_compute; reflexivity|].
  rewrite (remove_acked_changes_spec 1 Sample.sent) by (vm_compute; reflexivity).
  vm_compute. reflexivity.
Defined.

Lemma handle_write_data_cmd_total_witness :
  ∃ w' evs wt, handle_write_data_cmd Sample.clock Sample.ready = Done (w', evs, wt) ∧
    writer_wf w' ∧ unsent_stored w' ∧
    (unprocessed_seqnum (writer_cache Sample.ready) ≠ ∅ → no_unsent w').
Proof.
  apply (handle_write_data_cmd_total Sample.clock Sample.ready); [apply Sample.ready_inv..|].
  vm_compute. split; split; congruence.
Defined.

Lemma new_data_is_sent_witness :
  ∃ w' evs wt c, handle_write_data_cmd Sample.clock Sample.ready = Done (w', evs, wt) ∧
    data_sent Sample.clock Sample.ready evs 1 c (Sample.reader 2) (Sample.locator 2).
Proof.
  destruct (handle_write_data_cmd Sample.clock Sample.ready) as [[[w' evs] wt]|] eqn:E;
    [|exfalso; vm_compute in E; discriminate].
  destruct (matched_readers Sample.ready !! Sample.reader 2) as [rp|] eqn:Er;
    [|exfalso; vm_compute in Er; discriminate].
  assert (Hll : reader_locators (entity_id (wguid Sample.ready)) rp = Some [Sample.locator 2]).
  { vm_compute in Er. injection Er as <-. vm_compute. reflexivity. }
  exists w', evs, wt.
  destruct (new_data_is_sent Sample.clock Sample.ready w' evs wt 0 1 (Sample.reader 2) rp
    [Sample.locator 2] (Sample.locator 2)) as (c & _ & Hsent).
  - apply Sample.ready_inv.
  - apply Sample.ready_inv.
  - vm_compute. split; split; congruence.
  - vm_compute. reflexivity.
  - vm_compute. reflexivity.
  - vm_compute. reflexivity.
  - exact Er.
  - exact Hll.
  - left.
  - exact E.
  - exists c. split; [reflexivity|exact Hsent].
Defined.

Lemma handle_acknack_total_witness :
  ∃ w' evs wt, handle_acknack Sample.clock (nack_of 1 1) (Sample.reader 2) Sample.sent
    = Done (w', evs, wt) ∧ writer_wf w' ∧ unsent_stored w'.
Proof. apply (handle_acknack_total Sample.clock (nack_of 1 1)); apply Sample.sent_inv. Defined.


Lemma heartbeat_announces_cache_witness :
  ∃ ev reid first last count addr port,
    ev ∈ (send_heart_beat (Some Sample.ts) false Sample.sent).2 ∧
    (ev = SendToMulticast (hb_msg Sample.sent reid (Some Sample.ts) false first last count) addr port ∨
     ev = SendToUnicast (hb_msg Sample.sent reid (Some Sample.ts) false first last count) addr port) ∧
    heartbeat_is_valid (hb_of Sample.sent reid false first last count).1
      (hb_of Sample.sent reid false first last count).2 = Done true.
Proof.
  destruct (send_heart_beat (Some Sample.ts) false Sample.sent) as [w' evs] eqn:E.
  destruct evs as [|ev evs]; [exfalso; vm_compute in E; discriminate|]. exists ev.
  destruct (heartbeat_announces_cache (Some Sample.ts) false Sample.sent w' (ev :: evs) ev)
    as (reid & first & last & count & addr & port & Hev & Hvalid & _).
  - apply Sample.sent_inv.
  - exact E.
  - left.
  - exists reid, first, last, count, addr, port. split; [left|]. split; [exact Hev|exact Hvalid].
Defined.

Lemma manual_liveliness_needs_a_change_witness :
  let w := Sample.the (Sample.run Sample.reliable_conf
             [Sample.join 2 (Sample.reader_qos Volatile default_reliable)]) in
  changes (writer_cache w) = ∅ ∧ (assert_liveliness_manually (Some Sample.ts) w).2 = [].
Proof.
  cbv zeta. set (w := Sample.the _).
  assert (He : changes (writer_cache w) = ∅) by (vm_compute; reflexivity).
  split; [exact He|]. apply (manual_liveliness_needs_a_change (Some Sample.ts) w); [|exact He].
  unfold w. apply Sample.joined_wf.
Defined.

Lemma reliable_writer_never_panics_witness :
  no_panic (handle_write_data_cmd Sample.clock Sample.sent) ∧
  no_panic (handle_acknack Sample.clock (nack_of 1 1) (Sample.reader 2) Sample.sent) ∧
  no_panic (handle_nack_response_timeout Sample.clock (Sample.reader 2) Sample.sent).
Proof.
  apply (reliable_writer_never_panics Sample.reliable_conf); [reflexivity| |apply Sample.sent_reachable].
  vm_compute. split; split; congruence.
Defined.

(** A best-effort writer can reach its [unreachable!]: a TransientLocal
    reader joins after the first sample, the limit evicts that sample before
    it is sent, and the next write looks for it. *)
Example best_effort_transient_local_panics :
  let cf := Sample.conf TransientLocal default_besteffort (mkResourceLimits 2 (-1) (-1)) in
  let q := Sample.reader_qos TransientLocal default_besteffort in
  no_panic (Sample.run cf [Sample.write 1; Sample.process; Sample.join 2 q; Sample.write 2]) ∧
  Sample.run cf [Sample.write 1; Sample.process; Sample.join 2 q; Sample.write 2; Sample.process] = Panic.
Proof.
  split; [|vm_compute; reflexivity].
  eexists. vm_compute. reflexivity.
Qed.

(** A reader that asks again for a sample the writer no longer has is
    answered with a heartbeat that the receiver's validity test rejects, so
    it is never told that the sample is lost. *)
Definition heartbeats_in (evs : list WriterEvent) : list (Heartbeat * Z) :=
  omap (λ ev, match ev with
              | SendToUnicast m _ _ | SendToMulticast m _ _ =>
                  sm ← submessages m !! 1%nat;
                  match sm_body sm with Entity (EHeartBeat h f) => Some (h, f) | _ => None end
              | _ => None
              end) evs.

Example lost_sample_heartbeat_invalid :
  let w := Sample.the (Sample.run Sample.reliable_conf
             [Sample.join 2 (Sample.reader_qos Volatile default_reliable)]) in
  match handle_acknack Sample.clock (nack_of 5 5) (Sample.reader 2) w with
  | Done (_, evs, _) => (λ h, heartbeat_is_valid h.1 h.2) <$> heartbeats_in evs
  | Panic => []
  end = [Done false].
Proof. vm_compute. reflexivity. Qed.
