(* ===== verification/DiscoveryData.v ===== *)
(** * Discovery data

    src/src/discovery/structure/data.rs: what a remote participant announces.
    [SDPBuiltinData] is the bag of optional parameters a discovery message is
    parsed into; from it come the participant data (SPDP) and the proxies of
    remote endpoints (SEDP), where a policy that was not sent takes the
    default the source chooses.  The parameter lists on the wire are the
    subject of [ParameterList]. *)
From stdpp Require Import base tactics numbers list gmap strings.
From S2P Require Import Prelude Ordered Ids Time SeqNum Qos HistoryCache Message Proxy.

(** ** Data *)

Record SDPBuiltinData := mkSDPBuiltinData {
  sdp_domain_id : option Z;
  sdp_domain_tag : option string;
  sdp_protocol_version : option ProtocolVersion;
  sdp_guid : option GUID;
  sdp_vendor_id : option (list Z);
  sdp_expects_inline_qos : option bool;
  sdp_available_builtin_endpoint : option Z;
  sdp_metarraffic_unicast_locator_list : list Locator;
  sdp_metarraffic_multicast_locator_list : list Locator;
  sdp_default_multicast_locator_list : list Locator;
  sdp_default_unicast_locator_list : list Locator;
  sdp_manual_liveliness_count : option Z;
  sdp_lease_duration : option Duration;
  sdp_remote_guid : option GUID;
  sdp_unicast_locator_list : list Locator;
  sdp_multicast_locator_list : list Locator;
  sdp_data_max_size_serialized : option Z;
  sdp_type_name : option string;
  sdp_topic_name : option string;
  sdp_key : option unit;
  sdp_publication_key : option unit;
  sdp_durability : option Durability;
  sdp_deadline : option Deadline;
  sdp_latency_budget : option LatencyBudget;
  sdp_liveliness : option Liveliness;
  sdp_reliability : option Reliability;
  sdp_user_data : option UserData;
  sdp_ownership : option Ownership;
  sdp_destination_order : option DestinationOrder;
  sdp_history : option History;
  sdp_resource_limits : option ResourceLimits;
  sdp_transport_priority : option TransportPriority;
  sdp_time_based_filter : option TimeBasedFilter;
  sdp_presentation : option Presentation;
  sdp_partition : option Partition;
  sdp_topic_data : option TopicData;
  sdp_group_data : option GroupData;
  sdp_durability_service : option DurabilityService;
  sdp_lifespan : option Lifespan;
  sdp_ownership_strength : option OwnershipStrength;
}.

Record SPDPdiscoveredParticipantData := mkSPDPdiscoveredParticipantData {
  spdp_domain_id : Z;
  spdp_domain_tag : string;
  spdp_protocol_version : ProtocolVersion;
  spdp_guid : GUID;
  spdp_vendor_id : list Z;
  spdp_expects_inline_qos : bool;
  spdp_available_builtin_endpoint : Z;
  spdp_metarraffic_unicast_locator_list : list Locator;
  spdp_metarraffic_multicast_locator_list : list Locator;
  spdp_default_multicast_locator_list : list Locator;
  spdp_default_unicast_locator_list : list Locator;
  spdp_manual_liveliness_count : option Z;
  spdp_lease_duration : Duration;
}.
#[export] Instance SPDPdiscoveredParticipantData_eq_dec : EqDecision SPDPdiscoveredParticipantData.
Proof. solve_decision. Defined.

(** ** Operations *)

(** [gen_spdp_discoverd_participant_data]. *)
Definition gen_spdp_discoverd_participant_data (d : SDPBuiltinData)
    : option SPDPdiscoveredParticipantData :=
  domain_id ← sdp_domain_id d;
  let domain_tag := default EmptyString (sdp_domain_tag d) in
  protocol_version ← sdp_protocol_version d;
  guid ← sdp_guid d;
  vendor_id ← sdp_vendor_id d;
  let expects_inline_qos := default false (sdp_expects_inline_qos d) in
  available_builtin_endpoint ← sdp_available_builtin_endpoint d;
  let lease_duration := default (mkDuration 100 0) (sdp_lease_duration d) in
  Some (mkSPDPdiscoveredParticipantData domain_id domain_tag protocol_version guid vendor_id
    expects_inline_qos available_builtin_endpoint
    (sdp_metarraffic_unicast_locator_list d) (sdp_metarraffic_multicast_locator_list d)
    (sdp_default_multicast_locator_list d) (sdp_default_unicast_locator_list d)
    (sdp_manual_liveliness_count d) lease_duration).

Definition topic_info (d : SDPBuiltinData) : option (string * string) :=
  name ← sdp_topic_name d;
  data_type ← sdp_type_name d;
  Some (name, data_type).

(** [unwrap_or_default]. *)
Definition unwrap_or_default {A} `{HasDefault A} (o : option A) : A := default qos_default o.

(** The QoS of a remote reader: every policy is set explicitly. *)
Definition reader_proxy_qos (d : SDPBuiltinData) : DataReaderQosPolicies :=
  DataReaderQosBuilder_build (mkDataReaderQosBuilder
    (Some (unwrap_or_default (sdp_durability d)))
    (Some (unwrap_or_default (sdp_deadline d)))
    (Some (unwrap_or_default (sdp_latency_budget d)))
    (Some (unwrap_or_default (sdp_liveliness d)))
    (Some (default default_besteffort (sdp_reliability d)))
    (Some (unwrap_or_default (sdp_destination_order d)))
    (Some (unwrap_or_default (sdp_history d)))
    (Some (unwrap_or_default (sdp_resource_limits d)))
    (Some (unwrap_or_default (sdp_user_data d)))
    (Some (unwrap_or_default (sdp_ownership d)))
    (Some (unwrap_or_default (sdp_time_based_filter d)))
    None).

(** [gen_readerpoxy]. *)
Definition gen_readerpoxy (history_cache : HistoryCache)
    (default_unicast default_multicast : list Locator) (d : SDPBuiltinData)
    : outcome (option ReaderProxy) :=
  match sdp_remote_guid d with
  | None => Done None
  | Some remote_guid =>
      Some <$> rp_new remote_guid (default false (sdp_expects_inline_qos d))
        (mkLocators (sdp_unicast_locator_list d) (sdp_multicast_locator_list d)
           default_unicast default_multicast)
        (reader_proxy_qos d) history_cache true
  end.

Definition writer_proxy_qos (d : SDPBuiltinData) : DataWriterQosPolicies :=
  DataWriterQosBuilder_build (mkDataWriterQosBuilder
    (Some (unwrap_or_default (sdp_durability d)))
    (Some (unwrap_or_default (sdp_durability_service d)))
    (Some (unwrap_or_default (sdp_deadline d)))
    (Some (unwrap_or_default (sdp_latency_budget d)))
    (Some (unwrap_or_default (sdp_liveliness d)))
    (Some (default default_reliable (sdp_reliability d)))
    (Some (unwrap_or_default (sdp_destination_order d)))
    (Some (unwrap_or_default (sdp_history d)))
    (Some (unwrap_or_default (sdp_resource_limits d)))
    (Some (unwrap_or_default (sdp_transport_priority d)))
    (Some (unwrap_or_default (sdp_lifespan d)))
    (Some (unwrap_or_default (sdp_user_data d)))
    (Some (unwrap_or_default (sdp_ownership d)))
    (Some (unwrap_or_default (sdp_ownership_strength d)))
    None).

(** [gen_writerproxy]; the history cache is only stored in the proxy. *)
Definition gen_writerproxy (default_unicast default_multicast : list Locator) (d : SDPBuiltinData)
    : outcome (option WriterProxy) :=
  match sdp_remote_guid d with
  | None => Done None
  | Some remote_guid =>
      Some <$> wp_new remote_guid
        (mkLocators (sdp_unicast_locator_list d) (sdp_multicast_locator_list d)
           default_unicast default_multicast)
        (default 0 (sdp_data_max_size_serialized d))
        (writer_proxy_qos d)
  end.
