(* ===== verification/DiscoveryDB.v ===== *)
(** * The discovery database

    src/src/discovery/discovery_db.rs: the remote participants, with the time
    they were last heard of, and the liveliness of local and remote writers.
    The database is shared by the discovery thread, the event loop and the
    receiver behind a mutex: every method is one atomic step. *)
From stdpp Require Import base tactics numbers list gmap strings.
From S2P Require Import Prelude Ordered Ids Time Qos Message DiscoveryData.

(** ** Data *)
Inductive EndpointState :=
| Live (ts : Timestamp)
| LivelinessLost
| Unknown.
#[export] Instance EndpointState_eq_dec : EqDecision EndpointState.
Proof. solve_decision. Defined.

Notation WriterData := (gmap GUID (EndpointState * LivelinessQosKind)).

Record DiscoveryDB := mkDiscoveryDB {
  participant_data : gmap GuidPrefix (EndpointState * SPDPdiscoveredParticipantData);
  local_writer_data : WriterData;
  remote_writer_data : WriterData;
}.

Definition db_new : DiscoveryDB := mkDiscoveryDB ∅ ∅ ∅.

Definition set_participant_data f db :=
  mkDiscoveryDB (f (participant_data db)) (local_writer_data db) (remote_writer_data db).
Definition set_local_writer_data f db :=
  mkDiscoveryDB (participant_data db) (f (local_writer_data db)) (remote_writer_data db).
Definition set_remote_writer_data f db :=
  mkDiscoveryDB (participant_data db) (local_writer_data db) (f (remote_writer_data db)).

(** ** Operations *)

(** The result says whether the participant was known. *)
Definition write_participant (p : GuidPrefix) (ts : Timestamp) (data : SPDPdiscoveredParticipantData)
    (db : DiscoveryDB) : DiscoveryDB * bool :=
  (set_participant_data <[p := (Live ts, data)]> db,
   bool_decide (is_Some (participant_data db !! p))).

(** One participant of the loop of [check_participant_liveliness]. *)
Definition check_one (timestamp : Timestamp)
    (acc : CoreDuration * list GuidPrefix)
    (e : GuidPrefix * (EndpointState * SPDPdiscoveredParticipantData))
    : outcome (CoreDuration * list GuidPrefix) :=
  let '(next_duration, lost) := acc in
  match e.2.1 with
  | Live ts =>
      elapse ← Ts.sub timestamp ts;
      lease ← Dur.to_core (spdp_lease_duration e.2.2);
      if bool_decide (ord_lt lease elapse) then Done (next_duration, lost ++ [e.1])
      else
        half ← Dur.to_core (Dur.half (spdp_lease_duration e.2.2));
        Done (half, lost)
  | _ => Done (next_duration, lost)
  end.

(** The entries of the map, in ascending key order. *)
Definition participants (db : DiscoveryDB)
    : list (GuidPrefix * (EndpointState * SPDPdiscoveredParticipantData)) :=
  omap (λ p, e ← participant_data db !! p; Some (p, e)) (bt_keys (participant_data db)).

Definition check_participant_liveliness (timestamp : Timestamp) (db : DiscoveryDB)
    : outcome (DiscoveryDB * (CoreDuration * list GuidPrefix)) :=
  '(next_duration, lost) ← foldM (check_one timestamp) (CORE_DURATION_MAX, []) (participants db);
  let db := set_participant_data (λ m, foldl (λ m l, delete l m) m lost) db in
  if bool_decide (next_duration = CORE_DURATION_MAX)
  then d ← core_duration_new 5 0; Done (db, (d, lost))
  else Done (db, (next_duration, lost)).

(** The writers that an update selects, then the update of each. *)
Definition refresh (sel : GUID → LivelinessQosKind → bool) (ts : Timestamp) (m : WriterData) : WriterData :=
  let to_update := omap (λ g, v ← m !! g; if sel g v.2 then Some (g, v.2) else None) (bt_keys m) in
  foldl (λ m u, <[u.1 := (Live ts, u.2)]> m) m to_update.

(** [update_liveliness_with_guid_prefix_with_kind], which the public
    [DiscoveryDB::update_liveliness_with_guid_prefix] calls. *)
Definition update_liveliness_with_guid_prefix_with_kind (p : GuidPrefix) (ts : Timestamp)
    (k : LivelinessQosKind) (db : DiscoveryDB) : DiscoveryDB :=
  set_remote_writer_data
    (refresh (λ g k', bool_decide (guid_prefix g = p) && bool_decide (k' = k)) ts) db.

Definition update_liveliness_with_guid_prefix (p : GuidPrefix) (ts : Timestamp) (db : DiscoveryDB)
    : DiscoveryDB :=
  set_remote_writer_data (refresh (λ g _, bool_decide (guid_prefix g = p)) ts) db.

Definition write_local_writer (g : GUID) (ts : Timestamp) (k : LivelinessQosKind) (db : DiscoveryDB)
    : DiscoveryDB :=
  let db := set_local_writer_data <[g := (Live ts, k)]> db in
  if bool_decide (k = ManualByParticipant)
  then update_liveliness_with_guid_prefix (guid_prefix g) ts db else db.

Definition write_remote_writer (g : GUID) (ts : Timestamp) (k : LivelinessQosKind) (db : DiscoveryDB)
    : DiscoveryDB :=
  let db := set_remote_writer_data <[g := (Live ts, k)]> db in
  if bool_decide (k = ManualByParticipant)
  then update_liveliness_with_guid_prefix (guid_prefix g) ts db else db.

Definition update_remote_writer_state (g : GUID) (st : EndpointState) (db : DiscoveryDB) : DiscoveryDB :=
  match remote_writer_data db !! g with
  | Some (_, k) => set_remote_writer_data <[g := (st, k)]> db
  | None => db
  end.

Definition read_participant_data (p : GuidPrefix) (db : DiscoveryDB)
    : option SPDPdiscoveredParticipantData := snd <$> participant_data db !! p.

Definition read_participant_ts (p : GuidPrefix) (db : DiscoveryDB) : option Timestamp :=
  match participant_data db !! p with Some (Live ts, _) => Some ts | _ => None end.

Definition read_local_writer (g : GUID) (db : DiscoveryDB) : EndpointState :=
  match local_writer_data db !! g with Some (es, _) => es | None => Unknown end.

Definition read_remote_writer (g : GUID) (db : DiscoveryDB) : EndpointState :=
  match remote_writer_data db !! g with Some (es, _) => es | None => Unknown end.

(** ** Liveliness of participants *)

(** The participant was last heard of longer ago than its lease. *)
Definition lapsed (now : Timestamp) (e : EndpointState * SPDPdiscoveredParticipantData) : Prop :=
  ∃ ts el ld, e.1 = Live ts ∧ Ts.sub now ts = Done el ∧
    Dur.to_core (spdp_lease_duration e.2) = Done ld ∧ ord_lt ld el.

(** [next] is half the lease of the live participant [e]. *)
Definition half_lease (e : EndpointState * SPDPdiscoveredParticipantData) (next : CoreDuration) : Prop :=
  (∃ ts, e.1 = Live ts) ∧ Dur.to_core (Dur.half (spdp_lease_duration e.2)) = Done next.

Definition leases_wf (db : DiscoveryDB) : Prop :=
  ∀ p e, participant_data db !! p = Some e → Dur.wf (spdp_lease_duration e.2).

Lemma check_one_spec now acc p e :
  Dur.wf (spdp_lease_duration e.2) →
  ∃ acc', check_one now acc (p, e) = Done acc' ∧
    ((lapsed now e ∧ acc' = (acc.1, acc.2 ++ [p])) ∨
     (¬ lapsed now e ∧ acc'.2 = acc.2 ∧ (acc'.1 = acc.1 ∨ half_lease e acc'.1))).
Proof.
  intros Hwf. destruct acc as [next lost]. unfold check_one. cbn [fst snd].
  destruct (e.1) as [ts| |] eqn:Ee;
    [|eexists; split; [done|]; right; split; [|by auto]; intros (?&?&?&?&_); congruence..].
  destruct (ts_sub_no_panic now ts) as [el Hel]. rewrite Hel.
  destruct (to_core_no_panic _ Hwf) as [ld Hld]. rewrite Hld. cbn [mbind outcome_bind].
  destruct (bool_decide_case (ord_lt ld el)) as [[-> Hlt]|[-> Hlt]].
  - eexists. split; [done|]. left. split; [|done]. by exists ts, el, ld.
  - destruct (to_core_no_panic _ (half_wf _ Hwf)) as [h Hh]. rewrite Hh.
    eexists. split; [done|]. right. split; [|split; [done|right; split; by eauto]].
    intros (ts' & el' & ld' & ? & ? & ? & ?). congruence.
Qed.

Lemma check_loop now l acc :
  Forall (λ pe, Dur.wf (spdp_lease_duration pe.2.2)) l →
  ∃ acc', foldM (check_one now) acc l = Done acc' ∧
    (∀ p, p ∈ acc'.2 ↔ p ∈ acc.2 ∨ ∃ e, (p, e) ∈ l ∧ lapsed now e) ∧
    (acc'.1 = acc.1 ∨ ∃ p e, (p, e) ∈ l ∧ ¬ lapsed now e ∧ half_lease e acc'.1).
Proof.
  intros Hl. revert acc. induction Hl as [|[p e] l Hwf Hl IH]; intros acc.
  { eexists. split; [done|]. split; [|by left]. set_solver. }
  rewrite foldM_cons. destruct (check_one_spec now acc p e Hwf) as (a1 & -> & Ha1).
  cbn [mbind outcome_bind]. destruct (IH a1) as (a2 & -> & Hlost & Hnext).
  eexists. split; [done|]. split.
  - intros q. rewrite Hlost. destruct Ha1 as [[Hla ->]|(Hla & -> & _)]; cbn [snd].
    + setoid_rewrite elem_of_cons. set_solver.
    + setoid_rewrite elem_of_cons. naive_solver.
  - destruct Hnext as [Hn|(q & e' & ? & ? & ?)]; [|right; exists q, e'; set_solver].
    rewrite Hn. destruct Ha1 as [[_ ->]|(Hla & _ & [->|Hh])]; [by left..|].
    right. exists p, e. split_and!; [by left|done|done].
Qed.

Lemma elem_of_participants p e db : (p, e) ∈ participants db ↔ participant_data db !! p = Some e.
Proof.
  unfold participants. rewrite list_elem_of_omap. setoid_rewrite elem_of_bt_keys. split.
  - intros (p' & [e' He'] & H). rewrite He' in H. by simplify_eq/=.
  - intros He. exists p. split; [done|]. by rewrite He.
Qed.

Lemma foldl_delete_lookup {V} (l : list GuidPrefix) (m : gmap GuidPrefix V) p :
  foldl (λ m l, delete l m) m l !! p = if bool_decide (p ∈ l) then None else m !! p.
Proof.
  revert m. induction l as [|q l IH]; intros m; [done|]. cbn [foldl]. rewrite IH, lookup_delete.
  destruct (decide (q = p)) as [->|].
  - rewrite (bool_decide_true (p ∈ p :: l)) by by left. by case_bool_decide.
  - rewrite (bool_decide_ext (p ∈ q :: l) (p ∈ l)); [done|]. set_solver.
Qed.

Lemma check_participant_liveliness_main now db :
  leases_wf db →
  ∃ db' next lost, check_participant_liveliness now db = Done (db', (next, lost)) ∧
    (∀ p, p ∈ lost ↔ ∃ e, participant_data db !! p = Some e ∧ lapsed now e) ∧
    (∀ p, participant_data db' !! p = if bool_decide (p ∈ lost) then None else participant_data db !! p) ∧
    local_writer_data db' = local_writer_data db ∧ remote_writer_data db' = remote_writer_data db ∧
    (next = mkCoreDuration 5 0 ∨ ∃ p e, participant_data db' !! p = Some e ∧ half_lease e next).
Proof.
  intros Hwf. unfold check_participant_liveliness.
  destruct (check_loop now (participants db) (CORE_DURATION_MAX, [])) as ([next lost] & -> & Hlost & Hnext).
  { apply Forall_forall. intros [p e] He%elem_of_participants. by eapply Hwf. }
  cbn [mbind outcome_bind fst snd] in *. setoid_rewrite elem_of_participants in Hlost.
  setoid_rewrite elem_of_participants in Hnext.
  assert (Hl : ∀ p, p ∈ lost ↔ ∃ e, participant_data db !! p = Some e ∧ lapsed now e).
  { intros p. rewrite Hlost. set_solver. }
  destruct (bool_decide_case (next = CORE_DURATION_MAX)) as [[-> Hd]|[-> Hd]];
    (eexists _, _, lost; split; [reflexivity|]); (split; [done|]);
    (split; [intros p; apply foldl_delete_lookup|]); (split; [done|]); (split; [done|]); [by left|].
  right. destruct Hnext as [?|(p & e & He & Hla & Hh)]; [done|]. exists p, e. split; [|done].
  cbn [participant_data set_participant_data]. rewrite foldl_delete_lookup, bool_decide_false; [done|].
  rewrite Hl. intros (e' & He' & Hla'). congruence.
Qed.

(** The periodic check never panics on leases a message can carry; it drops
    and reports exactly the live participants whose lease has run out, and
    leaves every other entry of the database alone.  The time to the next
    check is half the lease of a participant that is still alive, or five
    seconds. *)
Theorem check_participant_liveliness_spec now db :
  leases_wf db →
  ∃ db' next lost, check_participant_liveliness now db = Done (db', (next, lost)) ∧
    (∀ p, p ∈ lost ↔ ∃ e, participant_data db !! p = Some e ∧ lapsed now e) ∧
    (∀ p, participant_data db' !! p = if bool_decide (p ∈ lost) then None else participant_data db !! p) ∧
    local_writer_data db' = local_writer_data db ∧ remote_writer_data db' = remote_writer_data db ∧
    (next = mkCoreDuration 5 0 ∨ ∃ p e, participant_data db' !! p = Some e ∧ half_lease e next).
Proof. apply check_participant_liveliness_main. Qed.

(** ** Liveliness of writers *)

Lemma foldl_refresh_lookup ts (l : list (GUID * LivelinessQosKind)) (m : WriterData) g k :
  (∀ k', (g, k') ∈ l → k' = k) →
  foldl (λ m u, <[u.1 := (Live ts, u.2)]> m) m l !! g =
    if bool_decide ((g, k) ∈ l) then Some (Live ts, k) else m !! g.
Proof.
  revert m. induction l as [|[g' k'] l IH]; intros m Hl; [done|]. cbn [foldl fst snd].
  rewrite IH by (intros; apply Hl; by right). rewrite lookup_insert.
  destruct (decide (g' = g)) as [->|Hne].
  - assert (k' = k) as -> by (apply Hl; by left).
    rewrite (bool_decide_true ((g, k) ∈ (g, k) :: l)) by by left. by case_bool_decide.
  - rewrite (bool_decide_ext ((g, k) ∈ (g', k') :: l) ((g, k) ∈ l)); [done|].
    rewrite elem_of_cons. naive_solver.
Qed.

Lemma refresh_lookup sel ts m g :
  refresh sel ts m !! g =
    (λ v : EndpointState * LivelinessQosKind, if sel g v.2 then (Live ts, v.2) else v) <$> m !! g.
Proof.
  unfold refresh. cbv zeta. set (l := omap _ (bt_keys m)).
  assert (Hl : ∀ g' k, (g', k) ∈ l ↔ ∃ es, m !! g' = Some (es, k) ∧ sel g' k = true).
  { intros g' k. unfold l. rewrite list_elem_of_omap. setoid_rewrite elem_of_bt_keys. split.
    - intros (x & [[es k'] Hx] & H). rewrite Hx in H. simpl in H. destruct (sel x k') eqn:E; naive_solver.
    - intros (es & Hg & Hs). exists g'. rewrite Hg. simpl. by rewrite Hs. }
  destruct (m !! g) as [[es k]|] eqn:E; cbn [fmap option_fmap option_map].
  - rewrite (foldl_refresh_lookup ts l m g k) by (intros k' (es' & ? & _)%Hl; naive_solver).
    rewrite E. destruct (sel g k) eqn:Es; simpl; rewrite Es.
    + rewrite bool_decide_true; [done|]. apply Hl. eauto.
    + rewrite bool_decide_false; [done|]. rewrite Hl. intros (? & ? & ?). congruence.
  - rewrite (foldl_refresh_lookup ts l m g Automatic) by (intros k' (es' & ? & _)%Hl; naive_solver).
    rewrite bool_decide_false; [done|]. rewrite Hl. intros (? & ? & ?). congruence.
Qed.

(** Hearing from a remote writer makes it live.  For kind ManualByParticipant
    every known writer of the same participant is deemed live as well, of
    whatever kind; no writer of another participant is touched. *)
Theorem write_remote_writer_spec g ts k db g' :
  remote_writer_data (write_remote_writer g ts k db) !! g' =
    if decide (g' = g) then Some (Live ts, k)
    else (λ v, if bool_decide (k = ManualByParticipant ∧ guid_prefix g' = guid_prefix g)
               then (Live ts, v.2) else v) <$> remote_writer_data db !! g'.
Proof.
  unfold write_remote_writer. cbv zeta.
  destruct (bool_decide_case (k = ManualByParticipant)) as [[-> Hk]|[-> Hk]]; simpl.
  - rewrite refresh_lookup, lookup_insert. destruct (decide (g' = g)) as [->|Hne].
    + rewrite decide_True by done. simpl. by rewrite bool_decide_true.
    + rewrite decide_False by done. destruct (remote_writer_data db !! g') as [v|]; [|done]. simpl.
      f_equal. by rewrite (bool_decide_ext (k = ManualByParticipant ∧ guid_prefix g' = guid_prefix g)
        (guid_prefix g' = guid_prefix g)) by naive_solver.
  - rewrite lookup_insert. destruct (decide (g' = g)) as [->|Hne]; [by rewrite decide_True|].
    rewrite decide_False by done. destruct (remote_writer_data db !! g') as [v|]; [|done]. simpl.
    rewrite bool_decide_false; [done|]. by intros [? _].
Qed.

(** Asserting a local writer of kind ManualByParticipant refreshes, of the
    {e remote} writers, those with the local participant's prefix; the
    other local writers keep the time they had. *)
Theorem write_local_writer_spec g ts k db g' :
  local_writer_data (write_local_writer g ts k db) !! g' =
    (if decide (g = g') then Some (Live ts, k) else local_writer_data db !! g') ∧
  remote_writer_data (write_local_writer g ts k db) !! g' =
    (λ v, if bool_decide (k = ManualByParticipant ∧ guid_prefix g' = guid_prefix g)
          then (Live ts, v.2) else v) <$> remote_writer_data db !! g'.
Proof.
  unfold write_local_writer. cbv zeta.
  destruct (bool_decide_case (k = ManualByParticipant)) as [[-> Hk]|[-> Hk]]; simpl;
    (split; [by rewrite lookup_insert|]).
  - rewrite refresh_lookup. destruct (remote_writer_data db !! g') as [v|]; [|done]. simpl.
    f_equal. by rewrite (bool_decide_ext (k = ManualByParticipant ∧ guid_prefix g' = guid_prefix g)
        (guid_prefix g' = guid_prefix g)) by naive_solver.
  - destruct (remote_writer_data db !! g') as [v|]; [|done]. simpl.
    rewrite bool_decide_false; [done|]. by intros [? _].
Qed.

(** ** Concrete runs *)

Definition sample_prefix (n : Z) : GuidPrefix := mkGuidPrefix (replicate 11 0 ++ [n]).
Definition sample_participant (n lease : Z) : SPDPdiscoveredParticipantData :=
  mkSPDPdiscoveredParticipantData 0 EmptyString (mkProtocolVersion 2 3)
    (mkGUID (sample_prefix n) Eid.PARTICIPANT) VENDORID_UNKNOW false 0 [] [] [] [] None
    (Dur.from_secs lease).
(** Participants 1 and 2 were heard of at second 10, with leases of [l1] and
    [l2] seconds. *)
Definition sample_db (l1 l2 : Z) : DiscoveryDB :=
  (write_participant (sample_prefix 2) (mkTimestamp 10 0) (sample_participant 2 l2)
    (write_participant (sample_prefix 1) (mkTimestamp 10 0) (sample_participant 1 l1) db_new).1).1.

Lemma check_participant_liveliness_spec_witness :
  leases_wf (sample_db 4 100) ∧
  ∃ db' next lost, check_participant_liveliness (mkTimestamp 20 0) (sample_db 4 100) = Done (db', (next, lost)) ∧
    sample_prefix 1 ∈ lost ∧ sample_prefix 2 ∉ lost.
Proof.
  assert (Hwf : leases_wf (sample_db 4 100)).
  { intros p e He.
    assert (Hall : map_Forall (λ _ (e : EndpointState * SPDPdiscoveredParticipantData),
      -2147483648 ≤ seconds (spdp_lease_duration e.2) < 2147483648 ∧
      0 ≤ fraction (spdp_lease_duration e.2) < 4294967296) (participant_data (sample_db 4 100)))
      by (eapply bool_decide_unpack; vm_compute; exact I). exact (Hall p e He). }
  split; [done|].
  destruct (check_participant_liveliness_spec (mkTimestamp 20 0) (sample_db 4 100) Hwf)
    as (db' & next & lost & Hc & _). exists db', next, lost. split; [exact Hc|].
  vm_compute in Hc. injection Hc as _ _ <-. split; [by left|]. by intros [? | []%elem_of_nil]%elem_of_cons.
Defined.

(** The check that follows is scheduled by the live participant that comes
    last in key order: here in 50 s, although the lease of participant 1 is
    over after 4 s. *)
Example next_check_misses_short_lease :
  (λ r, r.2) <$> check_participant_liveliness (mkTimestamp 11 0) (sample_db 4 100) =
    Done (mkCoreDuration 50 0, []).
Proof. vm_compute. reflexivity. Qed.
