(* ===== verification/Reader.v ===== *)
(** * The RTPS reader

    src/src/rtps/reader.rs: the state of a stateful reader and its handlers.
    A handler is a function from the state to an [outcome] with the new
    state, the datagrams and notifications it emits in order ([ReaderEvent])
    and the timers it asks for.  The history cache shared with the DataReader
    is part of the state; a handler runs as one step with respect to the
    DataReader. *)
From stdpp Require Import base tactics numbers list gmap sorting strings.
From S2P Require Import Prelude Ordered Ids Time SeqNum Qos HistoryCache Topic Message Proxy.
From S2P Require Import DiscoveryData DiscoveryDB.

(** ** Data *)

Inductive ReaderTimer :=
| TimerHeartbeat (self : EntityId) (writer : GUID)
| TimerReaderDeadline (self : EntityId) (writer : GUID) (d : CoreDuration)
| TimerLifespan (self : EntityId) (key : HCKey) (source : Timestamp) (d : CoreDuration).
#[export] Instance ReaderTimer_eq_dec : EqDecision ReaderTimer.
Proof. solve_decision. Defined.

(** Reordering of a reliable writer's samples: nothing is known yet, the
    listed numbers are awaited, or everything below the number has come. *)
Inductive ReaderState :=
| Initial
| WaitingFor (wait_list : gset Z)
| Expect (seq_num : Z).
#[export] Instance ReaderState_eq_dec : EqDecision ReaderState.
Proof. solve_decision. Defined.

Record SubscriptionMatchedStatus := mkSubscriptionMatchedStatus {
  sm_total_count : Z;
  sm_total_count_change : Z;
  sm_current_count : Z;
  sm_current_count_change : Z;
  sm_guid : GUID;
}.
#[export] Instance SubscriptionMatchedStatus_eq_dec : EqDecision SubscriptionMatchedStatus.
Proof. solve_decision. Defined.

Record LivelinessChangedStatus := mkLivelinessChangedStatus {
  alive_count : Z;
  not_alive_count : Z;
  alive_count_change : Z;
  not_alive_count_change : Z;
  lc_guid : GUID;
}.
#[export] Instance LivelinessChangedStatus_eq_dec : EqDecision LivelinessChangedStatus.
Proof. solve_decision. Defined.

Inductive DataReaderStatusChanged :=
| SampleRejected
| LivelinessChanged (s : LivelinessChangedStatus)
| RequestedDeadlineMissed (writer : GUID)
| RequestedIncompatibleQos (e : list PolicyId)
| DataAvailable
| SampleLost
| SubscriptionMatched (s : SubscriptionMatchedStatus).
#[export] Instance DataReaderStatusChanged_eq_dec : EqDecision DataReaderStatusChanged.
Proof. solve_decision. Defined.

(** What a handler does to the outside. *)
Inductive ReaderEvent :=
| RSendToMulticast (msg : Message) (addr : list Z) (port : Z)
| RSendToUnicast (msg : Message) (addr : list Z) (port : Z)
| NotifyReader (s : DataReaderStatusChanged).
#[export] Instance ReaderEvent_eq_dec : EqDecision ReaderEvent.
Proof. solve_decision. Defined.

Record ReaderConf := mkReaderConf {
  rd_guid : GUID;
  rd_topic_kind : TopicKind;
  rd_reliability_level : ReliabilityQosKind;
  rd_unicast_locator_list : list Locator;
  rd_multicast_locator_list : list Locator;
  rd_expectsinline_qos : bool;
  rd_heartbeat_response_delay : Duration;
  rd_topic : Topic;
  rd_qos : DataReaderQosPolicies;
  rd_endianness : Endianness;
}.

Record Reader := mkReader {
  rconf : ReaderConf;
  reader_cache : HistoryCache;
  matched_writers : gmap GUID WriterProxy;
  unmatched_writers : gmap GUID WriterProxy;
  writer_communication_state : gmap GUID ReaderState;
}.

Definition set_reader_cache f r := mkReader (rconf r) (f (reader_cache r)) (matched_writers r)
  (unmatched_writers r) (writer_communication_state r).
Definition set_matched_writers f r := mkReader (rconf r) (reader_cache r) (f (matched_writers r))
  (unmatched_writers r) (writer_communication_state r).
Definition set_unmatched_writers f r := mkReader (rconf r) (reader_cache r) (matched_writers r)
  (f (unmatched_writers r)) (writer_communication_state r).
Definition set_comm_state f r := mkReader (rconf r) (reader_cache r) (matched_writers r)
  (unmatched_writers r) (f (writer_communication_state r)).

Definition rguid (r : Reader) : GUID := rd_guid (rconf r).
Definition rqos (r : Reader) : DataReaderQosPolicies := rd_qos (rconf r).
Definition reader_is_reliable (r : Reader) : bool :=
  match rd_reliability_level (rconf r) with Reliable => true | BestEffort => false end.

(** [Reader::new]; the endianness is fixed in the caller's configuration. *)
Definition reader_new (cf : ReaderConf) (rhc : HistoryCache) : Reader := mkReader cf rhc ∅ ∅ ∅.

(** ** Notifications *)

Definition liveliness_changed (r : Reader) (alive_change not_alive_change : Z) (g : GUID) : ReaderEvent :=
  NotifyReader (LivelinessChanged (mkLivelinessChangedStatus
    (as_i32 (size (matched_writers r))) (as_i32 (size (unmatched_writers r)))
    alive_change not_alive_change g)).

Definition subscription_matched (r : Reader) (total_change current_change : Z) (g : GUID) : ReaderEvent :=
  NotifyReader (SubscriptionMatched (mkSubscriptionMatchedStatus
    (as_i32 (size (matched_writers r) + size (unmatched_writers r))) total_change
    (as_i32 (size (matched_writers r))) current_change g)).

(** The first statement of [add_change], [handle_gap] and [handle_heartbeat]:
    a writer whose liveliness was lost is matched again. *)
Definition rematch (g : GUID) (r : Reader) : Reader * list ReaderEvent :=
  match unmatched_writers r !! g with
  | Some wp =>
      let r := set_matched_writers <[g := wp]> (set_unmatched_writers (delete g) r) in
      (r, [liveliness_changed r 1 (-1) g])
  | None => (r, [])
  end.

(** ** Samples *)

Definition opt_timers (rt : list ReaderTimer) : option (list ReaderTimer) :=
  match rt with [] => None | _ => Some rt end.

(** The Lifespan and Deadline timers that a sample starts. *)
Definition sample_timers (r : Reader) (g : GUID) (wp : WriterProxy) (c : CacheChange)
    : outcome (list ReaderTimer) :=
  let lifespan := lifespan_duration (w_lifespan (wp_qos wp)).1 in
  let deadline_period := period (r_deadline (rqos r)).1 in
  l ← (if bool_decide (lifespan = Dur.INFINITE) then Done []
       else d ← Dur.to_core lifespan;
            Done [TimerLifespan (entity_id (rguid r)) (mkHCKey g (sequence_number c)) (timestamp c) d]);
  d ← (if bool_decide (deadline_period = Dur.INFINITE) then Done []
       else d ← Dur.to_core deadline_period;
            Done [TimerReaderDeadline (entity_id (rguid r)) g d]);
  Done (l ++ d).

Definition reader_cache_add (c : CacheChange) (r : Reader)
    : outcome (Reader * (AddChangeErr + unit)) :=
  '(hc, res) ← add_change c (reader_is_reliable r) (r_resource_limits (rqos r)).1
                 (r_history (rqos r)).1 (reader_cache r);
  Done (set_reader_cache (λ _, hc) r, res).

Definition flush_cache (r : Reader) : outcome (Reader * bool) :=
  '(hc, b) ← flush (reader_cache r);
  Done (set_reader_cache (λ _, hc) r, b).

(** The state machine of a reliable reader on a sample of number [s]. *)
Definition reorder (g : GUID) (s : Z) (r : Reader) : outcome (Reader * list ReaderEvent) :=
  match writer_communication_state r !! g with
  | Some (WaitingFor wait_list) =>
      let wait_list := wait_list ∖ {[s]} in
      let r := set_comm_state <[g := WaitingFor wait_list]> r in
      if bool_decide (wait_list = ∅)
      then '(r, _) ← flush_cache r; Done (r, [NotifyReader DataAvailable])
      else Done (r, [])
  | Some (Expect seq_num) =>
      if bool_decide (s = seq_num)
      then '(r, _) ← flush_cache r;
           Done (set_comm_state <[g := Expect (Sn.add seq_num 1)]> r, [NotifyReader DataAvailable])
      else Done (r, [])
  | Some Initial | None => Done (r, [])
  end.

(** Samples the DataReader has taken are forgotten by their proxies. *)
Definition forget_taken (keys : list HCKey) (ws : gmap GUID WriterProxy) : gmap GUID WriterProxy :=
  foldl (λ ws k, alter (wp_remove_cache_state (hk_seq_num k)) (hk_guid k) ws) ws keys.

(** [add_change], reliable branch. *)
Definition add_change_reliable (g : GUID) (c : CacheChange) (r : Reader)
    : outcome (Reader * list ReaderEvent) :=
  '(r, res) ← reader_cache_add c r;
  match res with
  | inl _ => Done (r, [])
  | inr _ =>
      '(r, evs) ← reorder g (sequence_number c) r;
      Done (set_matched_writers (alter (received_change_set (sequence_number c)) g) r, evs)
  end.

(** [add_change], best-effort branch. *)
Definition add_change_best_effort (g : GUID) (c : CacheChange) (r : Reader)
    : outcome (Reader * list ReaderEvent) :=
  '(hc, taken) ← get_taken (reader_cache r);
  let r := set_matched_writers (forget_taken (bt_elems taken)) (set_reader_cache (λ _, hc) r) in
  match matched_writers r !! g with
  | None => Done (r, [])
  | Some wp =>
      let expected_seq_num := Sn.add (available_changes_max wp) 1 in
      if bool_decide (expected_seq_num ≤ sequence_number c) then
        '(r, res) ← reader_cache_add c r;
        match res with
        | inl _ => Done (r, [])
        | inr _ =>
            '(r, _) ← flush_cache r;
            let update wp :=
              let wp := received_change_set (sequence_number c) wp in
              if bool_decide (expected_seq_num < sequence_number c)
              then lost_changes_update (sequence_number c) wp else wp in
            Done (set_matched_writers (alter update g) r, [NotifyReader DataAvailable])
        end
      else Done (r, [])
  end.

(** [Reader::add_change]. *)
Definition reader_add_change (source : GuidPrefix) (c : CacheChange) (r : Reader)
    : outcome (Reader * list ReaderEvent * option (list ReaderTimer)) :=
  let g := mkGUID source (entity_id (writer_guid c)) in
  let '(r, evs) := rematch g r in
  match matched_writers r !! g with
  | None => Done (r, evs, None)
  | Some wp =>
      rt ← sample_timers r g wp c;
      '(r, evs') ← (if reader_is_reliable r then add_change_reliable g c r
                    else add_change_best_effort g c r);
      Done (r, evs ++ evs', opt_timers rt)
  end.

(** ** Matching *)

Definition matched_writer_add_with_default_locator (g : GUID) (ls : Locators) (dmax : Z)
    (qos : DataWriterQosPolicies) (r : Reader)
    : outcome (Reader * list ReaderEvent * option ReaderTimer) :=
  match matched_writers r !! g with
  | None =>
      match reader_is_compatible (rqos r) qos with
      | inl e => Done (r, [NotifyReader (RequestedIncompatibleQos e)], None)
      | inr _ =>
          wp ← wp_new g ls dmax qos;
          let r := set_comm_state <[g := Initial]> (set_matched_writers <[g := wp]> r) in
          let deadline_period := period (r_deadline (rqos r)).1 in
          rt ← (if bool_decide (deadline_period = Dur.INFINITE) then Done None
                else d ← Dur.to_core deadline_period;
                     Done (Some (TimerReaderDeadline (entity_id (rguid r)) g d)));
          Done (r, [subscription_matched r 1 1 g; liveliness_changed r 1 0 g], rt)
      end
  | Some wp =>
      Done (set_matched_writers
              <[g := mkWriterProxy (remote_writer_guid wp) ls dmax qos (wp_cache_state wp)]> r, [], None)
  end.

Definition matched_writer_add (g : GUID) (unicast multicast : list Locator) (dmax : Z)
    (qos : DataWriterQosPolicies) (r : Reader) : outcome (Reader * list ReaderEvent) :=
  '(r, evs, _) ← matched_writer_add_with_default_locator g (mkLocators unicast multicast [] []) dmax qos r;
  Done (r, evs).

Definition is_writer_match (topic_name' data_type : string) (r : Reader) : bool :=
  bool_decide (topic_name (rd_topic (rconf r)) = topic_name') &&
  bool_decide (topic_type_desc (rd_topic (rconf r)) = data_type).

Definition matched_writer_unmatch (g : GUID) (r : Reader) : Reader * list ReaderEvent :=
  match matched_writers r !! g with
  | Some wp =>
      let r := set_unmatched_writers <[g := wp]> (set_matched_writers (delete g) r) in
      (r, [liveliness_changed r (-1) 1 g])
  | None => (r, [])
  end.

Definition send_sub_unmatch (g : GUID) (r : Reader) : list ReaderEvent :=
  [subscription_matched r 0 (-1) g].

Definition unmatched_writer_remove (g : GUID) (r : Reader) : Reader * list ReaderEvent :=
  match unmatched_writers r !! g with
  | Some _ =>
      let r := set_comm_state (delete g) (set_unmatched_writers (delete g) r) in
      (r, send_sub_unmatch g r)
  | None => (r, [])
  end.

Definition matched_writer_remove (g : GUID) (r : Reader) : Reader * list ReaderEvent :=
  match matched_writers r !! g with
  | Some _ =>
      let r := set_matched_writers (delete g) r in
      let r := set_comm_state (delete g) (set_reader_cache (remove_change_from_writer g) r) in
      (r, liveliness_changed r (-1) 1 g :: send_sub_unmatch g r)
  | None => (r, [])
  end.

(** A handler applied to each of a list of writers. *)
Definition for_writers (f : GUID → Reader → Reader * list ReaderEvent) (l : list GUID) (r : Reader)
    : Reader * list ReaderEvent :=
  foldl (λ acc g, let '(r, evs) := f g acc.1 in (r, acc.2 ++ evs)) (r, []) l.

Definition delete_writer_proxy (p : GuidPrefix) (r : Reader) : Reader * list ReaderEvent :=
  let '(r, evs) := for_writers matched_writer_remove
                     (filter (λ g, guid_prefix g = p) (bt_keys (matched_writers r))) r in
  let '(r, evs') := for_writers unmatched_writer_remove
                      (filter (λ g, guid_prefix g = p) (bt_keys (unmatched_writers r))) r in
  (r, evs ++ evs').

(** ** Gaps *)

(** The macro [remove_seqnum_from_wait_list!]: nothing is flushed when the
    list becomes empty. *)
Definition remove_seqnum_from_wait_list (s : Z) (st : ReaderState) : ReaderState :=
  match st with WaitingFor wait_list => WaitingFor (wait_list ∖ {[s]}) | _ => st end.

(** The numbers a Gap declares irrelevant: the loop from [gap_start] to the
    base of the list, then the list. *)
Definition gap_numbers (gap : Gap) : list Z :=
  seqZ (gap_start gap) (bitmap_base (gap_list gap) - gap_start gap) ++ sn_set (gap_list gap).

Definition gap_one (g : GUID) (r : Reader) (s : Z) : Reader :=
  set_comm_state (alter (remove_seqnum_from_wait_list s) g)
    (set_matched_writers (alter (irrelevant_change_set s) g) r).

Definition handle_gap (g : GUID) (gap : Gap) (r : Reader) : Reader * list ReaderEvent :=
  let '(r, evs) := rematch g r in
  match matched_writers r !! g with
  | Some _ => (foldl (gap_one g) r (gap_numbers gap), evs)
  | None => (r, evs)
  end.

(** ** Heartbeats *)

Definition reader_send_msg_to_locator (loc : Locator) (msg : Message) : list ReaderEvent :=
  if bool_decide (kind loc = Loc.KIND_UDPV4) then
    let addr := drop 12 (address loc) in
    if is_ipv4_multicast (address loc)
    then [RSendToMulticast msg addr (as_u16 (port loc))]
    else [RSendToUnicast msg addr (as_u16 (port loc))]
  else [].

Definition get_unicast_ll_from_writer_proxy (wp : WriterProxy) : option (list Locator) :=
  let ll_u := get_unicast_locator_list (wp_locators wp) in
  if bool_decide (ll_u = []) then
    let ll_m := get_multicast_locator_list (wp_locators wp) in
    if bool_decide (ll_m = []) then None else Some ll_m
  else Some ll_u.

Definition acknack_msg (r : Reader) (g : GUID) (wp : WriterProxy) (state : NumberSet) : Message :=
  Build.build (guid_prefix (rguid r))
    (Build.acknack (rd_endianness (rconf r)) (entity_id g) (entity_id (rguid r)) state 1 false
      (Build.info_dst (rd_endianness (rconf r)) (guid_prefix (remote_writer_guid wp)) Build.new)).

(** The base of the ACKNACK and the state machine's new state.  With nothing
    missing everything stored becomes available; otherwise the missing
    numbers are awaited. *)
Definition settle_state (g : GUID) (wp : WriterProxy) (missing : list Z) (r : Reader)
    : outcome (Reader * list ReaderEvent * Z) :=
  match missing with
  | [] =>
      let base := Sn.add (available_changes_max wp) 1 in
      match writer_communication_state r !! g with
      | Some _ =>
          '(r, flushed) ← flush_cache (set_comm_state <[g := Expect base]> r);
          Done (r, if (flushed : bool) then [NotifyReader DataAvailable] else [], base)
      | None => Done (r, [], base)
      end
  | s :: missing' =>
      let r := match writer_communication_state r !! g with
               | Some _ => set_comm_state <[g := WaitingFor (list_to_set missing)]> r
               | None => r
               end in
      Done (r, [], foldl Z.min s missing')
  end.

Definition handle_hb_response_timeout (g : GUID) (r : Reader) : outcome (Reader * list ReaderEvent) :=
  match matched_writers r !! g with
  | None => Done (r, [])
  | Some wp =>
      let missing := missing_changes wp in
      '(r, evs, base) ← settle_state g wp missing r;
      reader_sn_state ← from_vec base missing;
      match get_unicast_ll_from_writer_proxy wp with
      | None => Done (r, evs)
      | Some ll_u =>
          Done (r, evs ++ concat ((λ loc, reader_send_msg_to_locator loc
                                            (acknack_msg r g wp reader_sn_state)) <$> ll_u))
      end
  end.

(** Respond at once, or after [heartbeat_response_delay]. *)
Definition must_send_ack (g : GUID) (r : Reader)
    : outcome (Reader * list ReaderEvent * option ReaderTimer) :=
  if bool_decide (rd_heartbeat_response_delay (rconf r) = Dur.ZERO) then
    '(r, evs) ← handle_hb_response_timeout g r; Done (r, evs, None)
  else Done (r, [], Some (TimerHeartbeat (entity_id (rguid r)) g)).

(** What a heartbeat says of the writer's changes. *)
Definition heartbeat_update (hb : Heartbeat) (taken : list HCKey) (wp : WriterProxy) : WriterProxy :=
  lost_changes_update (first_sn hb)
    (missing_changes_update (first_sn hb) (last_sn hb)
      (foldl (λ wp k, wp_remove_cache_state (hk_seq_num k) wp) wp taken)).

Definition handle_heartbeat (g : GUID) (hb_flag : Z) (hb : Heartbeat) (r : Reader)
    : outcome (Reader * list ReaderEvent * option ReaderTimer) :=
  let '(r, evs) := rematch g r in
  match matched_writers r !! g with
  | None => Done (r, evs, None)
  | Some wp =>
      '(hc, taken) ← get_taken_less_than g (first_sn hb) (reader_cache r);
      let wp := heartbeat_update hb taken wp in
      let r := set_matched_writers <[g := wp]> (set_reader_cache (λ _, hc) r) in
      '(r, evs', rt) ← (
        if negb (contains hb_flag Flag.Heartbeat.Final) then must_send_ack g r
        else if negb (contains hb_flag Flag.Heartbeat.Liveliness) then
          if bool_decide (missing_changes wp = []) then Done (r, [], None) else must_send_ack g r
        else Done (r, [], None));
      Done (r, evs ++ evs', rt)
  end.

(** ** The rest *)

Definition notify_reqested_deadline_missed (g : GUID) : list ReaderEvent :=
  [NotifyReader (RequestedDeadlineMissed g)].

(** The fraction (units of 2^-32 s) is handed over as nanoseconds. *)
Definition heartbeat_response_delay (r : Reader) : outcome CoreDuration :=
  core_duration_new (as_u64 (seconds (rd_heartbeat_response_delay (rconf r))))
    (fraction (rd_heartbeat_response_delay (rconf r))).

Definition is_contain_writer (g : GUID) (r : Reader) : bool :=
  bool_decide (is_Some (matched_writers r !! g)) || bool_decide (is_Some (unmatched_writers r !! g)).

Definition get_matched_writer_qos (g : GUID) (r : Reader) : outcome DataWriterQosPolicies :=
  match matched_writers r !! g with
  | Some wp => Done (wp_qos wp)
  | None =>
      match unmatched_writers r !! g with
      | Some wp => Done (wp_qos wp)
      | None => Panic
      end
  end.

(** One writer of the loop of [check_liveliness]; [now] is the clock read
    for it. *)
Definition liveliness_lost (now : option Timestamp) (db : DiscoveryDB) (g : GUID) (wp : WriterProxy)
    : outcome bool :=
  let wld := lease_duration (w_liveliness (wp_qos wp)).1 in
  if bool_decide (wld = Dur.INFINITE) then Done false
  else
    match read_remote_writer g db with
    | Live last_added =>
        now ← unwrap now;
        elapse ← Ts.sub now last_added;
        wld ← Dur.to_core wld;
        Done (bool_decide (ord_lt wld elapse))
    | LivelinessLost => Done true
    | Unknown => Done false
    end.

Definition check_liveliness (now : GUID → option Timestamp) (db : DiscoveryDB) (r : Reader)
    : outcome (DiscoveryDB * Reader * list ReaderEvent) :=
  to_unmatch ← foldM (λ l g,
      wp ← unwrap (matched_writers r !! g);
      lost ← liveliness_lost (now g) db g wp;
      Done (if (lost : bool) then l ++ [g] else l))
    [] (bt_keys (matched_writers r));
  let db := foldl (λ db g, update_remote_writer_state g LivelinessLost db) db to_unmatch in
  let '(r, evs) := for_writers matched_writer_unmatch to_unmatch r in
  Done (db, r, evs).

Definition get_min_remote_writer_lease_duration (r : Reader) : outcome CoreDuration :=
  let min_ld := foldl (λ min_ld wp,
      let wld := lease_duration (w_liveliness (wp_qos wp)).1 in
      if Dur.lt wld min_ld then wld else min_ld) Dur.INFINITE (bt_values (matched_writers r)) in
  if bool_decide (min_ld = Dur.INFINITE) then core_duration_new 10 0
  else core_duration_new (as_u64 (seconds min_ld)) (fraction min_ld).

Definition reader_remove_change_if_exist (key : HCKey) (r : Reader) : Reader :=
  set_reader_cache (remove_change_if_exist key) r.

(** [sedp_data]: what the reader announces, a proxy with an empty cache. *)
Definition reader_sedp_data (r : Reader) : outcome (ReaderProxy * SubscriptionBuiltinTopicData) :=
  proxy ← rp_new (rguid r) (rd_expectsinline_qos (rconf r))
    (mkLocators (rd_unicast_locator_list (rconf r)) (rd_multicast_locator_list (rconf r)) [] [])
    (rqos r) (hc_new HcDummy) true;
  Done (proxy, sub_builtin_topic_data (rd_topic (rconf r))).
