(* ===== verification/ReaderProofs.v ===== *)
(** * What the reader guarantees

    Theorems on the handlers of src/src/rtps/reader.rs as [Reader] models
    them: what a heartbeat or a gap says of the writer's changes, what an
    ACKNACK asks for, when samples become available, and that a running
    reader does not panic. *)
From stdpp Require Import base tactics numbers list gmap sorting strings.
From S2P Require Import Prelude Ordered Ids Time SeqNum Qos HistoryCache Topic Message Proxy.
From S2P Require Import DiscoveryData DiscoveryDB Reader.

(** ** The invariant

    Sequence numbers are bounded by [seq_bound]: a bitmap of a number set
    counts its bits in a [u32], and [from_vec] is exact below 2^32 bits. *)
Definition seq_bound : Z := 2 ^ 32 - 1.
Definition seq_ok (s : Z) : Prop := 1 ≤ s ≤ seq_bound.

Record writer_proxy_ok (g : GUID) (wp : WriterProxy) : Prop := {
  wpo_guid : remote_writer_guid wp = g;
  wpo_seqs : ∀ s, is_Some (wp_cache_state wp !! s) → seq_ok s;
  wpo_lifespan : Dur.wf (lifespan_duration (w_lifespan (wp_qos wp)).1);
  wpo_lease : Dur.wf (lease_duration (w_liveliness (wp_qos wp)).1);
}.

Record reader_wf (r : Reader) : Prop := {
  rw_cache : hc_wf (reader_cache r);
  rw_type : hc_type (reader_cache r) = HcReader;
  rw_matched : ∀ g wp, matched_writers r !! g = Some wp → writer_proxy_ok g wp;
  rw_unmatched : ∀ g wp, unmatched_writers r !! g = Some wp → writer_proxy_ok g wp;
  rw_deadline : Dur.wf (period (r_deadline (rqos r)).1);
}.

(** The proxy a message from [g] is handled with. *)
Definition known (g : GUID) (r : Reader) : option WriterProxy :=
  match unmatched_writers r !! g with
  | Some wp => Some wp
  | None => matched_writers r !! g
  end.

(** *** The state updates preserve it *)

Lemma set_reader_cache_wf hc r :
  hc_wf hc → hc_type hc = HcReader → reader_wf r → reader_wf (set_reader_cache (λ _, hc) r).
Proof. intros H1 H2 []. by split. Qed.

Lemma set_comm_state_wf f r : reader_wf r → reader_wf (set_comm_state f r).
Proof. intros []. by split. Qed.

Lemma set_matched_writers_wf f r :
  (∀ g wp, f (matched_writers r) !! g = Some wp → writer_proxy_ok g wp) →
  reader_wf r → reader_wf (set_matched_writers f r).
Proof. intros Hf []. by split. Qed.

Lemma set_unmatched_writers_wf f r :
  (∀ g wp, f (unmatched_writers r) !! g = Some wp → writer_proxy_ok g wp) →
  reader_wf r → reader_wf (set_unmatched_writers f r).
Proof. intros Hf []. by split. Qed.

Lemma insert_ok (m : gmap GUID WriterProxy) g wp :
  writer_proxy_ok g wp → (∀ g wp, m !! g = Some wp → writer_proxy_ok g wp) →
  ∀ g' wp', <[g := wp]> m !! g' = Some wp' → writer_proxy_ok g' wp'.
Proof. intros Hok Hm g' wp'. rewrite lookup_insert_Some. intros [[<- <-]|[_ ?]]; auto. Qed.

Lemma delete_ok (m : gmap GUID WriterProxy) g :
  (∀ g wp, m !! g = Some wp → writer_proxy_ok g wp) →
  ∀ g' wp', delete g m !! g' = Some wp' → writer_proxy_ok g' wp'.
Proof. intros Hm g' wp'. rewrite lookup_delete_Some. intros [_ ?]; auto. Qed.

Lemma alter_ok (m : gmap GUID WriterProxy) f g :
  (∀ wp, writer_proxy_ok g wp → writer_proxy_ok g (f wp)) →
  (∀ g wp, m !! g = Some wp → writer_proxy_ok g wp) →
  ∀ g' wp', alter f g m !! g' = Some wp' → writer_proxy_ok g' wp'.
Proof.
  intros Hf Hm g' wp'. rewrite lookup_alter_Some. intros [(<- & wp & ? & ->)|[_ ?]]; auto.
Qed.
#[export] Hint Resolve set_comm_state_wf set_reader_cache_wf : umber.

(** An update of the change table that adds no number out of bounds. *)
Lemma proxy_ok_cache_state f g wp :
  (∀ s, is_Some (f (wp_cache_state wp) !! s) → is_Some (wp_cache_state wp !! s) ∨ seq_ok s) →
  writer_proxy_ok g wp → writer_proxy_ok g (wp_set_cache_state f wp).
Proof. intros Hf []. split; simpl; [done| |done..]. intros s [?|?]%Hf; auto. Qed.

Lemma proxy_ok_update g s rel st wp :
  seq_ok s → writer_proxy_ok g wp → writer_proxy_ok g (wp_update_cache_state s rel st wp).
Proof.
  intros Hs. apply proxy_ok_cache_state. intros s' [c Hc]. simpl in Hc.
  apply lookup_insert_Some in Hc as [[<- _]|[_ ?]]; eauto.
Qed.

Lemma proxy_ok_received g s wp :
  seq_ok s → writer_proxy_ok g wp → writer_proxy_ok g (received_change_set s wp).
Proof.
  intros Hs Hok. unfold received_change_set. destruct (wp_cache_state wp !! s) eqn:E.
  - revert Hok. apply proxy_ok_cache_state. intros s' [c' Hc]. simpl in Hc.
    apply lookup_insert_Some in Hc as [[<- _]|[_ ?]]; eauto.
  - by apply proxy_ok_update.
Qed.

Lemma proxy_ok_remove g s wp : writer_proxy_ok g wp → writer_proxy_ok g (wp_remove_cache_state s wp).
Proof.
  apply proxy_ok_cache_state. intros s' [c Hc]. simpl in Hc. apply lookup_delete_Some in Hc as [_ ?]. eauto.
Qed.

Lemma proxy_ok_lost g first wp : writer_proxy_ok g wp → writer_proxy_ok g (lost_changes_update first wp).
Proof.
  apply proxy_ok_cache_state. intros s [c Hc]. simpl in Hc. rewrite map_lookup_imap in Hc.
  destruct (wp_cache_state wp !! s); [eauto|done].
Qed.

Lemma proxy_ok_missing g first last wp :
  1 ≤ first → last ≤ seq_bound →
  writer_proxy_ok g wp → writer_proxy_ok g (missing_changes_update first last wp).
Proof.
  intros Hf Hl. unfold missing_changes_update.
  assert (Hs : Forall seq_ok (seqZ first (last - first + 1))).
  { apply Forall_forall. intros s Hs%elem_of_seqZ. unfold seq_ok. lia. }
  revert wp. induction Hs as [|s l Hs Hl' IH]; intros wp Hok; [done|]. cbn [foldl]. apply IH.
  unfold missing_step. destruct (wp_cache_state wp !! s) eqn:E; [|by apply proxy_ok_update].
  destruct (bool_decide _); [|done]. destruct (bool_decide _); [|done]. revert Hok.
  apply proxy_ok_cache_state. intros s' [c' Hc]. simpl in Hc.
  apply lookup_insert_Some in Hc as [[<- _]|[_ ?]]; eauto.
Qed.

Lemma proxy_ok_remove_all g (taken : list HCKey) wp :
  writer_proxy_ok g wp → writer_proxy_ok g (foldl (λ wp k, wp_remove_cache_state (hk_seq_num k) wp) wp taken).
Proof.
  revert wp. induction taken as [|k l IH]; intros wp Hok; [done|]. apply IH. by apply proxy_ok_remove.
Qed.
#[export] Hint Resolve proxy_ok_update proxy_ok_received proxy_ok_remove proxy_ok_lost proxy_ok_missing
  proxy_ok_remove_all : umber.

(** *** Rematching *)

Lemma rematch_spec g r :
  let r' := (rematch g r).1 in
  matched_writers r' !! g = known g r ∧ rconf r' = rconf r ∧ reader_cache r' = reader_cache r ∧
  writer_communication_state r' = writer_communication_state r ∧ unmatched_writers r' !! g = None.
Proof.
  cbv zeta. unfold rematch, known. destruct (unmatched_writers r !! g) eqn:E; simpl.
  - by rewrite lookup_insert_eq, lookup_delete_eq.
  - done.
Qed.

Lemma rematch_wf g r : reader_wf r → reader_wf (rematch g r).1.
Proof.
  intros Hwf. unfold rematch. destruct (unmatched_writers r !! g) as [wp|] eqn:E; [|done].
  apply set_matched_writers_wf.
  - apply insert_ok; [by apply (rw_unmatched _ Hwf)|apply (rw_matched _ Hwf)].
  - apply set_unmatched_writers_wf; [|done]. apply delete_ok, (rw_unmatched _ Hwf).
Qed.

Lemma rematch_quiet g r ev : ev ∈ (rematch g r).2 → ∃ s, ev = NotifyReader (LivelinessChanged s).
Proof.
  unfold rematch. destruct (unmatched_writers r !! g); simpl; [|by intros ?%elem_of_nil].
  intros ->%list_elem_of_singleton. eexists. reflexivity.
Qed.

(** ** Heartbeats *)

Lemma wp_status_remove_all (taken : list HCKey) wp s :
  wp_status (foldl (λ wp k, wp_remove_cache_state (hk_seq_num k) wp) wp taken) s =
    if decide (s ∈ hk_seq_num <$> taken) then None else wp_status wp s.
Proof.
  revert wp. induction taken as [|k l IH]; intros wp; [done|]. cbn [foldl fmap list_fmap].
  rewrite IH, wp_status_remove. destruct (decide (s ∈ hk_seq_num <$> l)) as [Hin|Hin].
  - by rewrite decide_True by by right.
  - destruct (decide (hk_seq_num k = s)) as [<-|Hne].
    + by rewrite decide_True by by left.
    + rewrite decide_False; [done|]. by intros [?|?]%elem_of_cons.
Qed.

(** The status of [s] after a heartbeat announcing [first..last]. *)
Definition heartbeat_status (first last s : Z) (old : option ChangeFromWriterStatusKind)
    : option ChangeFromWriterStatusKind :=
  match old with
  | Some Received | Some Lost => old
  | _ => if decide (s < first)
         then match old with Some _ => Some Lost | None => None end
         else if decide (s ≤ last) then Some Missing else old
  end.

Lemma heartbeat_update_status hb taken wp s :
  (∀ k, k ∈ taken → hk_seq_num k < first_sn hb) →
  wp_status (heartbeat_update hb taken wp) s =
    heartbeat_status (first_sn hb) (last_sn hb) s
      (if decide (s ∈ hk_seq_num <$> taken) then None else wp_status wp s).
Proof.
  intros Ht. unfold heartbeat_update. rewrite wp_status_lost, wp_status_missing, wp_status_remove_all.
  set (old := if decide (s ∈ _) then None else wp_status wp s). clearbody old. unfold heartbeat_status.
  destruct (decide (s < first_sn hb)), (decide (s ≤ last_sn hb));
    destruct (decide (first_sn hb ≤ s ≤ last_sn hb)); try lia; by destruct old as [[]|].
Qed.

Lemma taken_below g sn hc hc' taken :
  get_taken_less_than g sn hc = Done (hc', taken) →
  (∀ k, k ∈ taken → hk_guid k = g ∧ hk_seq_num k < sn) ∧
  changes hc' = changes hc ∧ ready_key hc' = ready_key hc ∧ hc_type hc' = hc_type hc ∧
  (hc_wf hc → hc_wf hc').
Proof.
  unfold get_taken_less_than. destruct (is_hc_reader hc) eqn:E; [|done]. intros [= <- <-].
  apply bool_decide_eq_true in E. split_and!; try done.
  - intros k. rewrite list_elem_of_filter. tauto.
  - intros Hwf. by apply set_taken_wf.
Qed.

Lemma missing_after_heartbeat first last s old :
  heartbeat_status first last s old = Some Missing ↔
    first ≤ s ∧ (if decide (s ≤ last) then old ≠ Some Received ∧ old ≠ Some Lost else old = Some Missing).
Proof.
  unfold heartbeat_status. destruct (decide (s < first)), (decide (s ≤ last)), old as [[]|];
    split; try done; try (intros [? ?]; (lia || done)); try (intros; split; [lia|done]); by intros [_ [? ?]].
Qed.

(** The proxy of [g] after the heartbeat has been taken in. *)
Definition heartbeat_proxy (r : Reader) (g : GUID) (hb : Heartbeat) (wp : WriterProxy) : WriterProxy :=
  heartbeat_update hb
    (filter (λ k, hk_guid k = g ∧ hk_seq_num k < first_sn hb) (bt_elems (taken_key (reader_cache r)))) wp.

(** ** The answer to a heartbeat *)

Lemma foldl_min_sorted (s : Z) (l : list Z) : StronglySorted ord_lt (s :: l) → foldl Z.min s l = s.
Proof.
  intros [_ Hs]%StronglySorted_inv. induction Hs as [|s' l Hs Hl IH]; [done|]. cbn [foldl].
  rewrite ord_lt_Z in Hs. by rewrite Z.min_l by lia.
Qed.

(** Everything but the state machine and the set of ready samples is left
    alone. *)
Record same_but_ready (r r' : Reader) : Prop := {
  sbr_conf : rconf r' = rconf r;
  sbr_matched : matched_writers r' = matched_writers r;
  sbr_unmatched : unmatched_writers r' = unmatched_writers r;
  sbr_changes : changes (reader_cache r') = changes (reader_cache r);
}.

Lemma flush_cache_main r :
  reader_wf r →
  ∃ r' b, flush_cache r = Done (r', b) ∧ reader_wf r' ∧ same_but_ready r r' ∧
    writer_communication_state r' = writer_communication_state r ∧
    (∀ k, k ∈ ready_key (reader_cache r') ↔ is_Some (changes (reader_cache r) !! k)).
Proof.
  intros Hwf. unfold flush_cache, flush, is_hc_reader.
  rewrite bool_decide_true by apply Hwf. cbn [mbind outcome_bind].
  eexists _, _. split; [reflexivity|]. split_and!; [|by split|done|].
  - apply set_reader_cache_wf; [|apply Hwf|done]. pose proof (rw_type _ Hwf) as Hty.
    eapply flush_wf; [apply Hwf|]. unfold flush, is_hc_reader. by rewrite bool_decide_true.
  - intros k. simpl. rewrite elem_of_union, elem_of_dom. split; [|by right].
    intros [Hk|Hk]; [|done]. by apply (wf_ready _ (rw_cache _ Hwf)).
Qed.

(** The number below which nothing is missing. *)
Definition ack_base (wp : WriterProxy) : Z :=
  match missing_changes wp with [] => Sn.add (available_changes_max wp) 1 | s :: _ => s end.

Definition next_state (wp : WriterProxy) : ReaderState :=
  match missing_changes wp with
  | [] => Expect (ack_base wp)
  | _ => WaitingFor (list_to_set (missing_changes wp))
  end.

Lemma settle_state_main g wp r :
  reader_wf r →
  ∃ r' evs, settle_state g wp (missing_changes wp) r = Done (r', evs, ack_base wp) ∧
    reader_wf r' ∧ same_but_ready r r' ∧ (∀ ev, ev ∈ evs → ev = NotifyReader DataAvailable) ∧
    writer_communication_state r' !! g = (λ _, next_state wp) <$> writer_communication_state r !! g ∧
    (missing_changes wp = [] → is_Some (writer_communication_state r !! g) →
       ∀ k, k ∈ ready_key (reader_cache r') ↔ is_Some (changes (reader_cache r) !! k)).
Proof.
  intros Hwf. unfold settle_state, next_state, ack_base. pose proof (missing_changes_sorted wp) as Hs.
  destruct (missing_changes wp) as [|s l] eqn:Em.
  - destruct (writer_communication_state r !! g) as [st|] eqn:Ec.
    + destruct (flush_cache_main (set_comm_state <[g := Expect (Sn.add (available_changes_max wp) 1)]> r))
        as (r' & b & -> & Hwf' & Hsame & Hc & Hready); [auto with umber|].
      eexists _, _. split; [reflexivity|]. split_and!; [done|by destruct Hsame; split| | |].
      * intros ev. destruct b; [by intros ?%list_elem_of_singleton|by intros ?%elem_of_nil].
      * rewrite Hc. simpl. by rewrite lookup_insert_eq.
      * intros _ _. apply Hready.
    + eexists _, _. split; [reflexivity|]. split_and!; [done|by split|by intros ev ?%elem_of_nil|by rewrite Ec|].
      intros _ [? ?]; done.
  - rewrite (foldl_min_sorted s l Hs). eexists _, _. split; [reflexivity|].
    destruct (writer_communication_state r !! g) as [st|] eqn:Ec; split_and!;
      try done; auto with umber; try (by intros ev ?%elem_of_nil).
    simpl. by rewrite lookup_insert_eq.
Qed.

Lemma missing_bounds g wp s : writer_proxy_ok g wp → s ∈ missing_changes wp → seq_ok s.
Proof.
  intros Hok Hs%elem_of_missing_changes. apply (wpo_seqs _ _ Hok). unfold wp_status in Hs.
  by destruct (wp_cache_state wp !! s).
Qed.

Lemma done_bounds g wp s : writer_proxy_ok g wp → wp_done wp s → seq_ok s.
Proof.
  intros Hok Hs. apply (wpo_seqs _ _ Hok). unfold wp_done, wp_status in Hs.
  destruct (wp_cache_state wp !! s); [done|]. by destruct Hs.
Qed.

Lemma max_bounds g wp : writer_proxy_ok g wp → 0 ≤ available_changes_max wp ≤ seq_bound.
Proof.
  intros Hok. destruct (available_changes_max_spec' wp) as ([Hm|Hd] & Hpos & _).
  - rewrite Hm. unfold seq_bound. lia.
  - pose proof (done_bounds _ _ _ Hok Hd). unfold seq_ok in *. lia.
Qed.

Lemma max_succ g wp :
  writer_proxy_ok g wp → Sn.add (available_changes_max wp) 1 = available_changes_max wp + 1.
Proof.
  intros Hok. pose proof (max_bounds g wp Hok). unfold seq_bound in *.
  apply sn_add_small. unfold in_s. lia.
Qed.

Lemma ack_base_spec g wp :
  writer_proxy_ok g wp →
  1 ≤ ack_base wp ≤ seq_bound + 1 ∧ (∀ s, s ∈ missing_changes wp → ack_base wp ≤ s ≤ seq_bound) ∧
  (missing_changes wp ≠ [] → ack_base wp ∈ missing_changes wp).
Proof.
  intros Hok. pose proof (max_bounds g wp Hok) as Hm. pose proof (max_succ g wp Hok) as Hsucc.
  pose proof (missing_changes_sorted wp) as Hs. pose proof (λ s, missing_bounds g wp s Hok) as Hb.
  unfold ack_base. destruct (missing_changes wp) as [|s l] eqn:Em.
  - rewrite Hsucc. split; [lia|]. split; [by intros s ?%elem_of_nil|done].
  - pose proof (Hb s ltac:(left)) as Hs1. unfold seq_ok in *. split; [lia|]. split; [|intros; left].
    intros s' Hs'. pose proof (Hb s' Hs') as Hs2. split; [|lia].
    apply StronglySorted_inv in Hs as [_ Hall]. apply elem_of_cons in Hs' as [->|Hs']; [lia|].
    rewrite Forall_forall in Hall. specialize (Hall s' Hs'). rewrite ord_lt_Z in Hall. lia.
Qed.

Lemma ack_set_total g wp :
  writer_proxy_ok g wp →
  ∃ st, from_vec (ack_base wp) (missing_changes wp) = Done st ∧ sns_wf st ∧
    bitmap_base st = ack_base wp ∧ sn_set st = missing_changes wp ∧
    (sns_is_valid st = true ↔ ∀ s, s ∈ missing_changes wp → s - ack_base wp < 255).
Proof.
  intros Hok. destruct (ack_base_spec g wp Hok) as (Hb & Hall & _).
  assert (Hr : ∀ x, x ∈ missing_changes wp → ack_base wp ≤ x ≤ ack_base wp + 2 ^ 32 - 2 ∧ x ≤ i64_MAX).
  { intros x Hx. specialize (Hall x Hx). unfold seq_bound, i64_MAX in *. lia. }
  assert (Hin : in_s 64 (ack_base wp)) by (unfold in_s, seq_bound in *; lia).
  pose proof (missing_changes_sorted wp) as Hsort.
  destruct (from_vec_main (ack_base wp) (missing_changes wp)) as (st & Hst & Hwf & Hbase & Hset & _ & Hnil);
    [done..|]. exists st. split_and!; [done..|].
  destruct (last (missing_changes wp)) as [x|] eqn:El.
  - rewrite (from_vec_valid _ x _ st Hin Hsort Hr El Hst). apply last_Some in El as [l' El].
    rewrite El in *. split.
    + intros [_ Hx] s Hs. destruct (decide (s = x)) as [->|Hne]; [done|].
      apply elem_of_app in Hs as [Hs|Hs]; [|by apply list_elem_of_singleton in Hs].
      assert (Hlt : ord_lt s x) by (eapply StronglySorted_app_1_elem_of; [done|done|by left]).
      rewrite ord_lt_Z in Hlt. lia.
    + intros Hx. split; [lia|]. apply Hx. set_solver.
  - apply last_None in El. rewrite El in *. split; [by intros _ s ?%elem_of_nil|intros _].
    unfold sns_is_valid. rewrite Hbase, (Hnil eq_refl). rewrite !andb_true_iff, !bool_decide_eq_true.
    destruct Hwf as (_ & _ & _ & Hlen). rewrite Hlen, (Hnil eq_refl). split; [lia|]. done.
Qed.

(** The datagrams of [handle_hb_response_timeout]. *)
Definition ack_sends (r : Reader) (g : GUID) (wp : WriterProxy) (st : NumberSet) : list ReaderEvent :=
  match get_unicast_ll_from_writer_proxy wp with
  | None => []
  | Some ll_u => concat ((λ loc, reader_send_msg_to_locator loc (acknack_msg r g wp st)) <$> ll_u)
  end.

Lemma hb_timeout_main g wp r :
  reader_wf r → matched_writers r !! g = Some wp →
  ∃ r' evs st, handle_hb_response_timeout g r = Done (r', evs ++ ack_sends r g wp st) ∧
    from_vec (ack_base wp) (missing_changes wp) = Done st ∧
    reader_wf r' ∧ same_but_ready r r' ∧ (∀ ev, ev ∈ evs → ev = NotifyReader DataAvailable) ∧
    writer_communication_state r' !! g = (λ _, next_state wp) <$> writer_communication_state r !! g ∧
    (missing_changes wp = [] → is_Some (writer_communication_state r !! g) →
       ∀ k, k ∈ ready_key (reader_cache r') ↔ is_Some (changes (reader_cache r) !! k)).
Proof.
  intros Hwf Hg. pose proof (rw_matched _ Hwf _ _ Hg) as Hok.
  destruct (settle_state_main g wp r Hwf) as (r' & evs & Hs & Hwf' & Hsame & Hrest).
  destruct (ack_set_total g wp Hok) as (st & Hst & _).
  exists r', evs, st. unfold handle_hb_response_timeout. rewrite Hg, Hs. cbn [mbind outcome_bind].
  rewrite Hst. cbn [mbind outcome_bind]. split; [|done].
  assert (acknack_msg r' g wp st = acknack_msg r g wp st) as Hm.
  { unfold acknack_msg, rguid. by rewrite (sbr_conf _ _ Hsame). }
  unfold ack_sends. destruct (get_unicast_ll_from_writer_proxy wp); [by rewrite Hm|by rewrite app_nil_r].
Qed.

(** The message of a datagram. *)
Definition sent_msg (ev : ReaderEvent) : option Message :=
  match ev with
  | RSendToMulticast m _ _ | RSendToUnicast m _ _ => Some m
  | NotifyReader _ => None
  end.

Lemma reader_send_msg loc msg :
  (∀ ev m, ev ∈ reader_send_msg_to_locator loc msg → sent_msg ev = Some m → m = msg) ∧
  (kind loc = Loc.KIND_UDPV4 → ∃ ev, ev ∈ reader_send_msg_to_locator loc msg ∧ sent_msg ev = Some msg).
Proof.
  unfold reader_send_msg_to_locator. case_bool_decide; [|split; [by intros ? ? ?%elem_of_nil|done]].
  destruct (is_ipv4_multicast _); (split; [intros ev m ->%list_elem_of_singleton; simpl; congruence|]);
    intros _; eexists; (split; [by left|done]).
Qed.

Lemma ack_sends_spec r g wp st :
  (∀ ev m, ev ∈ ack_sends r g wp st → sent_msg ev = Some m → m = acknack_msg r g wp st) ∧
  (∀ ll l, get_unicast_ll_from_writer_proxy wp = Some ll → l ∈ ll → kind l = Loc.KIND_UDPV4 →
     ∃ ev, ev ∈ ack_sends r g wp st ∧ sent_msg ev = Some (acknack_msg r g wp st)).
Proof.
  unfold ack_sends. destruct (get_unicast_ll_from_writer_proxy wp) as [ll|];
    [|split; [by intros ? ? ?%elem_of_nil|done]]. split.
  - intros ev m (l & (loc & -> & _)%list_elem_of_fmap & Hev)%elem_of_concat.
    by apply (proj1 (reader_send_msg loc _)).
  - intros ll' l [= <-] Hl Hk. destruct (proj2 (reader_send_msg l (acknack_msg r g wp st)) Hk) as (ev & Hev & Hm).
    exists ev. split; [|done]. apply elem_of_concat. eexists. split; [|exact Hev].
    apply list_elem_of_fmap. by exists l.
Qed.

(** ** handle_heartbeat *)

Definition hb_ok (hb : Heartbeat) : Prop := 1 ≤ first_sn hb ∧ last_sn hb ≤ seq_bound.

Lemma heartbeat_proxy_ok r g hb wp :
  hb_ok hb → writer_proxy_ok g wp → writer_proxy_ok g (heartbeat_proxy r g hb wp).
Proof. intros [? ?] Hok. unfold heartbeat_proxy, heartbeat_update. auto with umber. Qed.

Lemma heartbeat_proxy_status r g hb wp s :
  wp_status (heartbeat_proxy r g hb wp) s =
    heartbeat_status (first_sn hb) (last_sn hb) s
      (if decide (mkHCKey g s ∈ taken_key (reader_cache r) ∧ s < first_sn hb) then None else wp_status wp s).
Proof.
  unfold heartbeat_proxy. rewrite heartbeat_update_status.
  2: { intros k. rewrite list_elem_of_filter. tauto. }
  f_equal. apply decide_ext. rewrite list_elem_of_fmap. setoid_rewrite list_elem_of_filter.
  setoid_rewrite elem_of_bt_elems. split.
  - intros ([g' s'] & -> & [[Hg Hs] Hk]). simpl in *. by subst.
  - intros [Hk Hs]. by exists (mkHCKey g s).
Qed.

(** The reader once the heartbeat has been taken in, before the answer. *)
Definition after_heartbeat (g : GUID) (hb : Heartbeat) (wp : WriterProxy) (r : Reader) : Reader :=
  let p k := hk_guid k = g ∧ hk_seq_num k < first_sn hb in
  set_matched_writers <[g := heartbeat_proxy r g hb wp]>
    (set_reader_cache (set_taken (filter (λ k, ¬ p k))) (rematch g r).1).

(** Whether the heartbeat calls for an ACKNACK. *)
Definition wants_ack (fl : Z) (wp : WriterProxy) : bool :=
  negb (contains fl Flag.Heartbeat.Final) ||
  (negb (contains fl Flag.Heartbeat.Liveliness) && negb (bool_decide (missing_changes wp = []))).

Lemma handle_heartbeat_eq g fl hb wp r :
  hc_type (reader_cache r) = HcReader → known g r = Some wp →
  handle_heartbeat g fl hb r =
    ('(r', evs, rt) ← (if wants_ack fl (heartbeat_proxy r g hb wp)
                       then must_send_ack g (after_heartbeat g hb wp r)
                       else Done (after_heartbeat g hb wp r, [], None));
     Done (r', (rematch g r).2 ++ evs, rt)).
Proof.
  intros Hty Hk. unfold handle_heartbeat. destruct (rematch_spec g r) as (Hm & _ & Hc & _).
  unfold after_heartbeat, heartbeat_proxy. destruct (rematch g r) as [r1 evs]. cbn [fst snd] in *.
  rewrite Hm, Hk, Hc. unfold get_taken_less_than, is_hc_reader. rewrite bool_decide_true by done.
  cbn [mbind outcome_bind]. unfold wants_ack.
  assert (∀ hc, set_reader_cache (λ _, set_taken (filter (λ k, ¬ (hk_guid k = g ∧ hk_seq_num k < first_sn hb))) (reader_cache r1)) hc =
    set_reader_cache (λ _, set_taken (filter (λ k, ¬ (hk_guid k = g ∧ hk_seq_num k < first_sn hb))) (reader_cache r)) hc) as He
    by (intros; by rewrite Hc).
  assert (set_reader_cache (set_taken (filter (λ k, ¬ (hk_guid k = g ∧ hk_seq_num k < first_sn hb)))) r1 =
    set_reader_cache (λ _, set_taken (filter (λ k, ¬ (hk_guid k = g ∧ hk_seq_num k < first_sn hb))) (reader_cache r)) r1) as ->
    by by rewrite <-He.
  destruct (contains fl Flag.Heartbeat.Final), (contains fl Flag.Heartbeat.Liveliness); cbn [negb orb andb];
    [done| |done|done].
  by destruct (bool_decide _).
Qed.

Lemma after_heartbeat_wf g hb wp r :
  hb_ok hb → reader_wf r → known g r = Some wp →
  reader_wf (after_heartbeat g hb wp r) ∧
  matched_writers (after_heartbeat g hb wp r) !! g = Some (heartbeat_proxy r g hb wp).
Proof.
  intros Hhb Hwf Hk. destruct (rematch_spec g r) as (Hm & _ & Hc & _). cbv zeta in *.
  pose proof (rematch_wf g r Hwf) as Hwf1. unfold after_heartbeat. cbv zeta. split; [|by apply lookup_insert_eq].
  apply set_matched_writers_wf.
  - apply insert_ok; [|apply (rw_matched _ Hwf1)]. apply heartbeat_proxy_ok; [done|].
    apply (rw_matched _ Hwf1). by rewrite Hm.
  - destruct Hwf1 as [H1 H2 H3 H4 H5]. split; [by apply set_taken_wf|done..].
Qed.

Lemma must_send_ack_main g wp r :
  reader_wf r → matched_writers r !! g = Some wp →
  ∃ r' evs rt, must_send_ack g r = Done (r', evs, rt) ∧ reader_wf r' ∧ same_but_ready r r'.
Proof.
  intros Hwf Hg. unfold must_send_ack. case_bool_decide.
  - destruct (hb_timeout_main g wp r Hwf Hg) as (r' & evs & st & -> & _ & Hwf' & Hsame & _).
    cbn [mbind outcome_bind]. eauto 10.
  - eexists _, _, _. split; [reflexivity|]. split; [done|by split].
Qed.

Lemma handle_heartbeat_main g fl hb r :
  hb_ok hb → reader_wf r →
  ∃ r' evs rt, handle_heartbeat g fl hb r = Done (r', evs, rt) ∧ reader_wf r' ∧
    rconf r' = rconf r ∧ changes (reader_cache r') = changes (reader_cache r) ∧
    matched_writers r' !! g = heartbeat_proxy r g hb <$> known g r.
Proof.
  intros Hhb Hwf. destruct (known g r) as [wp|] eqn:Hk.
  - rewrite (handle_heartbeat_eq g fl hb wp r) by (done || apply Hwf).
    destruct (after_heartbeat_wf g hb wp r Hhb Hwf Hk) as [Hwf1 Hm1].
    destruct (rematch_spec g r) as (_ & Hcf & Hc & _). cbv zeta in *.
    assert (Hb : rconf (after_heartbeat g hb wp r) = rconf r ∧
                 changes (reader_cache (after_heartbeat g hb wp r)) = changes (reader_cache r)).
    { unfold after_heartbeat. simpl. by rewrite Hcf, Hc. }
    destruct Hb as [Hb1 Hb2].
    destruct (wants_ack _ _).
    + destruct (must_send_ack_main g _ _ Hwf1 Hm1) as (r' & evs & rt & -> & Hwf' & [H1 H2 _ H4]).
      cbn [mbind outcome_bind]. eexists _, _, _. split; [reflexivity|]. split; [done|].
      rewrite H1, H2, H4, Hm1. done.
    + cbn [mbind outcome_bind]. eexists _, _, _. split; [reflexivity|]. split; [done|].
      rewrite Hm1. done.
  - unfold handle_heartbeat. destruct (rematch_spec g r) as (Hm & Hcf & Hc & _).
    pose proof (rematch_wf g r Hwf). destruct (rematch g r) as [r1 evs]. cbn [fst snd] in *.
    rewrite Hm, Hk. eexists _, _, _. split; [reflexivity|]. split; [done|]. by rewrite Hm, Hk, Hc, Hcf.
Qed.

(** C19. A heartbeat announcing [first_sn..last_sn] keeps the books right: from
    then on the writer's missing changes are exactly the announced ones that
    have neither arrived nor been given up, and the ones awaited beyond the
    announced range; nothing below [first_sn] is awaited any longer; and no
    sample is marked as received or lost that is not below [first_sn]. *)
Theorem heartbeat_bookkeeping g fl hb r wp :
  hb_ok hb → reader_wf r → known g r = Some wp →
  ∃ r' evs rt wp', handle_heartbeat g fl hb r = Done (r', evs, rt) ∧
    matched_writers r' !! g = Some wp' ∧
    (∀ s, s ∈ missing_changes wp' ↔
       first_sn hb ≤ s ∧ (if decide (s ≤ last_sn hb) then ¬ wp_done wp s else s ∈ missing_changes wp)) ∧
    (∀ s, first_sn hb ≤ s → wp_done wp' s ↔ wp_done wp s).
Proof.
  intros Hhb Hwf Hk.
  destruct (handle_heartbeat_main g fl hb r Hhb Hwf) as (r' & evs & rt & -> & _ & _ & _ & Hm).
  rewrite Hk in Hm. eexists _, _, _, _. split; [reflexivity|]. split; [exact Hm|].
  setoid_rewrite elem_of_missing_changes. unfold wp_done. setoid_rewrite heartbeat_proxy_status. split.
  - intros s. rewrite missing_after_heartbeat.
    destruct (decide (mkHCKey g s ∈ _ ∧ s < first_sn hb)) as [[_ Hlt]|Hn].
    + split; intros [? _]; lia.
    + destruct (decide (s ≤ last_sn hb)); [|by rewrite elem_of_missing_changes]. naive_solver.
  - intros s Hs. rewrite decide_False by (intros [_ ?]; lia). unfold heartbeat_status.
    rewrite decide_False by lia. destruct (wp_status wp s) as [[]|], (decide (s ≤ last_sn hb)); naive_solver.
Qed.

(** C18. The ACKNACK.  When the response delay is over the reader sends, to every
    UDPv4 locator of the writer and to nobody else, one message, whose
    number set lists exactly the missing changes; no missing change lies
    below its base, so what it acknowledges has indeed been dealt with.  A
    receiver accepts it if and only if the missing changes span fewer than
    255 numbers. *)
Theorem acknack_requests_missing g r wp :
  reader_wf r → matched_writers r !! g = Some wp →
  ∃ r' evs st, handle_hb_response_timeout g r = Done (r', evs) ∧
    sn_set st = missing_changes wp ∧
    (∀ s, s < bitmap_base st → s ∉ missing_changes wp) ∧
    (∀ s, wp_done wp s → s < bitmap_base st ∨ ∃ s', s' ∈ missing_changes wp ∧ s' < s) ∧
    (acknack_is_valid (mkAckNack (entity_id (rguid r)) (entity_id g) st 1) = true ↔
       ∀ s, s ∈ missing_changes wp → s - bitmap_base st < 255) ∧
    (∀ ev m, ev ∈ evs → sent_msg ev = Some m → m = acknack_msg r g wp st) ∧
    (∀ ll l, get_unicast_ll_from_writer_proxy wp = Some ll → l ∈ ll → kind l = Loc.KIND_UDPV4 →
       ∃ ev, ev ∈ evs ∧ sent_msg ev = Some (acknack_msg r g wp st)).
Proof.
  intros Hwf Hg. pose proof (rw_matched _ Hwf _ _ Hg) as Hok.
  destruct (hb_timeout_main g wp r Hwf Hg) as (r' & evs & st & -> & Hst & _ & _ & Hquiet & _).
  destruct (ack_set_total g wp Hok) as (st' & Hst' & Hsw & Hbase & Hset & Hvalid).
  assert (st' = st) as -> by congruence.
  destruct (ack_base_spec g wp Hok) as (_ & Hmin & Hin).
  destruct (ack_sends_spec r g wp st) as [Hsend Hall].
  eexists _, _, st. split; [reflexivity|]. split; [done|]. rewrite Hbase. split_and!.
  - intros s Hs Hms. specialize (Hmin s Hms). lia.
  - intros s Hs. destruct (missing_changes wp) as [|m l] eqn:Em.
    + left. unfold ack_base. rewrite Em, (max_succ g wp Hok).
      destruct (available_changes_max_spec' wp) as (_ & _ & Hmax). specialize (Hmax s Hs). lia.
    + destruct (decide (s < ack_base wp)) as [|Hge]; [by left|right].
      exists (ack_base wp). split; [by apply Hin|].
      assert (s ≠ ack_base wp); [|lia]. intros ->.
      assert (Hmiss : ack_base wp ∈ missing_changes wp) by (rewrite Em; by apply Hin).
      apply elem_of_missing_changes in Hmiss. unfold wp_done in Hs. naive_solver.
  - done.
  - intros ev m [Hev|Hev]%elem_of_app Hm; [|by eapply Hsend]. apply Hquiet in Hev as ->. done.
  - intros ll l Hll Hl Hk. destruct (Hall ll l Hll Hl Hk) as (ev & Hev & Hm). exists ev.
    split; [|done]. apply elem_of_app. by right.
Qed.

(** ** handle_gap *)

Lemma gap_loop g r l wp :
  matched_writers r !! g = Some wp →
  ∃ wp', matched_writers (foldl (gap_one g) r l) !! g = Some wp' ∧
    (∀ s, wp_status wp' s = if decide (s ∈ l) then Some Received else wp_status wp s) ∧
    (Forall seq_ok l → writer_proxy_ok g wp → writer_proxy_ok g wp') ∧
    (∀ g', g' ≠ g → matched_writers (foldl (gap_one g) r l) !! g' = matched_writers r !! g') ∧
    writer_communication_state (foldl (gap_one g) r l) !! g =
      (λ st, match st with WaitingFor w => WaitingFor (w ∖ list_to_set l) | _ => st end) <$>
        writer_communication_state r !! g ∧
    rconf (foldl (gap_one g) r l) = rconf r ∧
    unmatched_writers (foldl (gap_one g) r l) = unmatched_writers r ∧
    reader_cache (foldl (gap_one g) r l) = reader_cache r.
Proof.
  revert r wp. induction l as [|s l IH]; intros r wp Hg; cbn [foldl].
  { exists wp. split_and!; try done.
    destruct (writer_communication_state r !! g) as [[| w |]|]; simpl; try done. do 2 f_equal. set_solver. }
  destruct (IH (gap_one g r s) (irrelevant_change_set s wp)) as (wp' & H1 & H2 & H3 & H4 & H5 & H6 & H7 & H8).
  { simpl. by rewrite lookup_alter_eq, Hg. }
  exists wp'. split_and!; try done.
  - intros s'. rewrite H2, wp_status_irrelevant.
    destruct (decide (s' ∈ l)) as [Hin|Hin]; [by rewrite decide_True by by right|].
    destruct (decide (s = s')) as [->|Hne]; [by rewrite decide_True by by left|].
    rewrite decide_False; [done|]. by intros [?|?]%elem_of_cons.
  - intros [Hs Hl]%Forall_cons Hok. apply H3; [done|]. by apply proxy_ok_update.
  - intros g' Hne. rewrite H4 by done. simpl. by rewrite lookup_alter_ne.
  - rewrite H5. simpl. rewrite lookup_alter_eq.
    destruct (writer_communication_state r !! g) as [[| w |]|]; simpl; try done. do 2 f_equal. set_solver.
Qed.

Lemma elem_of_gap_numbers gap s :
  s ∈ gap_numbers gap ↔ gap_start gap ≤ s < bitmap_base (gap_list gap) ∨ s ∈ sn_set (gap_list gap).
Proof. unfold gap_numbers. rewrite elem_of_app, elem_of_seqZ. split; intros [?|?]; auto; left; lia. Qed.

(** A gap settles exactly the numbers from [gap_start] up to the base of the
    list and those of the list: none of them is missing or awaited any
    longer, everything else is as it was.  No sample becomes available by a
    gap, not even when it was the last number awaited. *)
Theorem handle_gap_spec g gap r wp :
  known g r = Some wp →
  ∃ wp', matched_writers (handle_gap g gap r).1 !! g = Some wp' ∧
    (∀ s, s ∈ missing_changes wp' ↔ s ∈ missing_changes wp ∧ s ∉ gap_numbers gap) ∧
    (∀ s, wp_done wp' s ↔ wp_done wp s ∨ s ∈ gap_numbers gap) ∧
    (∀ w, writer_communication_state r !! g = Some (WaitingFor w) →
       writer_communication_state (handle_gap g gap r).1 !! g =
         Some (WaitingFor (w ∖ list_to_set (gap_numbers gap)))) ∧
    reader_cache (handle_gap g gap r).1 = reader_cache r ∧
    NotifyReader DataAvailable ∉ (handle_gap g gap r).2.
Proof.
  intros Hk. unfold handle_gap. destruct (rematch_spec g r) as (Hm & _ & Hc & Hst & _).
  pose proof (rematch_quiet g r) as Hq. destruct (rematch g r) as [r1 evs]. cbn [fst snd] in *.
  rewrite Hk in Hm. rewrite Hm. cbn [fst snd].
  destruct (gap_loop g r1 (gap_numbers gap) wp Hm) as (wp' & Hg' & Hs & _ & _ & Hw & _ & _ & Hcache).
  exists wp'. split_and!.
  - done.
  - intros s. rewrite !elem_of_missing_changes, Hs. destruct (decide _); naive_solver.
  - intros s. unfold wp_done. rewrite Hs. destruct (decide _); naive_solver.
  - intros w Hw'. by rewrite Hw, Hst, Hw'.
  - by rewrite Hcache.
  - intros [s Hs']%Hq. done.
Qed.

Lemma handle_gap_wf g gap r :
  Forall seq_ok (gap_numbers gap) → reader_wf r → reader_wf (handle_gap g gap r).1.
Proof.
  intros Hgap Hwf. unfold handle_gap. pose proof (rematch_wf g r Hwf) as Hwf1.
  destruct (rematch g r) as [r1 evs]. cbn [fst snd] in *.
  destruct (matched_writers r1 !! g) as [wp|] eqn:Hm; [|done]. cbn [fst].
  destruct (gap_loop g r1 (gap_numbers gap) wp Hm) as (wp' & Hg & _ & Hok & Hother & _ & Hcf & Hu & Hcache).
  destruct Hwf1 as [H1 H2 H3 H4 H5]. split.
  - by rewrite Hcache.
  - by rewrite Hcache.
  - intros g' wp''. destruct (decide (g' = g)) as [->|Hne].
    + rewrite Hg. intros [= <-]. by apply Hok, H3.
    + rewrite Hother by done. apply H3.
  - rewrite Hu. apply H4.
  - unfold rqos. rewrite Hcf. apply H5.
Qed.

(** ** add_change *)

(** The cache operations are used through their lemmas from here on. *)
#[local] Opaque insert_change remove_change.

(** The cache's part of a reader's [add_change]. *)
Lemma reader_cache_add_cases c r :
  hc_type (reader_cache r) = HcReader →
  reader_cache_add c r =
    match changes (reader_cache r) !! change_key c with
    | Some c' =>
        if bool_decide (data_value c' = data_value c)
        then Done (set_reader_cache (set_last_added <[hk_guid (change_key c) := timestamp c]>) r, inr tt)
        else Panic
    | None =>
        if decide (full (r_resource_limits (rqos r)).1 (reader_cache r)) then
          if reader_is_reliable r then Done (r, inr tt)
          else oldest ← unwrap (head (ts2key (reader_cache r)));
               Done (set_reader_cache (λ _, insert_change c (r_history (rqos r)).1
                       (remove_change oldest false (reader_cache r))) r, inr tt)
        else Done (set_reader_cache (insert_change c (r_history (rqos r)).1) r, inr tt)
    end.
Proof.
  intros Hty. unfold reader_cache_add, add_change. rewrite Hty.
  destruct (changes (reader_cache r) !! change_key c) as [c'|].
  { destruct (bool_decide _); reflexivity. }
  rewrite make_room_alt, Hty. destruct (decide _); [|reflexivity].
  destruct (reader_is_reliable r); [by destruct r|].
  destruct (head (ts2key (reader_cache r))); cbn [unwrap mbind outcome_bind]; [|reflexivity].
  unfold set_reader_cache. reflexivity.
Qed.

Lemma reader_cache_add_wf c r r' res :
  reader_wf r → reader_cache_add c r = Done (r', res) →
  reader_wf r' ∧ res = inr tt ∧ rconf r' = rconf r ∧ matched_writers r' = matched_writers r ∧
  unmatched_writers r' = unmatched_writers r ∧
  writer_communication_state r' = writer_communication_state r.
Proof.
  intros Hwf Hadd. pose proof Hadd as Hc. rewrite reader_cache_add_cases in Hc by apply Hwf.
  unfold reader_cache_add in Hadd. outcome_simplify. destruct x as [hc res']. injection Hadd as <- <-.
  assert (Hty : hc_type hc = HcReader).
  { rewrite <-(rw_type _ Hwf). eapply hc_step_type; [apply Hwf|by eapply step_add_change]. }
  split_and!; try done.
  - apply set_reader_cache_wf; [|done..]. eapply add_change_wf; [apply Hwf|done].
  - destruct (changes (reader_cache r) !! change_key c);
      [destruct (bool_decide _)|destruct (decide _); [destruct (reader_is_reliable r); [|destruct (head _)]|]];
      cbn [unwrap mbind outcome_bind] in Hc; congruence.
Qed.

(** *** The cache of a reader *)

Lemma remove_changes_effect ks hc :
  hc_wf hc →
  (∀ k, changes (remove_changes ks hc) !! k = changes hc !! k ∨ changes (remove_changes ks hc) !! k = None) ∧
  ready_key (remove_changes ks hc) ⊆ ready_key hc.
Proof.
  intros Hwf. split.
  { intros k. rewrite lookup_remove_changes_gen. case_bool_decide; auto. }
  revert hc Hwf. induction ks as [|k ks IH]; intros hc Hwf; [done|].
  transitivity (ready_key (remove_change k false hc)); [apply IH; auto with umber|].
  destruct (decide (removable k hc)) as [Hr|Hr].
  - intros k'. rewrite ready_remove_change by done. tauto.
  - by rewrite remove_change_refused.
Qed.

(** What a reader's cache holds after a step: the old samples, the new one,
    or fewer; nothing new is ready. *)
Record cache_grows (c : CacheChange) (hc hc' : HistoryCache) : Prop := {
  cg_old : ∀ k, k ≠ change_key c → changes hc' !! k = changes hc !! k ∨ changes hc' !! k = None;
  cg_new : ∀ c', changes hc' !! change_key c = Some c' → c' = c ∨ changes hc !! change_key c = Some c';
  cg_ready : ready_key hc' ⊆ ready_key hc;
}.

Lemma insert_change_grows c history hc :
  hc_wf hc → hc_type hc = HcReader → changes hc !! change_key c = None →
  cache_grows c hc (insert_change c history hc).
Proof.
  intros Hwf Hty Hfresh. pose proof (pushed_wf c hc Hwf Hfresh) as Hpwf.
  assert (Hp : cache_grows c hc (pushed c hc)).
  { split; simpl; [|rewrite lookup_insert_eq; intros ? [= ->]; by left|done].
    intros k Hk. left. by rewrite lookup_insert_ne. }
  rewrite insert_change_pushed. cbv zeta. set (ks := keep_last_excess _ _). clearbody ks.
  assert (Hw : is_hc_writer (pushed c hc) = false)
    by (unfold is_hc_writer; apply bool_decide_eq_false; simpl; congruence).
  destruct (_ && _); [|by rewrite Hw].
  unfold is_hc_writer. rewrite hc_type_remove_changes. unfold is_hc_writer in Hw. rewrite Hw.
  destruct (remove_changes_effect ks (pushed c hc) Hpwf) as [Hch Hr]. destruct Hp as [H1 H2 H3]. split.
  - intros k Hk. destruct (Hch k) as [->| ->]; [by apply H1|by right].
  - intros c' Hc'. destruct (Hch (change_key c)) as [He|He]; rewrite He in Hc'; [by apply H2|done].
  - etransitivity; eauto.
Qed.

(** The sample does not contradict one the cache holds. *)
Definition agrees (c : CacheChange) (hc : HistoryCache) : Prop :=
  ∀ c', changes hc !! change_key c = Some c' → data_value c' = data_value c.

Lemma reliable_cache_add c r :
  reader_wf r → reader_is_reliable r = true → agrees c (reader_cache r) →
  ∃ r', reader_cache_add c r = Done (r', inr tt) ∧ cache_grows c (reader_cache r) (reader_cache r').
Proof.
  intros Hwf Hrel Hag. rewrite reader_cache_add_cases, Hrel by apply Hwf.
  destruct (changes (reader_cache r) !! change_key c) as [c'|] eqn:E.
  - rewrite bool_decide_true by by apply Hag. eexists. split; [reflexivity|].
    split; [by left|by right|done].
  - destruct (decide _); (eexists; split; [reflexivity|]).
    + split; [by left|by right|done].
    + apply insert_change_grows; [apply Hwf|apply Hwf|done].
Qed.

(** *** The state machine *)

(** The next state, and whether everything stored becomes available. *)
Definition reorder_state (s : Z) (st : option ReaderState) : option ReaderState * bool :=
  match st with
  | Some (WaitingFor w) => (Some (WaitingFor (w ∖ {[s]})), bool_decide (w ∖ {[s]} = ∅))
  | Some (Expect n) => if bool_decide (s = n) then (Some (Expect (Sn.add n 1)), true) else (st, false)
  | _ => (st, false)
  end.

Lemma reorder_main g s r :
  reader_wf r →
  let '(st, avail) := reorder_state s (writer_communication_state r !! g) in
  ∃ r', reorder g s r = Done (r', if avail then [NotifyReader DataAvailable] else []) ∧
    reader_wf r' ∧ same_but_ready r r' ∧ writer_communication_state r' !! g = st ∧
    (if avail then ∀ k, k ∈ ready_key (reader_cache r') ↔ is_Some (changes (reader_cache r) !! k)
     else reader_cache r' = reader_cache r).
Proof.
  intros Hwf. unfold reorder, reorder_state.
  destruct (writer_communication_state r !! g) as [[| w |n]|] eqn:E.
  - exists r. split_and!; [done|done|by split|done|done].
  - destruct (bool_decide_case (w ∖ {[s]} = ∅)) as [[-> Hw]|[-> Hw]].
    + destruct (flush_cache_main (set_comm_state <[g:=WaitingFor (w ∖ {[s]})]> r))
        as (r' & b & -> & Hwf' & Hsame & Hc & Hready); [auto with umber|].
      exists r'. split_and!; [done|done|by destruct Hsame; split| |done].
      rewrite Hc. simpl. by rewrite lookup_insert_eq.
    + eexists. split; [reflexivity|]. split_and!; [auto with umber|by split| |done].
      simpl. by rewrite lookup_insert_eq.
  - destruct (bool_decide_case (s = n)) as [[-> Hs]|[-> Hs]].
    + destruct (flush_cache_main r Hwf) as (r' & b & -> & Hwf' & Hsame & Hc & Hready).
      eexists. split; [reflexivity|]. split_and!; [auto with umber|by destruct Hsame; split| |done].
      simpl. by rewrite lookup_insert_eq.
    + exists r. split_and!; [done|done|by split|done|done].
  - exists r. split_and!; [done|done|by split|done|done].
Qed.

Lemma sample_timers_total r g wp c :
  reader_wf r → writer_proxy_ok g wp → ∃ rt, sample_timers r g wp c = Done rt.
Proof.
  intros Hwf Hok. unfold sample_timers.
  destruct (to_core_no_panic _ (wpo_lifespan _ _ Hok)) as [l Hl].
  destruct (to_core_no_panic _ (rw_deadline _ Hwf)) as [d Hd]. rewrite Hl, Hd.
  destruct (bool_decide _), (bool_decide _); eexists; reflexivity.
Qed.

(** A sample of writer [g]. *)
Definition sample_of (g : GUID) (c : CacheChange) : Prop := writer_guid c = g ∧ seq_ok (sequence_number c).

Lemma sample_of_guid g c : sample_of g c → mkGUID (guid_prefix g) (entity_id (writer_guid c)) = g.
Proof. intros [-> _]. by destruct g. Qed.

(** One sample at a reliable reader. *)
Lemma reliable_add_main g c r wp :
  reader_wf r → reader_is_reliable r = true → sample_of g c → agrees c (reader_cache r) →
  known g r = Some wp →
  let '(st, avail) := reorder_state (sequence_number c) (writer_communication_state r !! g) in
  ∃ r' evs rt, reader_add_change (guid_prefix g) c r = Done (r', evs, rt) ∧ reader_wf r' ∧
    rconf r' = rconf r ∧ writer_communication_state r' !! g = st ∧
    known g r' = Some (received_change_set (sequence_number c) wp) ∧
    matched_writers r' !! g = Some (received_change_set (sequence_number c) wp) ∧
    (NotifyReader DataAvailable ∈ evs ↔ avail = true) ∧
    (∀ k, k ≠ change_key c →
       changes (reader_cache r') !! k = changes (reader_cache r) !! k ∨ changes (reader_cache r') !! k = None) ∧
    (∀ c', changes (reader_cache r') !! change_key c = Some c' →
       c' = c ∨ changes (reader_cache r) !! change_key c = Some c') ∧
    (if avail then ∀ k, k ∈ ready_key (reader_cache r') ↔ is_Some (changes (reader_cache r') !! k)
     else ready_key (reader_cache r') ⊆ ready_key (reader_cache r)).
Proof.
  intros Hwf Hrel Hc Hag Hk. unfold reader_add_change. rewrite (sample_of_guid g c Hc).
  destruct (rematch_spec g r) as (Hm & Hcf & Hcache & Hcomm & Hun). pose proof (rematch_wf g r Hwf) as Hwf1.
  pose proof (rematch_quiet g r) as Hq. destruct (rematch g r) as [r1 evs1]. cbn [fst snd] in *.
  rewrite Hk in Hm. rewrite Hm, <-Hcomm, <-Hcache.
  assert (Hrel1 : reader_is_reliable r1 = true) by (unfold reader_is_reliable; by rewrite Hcf).
  destruct (sample_timers_total r1 g wp c Hwf1 (rw_matched _ Hwf1 _ _ Hm)) as [rt ->].
  cbn [mbind outcome_bind]. rewrite Hrel1. unfold add_change_reliable.
  rewrite <-Hcache in Hag. destruct (reliable_cache_add c r1 Hwf1 Hrel1 Hag) as (r2 & Hadd & [Hg1 Hg2 Hg3]).
  destruct (reader_cache_add_wf _ _ _ _ Hwf1 Hadd) as (Hwf2 & _ & Hcf2 & Hmw2 & Huw2 & Hcs2).
  rewrite Hadd. cbn [mbind outcome_bind]. pose proof (reorder_main g (sequence_number c) r2 Hwf2) as Hre.
  rewrite Hcs2 in Hre. destruct (reorder_state _ _) as [st avail].
  destruct Hre as (r3 & -> & Hwf3 & [Hs1 Hs2 Hs3 Hs4] & Hst & Hav). cbn [mbind outcome_bind].
  assert (Hlook : alter (received_change_set (sequence_number c)) g (matched_writers r3) !! g =
    Some (received_change_set (sequence_number c) wp)) by by rewrite lookup_alter_eq, Hs2, Hmw2, Hm.
  eexists _, _, _. split; [reflexivity|]. split_and!.
  - apply set_matched_writers_wf; [|done]. apply alter_ok; [|apply (rw_matched _ Hwf3)].
    intros wp' Hok. apply proxy_ok_received; [apply Hc|done].
  - simpl. by rewrite Hs1, Hcf2.
  - done.
  - unfold known. simpl. by rewrite Hs3, Huw2, Hun.
  - done.
  - rewrite elem_of_app. destruct avail; split; try done; [right; by left|].
    intros [[s Hs]%Hq|Hin]; [done|by apply elem_of_nil in Hin].
  - intros k Hne. simpl. rewrite Hs4. by apply Hg1.
  - intros c'. simpl. rewrite Hs4. apply Hg2.
  - destruct avail; simpl; [intros k; by rewrite Hav, Hs4|by rewrite Hav].
Qed.

(** C20. A sample reaching a reliable reader takes its writer's reordering state
    one step further.  It is announced to the application exactly when it is
    the last one awaited or the one expected next; then every stored sample
    becomes available, and otherwise none does.  It is no longer missing. *)
Theorem reliable_delivery g c r wp :
  reader_wf r → reader_is_reliable r = true → sample_of g c → agrees c (reader_cache r) →
  known g r = Some wp →
  ∃ r' evs rt wp', reader_add_change (guid_prefix g) c r = Done (r', evs, rt) ∧
    (writer_communication_state r' !! g, bool_decide (NotifyReader DataAvailable ∈ evs)) =
      reorder_state (sequence_number c) (writer_communication_state r !! g) ∧
    (NotifyReader DataAvailable ∈ evs →
       ∀ k, k ∈ ready_key (reader_cache r') ↔ is_Some (changes (reader_cache r') !! k)) ∧
    (NotifyReader DataAvailable ∉ evs → ready_key (reader_cache r') ⊆ ready_key (reader_cache r)) ∧
    matched_writers r' !! g = Some wp' ∧
    (∀ s, s ∈ missing_changes wp' ↔ s ∈ missing_changes wp ∧ s ≠ sequence_number c).
Proof.
  intros Hwf Hrel Hc Hag Hk. pose proof (reliable_add_main g c r wp Hwf Hrel Hc Hag Hk) as H.
  destruct (reorder_state _ _) as [st avail].
  destruct H as (r' & evs & rt & -> & _ & _ & Hst & _ & Hm & Hav & _ & _ & Hready).
  eexists _, _, _, _. split; [reflexivity|]. split_and!.
  - rewrite Hst. f_equal. destruct avail; [apply bool_decide_eq_true|apply bool_decide_eq_false];
      rewrite Hav; done.
  - intros Hin%Hav. by subst avail.
  - intros Hin. destruct avail; [|done]. by destruct Hin; apply Hav.
  - exact Hm.
  - intros s. rewrite !elem_of_missing_changes, wp_status_received.
    destruct (decide (sequence_number c = s)); naive_solver.
Qed.

(** The cache after a sample at a reliable reader is the one
    [HistoryCache::add_change] leaves. *)
Lemma reliable_add_cache g c r wp :
  reader_wf r → reader_is_reliable r = true → sample_of g c → agrees c (reader_cache r) →
  known g r = Some wp →
  ∃ r' evs rt r1 r2, reader_add_change (guid_prefix g) c r = Done (r', evs, rt) ∧
    reader_wf r1 ∧ rconf r1 = rconf r ∧ reader_cache r1 = reader_cache r ∧
    reader_cache_add c r1 = Done (r2, inr tt) ∧
    changes (reader_cache r') = changes (reader_cache r2).
Proof.
  intros Hwf Hrel Hc Hag Hk. unfold reader_add_change. rewrite (sample_of_guid g c Hc).
  destruct (rematch_spec g r) as (Hm & Hcf & Hcache & _ & _). pose proof (rematch_wf g r Hwf) as Hwf1.
  destruct (rematch g r) as [r1 evs1]. cbn [fst snd] in *. rewrite Hm, Hk.
  assert (Hrel1 : reader_is_reliable r1 = true) by (unfold reader_is_reliable; by rewrite Hcf).
  destruct (sample_timers_total r1 g wp c Hwf1) as [rt1 ->]; [by apply (rw_matched _ Hwf1); rewrite Hm|].
  rewrite Hrel1. cbn [mbind outcome_bind]. unfold add_change_reliable. rewrite <-Hcache in Hag.
  destruct (reliable_cache_add c r1 Hwf1 Hrel1 Hag) as (r2 & Hadd & _).
  destruct (reader_cache_add_wf _ _ _ _ Hwf1 Hadd) as (Hwf2 & _).
  pose proof (reorder_main g (sequence_number c) r2 Hwf2) as Hre. destruct (reorder_state _ _).
  destruct Hre as (r3 & Hre & _ & [_ _ _ Hsame] & _). rewrite Hadd. cbn [mbind outcome_bind]. rewrite Hre.
  cbn [mbind outcome_bind]. by eexists _, _, _, r1, r2.
Qed.

(** With room in the cache, nothing evicted and no sample of that number, the
    sample is stored. *)
Lemma reliable_add_stores g c r wp :
  reader_wf r → reader_is_reliable r = true → sample_of g c → known g r = Some wp →
  changes (reader_cache r) !! change_key c = None → ¬ full (r_resource_limits (rqos r)).1 (reader_cache r) →
  history_kind (r_history (rqos r)).1 = KeepAll →
  ∃ r' evs rt, reader_add_change (guid_prefix g) c r = Done (r', evs, rt) ∧
    changes (reader_cache r') !! change_key c = Some c.
Proof.
  intros Hwf Hrel Hc Hk Hfresh Hroom Hall.
  destruct (reliable_add_cache g c r wp) as (r' & evs & rt & r1 & r2 & Hrun & Hwf1 & Hcf & Hcache & Hadd & Hsame);
    [done..|intros c'; congruence|done|].
  exists r', evs, rt. split; [exact Hrun|]. rewrite Hsame.
  rewrite reader_cache_add_cases, Hcache, Hfresh in Hadd by apply Hwf1. unfold rqos in *.
  rewrite Hcf, decide_False in Hadd by done. injection Hadd as <-. simpl.
  rewrite Hcache, insert_change_pushed. cbv zeta. rewrite (bool_decide_false (history_kind _ = KeepLast)) by congruence.
  rewrite andb_false_r. destruct (is_hc_writer _); simpl; by rewrite lookup_insert_eq.
Qed.

(** A reliable reader at its resource limit throws a new sample away, and
    yet records it as received: it is not missing, so no ACKNACK will ever
    ask for it. *)
Theorem discarded_sample_is_acknowledged g c r wp :
  reader_wf r → reader_is_reliable r = true → sample_of g c → known g r = Some wp →
  changes (reader_cache r) !! change_key c = None →
  full (r_resource_limits (rqos r)).1 (reader_cache r) →
  ∃ r' evs rt wp', reader_add_change (guid_prefix g) c r = Done (r', evs, rt) ∧
    changes (reader_cache r') = changes (reader_cache r) ∧
    matched_writers r' !! g = Some wp' ∧ wp_status wp' (sequence_number c) = Some Received ∧
    sequence_number c ∉ missing_changes wp'.
Proof.
  intros Hwf Hrel Hc Hk Hfresh Hfull.
  assert (Hag : agrees c (reader_cache r)) by (intros c'; congruence).
  pose proof (reliable_add_main g c r wp Hwf Hrel Hc Hag Hk) as H. destruct (reorder_state _ _) as [st avail].
  destruct H as (r' & evs & rt & Hrun & _ & _ & _ & _ & Hm & _ & _ & _ & _).
  exists r', evs, rt. eexists. split; [exact Hrun|].
  assert (Hst : wp_status (received_change_set (sequence_number c) wp) (sequence_number c) = Some Received)
    by (rewrite wp_status_received; by rewrite decide_True).
  split_and!; [|exact Hm|done|rewrite elem_of_missing_changes; congruence].
  destruct (reliable_add_cache g c r wp) as (r2 & evs2 & rt2 & r3 & r4 & Hrun2 & Hwf3 & Hcf & Hcache & Hadd & Hsame);
    [done..|]. rewrite Hrun in Hrun2. injection Hrun2 as <- <- <-. rewrite Hsame.
  rewrite reader_cache_add_cases, Hcache, Hfresh in Hadd by apply Hwf3. unfold rqos in *.
  rewrite Hcf, decide_True in Hadd by done. replace (reader_is_reliable r3) with true in Hadd
    by (unfold reader_is_reliable in *; by rewrite Hcf). injection Hadd as <-. by rewrite Hcache.
Qed.

(** *** A run of samples *)

(** The samples of one writer, handled one after the other. *)
Definition deliver (g : GUID) (cs : list CacheChange) (r : Reader) : outcome Reader :=
  foldM (λ r c, '(r, _, _) ← reader_add_change (guid_prefix g) c r; Done r) r cs.

Lemma change_key_ne g c c' :
  sample_of g c → sample_of g c' → sequence_number c ≠ sequence_number c' → change_key c ≠ change_key c'.
Proof. intros _ _ Hne [=]. congruence. Qed.

Lemma deliver_main g cs r wp w :
  reader_wf r → reader_is_reliable r = true → known g r = Some wp →
  writer_communication_state r !! g = Some (WaitingFor w) →
  Forall (sample_of g) cs → NoDup (sequence_number <$> cs) → Forall (λ c, agrees c (reader_cache r)) cs →
  ∃ r' wp', deliver g cs r = Done r' ∧ reader_wf r' ∧
    writer_communication_state r' !! g = Some (WaitingFor (w ∖ list_to_set (sequence_number <$> cs))) ∧
    known g r' = Some wp' ∧ (cs ≠ [] → matched_writers r' !! g = Some wp') ∧
    (∀ s, s ∈ missing_changes wp' ↔ s ∈ missing_changes wp ∧ s ∉ sequence_number <$> cs) ∧
    (cs ≠ [] → w ⊆ list_to_set (sequence_number <$> cs) →
       ∀ k, k ∈ ready_key (reader_cache r') ↔ is_Some (changes (reader_cache r') !! k)).
Proof.
  revert r wp w. induction cs as [|c cs IH]; intros r wp w Hwf Hrel Hk Hst Hof Hnd Hag.
  { exists r, wp. split_and!; try done.
    - rewrite Hst. do 2 f_equal. set_solver.
    - intros s. rewrite elem_of_nil. tauto. }
  apply Forall_cons in Hof as [Hc Hof]. apply Forall_cons in Hag as [Hagc Hag].
  rewrite fmap_cons in *. apply NoDup_cons in Hnd as [Hnew Hnd].
  pose proof (reliable_add_main g c r wp Hwf Hrel Hc Hagc Hk) as H. rewrite Hst in H. cbn [reorder_state] in H.
  destruct H as (r1 & evs & rt & Hrun & Hwf1 & Hcf & Hst1 & Hk1 & Hm1 & _ & Hold & _ & Hready).
  assert (Hag1 : Forall (λ c, agrees c (reader_cache r1)) cs).
  { rewrite Forall_forall in *. intros c' Hc' c'' Hl. specialize (Hof c' Hc').
    assert (Hne : change_key c' ≠ change_key c).
    { apply (change_key_ne g); [done..|]. intros He. apply Hnew. rewrite <-He.
      apply list_elem_of_fmap. by exists c'. }
    destruct (Hold _ Hne) as [He|He]; rewrite He in Hl; [by apply (Hag c' Hc')|done]. }
  assert (Hrel1 : reader_is_reliable r1 = true) by (unfold reader_is_reliable; by rewrite Hcf).
  destruct (IH r1 _ _ Hwf1 Hrel1 Hk1 Hst1 Hof Hnd Hag1) as (r' & wp' & Hd & Hwf' & Hst' & Hk' & Hm' & Hmiss & Hr').
  exists r', wp'. unfold deliver in *. rewrite foldM_cons, Hrun. cbn [mbind outcome_bind]. rewrite Hd.
  split_and!; try done.
  - rewrite Hst'. do 2 f_equal. set_solver.
  - intros _. destruct cs as [|c2 cs]; [|by apply Hm'].
    simpl in Hd. injection Hd as ->. by rewrite Hm1, <-Hk', Hk1.
  - intros s. rewrite Hmiss, elem_of_cons, !elem_of_missing_changes, wp_status_received.
    destruct (decide (sequence_number c = s)); naive_solver.
  - intros _ Hsub. destruct cs as [|c2 cs].
    + simpl in Hd. injection Hd as ->. rewrite bool_decide_true in Hready by set_solver. done.
    + apply Hr'; [done|]. intros s [Hs Hn]%elem_of_difference. apply Hsub in Hs.
      rewrite elem_of_list_to_set in *. apply elem_of_cons in Hs as [->|Hs]; [|done].
      by destruct Hn; apply elem_of_singleton.
Qed.

(** C15. However the awaited samples of a writer are reordered on the way, once
    they have all come everything stored is available, nothing of the writer
    is awaited, and nothing is missing that was not missing besides. *)
Theorem awaited_samples_become_available g cs r wp w :
  reader_wf r → reader_is_reliable r = true → known g r = Some wp →
  writer_communication_state r !! g = Some (WaitingFor w) →
  Forall (sample_of g) cs → NoDup (sequence_number <$> cs) → Forall (λ c, agrees c (reader_cache r)) cs →
  cs ≠ [] → (∀ s, s ∈ w ∨ s ∈ missing_changes wp → s ∈ sequence_number <$> cs) →
  ∃ r' wp', deliver g cs r = Done r' ∧
    writer_communication_state r' !! g = Some (WaitingFor ∅) ∧
    matched_writers r' !! g = Some wp' ∧ missing_changes wp' = [] ∧
    (∀ k, k ∈ ready_key (reader_cache r') ↔ is_Some (changes (reader_cache r') !! k)).
Proof.
  intros Hwf Hrel Hk Hst Hof Hnd Hag Hne Hall.
  destruct (deliver_main g cs r wp w Hwf Hrel Hk Hst Hof Hnd Hag)
    as (r' & wp' & Hd & _ & Hst' & _ & Hm & Hmiss & Hready).
  exists r', wp'. split_and!; [done| |by apply Hm| |].
  - rewrite Hst'. do 2 f_equal. set_solver.
  - apply elem_of_nil_inv. intros s [Hs Hn]%Hmiss. apply Hn, Hall. by right.
  - apply Hready; [done|]. intros s Hs. apply elem_of_list_to_set, Hall. by left.
Qed.

(** ** Best-effort readers *)

Lemma forget_taken_lookup keys ws g :
  forget_taken keys ws !! g =
    (λ wp, foldl (λ wp k, wp_remove_cache_state (hk_seq_num k) wp) wp (filter (λ k, hk_guid k = g) keys))
      <$> ws !! g.
Proof.
  unfold forget_taken. revert ws. induction keys as [|k keys IH]; intros ws; cbn [foldl].
  { by destruct (ws !! g). }
  rewrite IH, filter_cons. destruct (decide (hk_guid k = g)) as [->|Hne].
  - rewrite lookup_alter_eq. by destruct (ws !! g).
  - by rewrite lookup_alter_ne.
Qed.

(** The writer's proxy without the samples the application has taken. *)
Definition forgotten (r : Reader) (g : GUID) (wp : WriterProxy) : WriterProxy :=
  foldl (λ wp k, wp_remove_cache_state (hk_seq_num k) wp) wp
    (filter (λ k, hk_guid k = g) (bt_elems (taken_key (reader_cache r)))).

Lemma forgotten_status r g wp s :
  wp_status (forgotten r g wp) s =
    if decide (mkHCKey g s ∈ taken_key (reader_cache r)) then None else wp_status wp s.
Proof.
  unfold forgotten. rewrite wp_status_remove_all. apply decide_ext.
  rewrite list_elem_of_fmap. setoid_rewrite list_elem_of_filter. setoid_rewrite elem_of_bt_elems. split.
  - intros ([g' s'] & -> & [Hg Hk]). simpl in *. by subst.
  - intros Hk. by exists (mkHCKey g s).
Qed.

(** The reader keeps [s] in mind: it arrived or was given up, and the
    application has not taken it. *)
Definition remembered (r : Reader) (g : GUID) (wp : WriterProxy) (s : Z) : Prop :=
  wp_done wp s ∧ mkHCKey g s ∉ taken_key (reader_cache r).

Lemma remembered_done r g wp s : wp_done (forgotten r g wp) s ↔ remembered r g wp s.
Proof.
  unfold wp_done, remembered. rewrite forgotten_status.
  destruct (decide _); unfold wp_done; naive_solver.
Qed.

Lemma forgotten_ok r g g' wp : writer_proxy_ok g wp → writer_proxy_ok g (forgotten r g' wp).
Proof. apply proxy_ok_remove_all. Qed.

(** Room for a sample: a best-effort reader evicts, and panics when there is
    nothing to evict. *)
Definition has_room (r : Reader) : Prop :=
  full (r_resource_limits (rqos r)).1 (reader_cache r) → changes (reader_cache r) ≠ ∅.

Lemma best_effort_cache_add c r :
  reader_wf r → reader_is_reliable r = false → agrees c (reader_cache r) → has_room r →
  ∃ r', reader_cache_add c r = Done (r', inr tt).
Proof.
  intros Hwf Hrel Hag Hroom. rewrite reader_cache_add_cases, Hrel by apply Hwf.
  destruct (changes (reader_cache r) !! change_key c) as [c'|] eqn:E.
  - rewrite bool_decide_true by by apply Hag. eexists. reflexivity.
  - destruct (decide _) as [Hf|Hf]; [|eexists; reflexivity].
    destruct (head (ts2key (reader_cache r))) as [k|] eqn:Eh; [eexists; reflexivity|].
    apply wf_ts2key_nil in Eh; [|apply Hwf]. by destruct (Hroom Hf).
Qed.

(** The proxy after an accepted sample. *)
Definition accepted (s : Z) (wp : WriterProxy) : WriterProxy :=
  let e := Sn.add (available_changes_max wp) 1 in
  let wp := received_change_set s wp in
  if bool_decide (e < s) then lost_changes_update s wp else wp.

Lemma accepted_ok g s wp : seq_ok s → writer_proxy_ok g wp → writer_proxy_ok g (accepted s wp).
Proof. intros Hs Hok. unfold accepted. cbv zeta. destruct (bool_decide _); auto with umber. Qed.

Lemma accepted_status s wp s' :
  wp_status (accepted s wp) s' =
    if decide (s = s') then Some Received
    else match wp_status wp s' with
         | Some Missing | Some Uuknown =>
             if decide (s' < s ∧ Sn.add (available_changes_max wp) 1 < s) then Some Lost else wp_status wp s'
         | st => st
         end.
Proof.
  unfold accepted. cbv zeta. case_bool_decide as He.
  - rewrite wp_status_lost, wp_status_received. destruct (decide (s = s')) as [->|]; [done|].
    destruct (wp_status wp s') as [[]|]; try done; by rewrite (decide_ext (s' < s ∧ _) (s' < s)) by tauto.
  - rewrite wp_status_received. destruct (decide (s = s')); [done|].
    destruct (wp_status wp s') as [[]|]; try done; by rewrite decide_False by tauto.
Qed.

Lemma get_taken_reader hc :
  hc_wf hc → hc_type hc = HcReader →
  get_taken hc = Done (set_taken (λ _, ∅) hc, taken_key hc) ∧ hc_wf (set_taken (λ _, ∅) hc).
Proof.
  intros Hwf Hty. unfold get_taken, is_hc_reader. rewrite bool_decide_true by done.
  split; [done|]. by apply set_taken_wf.
Qed.

Lemma best_effort_main g c r wp :
  reader_wf r → reader_is_reliable r = false → sample_of g c → agrees c (reader_cache r) → has_room r →
  matched_writers r !! g = Some wp →
  let e := Sn.add (available_changes_max (forgotten r g wp)) 1 in
  ∃ r' evs, add_change_best_effort g c r = Done (r', evs) ∧ reader_wf r' ∧ rconf r' = rconf r ∧
    unmatched_writers r' = unmatched_writers r ∧
    if bool_decide (e ≤ sequence_number c)
    then evs = [NotifyReader DataAvailable] ∧
         matched_writers r' !! g = Some (accepted (sequence_number c) (forgotten r g wp)) ∧
         (∀ k, k ∈ ready_key (reader_cache r') ↔ is_Some (changes (reader_cache r') !! k))
    else evs = [] ∧ matched_writers r' !! g = Some (forgotten r g wp) ∧
         reader_cache r' = set_taken (λ _, ∅) (reader_cache r).
Proof.
  intros Hwf Hrel Hc Hag Hroom Hm e. unfold add_change_best_effort.
  destruct (get_taken_reader (reader_cache r)) as [-> Hcw]; [apply Hwf..|]. cbn [mbind outcome_bind].
  set (r1 := set_matched_writers _ _).
  assert (Hm1 : matched_writers r1 !! g = Some (forgotten r g wp)).
  { unfold r1. simpl. by rewrite forget_taken_lookup, Hm. }
  assert (Hwf1 : reader_wf r1).
  { unfold r1. apply set_matched_writers_wf; [|by apply set_reader_cache_wf; [|apply Hwf|]].
    intros g' wp'. simpl. rewrite forget_taken_lookup. intros (wp0 & Hl & ->)%fmap_Some.
    by apply proxy_ok_remove_all, (rw_matched _ Hwf). }
  rewrite Hm1. fold e. destruct (bool_decide_case (e ≤ sequence_number c)) as [[-> He]|[-> He]].
  - assert (Hag1 : agrees c (reader_cache r1)) by exact Hag.
    assert (Hroom1 : has_room r1) by exact Hroom.
    destruct (best_effort_cache_add c r1 Hwf1 Hrel Hag1 Hroom1) as [r2 Hadd].
    destruct (reader_cache_add_wf _ _ _ _ Hwf1 Hadd) as (Hwf2 & _ & Hcf2 & Hmw2 & Huw2 & _).
    rewrite Hadd. cbn [mbind outcome_bind].
    destruct (flush_cache_main r2 Hwf2) as (r3 & b & -> & Hwf3 & [Hs1 Hs2 Hs3 Hs4] & _ & Hready).
    cbn [mbind outcome_bind]. eexists _, _. split; [reflexivity|]. split_and!; try done.
    + apply set_matched_writers_wf; [|done]. apply alter_ok; [|apply (rw_matched _ Hwf3)].
      intros wp' Hok. assert (Hs : seq_ok (sequence_number c)) by apply Hc.
      case_bool_decide; auto with umber.
    + simpl. rewrite Hs1, Hcf2. done.
    + simpl. rewrite Hs3, Huw2. done.
    + simpl. rewrite lookup_alter_eq, Hs2, Hmw2, Hm1. done.
    + simpl. intros k. by rewrite Hready, Hs4.
  - eexists _, _. split; [reflexivity|]. done.
Qed.

(** A best-effort reader delivers a sample exactly when its number is above
    every number it still remembers; then all stored samples are available
    and nothing below it will be waited for.  An old or repeated sample is
    dropped without a trace.  What the application has taken is no longer
    remembered. *)
Theorem best_effort_delivery g c r wp :
  reader_wf r → reader_is_reliable r = false → sample_of g c → agrees c (reader_cache r) → has_room r →
  known g r = Some wp →
  ∃ r' evs rt wp', reader_add_change (guid_prefix g) c r = Done (r', evs, rt) ∧
    matched_writers r' !! g = Some wp' ∧
    (NotifyReader DataAvailable ∈ evs ↔ ∀ s, remembered r g wp s → s < sequence_number c) ∧
    (NotifyReader DataAvailable ∈ evs →
       wp_status wp' (sequence_number c) = Some Received ∧
       (∀ s, wp_done wp' s → s ≤ sequence_number c) ∧
       ∀ k, k ∈ ready_key (reader_cache r') ↔ is_Some (changes (reader_cache r') !! k)) ∧
    (NotifyReader DataAvailable ∉ evs →
       changes (reader_cache r') = changes (reader_cache r) ∧
       ready_key (reader_cache r') = ready_key (reader_cache r) ∧
       ∀ s, wp_done wp' s ↔ remembered r g wp s).
Proof.
  intros Hwf Hrel Hc Hag Hroom Hk. unfold reader_add_change. rewrite (sample_of_guid g c Hc).
  destruct (rematch_spec g r) as (Hm & Hcf & Hcache & _ & _). pose proof (rematch_wf g r Hwf) as Hwf1.
  pose proof (rematch_quiet g r) as Hq. destruct (rematch g r) as [r1 evs1]. cbn [fst snd] in *.
  rewrite Hk in Hm. rewrite Hm. pose proof (rw_matched _ Hwf1 _ _ Hm) as Hok.
  assert (Hrel1 : reader_is_reliable r1 = false) by (unfold reader_is_reliable; by rewrite Hcf).
  destruct (sample_timers_total r1 g wp c Hwf1 Hok) as [rt ->]. cbn [mbind outcome_bind]. rewrite Hrel1.
  assert (Hroom1 : has_room r1) by (unfold has_room, rqos; rewrite Hcf, Hcache; exact Hroom).
  rewrite <-Hcache in Hag. destruct (best_effort_main g c r1 wp Hwf1 Hrel1 Hc Hag Hroom1 Hm)
    as (r' & evs & -> & _ & _ & _ & Hcase). cbn [mbind outcome_bind].
  assert (Hfo : forgotten r1 g wp = forgotten r g wp) by (unfold forgotten; by rewrite Hcache). rewrite Hfo in Hcase.
  pose proof (forgotten_ok r g g wp Hok) as Hfok.
  rewrite (max_succ g _ Hfok) in Hcase. destruct (available_changes_max_spec' (forgotten r g wp)) as (Hmd & _ & Hmax).
  setoid_rewrite remembered_done in Hmax. rewrite remembered_done in Hmd.
  assert (Hiff : available_changes_max (forgotten r g wp) + 1 ≤ sequence_number c ↔
                 ∀ s, remembered r g wp s → s < sequence_number c).
  { split; [intros Hle s Hs; specialize (Hmax s Hs); lia|]. intros Hall.
    destruct Hmd as [->|Hd]; [destruct Hc as [_ []]; lia|]. specialize (Hall _ Hd). lia. }
  assert (Hq1 : NotifyReader DataAvailable ∉ evs1) by (intros [s Hs]%Hq; done).
  destruct (bool_decide_case (available_changes_max (forgotten r g wp) + 1 ≤ sequence_number c)) as [[Eb Hle]|[Eb Hle]];
    rewrite Eb in Hcase; destruct Hcase as (-> & Hg & Hrest); (eexists _, _, _, _; split; [reflexivity|]); (split; [exact Hg|]).
  - split_and!.
    + rewrite <-Hiff. split; [done|]. intros _. apply elem_of_app. right. by left.
    + intros _. split_and!; [by rewrite accepted_status, decide_True| |done].
      intros s Hs. unfold wp_done in Hs. rewrite accepted_status in Hs.
      destruct (decide (sequence_number c = s)) as [->|Hne]; [lia|].
      assert (Hcase : wp_done (forgotten r g wp) s ∨ s < sequence_number c).
      { unfold wp_done. destruct (wp_status (forgotten r g wp) s) as [[]|]; try tauto;
          destruct (decide (s < sequence_number c ∧ _)) as [[? _]|]; try tauto; naive_solver. }
      destruct Hcase as [Hd|]; [|lia]. apply remembered_done, Hmax in Hd. lia.
    + intros Hn. destruct Hn. apply elem_of_app. right. by left.
  - rewrite app_nil_r. split_and!.
    + rewrite <-Hiff. split; [|done]. intros Hin. done.
    + done.
    + intros _. rewrite Hrest, Hcache. split_and!; [done|done|]. intros s. apply remembered_done.
Qed.

(** ** The reader as a state machine *)

Lemma add_change_reliable_wf g c r r' evs :
  reader_wf r → seq_ok (sequence_number c) → add_change_reliable g c r = Done (r', evs) →
  reader_wf r' ∧ rconf r' = rconf r.
Proof.
  intros Hwf Hs. unfold add_change_reliable. intros H. apply outcome_bind_Done in H as ([r1 res] & Hadd & H).
  destruct (reader_cache_add_wf _ _ _ _ Hwf Hadd) as (Hwf1 & -> & Hcf & _).
  pose proof (reorder_main g (sequence_number c) r1 Hwf1) as Hre. destruct (reorder_state _ _).
  destruct Hre as (r2 & Hre & Hwf2 & [Hs1 _ _ _] & _). rewrite Hre in H. cbn [mbind outcome_bind] in H.
  injection H as <- <-. split; [|simpl; congruence].
  apply set_matched_writers_wf; [|done]. apply alter_ok; [|apply (rw_matched _ Hwf2)]. auto with umber.
Qed.

Lemma add_change_best_effort_wf g c r r' evs :
  reader_wf r → seq_ok (sequence_number c) → add_change_best_effort g c r = Done (r', evs) →
  reader_wf r' ∧ rconf r' = rconf r.
Proof.
  intros Hwf Hs. unfold add_change_best_effort.
  destruct (get_taken_reader (reader_cache r)) as [-> Hcw]; [apply Hwf..|]. cbn [mbind outcome_bind].
  set (r1 := set_matched_writers _ _).
  assert (Hwf1 : reader_wf r1).
  { unfold r1. apply set_matched_writers_wf; [|by apply set_reader_cache_wf; [|apply Hwf|]].
    intros g' wp'. simpl. rewrite forget_taken_lookup. intros (wp0 & Hl & ->)%fmap_Some.
    by apply proxy_ok_remove_all, (rw_matched _ Hwf). }
  assert (Hcf1 : rconf r1 = rconf r) by done. clearbody r1.
  destruct (matched_writers r1 !! g) as [wp|]; [|intros [= <- <-]; done].
  destruct (bool_decide _); [|intros [= <- <-]; done].
  intros H. apply outcome_bind_Done in H as ([r2 res] & Hadd & H).
  destruct (reader_cache_add_wf _ _ _ _ Hwf1 Hadd) as (Hwf2 & -> & Hcf & _).
  destruct (flush_cache_main r2 Hwf2) as (r3 & b & Hfl & Hwf3 & [Hs1 _ _ _] & _).
  rewrite Hfl in H. cbn [mbind outcome_bind] in H. injection H as <- <-. split; [|simpl; congruence].
  apply set_matched_writers_wf; [|done]. apply alter_ok; [|apply (rw_matched _ Hwf3)].
  intros wp' Hok. destruct (bool_decide _); auto with umber.
Qed.

Lemma reader_add_change_wf p c r r' evs rt :
  reader_wf r → seq_ok (sequence_number c) → reader_add_change p c r = Done (r', evs, rt) →
  reader_wf r' ∧ rconf r' = rconf r.
Proof.
  intros Hwf Hs. unfold reader_add_change. set (g := mkGUID _ _).
  destruct (rematch_spec g r) as (_ & Hcf & _). pose proof (rematch_wf g r Hwf) as Hwf1.
  destruct (rematch g r) as [r1 evs1]. cbn [fst snd] in *.
  destruct (matched_writers r1 !! g) as [wp|]; [|intros [= <- <- <-]; done].
  intros H. apply outcome_bind_Done in H as (rt1 & _ & H). apply outcome_bind_Done in H as ([r2 evs2] & Hadd & H).
  injection H as <- <- <-. rewrite <-Hcf. destruct (reader_is_reliable r1).
  - by eapply add_change_reliable_wf.
  - by eapply add_change_best_effort_wf.
Qed.

Lemma matched_writer_add_wf g ls dmax qos r r' evs rt :
  reader_wf r → Dur.wf (lifespan_duration (w_lifespan qos).1) →
  Dur.wf (lease_duration (w_liveliness qos).1) →
  matched_writer_add_with_default_locator g ls dmax qos r = Done (r', evs, rt) →
  reader_wf r' ∧ rconf r' = rconf r.
Proof.
  intros Hwf Hl1 Hl2. unfold matched_writer_add_with_default_locator.
  destruct (matched_writers r !! g) as [wp|] eqn:Hm.
  - intros [= <- <- <-]. split; [|done]. apply set_matched_writers_wf; [|done].
    apply insert_ok; [|apply (rw_matched _ Hwf)]. by destruct (rw_matched _ Hwf _ _ Hm).
  - destruct (reader_is_compatible (rqos r) qos); [intros [= <- <- <-]; done|].
    unfold wp_new. destruct (negb (has_locator ls)); [done|]. cbn [mbind outcome_bind].
    intros H. apply outcome_bind_Done in H as (rt' & _ & H). injection H as <- <- <-. split; [|done].
    apply set_comm_state_wf, set_matched_writers_wf; [|done].
    apply insert_ok; [|apply (rw_matched _ Hwf)]. split; simpl; try done.
    intros s. rewrite lookup_empty. by intros [].
Qed.

Lemma for_writers_inv (P : Reader → Prop) f l r :
  (∀ g r, P r → P (f g r).1) → P r → P (for_writers f l r).1.
Proof.
  intros Hf Hr. unfold for_writers.
  assert (Hgen : ∀ acc : Reader * list ReaderEvent, P acc.1 →
    P (foldl (λ acc g, let '(r, evs) := f g acc.1 in (r, acc.2 ++ evs)) acc l).1); [|by apply Hgen].
  induction l as [|g l IH]; intros acc Hacc; [done|]. cbn [foldl]. apply IH.
  pose proof (Hf g acc.1 Hacc) as Hfg. by destruct (f g acc.1).
Qed.

Lemma remove_change_from_writer_wf g hc :
  hc_wf hc → hc_type hc = HcReader →
  hc_wf (remove_change_from_writer g hc) ∧ hc_type (remove_change_from_writer g hc) = HcReader.
Proof.
  intros Hwf Hty. unfold remove_change_from_writer, is_hc_reader. rewrite bool_decide_true by done.
  split; [by apply remove_changes_wf|by rewrite hc_type_remove_changes].
Qed.

Lemma matched_writer_unmatch_wf cf g r :
  reader_wf r ∧ rconf r = cf → reader_wf (matched_writer_unmatch g r).1 ∧ rconf (matched_writer_unmatch g r).1 = cf.
Proof.
  intros [Hwf Hcf]. unfold matched_writer_unmatch. destruct (matched_writers r !! g) as [wp|] eqn:Hm; [|done].
  split; [|done]. simpl. apply set_unmatched_writers_wf.
  - apply insert_ok; [by apply (rw_matched _ Hwf)|apply (rw_unmatched _ Hwf)].
  - apply set_matched_writers_wf; [|done]. apply delete_ok, (rw_matched _ Hwf).
Qed.

Lemma unmatched_writer_remove_wf cf g r :
  reader_wf r ∧ rconf r = cf →
  reader_wf (unmatched_writer_remove g r).1 ∧ rconf (unmatched_writer_remove g r).1 = cf.
Proof.
  intros [Hwf Hcf]. unfold unmatched_writer_remove. destruct (unmatched_writers r !! g) eqn:Hm; [|done].
  split; [|done]. simpl. apply set_comm_state_wf, set_unmatched_writers_wf; [|done].
  apply delete_ok, (rw_unmatched _ Hwf).
Qed.

Lemma matched_writer_remove_wf cf g r :
  reader_wf r ∧ rconf r = cf → reader_wf (matched_writer_remove g r).1 ∧ rconf (matched_writer_remove g r).1 = cf.
Proof.
  intros [Hwf Hcf]. unfold matched_writer_remove. destruct (matched_writers r !! g) eqn:Hm; [|done].
  split; [|done]. simpl. apply set_comm_state_wf.
  assert (Hwf1 : reader_wf (set_matched_writers (delete g) r)).
  { apply set_matched_writers_wf; [|done]. apply delete_ok, (rw_matched _ Hwf). }
  destruct (remove_change_from_writer_wf g (reader_cache r)) as [H1 H2]; [apply Hwf..|].
  destruct Hwf1. by split.
Qed.

Lemma delete_writer_proxy_wf p r :
  reader_wf r → reader_wf (delete_writer_proxy p r).1 ∧ rconf (delete_writer_proxy p r).1 = rconf r.
Proof.
  intros Hwf. unfold delete_writer_proxy.
  pose proof (for_writers_inv (λ r', reader_wf r' ∧ rconf r' = rconf r) matched_writer_remove
    (filter (λ g, guid_prefix g = p) (bt_keys (matched_writers r))) r) as H1.
  destruct (for_writers matched_writer_remove _ r) as [r1 evs1]. cbn [fst] in H1.
  destruct H1 as [Hwf1 Hcf1]; [intros; by apply matched_writer_remove_wf|done|].
  pose proof (for_writers_inv (λ r', reader_wf r' ∧ rconf r' = rconf r) unmatched_writer_remove
    (filter (λ g, guid_prefix g = p) (bt_keys (unmatched_writers r1))) r1) as H2.
  destruct (for_writers unmatched_writer_remove _ r1) as [r2 evs2]. cbn [fst] in *.
  apply H2; [intros; by apply unmatched_writer_remove_wf|done].
Qed.

(** A pass that deletes the entry of each writer of a list, and no other. *)
Lemma for_writers_delete (view : Reader → gmap GUID WriterProxy) f l r g :
  (∀ g' r, view (f g' r).1 !! g = if bool_decide (g' = g) then None else view r !! g) →
  view (for_writers f l r).1 !! g = if bool_decide (g ∈ l) then None else view r !! g.
Proof.
  intros Hf. unfold for_writers. generalize (@nil ReaderEvent) as evs. revert r.
  induction l as [|g' l IH]; intros r evs; [done|]. cbn [foldl fst snd]. pose proof (Hf g' r) as Hg.
  destruct (f g' r) as [r1 ev1]. cbn [fst] in Hg. rewrite IH, Hg.
  destruct (decide (g ∈ l)); [rewrite !bool_decide_true by (done || by right); done|].
  rewrite (bool_decide_false (g ∈ l)) by done. destruct (decide (g' = g)) as [->|].
  - by rewrite !bool_decide_true by (done || by left).
  - rewrite !bool_decide_false; [done|set_solver|done].
Qed.

Lemma filter_prefix_lookup p (m : gmap GUID WriterProxy) g :
  (if bool_decide (g ∈ filter (λ g, guid_prefix g = p) (bt_keys m)) then None else m !! g) =
  if bool_decide (guid_prefix g = p) then None else m !! g.
Proof.
  destruct (decide (guid_prefix g = p)) as [Hp|Hp].
  - rewrite (bool_decide_true (guid_prefix g = p)) by done.
    destruct (m !! g) eqn:E; [|by case_bool_decide]. rewrite bool_decide_true; [done|].
    apply list_elem_of_filter. split; [done|]. apply elem_of_bt_keys. by eexists.
  - rewrite !bool_decide_false; [done|done|]. by intros [? _]%list_elem_of_filter.
Qed.

(** Exactly the proxies of the participant go. *)
Lemma delete_writer_proxy_lookup p r g :
  let r' := (delete_writer_proxy p r).1 in
  matched_writers r' !! g = (if bool_decide (guid_prefix g = p) then None else matched_writers r !! g) ∧
  unmatched_writers r' !! g = (if bool_decide (guid_prefix g = p) then None else unmatched_writers r !! g).
Proof.
  cbv zeta. unfold delete_writer_proxy.
  set (l := filter _ _). set (r1 := (for_writers matched_writer_remove l r).1).
  assert (H1 : ∀ g, matched_writers r1 !! g = if bool_decide (guid_prefix g = p) then None else matched_writers r !! g).
  { intros g0. rewrite <-filter_prefix_lookup. apply (for_writers_delete matched_writers). intros g' r0.
    unfold matched_writer_remove. destruct (matched_writers r0 !! g') eqn:E; simpl.
    - rewrite lookup_delete. destruct (decide (g' = g0)); [by rewrite bool_decide_true|by rewrite bool_decide_false].
    - case_bool_decide; [by subst|done]. }
  assert (H2 : unmatched_writers r1 = unmatched_writers r).
  { apply (for_writers_inv (λ r', unmatched_writers r' = unmatched_writers r)); [|done].
    intros g' r0 <-. unfold matched_writer_remove. by destruct (matched_writers r0 !! g'). }
  destruct (for_writers matched_writer_remove l r) as [r1' ev1]. cbn [fst] in r1. subst r1.
  rewrite <-H2. set (l2 := filter _ (bt_keys (unmatched_writers r1'))).
  assert (H3 : ∀ g, unmatched_writers (for_writers unmatched_writer_remove l2 r1').1 !! g =
    if bool_decide (guid_prefix g = p) then None else unmatched_writers r1' !! g).
  { intros g0. rewrite <-filter_prefix_lookup. apply (for_writers_delete unmatched_writers). intros g' r0.
    unfold unmatched_writer_remove. destruct (unmatched_writers r0 !! g') eqn:E; simpl.
    - rewrite lookup_delete. destruct (decide (g' = g0)); [by rewrite bool_decide_true|by rewrite bool_decide_false].
    - case_bool_decide; [by subst|done]. }
  assert (H4 : matched_writers (for_writers unmatched_writer_remove l2 r1').1 = matched_writers r1').
  { apply (for_writers_inv (λ r', matched_writers r' = matched_writers r1')); [|done].
    intros g' r0 <-. unfold unmatched_writer_remove. by destruct (unmatched_writers r0 !! g'). }
  destruct (for_writers unmatched_writer_remove l2 r1') as [r2 ev2]. cbn [fst] in *. by rewrite H4, H1, H3.
Qed.

(** *** Liveliness of the matched writers *)

(** The writer's lease is finite and, by the database, over. *)
Definition writer_lapsed (now : GUID → option Timestamp) (db : DiscoveryDB) (g : GUID) (wp : WriterProxy) : Prop :=
  let lease := lease_duration (w_liveliness (wp_qos wp)).1 in
  lease ≠ Dur.INFINITE ∧
  (read_remote_writer g db = LivelinessLost ∨
   ∃ ts n el ld, read_remote_writer g db = Live ts ∧ now g = Some n ∧ Ts.sub n ts = Done el ∧
     Dur.to_core lease = Done ld ∧ ord_lt ld el).

Lemma liveliness_lost_spec now db g wp :
  Dur.wf (lease_duration (w_liveliness (wp_qos wp)).1) → is_Some (now g) →
  ∃ b, liveliness_lost (now g) db g wp = Done b ∧ (b = true ↔ writer_lapsed now db g wp).
Proof.
  intros Hwf [n Hn]. unfold liveliness_lost, writer_lapsed. cbv zeta.
  destruct (bool_decide_case (lease_duration (w_liveliness (wp_qos wp)).1 = Dur.INFINITE)) as [[-> He]|[-> He]].
  { eexists. split; [reflexivity|]. split; [done|]. by intros []. }
  destruct (read_remote_writer g db) as [ts| |] eqn:Er.
  - rewrite Hn. cbn [unwrap mbind outcome_bind]. destruct (ts_sub_no_panic n ts) as [el Hel].
    destruct (to_core_no_panic _ Hwf) as [ld Hld]. rewrite Hel, Hld. cbn [mbind outcome_bind].
    eexists. split; [reflexivity|]. rewrite bool_decide_eq_true. split.
    + intros Hlt. split; [done|]. right. by exists ts, n, el, ld.
    + intros [_ [?|(ts' & n' & el' & ld' & ? & ? & ? & ? & ?)]]; [done|]. congruence.
  - eexists. split; [reflexivity|]. split; [|done]. intros _. split; [done|by left].
  - eexists. split; [reflexivity|]. split; [done|]. intros [_ [?|(? & ? & ? & ? & ? & _)]]; done.
Qed.

Lemma lapsed_loop (m : gmap GUID WriterProxy) (f : GUID → WriterProxy → outcome bool) (lost : GUID → bool) ks acc :
  (∀ g, g ∈ ks → ∃ wp, m !! g = Some wp ∧ f g wp = Done (lost g)) →
  foldM (λ l g, wp ← unwrap (m !! g); b ← f g wp; Done (if (b : bool) then l ++ [g] else l)) acc ks =
    Done (acc ++ filter (λ g, lost g = true) ks).
Proof.
  revert acc. induction ks as [|g ks IH]; intros acc Hks; [by rewrite app_nil_r|].
  destruct (Hks g ltac:(left)) as (wp & Hg & Hf). rewrite foldM_cons, Hg. cbn [unwrap mbind outcome_bind].
  rewrite Hf. cbn [mbind outcome_bind]. rewrite IH by (intros; apply Hks; by right). rewrite filter_cons.
  destruct (lost g); [rewrite decide_True by done|by rewrite decide_False]. by rewrite <-(assoc_L (++)).
Qed.

Lemma unmatch_all_lookup l r :
  NoDup l → (∀ g, g ∈ l → is_Some (matched_writers r !! g)) →
  let r' := (for_writers matched_writer_unmatch l r).1 in
  (∀ g, matched_writers r' !! g = if bool_decide (g ∈ l) then None else matched_writers r !! g) ∧
  (∀ g, unmatched_writers r' !! g = if bool_decide (g ∈ l) then matched_writers r !! g else unmatched_writers r !! g).
Proof.
  cbv zeta. unfold for_writers. generalize (@nil ReaderEvent) as evs. intros evs Hnd. revert r evs.
  induction Hnd as [|g l Hg Hnd IH]; intros r evs Hl; [done|]. cbn [foldl fst snd].
  destruct (Hl g ltac:(left)) as [wp Hwp].
  assert (matched_writer_unmatch g r = (set_unmatched_writers <[g := wp]> (set_matched_writers (delete g) r),
    [liveliness_changed (set_unmatched_writers <[g := wp]> (set_matched_writers (delete g) r)) (-1) 1 g])) as ->
    by (unfold matched_writer_unmatch; by rewrite Hwp).
  set (r1 := set_unmatched_writers _ _).
  destruct (IH r1 (evs ++ [liveliness_changed r1 (-1) 1 g])) as [H1 H2].
  { intros g' Hg'. unfold r1; simpl. rewrite lookup_delete_ne by (intros ->; done). apply Hl. by right. }
  split; intros g'; [rewrite H1|rewrite H2]; unfold r1; simpl; clear H1 H2;
    rewrite ?lookup_delete, ?lookup_insert; destruct (decide (g = g')) as [<-|Hne].
  - rewrite (bool_decide_true (g ∈ g :: l)) by by left. by case_bool_decide.
  - rewrite (bool_decide_ext (g' ∈ g :: l) (g' ∈ l)); [done|]. rewrite elem_of_cons. naive_solver.
  - rewrite (bool_decide_true (g ∈ g :: l)) by by left. by rewrite bool_decide_false.
  - rewrite (bool_decide_ext (g' ∈ g :: l) (g' ∈ l)); [done|]. rewrite elem_of_cons. naive_solver.
Qed.

Lemma check_liveliness_main now db r :
  reader_wf r → (∀ g, is_Some (now g)) →
  ∃ l db' evs, check_liveliness now db r = Done (db', (for_writers matched_writer_unmatch l r).1, evs) ∧ NoDup l ∧
    db' = foldl (λ db g, update_remote_writer_state g LivelinessLost db) db l ∧
    ∀ g, g ∈ l ↔ ∃ wp, matched_writers r !! g = Some wp ∧ writer_lapsed now db g wp.
Proof.
  intros Hwf Hnow. unfold check_liveliness.
  set (lost g := match matched_writers r !! g with
                 | Some wp => match liveliness_lost (now g) db g wp with Done b => b | Panic => false end
                 | None => false end).
  rewrite (lapsed_loop (matched_writers r) (λ g, liveliness_lost (now g) db g) lost).
  2: { intros g [wp Hg]%elem_of_bt_keys. exists wp. split; [done|].
       destruct (liveliness_lost_spec now db g wp) as (b & Hb & _); [by eapply wpo_lease, (rw_matched _ Hwf)|done|].
       unfold lost. by rewrite Hg, Hb. }
  cbn [mbind outcome_bind app]. set (l := filter _ _).
  destruct (for_writers matched_writer_unmatch l r) as [r' evs] eqn:Ef.
  exists l. eexists _, _. rewrite Ef. split; [reflexivity|]. split_and!; [|done|].
  - apply NoDup_filter, NoDup_bt_keys.
  - intros g. unfold l. rewrite list_elem_of_filter, elem_of_bt_keys. unfold lost. split.
    + intros [Hl [wp Hg]]. exists wp. split; [done|]. rewrite Hg in Hl.
      destruct (liveliness_lost_spec now db g wp) as (b & Hb & Hiff); [by eapply wpo_lease, (rw_matched _ Hwf)|done|].
      rewrite Hb in Hl. by apply Hiff.
    + intros (wp & Hg & Hla). rewrite Hg. split; [|done].
      destruct (liveliness_lost_spec now db g wp) as (b & Hb & Hiff); [by eapply wpo_lease, (rw_matched _ Hwf)|done|].
      rewrite Hb. by apply Hiff.
Qed.

(** The liveliness check sets aside exactly the matched writers whose finite
    lease is over: they lose their place among the matched writers, keep
    their proxy among the unmatched ones (from where a later message brings
    them back), and are marked in the database.  Every other writer stays. *)
Theorem check_liveliness_spec now db r g :
  reader_wf r → (∀ g, is_Some (now g)) →
  ∃ db' r' evs, check_liveliness now db r = Done (db', r', evs) ∧
    (∀ wp, matched_writers r' !! g = Some wp ↔
       matched_writers r !! g = Some wp ∧ ¬ writer_lapsed now db g wp) ∧
    (∀ wp, matched_writers r !! g = Some wp → writer_lapsed now db g wp →
       unmatched_writers r' !! g = Some wp ∧ known g r' = Some wp) ∧
    ((¬ ∃ wp, matched_writers r !! g = Some wp ∧ writer_lapsed now db g wp) →
       unmatched_writers r' !! g = unmatched_writers r !! g).
Proof.
  intros Hwf Hnow. destruct (check_liveliness_main now db r Hwf Hnow) as (l & db' & evs & -> & Hnd & _ & Hl).
  destruct (unmatch_all_lookup l r Hnd) as [Hm Hu]; [intros g' (wp & ? & _)%Hl; by exists wp|].
  eexists _, _, _. split; [reflexivity|]. rewrite Hm. split_and!.
  - intros wp. case_bool_decide as Hin.
    + split; [done|]. intros [Hg Hn]. apply Hl in Hin as (wp' & Hg' & Hla). congruence.
    + split; [|tauto]. intros Hg. split; [done|]. intros Hla. apply Hin, Hl. eauto.
  - intros wp Hg Hla. unfold known. rewrite !Hu, bool_decide_true; [by rewrite Hg|]. apply Hl. eauto.
  - intros Hn. rewrite Hu, bool_decide_false; [done|]. by rewrite Hl.
Qed.

(** *** Reachable states

    One constructor per handler; [rs_cache] is the DataReader's side of the
    shared cache.  The side conditions bound the sequence numbers and hold of
    every duration read from 32-bit fields. *)
Inductive reader_step : Reader → Reader → Prop :=
| rs_sample p c r r' evs rt :
    seq_ok (sequence_number c) → reader_add_change p c r = Done (r', evs, rt) → reader_step r r'
| rs_gap g gap r : Forall seq_ok (gap_numbers gap) → reader_step r (handle_gap g gap r).1
| rs_heartbeat g fl hb r r' evs rt :
    hb_ok hb → handle_heartbeat g fl hb r = Done (r', evs, rt) → reader_step r r'
| rs_hb_timeout g r r' evs : handle_hb_response_timeout g r = Done (r', evs) → reader_step r r'
| rs_match g ls dmax qos r r' evs rt :
    Dur.wf (lifespan_duration (w_lifespan qos).1) → Dur.wf (lease_duration (w_liveliness qos).1) →
    matched_writer_add_with_default_locator g ls dmax qos r = Done (r', evs, rt) → reader_step r r'
| rs_delete p r : reader_step r (delete_writer_proxy p r).1
| rs_liveliness now db db' r r' evs :
    (∀ g, is_Some (now g)) → check_liveliness now db r = Done (db', r', evs) → reader_step r r'
| rs_lifespan key r : reader_step r (reader_remove_change_if_exist key r)
| rs_cache r hc :
    hc_step (reader_is_reliable r) (r_resource_limits (rqos r)).1 (r_history (rqos r)).1 (reader_cache r) hc →
    reader_step r (set_reader_cache (λ _, hc) r).

Inductive reader_reachable (cf : ReaderConf) : Reader → Prop :=
| rr_new : reader_reachable cf (reader_new cf (hc_new HcReader))
| rr_step r r' : reader_reachable cf r → reader_step r r' → reader_reachable cf r'.

Lemma reader_step_inv r r' : reader_wf r → reader_step r r' → reader_wf r' ∧ rconf r' = rconf r.
Proof.
  intros Hwf Hstep. destruct Hstep as
    [p c r r' evs rt Hs H|g gap r Hgap|g fl hb r r' evs rt Hhb H|g r r' evs H|g ls dmax qos r r' evs rt H1 H2 H
    |p r|now db db' r r' evs Hnow H|key r|r hc H].
  - by eapply reader_add_change_wf.
  - split; [by apply handle_gap_wf|]. unfold handle_gap. destruct (rematch_spec g r) as (_ & Hcf & _).
    destruct (rematch g r) as [r1 evs]. cbn [fst] in *.
    destruct (matched_writers r1 !! g) as [wp|] eqn:Hm; [|done]. cbn [fst].
    destruct (gap_loop g r1 (gap_numbers gap) wp Hm) as (? & _ & _ & _ & _ & _ & -> & _). done.
  - destruct (handle_heartbeat_main g fl hb r Hhb Hwf) as (r2 & evs2 & rt2 & H' & Hwf2 & Hcf & _).
    rewrite H in H'. injection H' as <- _ _. done.
  - unfold handle_hb_response_timeout in H. destruct (matched_writers r !! g) as [wp|] eqn:Hm; [|by simplify_eq].
    destruct (hb_timeout_main g wp r Hwf Hm) as (r2 & evs2 & st & H' & _ & Hwf2 & [Hcf _ _ _] & _).
    unfold handle_hb_response_timeout in H'. rewrite Hm in H'. rewrite H in H'. injection H' as <- _. done.
  - by eapply matched_writer_add_wf.
  - by apply delete_writer_proxy_wf.
  - destruct (check_liveliness_main now db r Hwf Hnow) as (l & db2 & evs2 & H' & _).
    rewrite H in H'. injection H' as _ -> _.
    apply (for_writers_inv (λ r', reader_wf r' ∧ rconf r' = rconf r)); [|done].
    intros; by apply matched_writer_unmatch_wf.
  - split; [|done]. destruct Hwf as [Hc Ht ? ? ?]. split; try done; simpl;
      pose proof (step_remove_change_if_exist (reader_is_reliable r) (r_resource_limits (rqos r)).1
        (r_history (rqos r)).1 key (reader_cache r)) as Hst.
    + by eapply hc_step_wf.
    + by rewrite (hc_step_type _ _ _ _ _ Hc Hst).
  - split; [|done]. apply set_reader_cache_wf; [|by rewrite (hc_step_type _ _ _ _ _ (rw_cache _ Hwf) H), (rw_type _ Hwf)|done].
    eapply hc_step_wf; [apply Hwf|done].
Qed.

Lemma reader_reachable_inv cf r :
  Dur.wf (period (r_deadline (rd_qos cf)).1) → reader_reachable cf r → reader_wf r ∧ rconf r = cf.
Proof.
  intros Hd. induction 1 as [|r r' _ [Hwf Hcf] Hstep].
  - split; [|done]. split; try done; simpl; try (intros g wp; rewrite lookup_empty; done). apply hc_new_wf.
  - destruct (reader_step_inv r r' Hwf Hstep). split; [done|congruence].
Qed.

Lemma reader_add_change_no_panic p c r :
  reader_wf r → seq_ok (sequence_number c) → guid_prefix (writer_guid c) = p →
  agrees c (reader_cache r) → (reader_is_reliable r = false → has_room r) →
  no_panic (reader_add_change p c r).
Proof.
  intros Hwf Hs Hp Hag Hroom. set (g := mkGUID p (entity_id (writer_guid c))).
  assert (Hc : sample_of g c) by (split; [|done]; subst g p; by destruct (writer_guid c)).
  destruct (known g r) as [wp|] eqn:Hk; last first.
  { unfold reader_add_change. fold g. destruct (rematch_spec g r) as (Hm & _). destruct (rematch g r) as [r1 evs1].
    cbn [fst] in Hm. rewrite Hm, Hk. apply no_panic_Done. }
  destruct (reader_is_reliable r) eqn:Hrel.
  - pose proof (reliable_add_main g c r wp Hwf Hrel Hc Hag Hk) as H. destruct (reorder_state _ _).
    destruct H as (r' & evs & rt & H & _). by eexists.
  - unfold reader_add_change. fold g. destruct (rematch_spec g r) as (Hm & Hcf & Hcache & _).
    pose proof (rematch_wf g r Hwf) as Hwf1. destruct (rematch g r) as [r1 evs1]. cbn [fst] in *.
    rewrite Hk in Hm. rewrite Hm. destruct (sample_timers_total r1 g wp c Hwf1) as [rt ->]; [by apply (rw_matched _ Hwf1)|].
    cbn [mbind outcome_bind]. unfold reader_is_reliable in *. rewrite Hcf.
    assert (Hrel1 : reader_is_reliable r1 = false) by (unfold reader_is_reliable; by rewrite Hcf).
    assert (Hag1 : agrees c (reader_cache r1)) by by rewrite Hcache.
    assert (Hroom1 : has_room r1) by (unfold has_room, rqos; rewrite Hcf, Hcache; by apply Hroom).
    rewrite Hrel. destruct (best_effort_main g c r1 wp Hwf1 Hrel1 Hc Hag1 Hroom1 Hm) as (r' & evs & -> & _).
    eexists. reflexivity.
Qed.

(** C7. A running reader never panics, whatever the order of samples, gaps,
    heartbeats, timers, discovery and the application's accesses: not on a
    heartbeat, not when it answers one, not in the liveliness check, and not
    on a sample that does not contradict a stored one, provided that a
    best-effort reader at its limit has something to evict. *)
Theorem reader_never_panics cf r g fl hb p c now db :
  Dur.wf (period (r_deadline (rd_qos cf)).1) → reader_reachable cf r →
  (hb_ok hb → no_panic (handle_heartbeat g fl hb r)) ∧
  no_panic (handle_hb_response_timeout g r) ∧
  ((∀ g, is_Some (now g)) → no_panic (check_liveliness now db r)) ∧
  (seq_ok (sequence_number c) → guid_prefix (writer_guid c) = p → agrees c (reader_cache r) →
   (reader_is_reliable r = false → has_room r) → no_panic (reader_add_change p c r)).
Proof.
  intros Hd Hr. destruct (reader_reachable_inv cf r Hd Hr) as [Hwf _]. split_and!.
  - intros Hhb. destruct (handle_heartbeat_main g fl hb r Hhb Hwf) as (? & ? & ? & -> & _). by eexists.
  - destruct (matched_writers r !! g) as [wp|] eqn:Hm.
    + destruct (hb_timeout_main g wp r Hwf Hm) as (? & ? & ? & -> & _). by eexists.
    + unfold handle_hb_response_timeout. rewrite Hm. by eexists.
  - intros Hnow. destruct (check_liveliness_main now db r Hwf Hnow) as (? & ? & ? & -> & _). by eexists.
  - intros. by apply reader_add_change_no_panic.
Qed.

(** ** Concrete runs *)
Module ReaderSample.
Definition writer (n : Z) : GUID :=
  mkGUID (mkGuidPrefix (replicate 12 n)) (mkEntityId (0, 0, 1) Kind.WRITER_NO_KEY_USER_DEFIND).
Definition guid : GUID :=
  mkGUID (mkGuidPrefix (replicate 12 9)) (mkEntityId (0, 0, 2) Kind.READER_NO_KEY_USER_DEFIND).
Definition locator (n : Z) : Locator := Loc.new_from_ipv4 7411 [192; 168; 0; n].
Definition topic : Topic :=
  mkTopic "Square" "ShapeType" (TopicQosBuilder_build TopicQosBuilder_new) NoKey.

Definition qos (r : Reliability) (limit : Z) : DataReaderQosPolicies :=
  DataReaderQosBuilder_build (mkDataReaderQosBuilder None None None None (Some r) None
    (Some (mkHistory KeepAll 1)) (Some (mkResourceLimits limit (-1) (-1))) None None None None).
Definition conf (r : Reliability) (limit : Z) : ReaderConf :=
  mkReaderConf guid NoKey (reliability_kind r) [locator 9] [] false Dur.ZERO topic (qos r limit) LittleEndian.

(** Writers with a lease of [lease] seconds. *)
Definition writer_qos (lease : Z) : DataWriterQosPolicies :=
  DataWriterQosBuilder_build (mkDataWriterQosBuilder None None None None
    (Some (mkLiveliness Automatic (Dur.from_secs lease))) (Some default_reliable)
    None None None None None None None None None).
Definition sample (n s : Z) : CacheChange :=
  mkCacheChange Alive (writer n) s (mkTimestamp 1 0) (Some (mkSerializedPayload [0; 1] [0; 0] [s])).
Definition heartbeat (first last : Z) : Heartbeat :=
  mkHeartbeat Eid.UNKNOW Eid.UNKNOW first last 1 None None None None None.
Definition gap (start base : Z) : Gap := mkGap Eid.UNKNOW Eid.UNKNOW start (mkNumberSet base 0 []) None None.

(** What can happen to the reader, each step with its events. *)
Inductive op :=
| Match (n : Z)
| Sample (n s : Z)
| Announce (n first last : Z)
| Skip (n start base : Z)
| Take (n s : Z).

Definition exec (o : op) (r : Reader) : outcome (Reader * list ReaderEvent) :=
  match o with
  | Match n =>
      '(r, evs, _) ← matched_writer_add_with_default_locator (writer n) (mkLocators [locator n] [] [] [])
                       0 (writer_qos 10) r; Done (r, evs)
  | Sample n s => '(r, evs, _) ← reader_add_change (guid_prefix (writer n)) (sample n s) r; Done (r, evs)
  | Announce n f l => '(r, evs, _) ← handle_heartbeat (writer n) 0 (heartbeat f l) r; Done (r, evs)
  | Skip n s b => Done (handle_gap (writer n) (gap s b) r)
  | Take n s => Done (set_reader_cache (λ _, remove_change (mkHCKey (writer n) s) true (reader_cache r)) r, [])
  end.
Definition op_ok (o : op) : Prop :=
  match o with
  | Sample _ s => seq_ok s
  | Announce _ f l => 1 ≤ f ∧ l ≤ seq_bound
  | Skip _ s b => Forall seq_ok (gap_numbers (gap s b))
  | _ => True
  end.

(** A run, and the samples the application can see after each step. *)
Definition run (cf : ReaderConf) (l : list op) : outcome Reader :=
  foldM (λ r o, '(r, _) ← exec o r; Done r) (reader_new cf (hc_new HcReader)) l.
Definition default_reader : Reader := reader_new (conf default_reliable (-1)) (hc_new HcReader).
Definition after (cf : ReaderConf) (l : list op) : Reader :=
  match run cf l with Done r => r | Panic => default_reader end.
Definition visible (cf : ReaderConf) (l : list op) : list Z :=
  hk_seq_num <$> bt_elems (ready_key (reader_cache (after cf l))).
Definition missing (cf : ReaderConf) (l : list op) (n : Z) : option (list Z) :=
  missing_changes <$> matched_writers (after cf l) !! writer n.

Lemma exec_step o r r' evs : op_ok o → exec o r = Done (r', evs) → reader_step r r'.
Proof.
  destruct o as [n|n s|n f l|n s b|n s]; cbn [exec op_ok]; intros Hok H.
  - apply outcome_bind_Done in H as ([[r1 e1] t1] & Hn & [= <- <-]).
    eapply rs_match; [| |exact Hn]; vm_compute; (split; split; congruence).
  - apply outcome_bind_Done in H as ([[r1 e1] t1] & Hn & [= <- <-]). eapply rs_sample; [|exact Hn]. exact Hok.
  - apply outcome_bind_Done in H as ([[r1 e1] t1] & Hn & [= <- <-]). eapply rs_heartbeat; [|exact Hn]. exact Hok.
  - assert (Hs : (handle_gap (writer n) (gap s b) r).1 = r') by by injection H as ->.
    rewrite <-Hs. by apply rs_gap.
  - injection H as <- <-. apply rs_cache. apply step_remove_change.
Qed.

Lemma run_reachable cf l r : Forall op_ok l → run cf l = Done r → reader_reachable cf r.
Proof.
  unfold run. intros Hok. assert (Hnew := rr_new cf). revert Hnew. generalize (reader_new cf (hc_new HcReader)).
  induction Hok as [|o l Ho Hok IH]; intros r0 Hr0; [by intros [= <-]|].
  rewrite foldM_cons. intros H. apply outcome_bind_Done in H as (r1 & H1 & H).
  apply outcome_bind_Done in H1 as ([r2 evs] & H1 & [= ->]).
  apply (IH r1); [|done]. eapply rr_step; [exact Hr0|by eapply exec_step].
Qed.

Lemma after_reachable cf l :
  Forall op_ok l → (if run cf l then True else False) → reader_reachable cf (after cf l).
Proof.
  intros Hok H. unfold after. destruct (run cf l) as [r|] eqn:E; [|done]. by eapply run_reachable.
Qed.

Definition reliable : ReaderConf := conf default_reliable (-1).
Definition best_effort : ReaderConf := conf default_besteffort (-1).

(** Sample 1 arrives, sample 3 too; the heartbeat announces 1 to 3. *)
Definition waiting_ops : list op := [Match 1; Sample 1 1; Sample 1 3; Announce 1 1 3].
Definition waiting : Reader := after reliable waiting_ops.

Lemma waiting_reachable : reader_reachable reliable waiting.
Proof.
  apply after_reachable; [|vm_compute; exact I].
  repeat (apply Forall_cons; split; [vm_compute; repeat split; congruence|]). by apply Forall_nil.
Qed.
Lemma reliable_wf r : reader_reachable reliable r → reader_wf r.
Proof. intros Hr. apply (reader_reachable_inv reliable); [vm_compute; (split; split; congruence)|done]. Qed.

Lemma waiting_known :
  known (writer 1) waiting = matched_writers waiting !! writer 1 ∧ is_Some (matched_writers waiting !! writer 1).
Proof. vm_compute. split; [reflexivity|eauto]. Qed.
End ReaderSample.

Section reader_witnesses.
Import ReaderSample.

Lemma heartbeat_bookkeeping_witness :
  ∃ r' evs rt wp', handle_heartbeat (writer 1) 0 (heartbeat 2 5) waiting = Done (r', evs, rt) ∧
    matched_writers r' !! writer 1 = Some wp' ∧ 4 ∈ missing_changes wp' ∧ 3 ∉ missing_changes wp'.
Proof.
  destruct (known (writer 1) waiting) as [wp|] eqn:Hk; [|exfalso; vm_compute in Hk; discriminate].
  destruct (heartbeat_bookkeeping (writer 1) 0 (heartbeat 2 5) waiting wp) as (r' & evs & rt & wp' & Hrun & Hm & Hmiss & _).
  - split; vm_compute; congruence.
  - apply reliable_wf, waiting_reachable.
  - exact Hk.
  - exists r', evs, rt, wp'. split; [exact Hrun|]. split; [exact Hm|].
    vm_compute in Hk. injection Hk as <-.
    rewrite !Hmiss. unfold wp_done, wp_status. split.
    + split; [vm_compute; congruence|]. vm_compute. intros [|]; discriminate.
    + intros [_ Hd]. vm_compute in Hd. apply Hd. by left.
Defined.

Lemma acknack_requests_missing_witness :
  ∃ r' evs st, handle_hb_response_timeout (writer 1) waiting = Done (r', evs) ∧ sn_set st = [2] ∧
    ∃ ev m, ev ∈ evs ∧ sent_msg ev = Some m.
Proof.
  destruct (matched_writers waiting !! writer 1) as [wp|] eqn:Hk; [|exfalso; vm_compute in Hk; discriminate].
  destruct (acknack_requests_missing (writer 1) waiting wp)
    as (r' & evs & st & Hrun & Hset & _ & _ & _ & _ & Hsend).
  - apply reliable_wf, waiting_reachable.
  - exact Hk.
  - exists r', evs, st. split; [exact Hrun|]. vm_compute in Hk. injection Hk as <-. split.
    + rewrite Hset. vm_compute. reflexivity.
    + destruct (Hsend [locator 1] (locator 1)) as (ev & Hev & Hm);
        [reflexivity|by left|reflexivity|]. by eexists _, _.
Defined.

Lemma handle_gap_spec_witness :
  ∃ wp', matched_writers (handle_gap (writer 1) (gap 2 3) waiting).1 !! writer 1 = Some wp' ∧
    2 ∉ missing_changes wp' ∧
    reader_cache (handle_gap (writer 1) (gap 2 3) waiting).1 = reader_cache waiting.
Proof.
  destruct (known (writer 1) waiting) as [wp|] eqn:Hk; [|exfalso; vm_compute in Hk; discriminate].
  destruct (handle_gap_spec (writer 1) (gap 2 3) waiting wp Hk) as (wp' & Hm & Hmiss & _ & _ & Hc & _).
  exists wp'. split; [exact Hm|]. split; [|exact Hc]. rewrite Hmiss. intros [_ Hn]. apply Hn. by left.
Defined.

Lemma sample_agrees_fresh c r :
  changes (reader_cache r) !! change_key c = None → agrees c (reader_cache r).
Proof. intros H c'. congruence. Qed.

Lemma reliable_delivery_witness :
  ∃ r' evs rt wp', reader_add_change (guid_prefix (writer 1)) (sample 1 2) waiting = Done (r', evs, rt) ∧
    (writer_communication_state r' !! writer 1, bool_decide (NotifyReader DataAvailable ∈ evs)) =
      (Some (WaitingFor ∅), true) ∧ matched_writers r' !! writer 1 = Some wp'.
Proof.
  destruct (known (writer 1) waiting) as [wp|] eqn:Hk; [|exfalso; vm_compute in Hk; discriminate].
  destruct (reliable_delivery (writer 1) (sample 1 2) waiting wp)
    as (r' & evs & rt & wp' & Hrun & Hst & _ & _ & Hm & _).
  - apply reliable_wf, waiting_reachable.
  - reflexivity.
  - split; [reflexivity|]. split; vm_compute; congruence.
  - apply sample_agrees_fresh. vm_compute. reflexivity.
  - exact Hk.
  - exists r', evs, rt, wp'. split; [exact Hrun|]. split; [|exact Hm]. rewrite Hst. vm_compute. reflexivity.
Defined.

Lemma awaited_samples_become_available_witness :
  ∃ r' wp', deliver (writer 1) [sample 1 4; sample 1 2] waiting = Done r' ∧
    matched_writers r' !! writer 1 = Some wp' ∧ missing_changes wp' = [].
Proof.
  destruct (known (writer 1) waiting) as [wp|] eqn:Hk; [|exfalso; vm_compute in Hk; discriminate].
  destruct (awaited_samples_become_available (writer 1) [sample 1 4; sample 1 2] waiting wp {[2]})
    as (r' & wp' & Hrun & _ & Hm & Hmiss & _).
  - apply reliable_wf, waiting_reachable.
  - reflexivity.
  - exact Hk.
  - vm_compute. reflexivity.
  - repeat (apply Forall_cons; split; [split; [reflexivity|split; vm_compute; congruence]|]). by apply Forall_nil.
  - eapply bool_decide_unpack. vm_compute. exact I.
  - repeat (apply Forall_cons; split; [apply sample_agrees_fresh; vm_compute; reflexivity|]). by apply Forall_nil.
  - discriminate.
  - assert (Hmi : missing_changes wp = [2]) by (vm_compute in Hk; injection Hk as <-; vm_compute; reflexivity).
    rewrite Hmi. intros s [->%elem_of_singleton| ->%list_elem_of_singleton]; right; by left.
  - exists r', wp'. split; [exact Hrun|]. split; [exact Hm|exact Hmiss].
Defined.

(** A reliable reader with room for one sample, which it has. *)
Definition small_ops : list op := [Match 1; Sample 1 1].
Definition small : Reader := after (conf default_reliable 2) small_ops.
Lemma small_wf : reader_wf small.
Proof.
  apply (reader_reachable_inv (conf default_reliable 2)); [vm_compute; (split; split; congruence)|].
  apply after_reachable; [|vm_compute; exact I].
  repeat (apply Forall_cons; split; [vm_compute; repeat split; congruence|]). by apply Forall_nil.
Qed.

Lemma discarded_sample_is_acknowledged_witness :
  ∃ r' evs rt wp', reader_add_change (guid_prefix (writer 1)) (sample 1 2) small = Done (r', evs, rt) ∧
    changes (reader_cache r') = changes (reader_cache small) ∧
    matched_writers r' !! writer 1 = Some wp' ∧ 2 ∉ missing_changes wp'.
Proof.
  destruct (known (writer 1) small) as [wp|] eqn:Hk; [|exfalso; vm_compute in Hk; discriminate].
  destruct (discarded_sample_is_acknowledged (writer 1) (sample 1 2) small wp)
    as (r' & evs & rt & wp' & Hrun & Hc & Hm & _ & Hmiss).
  - exact small_wf.
  - reflexivity.
  - split; [reflexivity|]. split; vm_compute; congruence.
  - exact Hk.
  - vm_compute. reflexivity.
  - split; vm_compute; congruence.
  - exists r', evs, rt, wp'. split_and!; [exact Hrun|exact Hc|exact Hm|exact Hmiss].
Defined.

Definition two_best_effort : list op := [Match 1; Sample 1 1; Sample 1 2].
Lemma best_effort_wf l :
  Forall op_ok l → (if run best_effort l then True else False) → reader_wf (after best_effort l).
Proof.
  intros Hl Hr. apply (reader_reachable_inv best_effort); [vm_compute; (split; split; congruence)|].
  by apply after_reachable.
Qed.

Lemma best_effort_delivery_witness :
  let r := after best_effort two_best_effort in
  ∃ r' evs rt wp', reader_add_change (guid_prefix (writer 1)) (sample 1 1) r = Done (r', evs, rt) ∧
    matched_writers r' !! writer 1 = Some wp' ∧
    NotifyReader DataAvailable ∉ evs ∧ changes (reader_cache r') = changes (reader_cache r).
Proof.
  set (r := after best_effort two_best_effort). cbv zeta.
  destruct (known (writer 1) r) as [wp|] eqn:Hk; [|exfalso; vm_compute in Hk; discriminate].
  destruct (best_effort_delivery (writer 1) (sample 1 1) r wp)
    as (r' & evs & rt & wp' & Hrun & Hm & Hiff & _ & Hdrop).
  - apply best_effort_wf; [|vm_compute; exact I].
    repeat (apply Forall_cons; split; [vm_compute; repeat split; congruence|]). by apply Forall_nil.
  - reflexivity.
  - split; [reflexivity|]. split; vm_compute; congruence.
  - intros c' Hc'. vm_compute in Hc'. injection Hc' as <-. reflexivity.
  - intros [Hn _]. vm_compute in Hn. done.
  - exact Hk.
  - assert (Hrem : remembered r (writer 1) wp 2).
    { vm_compute in Hk. injection Hk as <-. split; [left; vm_compute; reflexivity|].
      intros Hin. vm_compute in Hin. discriminate. }
    assert (Hno : NotifyReader DataAvailable ∉ evs).
    { intros Hin. pose proof (proj1 Hiff Hin 2 Hrem) as Hlt. vm_compute in Hlt. discriminate. }
    exists r', evs, rt, wp'. split_and!; [exact Hrun|exact Hm|exact Hno|]. by apply Hdrop.
Defined.

Definition sample_liveliness : DiscoveryDB :=
  write_remote_writer (writer 1) (mkTimestamp 10 0) Automatic db_new.

Lemma check_liveliness_spec_witness :
  ∃ db' r' evs, check_liveliness (λ _, Some (mkTimestamp 30 0)) sample_liveliness waiting = Done (db', r', evs) ∧
    is_Some (unmatched_writers r' !! writer 1).
Proof.
  destruct (matched_writers waiting !! writer 1) as [wp|] eqn:Hk; [|exfalso; vm_compute in Hk; discriminate].
  destruct (check_liveliness_spec (λ _, Some (mkTimestamp 30 0)) sample_liveliness waiting (writer 1))
    as (db' & r' & evs & Hrun & _ & Hun & _).
  - apply reliable_wf, waiting_reachable.
  - intros g. eexists. reflexivity.
  - exists db', r', evs. split; [exact Hrun|]. exists wp. apply (Hun wp Hk).
    vm_compute in Hk. injection Hk as <-. split; [vm_compute; discriminate|]. right.
    exists (mkTimestamp 10 0), (mkTimestamp 30 0), (mkCoreDuration 20 0), (mkCoreDuration 10 0).
    split_and!; vm_compute; reflexivity.
Defined.

Lemma reader_never_panics_witness :
  no_panic (handle_heartbeat (writer 1) 0 (heartbeat 1 9) waiting) ∧
  no_panic (handle_hb_response_timeout (writer 1) waiting).
Proof.
  destruct (reader_never_panics reliable waiting (writer 1) 0 (heartbeat 1 9) (guid_prefix (writer 1))
    (sample 1 2) (λ _, Some (mkTimestamp 30 0)) sample_liveliness) as (H1 & H2 & _).
  - vm_compute. split; split; congruence.
  - exact waiting_reachable.
  - split; [|exact H2]. apply H1. split; vm_compute; congruence.
Defined.

(** Reliable delivery is not in order: number 2 was expected and 4 came
    first; when 2 comes both become available, before 3. *)
Example flush_overtakes :
  visible reliable [Match 1; Sample 1 1; Announce 1 1 1; Sample 1 4; Sample 1 2] = [1; 2; 4].
Proof. vm_compute. reflexivity. Qed.

(** A best-effort reader delivers a repeated sample again once the
    application has taken the samples it got. *)
Example best_effort_redelivers_taken :
  visible best_effort [Match 1; Sample 1 1; Sample 1 2; Sample 1 1] = [1; 2] ∧
  visible best_effort [Match 1; Sample 1 1; Sample 1 2; Take 1 1; Take 1 2] = [] ∧
  visible best_effort [Match 1; Sample 1 1; Sample 1 2; Take 1 1; Take 1 2; Sample 1 1] = [1].
Proof. vm_compute. done. Qed.

(** A gap that settles the last awaited number releases nothing; it takes
    the next heartbeat. *)
Example gap_releases_nothing :
  visible reliable [Match 1; Sample 1 1; Announce 1 1 2; Skip 1 2 3] = [] ∧
  visible reliable [Match 1; Sample 1 1; Announce 1 1 2; Skip 1 2 3; Announce 1 1 2] = [1].
Proof. vm_compute. done. Qed.
End reader_witnesses.
