(* ===== verification/Speedy.v ===== *)
(** * The serialisation crate and the reader monad

    The byte-level code of src/src/message and src/src/discovery reads and
    writes through the [speedy] crate, which is not part of the repository.
    The class [Speedy] holds the primitives the code relies on, the class
    [SpeedyLaws] what the crate documents about them; everything that the
    repository defines itself is built from them in Wire.v and
    ParameterList.v.  [Concrete] is a realisation of the class, on which the
    examples and witnesses run. *)
From stdpp Require Import base tactics numbers list gmap sorting.
From S2P Require Import Prelude Ids Message.

(** [speedy::Error], as far as the code distinguishes: an end of the input,
    which [#[speedy(default_on_eof)]] catches, and everything else. *)
Inductive ReadError := Eof | Invalid.
#[export] Instance ReadError_eq_dec : EqDecision ReadError.
Proof. solve_decision. Defined.

(** A [&mut impl Reader]: the rest of the input is kept, also after an error. *)
Definition rd (A : Type) : Type := list Z → list Z * (ReadError + A).

#[export] Instance rd_ret : MRet rd := λ A a buf, (buf, inr a).
#[export] Instance rd_bind : MBind rd := λ A B f r buf,
  match r buf with
  | (buf', inr a) => f a buf'
  | (buf', inl e) => (buf', inl e)
  end.

Definition rd_fail {A} (e : ReadError) : rd A := λ buf, (buf, inl e).

(** [get_uint w e]: an unsigned integer of [w] octets in the byte order [e];
    [get_octets n]: [n] raw octets; [get_string n]: [n] octets that have to be
    UTF-8; [option_tag]: the meaning of the octet in front of an [Option]. *)
Class Speedy := {
  get_uint : nat → Endianness → rd Z;
  put_uint : nat → Endianness → Z → list Z;
  get_octets : Z → rd (list Z);
  get_string : Z → rd (list Z);
  option_tag : Z → bool;
}.

Class SpeedyLaws `{Speedy} := {
  get_put (w : nat) e z rest : in_u (8 * w) z → get_uint w e (put_uint w e z ++ rest) = (rest, inr z);
  put_uint_octets (w : nat) e z : octets w (put_uint w e z);
  get_uint_enough (w : nat) e buf : (w ≤ length buf)%nat → Forall octet buf →
    ∃ z, get_uint w e buf = (drop w buf, inr z) ∧ in_u (8 * w) z;
  get_uint_short (w : nat) e buf : (length buf < w)%nat →
    ∃ n, get_uint w e buf = (drop n buf, inl Eof);
  get_octets_enough (n : Z) buf : 0 ≤ n ≤ length buf →
    get_octets n buf = (drop (Z.to_nat n) buf, inr (take (Z.to_nat n) buf));
  get_octets_short (n : Z) buf : length buf < n →
    ∃ k, get_octets n buf = (drop k buf, inl Eof);
  get_string_suffix (n : Z) buf : ∃ k, (get_string n buf).1 = drop k buf;
  put_uint_le_app (a b : nat) z :
    put_uint (a + b) LittleEndian z =
    put_uint a LittleEndian (z mod 2 ^ (8 * a)) ++ put_uint b LittleEndian (z / 2 ^ (8 * a));
  option_tag_none : option_tag 0 = false;
  option_tag_some : option_tag 1 = true;
}.

(** [Readable::read_from_buffer_with_ctx]: what follows is ignored. *)
Definition read_from_buffer {A} (r : rd A) (buf : list Z) : ReadError + A := (r buf).2.

Section readers.
Context `{Speedy}.

Definition read_u8 (e : Endianness) : rd Z := get_uint 1 e.
Definition read_u16 (e : Endianness) : rd Z := get_uint 2 e.
Definition read_u32 (e : Endianness) : rd Z := get_uint 4 e.
Definition read_i16 (e : Endianness) : rd Z := z ← get_uint 2 e; mret (as_i16 z).
Definition read_i32 (e : Endianness) : rd Z := z ← get_uint 4 e; mret (as_i32 z).

Definition write_u8 (e : Endianness) (z : Z) : list Z := put_uint 1 e z.
Definition write_u16 (e : Endianness) (z : Z) : list Z := put_uint 2 e z.
Definition write_u32 (e : Endianness) (z : Z) : list Z := put_uint 4 e z.
Definition write_i16 (e : Endianness) (z : Z) : list Z := put_uint 2 e (as_u16 z).
Definition write_i32 (e : Endianness) (z : Z) : list Z := put_uint 4 e (as_u32 z).

(** A [Vec] of known length. *)
Fixpoint read_n {A} (r : rd A) (n : nat) : rd (list A) :=
  match n with
  | O => mret []
  | S n' => a ← r; l ← read_n r n'; mret (a :: l)
  end.

(** [Option<T>] and [#[speedy(default_on_eof)]]. *)
Definition read_option {A} (e : Endianness) (r : rd A) : rd (option A) :=
  tag ← read_u8 e; if option_tag tag then a ← r; mret (Some a) else mret None.
Definition default_on_eof {A} (d : A) (r : rd A) : rd A := λ buf,
  match r buf with
  | (buf', inl Eof) => (buf', inr d)
  | res => res
  end.

(** [Vec<T>] with its length in front. *)
Definition read_vec {A} (e : Endianness) (r : rd A) : rd (list A) :=
  n ← read_u32 e; read_n r (Z.to_nat n).
Definition write_vec {A} (e : Endianness) (f : A → list Z) (l : list A) : list Z :=
  write_u32 e (length l) ++ concat (f <$> l).
Definition write_option {A} (e : Endianness) (f : A → list Z) (o : option A) : list Z :=
  match o with Some a => write_u8 e 1 ++ f a | None => write_u8 e 0 end.
End readers.

(** ** What a reader does on written octets: [parses r bs a] *)

Definition parses {A} (r : rd A) (bs : list Z) (a : A) : Prop :=
  ∀ rest, r (bs ++ rest) = (rest, inr a).

(** The reader is at the end of its buffer. *)
Definition parses_end {A} (r : rd A) (bs : list Z) (a : A) : Prop :=
  r bs = ([], inr a).

(** What any accepted input gives: [reads r P]. *)
Definition reads {A} (r : rd A) (P : A → Prop) : Prop :=
  ∀ buf, Forall octet buf →
    Forall octet (r buf).1 ∧ ∀ a, (r buf).2 = inr a → P a.

Section parses.
Context {A B : Type}.

Lemma parses_ret (a : A) : parses (mret a) [] a.
Proof. by intros rest. Qed.

Lemma parses_bind (r : rd A) (f : A → rd B) bs bs' a b :
  parses r bs a → parses (f a) bs' b → parses (r ≫= f) (bs ++ bs') b.
Proof.
  intros Hr Hf rest. rewrite <-app_assoc.
  unfold mbind, rd_bind. rewrite Hr. apply Hf.
Qed.

Lemma parses_bind_last (r : rd A) (f : A → rd B) bs a b :
  parses r bs a → parses (f a) [] b → parses (r ≫= f) bs b.
Proof. intros Hr Hf. rewrite <-(app_nil_r bs). by eapply parses_bind. Qed.

Lemma parses_end_intro (r : rd A) bs a : parses r bs a → parses_end r bs a.
Proof. intros Hr. unfold parses_end. rewrite <-(app_nil_r bs) at 1. apply Hr. Qed.

Lemma parses_end_bind (r : rd A) (f : A → rd B) bs bs' a b :
  parses r bs a → parses_end (f a) bs' b → parses_end (r ≫= f) (bs ++ bs') b.
Proof. intros Hr Hf. unfold parses_end, mbind, rd_bind. rewrite Hr. apply Hf. Qed.

Lemma parses_end_bind_nil (r : rd A) (f : A → rd B) a b :
  parses_end r [] a → parses_end (f a) [] b → parses_end (r ≫= f) [] b.
Proof. intros Hr Hf. unfold parses_end, mbind, rd_bind in *. by rewrite Hr. Qed.

Lemma parses_from_buffer (r : rd A) bs a :
  parses_end r bs a → read_from_buffer r bs = inr a.
Proof. unfold parses_end, read_from_buffer. by intros ->. Qed.

Lemma parses_prefix (r : rd A) bs rest a :
  parses r bs a → read_from_buffer r (bs ++ rest) = inr a.
Proof. intros Hr. unfold read_from_buffer. by rewrite Hr. Qed.

Lemma reads_ret (P : A → Prop) a : P a → reads (mret a) P.
Proof. intros HP buf Hbuf. split; [done|]. by intros ? [= <-]. Qed.

Lemma reads_bind (r : rd A) (f : A → rd B) (P : A → Prop) (Q : B → Prop) :
  reads r P → (∀ a, P a → reads (f a) Q) → reads (r ≫= f) Q.
Proof.
  intros Hr Hf buf Hbuf. destruct (Hr buf Hbuf) as [Hrest Ha].
  unfold mbind, rd_bind. destruct (r buf) as [buf' [e|a]]; simpl in *; [done|].
  by apply Hf; [apply Ha|].
Qed.

Lemma reads_weaken (r : rd A) (P Q : A → Prop) : reads r P → (∀ a, P a → Q a) → reads r Q.
Proof. intros Hr HPQ buf Hbuf. destruct (Hr buf Hbuf). auto. Qed.

Lemma reads_from_buffer (r : rd A) P buf a :
  reads r P → Forall octet buf → read_from_buffer r buf = inr a → P a.
Proof. intros Hr Hbuf. by apply Hr. Qed.

Lemma reads_default_on_eof (r : rd A) (P : A → Prop) d :
  reads r P → P d → reads (default_on_eof d r) P.
Proof.
  intros Hr Hd buf Hbuf. destruct (Hr buf Hbuf) as [Hrest Ha].
  unfold default_on_eof. destruct (r buf) as [buf' [[]|a]]; simpl in *.
  - split; [done|]. by intros ? [= <-].
  - by split.
  - by split.
Qed.
End parses.

Section primitive_facts.
Context `{SpeedyLaws}.

Lemma Forall_octet_drop n (l : list Z) : Forall octet l → Forall octet (drop n l).
Proof. apply Forall_drop. Qed.

Lemma parses_uint (w : nat) e z : in_u (8 * w) z → parses (get_uint w e) (put_uint w e z) z.
Proof. intros Hz rest. by apply get_put. Qed.

Lemma parses_u8 e z : in_u 8 z → parses (read_u8 e) (write_u8 e z) z.
Proof. apply (parses_uint 1). Qed.
Lemma parses_u16 e z : in_u 16 z → parses (read_u16 e) (write_u16 e z) z.
Proof. apply (parses_uint 2). Qed.
Lemma parses_u32 e z : in_u 32 z → parses (read_u32 e) (write_u32 e z) z.
Proof. apply (parses_uint 4). Qed.

Lemma parses_i16 e z : in_s 16 z → parses (read_i16 e) (write_i16 e z) z.
Proof.
  intros Hz. eapply parses_bind_last; [apply (parses_uint 2), (wrap_u_range 16); lia|].
  rewrite wrap_s_as_u, wrap_s_small by (done || lia). apply parses_ret.
Qed.
Lemma parses_i32 e z : in_s 32 z → parses (read_i32 e) (write_i32 e z) z.
Proof.
  intros Hz. eapply parses_bind_last; [apply (parses_uint 4), (wrap_u_range 32); lia|].
  rewrite wrap_s_as_u, wrap_s_small by (done || lia). apply parses_ret.
Qed.

Lemma parses_octets (l : list Z) n : n = Z.of_nat (length l) → parses (get_octets n) l l.
Proof.
  intros -> rest. rewrite get_octets_enough by (rewrite length_app; lia).
  by rewrite Nat2Z.id, drop_app_length, take_app_length.
Qed.

Lemma parses_n {A} (r : rd A) (f : A → list Z) (l : list A) n :
  n = length l → Forall (λ a, parses r (f a) a) l → parses (read_n r n) (concat (f <$> l)) l.
Proof.
  intros ->. induction 1 as [|a l Ha Hl IH]; [apply parses_ret|].
  simpl. eapply parses_bind; [exact Ha|]. eapply parses_bind_last; [exact IH|]. apply parses_ret.
Qed.

Lemma eof_uint (w : nat) e : (0 < w)%nat → get_uint w e [] = ([], inl Eof).
Proof.
  intros. destruct (get_uint_short w e []) as [n Hn]; [done|]. by rewrite Hn, drop_nil.
Qed.

Lemma eof_option {A} e (r : rd A) : parses_end (default_on_eof None (read_option e r)) [] None.
Proof.
  unfold parses_end, default_on_eof, read_option, mbind, rd_bind, read_u8. by rewrite eof_uint by lia.
Qed.

Lemma length_put_uint w e z : length (put_uint w e z) = w.
Proof. by destruct (put_uint_octets w e z). Qed.

Lemma reads_uint (w : nat) e : reads (get_uint w e) (in_u (8 * w)).
Proof.
  intros buf Hbuf. destruct (decide (w ≤ length buf)%nat) as [Hw|Hw].
  - destruct (get_uint_enough w e buf Hw Hbuf) as (z & -> & Hz). split; [by apply Forall_drop|].
    by intros ? [= <-].
  - destruct (get_uint_short w e buf ltac:(lia)) as (n & ->). split; [by apply Forall_drop|done].
Qed.
Lemma reads_u8 e : reads (read_u8 e) (in_u 8).
Proof. apply (reads_uint 1). Qed.
Lemma reads_u16 e : reads (read_u16 e) (in_u 16).
Proof. apply (reads_uint 2). Qed.
Lemma reads_u32 e : reads (read_u32 e) (in_u 32).
Proof. apply (reads_uint 4). Qed.
Lemma reads_i16 e : reads (read_i16 e) (in_s 16).
Proof. eapply reads_bind; [apply reads_uint|]. intros; apply reads_ret. by apply wrap_s_range. Qed.
Lemma reads_i32 e : reads (read_i32 e) (in_s 32).
Proof. eapply reads_bind; [apply reads_uint|]. intros; apply reads_ret. by apply wrap_s_range. Qed.

Lemma reads_octets n : 0 ≤ n → reads (get_octets n) (octets (Z.to_nat n)).
Proof.
  intros Hn buf Hbuf. destruct (decide (n ≤ length buf)) as [Hw|Hw].
  - rewrite get_octets_enough by done. split; [by apply Forall_drop|].
    intros ? [= <-]. split; [rewrite length_take; lia|by apply Forall_take].
  - destruct (get_octets_short n buf ltac:(lia)) as (k & ->). split; [by apply Forall_drop|done].
Qed.

Lemma reads_n {A} (r : rd A) (P : A → Prop) n :
  reads r P → reads (read_n r n) (λ l, length l = n ∧ Forall P l).
Proof.
  intros Hr. induction n as [|n IH]; simpl; [by apply reads_ret|].
  eapply reads_bind; [exact Hr|]. intros a Ha. eapply reads_bind; [exact IH|].
  intros l [Hlen Hl]. apply reads_ret. simpl. auto.
Qed.

Lemma reads_option {A} e (r : rd A) (P : A → Prop) :
  reads r P → reads (read_option e r) (λ o, ∀ a, o = Some a → P a).
Proof.
  intros Hr. eapply reads_bind; [apply reads_u8|]. intros tag _. destruct (option_tag tag).
  - eapply reads_bind; [exact Hr|]. intros a Ha. apply reads_ret. by intros ? [= <-].
  - by apply reads_ret.
Qed.

Lemma reads_vec {A} e (r : rd A) (P : A → Prop) : reads r P → reads (read_vec e r) (Forall P).
Proof.
  intros Hr. eapply reads_bind; [apply reads_u32|]. intros n _.
  eapply reads_weaken; [by apply reads_n|]. by intros l [_ ?].
Qed.

(** *** Readers only move forward *)

(** A reader leaves a suffix of its input. *)
Definition shrinks {A} (r : rd A) : Prop :=
  ∀ buf, Forall octet buf → ∃ n, (r buf).1 = drop n buf.

Lemma shrinks_ret {A} (a : A) : shrinks (mret a).
Proof. intros buf _. by exists 0%nat. Qed.
Lemma shrinks_fail {A} e : shrinks (@rd_fail A e).
Proof. intros buf _. by exists 0%nat. Qed.
Lemma shrinks_bind {A B} (r : rd A) (f : A → rd B) :
  shrinks r → (∀ a, shrinks (f a)) → shrinks (r ≫= f).
Proof.
  intros Hr Hf buf Hbuf. destruct (Hr buf Hbuf) as [n Hn]. unfold mbind, rd_bind.
  destruct (r buf) as [buf' [e|a]]; simpl in *; [by exists n|].
  destruct (Hf a buf') as [m ->]; [subst; by apply Forall_drop|].
  exists (n + m)%nat. by rewrite Hn, drop_drop.
Qed.
Lemma shrinks_uint w e : shrinks (get_uint w e).
Proof.
  intros buf Hbuf. destruct (decide (w ≤ length buf)%nat) as [Hw|Hw].
  - destruct (get_uint_enough w e buf Hw Hbuf) as (z & -> & _). by exists w.
  - destruct (get_uint_short w e buf ltac:(lia)) as (n & ->). by exists n.
Qed.
Lemma shrinks_octets n : 0 ≤ n → shrinks (get_octets n).
Proof.
  intros Hn buf _. destruct (decide (n ≤ length buf)) as [Hw|Hw].
  - rewrite get_octets_enough by done. by eexists.
  - destruct (get_octets_short n buf ltac:(lia)) as (k & ->). by eexists.
Qed.
Lemma shrinks_string n : shrinks (get_string n).
Proof. intros buf _. apply get_string_suffix. Qed.
Lemma shrinks_n {A} (r : rd A) n : shrinks r → shrinks (read_n r n).
Proof.
  intros Hr. induction n as [|n IH]; [apply shrinks_ret|].
  apply shrinks_bind; [done|]. intros a. apply shrinks_bind; [done|]. intros; apply shrinks_ret.
Qed.
(** A length read from the wire is not negative, so the readers that use one
    need the range of the value. *)
Lemma shrinks_bind_uint {A} (w : nat) e (f : Z → rd A) :
  (∀ n, in_u (8 * w) n → shrinks (f n)) → shrinks (get_uint w e ≫= f).
Proof.
  intros Hf buf Hbuf. destruct (decide (w ≤ length buf)%nat) as [Hw|Hw].
  - destruct (get_uint_enough w e buf Hw Hbuf) as (z & Hz & Hr). unfold mbind, rd_bind. rewrite Hz.
    destruct (Hf z Hr (drop w buf)) as [m ->]; [by apply Forall_drop|].
    exists (w + m)%nat. by rewrite drop_drop.
  - destruct (get_uint_short w e buf ltac:(lia)) as (n & Hn). unfold mbind, rd_bind. rewrite Hn.
    by exists n.
Qed.
End primitive_facts.

Create HintDb wire.
#[export] Hint Resolve parses_ret parses_u8 parses_u16 parses_u32 parses_i16 parses_i32
  parses_octets : wire.
#[export] Hint Resolve reads_u8 reads_u16 reads_u32 reads_i16 reads_i32 : wire.

(** [parse_steps]: walk along the binds of a reader and the appends of the
    matching writer. *)
Ltac parse_steps :=
  repeat (rewrite <-?app_assoc; first
    [ apply parses_ret
    | eapply parses_bind; [solve [eauto with wire] |]
    | eapply parses_bind_last; [solve [eauto with wire] |] ]); simpl.
Ltac read_steps :=
  repeat first
    [ eapply reads_bind; [solve [eauto with wire] |]; intros ?; try intros (?&?); intros ] .

(** A decidable fact about concrete values. *)
Ltac concrete := eapply bool_decide_unpack; vm_compute; exact I.

(** ** A concrete realisation *)
Module Concrete.

Fixpoint le_put (w : nat) (z : Z) : list Z :=
  match w with O => [] | S w' => z mod 256 :: le_put w' (z / 256) end.
Fixpoint le_get (l : list Z) : Z :=
  match l with [] => 0 | b :: l' => b + 256 * le_get l' end.

Definition uint_of (e : Endianness) (l : list Z) : Z :=
  match e with LittleEndian => le_get l | BigEndian => le_get (rev l) end.
Definition of_uint (e : Endianness) (w : nat) (z : Z) : list Z :=
  match e with LittleEndian => le_put w z | BigEndian => rev (le_put w z) end.

#[export] Instance speedy : Speedy := {|
  get_uint w e buf :=
    if (w <=? length buf)%nat then (drop w buf, inr (uint_of e (take w buf))) else (buf, inl Eof);
  put_uint w e z := of_uint e w z;
  get_octets n buf :=
    if Z.leb n (Z.of_nat (length buf)) && Z.leb 0 n
    then (drop (Z.to_nat n) buf, inr (take (Z.to_nat n) buf)) else (buf, inl Eof);
  get_string n buf :=
    if Z.leb n (Z.of_nat (length buf)) && Z.leb 0 n
    then (drop (Z.to_nat n) buf, inr (take (Z.to_nat n) buf)) else (buf, inl Eof);
  option_tag z := negb (Z.eqb z 0);
|}.

Lemma length_le_put w z : length (le_put w z) = w.
Proof. revert z. induction w; intros; simpl; [done|by rewrite IHw]. Qed.

Lemma le_put_octets w z : Forall octet (le_put w z).
Proof.
  revert z. induction w as [|w IH]; intros z; simpl; constructor; [|apply IH].
  pose proof (Z.mod_pos_bound z 256). unfold octet. lia.
Qed.

Lemma pow256_succ w : 2 ^ (8 * Z.of_nat (S w)) = 256 * 2 ^ (8 * Z.of_nat w).
Proof.
  replace (8 * Z.of_nat (S w)) with (8 + 8 * Z.of_nat w) by lia. rewrite Z.pow_add_r by lia. done.
Qed.

Lemma le_get_put (w : nat) z : in_u (8 * w) z → le_get (le_put w z) = z.
Proof.
  revert z. induction w as [|w IH]; intros z Hz; unfold in_u in *; cbn [le_put le_get].
  - simpl in Hz. lia.
  - rewrite pow256_succ in Hz. rewrite IH; [pose proof (Z.div_mod z 256); lia|].
    unfold in_u. split; [apply Z.div_pos; lia|apply Z.div_lt_upper_bound; lia].
Qed.

Lemma le_get_range l : Forall octet l → in_u (8 * length l) (le_get l).
Proof.
  induction 1 as [|b l Hb Hl IH]; unfold in_u in *; [simpl; lia|].
  cbn [le_get length]. rewrite pow256_succ. unfold octet in *. lia.
Qed.

Lemma le_put_app (a b : nat) z :
  le_put (a + b) z = le_put a (z mod 2 ^ (8 * a)) ++ le_put b (z / 2 ^ (8 * a)).
Proof.
  revert z. induction a as [|a IH]; intros z; [by rewrite Z.div_1_r|].
  pose proof (Z.pow_pos_nonneg 2 (8 * a) ltac:(lia) ltac:(lia)).
  pose proof (Z.mod_pos_bound z 256 ltac:(lia)).
  assert (Hr : z mod (256 * 2 ^ (8 * a)) = z mod 256 + 256 * ((z / 256) mod 2 ^ (8 * a)))
    by (apply Z.rem_mul_r; lia).
  cbn [Nat.add le_put app]. rewrite pow256_succ, Hr, <-Z.div_div by lia.
  rewrite (Z.mul_comm 256 (_ mod _)), Z.div_add, Z.mod_add, Z.mod_mod by lia.
  rewrite (Z.div_small (z mod 256) 256), Z.add_0_l by lia. by rewrite IH.
Qed.

#[export] Instance speedy_laws : SpeedyLaws.
Proof.
  split; simpl.
  - intros w e z rest Hz.
    assert (length (of_uint e w z) = w) as Hlen
      by (destruct e; simpl; rewrite ?length_rev, length_le_put; done).
    rewrite length_app, Hlen. destruct (Nat.leb_spec w (w + length rest)); [|lia].
    rewrite drop_app_length', take_app_length' by done. f_equal. f_equal.
    destruct e; simpl; [by apply le_get_put|]. rewrite rev_involutive. by apply le_get_put.
  - intros w e z. split.
    + destruct e; simpl; by rewrite ?length_rev, length_le_put.
    + destruct e; simpl; [apply le_put_octets|]. apply Forall_rev. apply le_put_octets.
  - intros w e buf Hw Hbuf. destruct (Nat.leb_spec w (length buf)); [|lia].
    eexists; split; [done|]. assert (length (take w buf) = w) as Hlen by (rewrite length_take; lia).
    destruct e; simpl.
    + rewrite <-Hlen at 1. apply le_get_range. by apply Forall_take.
    + rewrite <-Hlen at 1. rewrite <-(length_rev (take w buf)). apply le_get_range.
      apply Forall_rev. by apply Forall_take.
  - intros w e buf Hw. destruct (Nat.leb_spec w (length buf)); [lia|]. by exists 0%nat.
  - intros n buf Hn. destruct (Z.leb_spec n (length buf)), (Z.leb_spec 0 n); try lia. done.
  - intros n buf Hn. destruct (Z.leb_spec n (length buf)); [lia|]. by exists 0%nat.
  - intros n buf. destruct (_ && _); [by eexists|by exists 0%nat].
  - apply le_put_app.
  - done.
  - done.
Qed.
End Concrete.
