(* ===== verification/Wire.v ===== *)
(** * The wire form of RTPS messages

    [Readable]/[Writable] of the types of src/src/message and
    src/src/structure, [ParameterList], [Data::deserialize_data],
    [DataFrag::deserialize] and [Message::new] (src/src/message.rs).  A
    derived [Readable]/[Writable] visits the fields in their order.

    A buffer is a list of octets; slicing out of range is a panic.  Every
    caller of [write_to_vec_with_ctx] in the crate [expect]s it, so an error
    of the writer is a [Panic] as well. *)
From stdpp Require Import base tactics numbers list gmap sorting.
From S2P Require Import Prelude Ordered Ids Time SeqNum Qos HistoryCache Message Speedy.

(** ** [IoResult] *)
Inductive IoError := SpeedyError (e : ReadError) | DataTooSmall.
#[export] Instance IoError_eq_dec : EqDecision IoError.
Proof. solve_decision. Defined.

Definition res (A : Type) : Type := outcome (IoError + A).
Definition ok {A} (a : A) : res A := Done (inr a).
Definition err {A} (e : IoError) : res A := Done (inl e).
#[export] Instance res_ret : MRet res := @ok.
#[export] Instance res_bind : MBind res := λ A B f m,
  match m with
  | Done (inr a) => f a
  | Done (inl e) => Done (inl e)
  | Panic => Panic
  end.

(** [map_err(IoError::SpeedyError)?] and a step that can only panic. *)
Definition from_buffer {A} (r : rd A) (buf : list Z) : res A :=
  match read_from_buffer r buf with inl e => err (SpeedyError e) | inr a => ok a end.
Definition io {A} (m : outcome A) : res A :=
  match m with Done a => ok a | Panic => Panic end.

(** [Bytes::slice(n..)] (and [split_off(n)]), [split_to(n)]. *)
Definition slice_from (n : Z) (buf : list Z) : outcome (list Z) :=
  if bool_decide (n ≤ length buf) then Done (drop (Z.to_nat n) buf) else Panic.
Definition split_to (n : Z) (buf : list Z) : outcome (list Z * list Z) :=
  if bool_decide (n ≤ length buf)
  then Done (take (Z.to_nat n) buf, drop (Z.to_nat n) buf) else Panic.

Definition pad_len (len : Z) : Z := (4 - len mod 4) mod 4.

Section wire.
Context `{Speedy}.

(** ** Submessage elements *)
Definition read_EntityId e : rd EntityId :=
  k0 ← read_u8 e; k1 ← read_u8 e; k2 ← read_u8 e; k ← read_u8 e;
  mret (mkEntityId (k0, k1, k2) (mkEntityKind k)).
Definition write_EntityId e (i : EntityId) : list Z :=
  let '(k0, k1, k2) := entity_key i in
  write_u8 e k0 ++ write_u8 e k1 ++ write_u8 e k2 ++ write_u8 e (value (entity_kind i)).

Definition read_GuidPrefix : rd GuidPrefix := l ← get_octets 12; mret (mkGuidPrefix l).
Definition write_GuidPrefix (p : GuidPrefix) : list Z := guid_prefix_bytes p.

Definition read_GUID e : rd GUID :=
  p ← read_GuidPrefix; i ← read_EntityId e; mret (mkGUID p i).
Definition write_GUID e (g : GUID) : list Z :=
  write_GuidPrefix (guid_prefix g) ++ write_EntityId e (entity_id g).

Definition read_SequenceNumber e : rd Z :=
  high ← read_i32 e; low ← read_u32 e; mret (sn_of_wire high low).
Definition write_SequenceNumber e (sn : Z) : list Z :=
  let '(high, low) := sn_to_wire sn in write_i32 e high ++ write_u32 e low.

(** [NumberSet<T>]; the [length] attribute of the bitmap makes the writer
    refuse a bitmap of another length. *)
Definition read_NumberSet e (r : rd Z) : rd NumberSet :=
  base ← r; num ← read_u32 e; map ← read_n (read_u32 e) (Z.to_nat (div_ceil32 num));
  mret (mkNumberSet base num map).
Definition write_NumberSet e (f : Z → list Z) (s : NumberSet) : outcome (list Z) :=
  if bool_decide (Z.of_nat (length (bitmap s)) = div_ceil32 (num_bits s))
  then Done (f (bitmap_base s) ++ write_u32 e (num_bits s) ++ concat (write_u32 e <$> bitmap s))
  else Panic.

Definition read_Timestamp e : rd Timestamp :=
  s ← read_u32 e; f ← read_u32 e; mret (mkTimestamp s f).
Definition write_Timestamp e (t : Timestamp) : list Z :=
  write_u32 e (ts_seconds t) ++ write_u32 e (ts_fraction t).

Definition read_Locator e : rd Locator :=
  k ← read_i32 e; p ← read_u32 e; a ← get_octets 16; mret (mkLocator k p a).
Definition write_Locator e (l : Locator) : list Z :=
  write_i32 e (kind l) ++ write_u32 e (port l) ++ address l.

(** [ParameterList::read_from]: the loop ends at PID_SENTINEL, whose length
    is not read.  Every round reads at least two octets, so the length of the
    input bounds the rounds. *)
Definition PID_SENTINEL : Z := 0x0001.
Fixpoint read_params (fuel : nat) e (acc : ParameterList) : rd ParameterList :=
  match fuel with
  | O => rd_fail Invalid
  | S fuel =>
      pid ← read_u16 e;
      if bool_decide (pid = PID_SENTINEL) then mret acc
      else
        len ← read_i16 e;
        v ← get_octets (as_usize len);
        read_params fuel e (acc ++ [mkParam pid v])
  end.
Definition read_ParameterList e : rd ParameterList := λ buf, read_params (S (length buf)) e [] buf.

Definition SENTINEL : Z := 0x00000001.
Definition write_Param e (p : Param) : list Z :=
  let len := Z.of_nat (length (parameter_value p)) in
  write_u16 e (parameter_id p) ++ write_i16 e (as_i16 (len + pad_len len)) ++
  parameter_value p ++ replicate (Z.to_nat (pad_len len)) 0.
Definition write_ParameterList e (l : ParameterList) : list Z :=
  concat (write_Param e <$> l) ++ write_u32 e SENTINEL.

(** [SerializedPayload::from_bytes]/[write_to]. *)
Definition payload_from_bytes (buf : list Z) : res SerializedPayload :=
  if bool_decide (length buf < 4) then Panic
  else if bool_decide (4 < length buf)
  then ok (mkSerializedPayload (take 2 buf) (take 2 (drop 2 buf)) (drop 4 buf))
  else err DataTooSmall.
Definition payload_to_bytes (p : SerializedPayload) : list Z :=
  representation_identifier p ++ representation_options p ++ sp_value p.

(** ** Submessages *)
Definition write_Data e (d : Data) : list Z :=
  write_u16 e 0 ++ write_u16 e 16 ++ write_EntityId e (data_reader_id d) ++
  write_EntityId e (data_writer_id d) ++ write_SequenceNumber e (data_writer_sn d) ++
  match data_inline_qos d with Some q => write_ParameterList e q | None => [] end ++
  match data_serialized_payload d with Some p => payload_to_bytes p | None => [] end.

(** [Data::deserialize_data]: every field is read from its own slice. *)
Definition read_at {A} (pos : Z) (r : rd A) (buf : list Z) : res A :=
  b ← io (slice_from pos buf); from_buffer r b.

Definition deserialize_data (buf : list Z) (flags : Z) : res Data :=
  let e := if contains flags Flag.Endianness then LittleEndian else BigEndian in
  _ ← read_at 0 (read_u16 e) buf;
  octets_to_inline_qos ← read_at 2 (read_u16 e) buf;
  reader_id ← read_at 4 (read_EntityId e) buf;
  writer_id ← read_at 8 (read_EntityId e) buf;
  writer_sn ← read_at 12 (read_SequenceNumber e) buf;
  let pos := 20 + as_u16 (octets_to_inline_qos - 16) in
  '(inline_qos, pos) ←
    (if contains flags Flag.Data.InlineQos
     then q ← read_at pos (read_ParameterList e) buf;
          ok (Some q, pos + length (write_ParameterList e q))
     else ok (None, pos));
  payload ←
    (if contains flags Flag.Data.Data || contains flags Flag.Data.Key
     then b ← io (slice_from pos buf); p ← payload_from_bytes b; ok (Some p)
     else ok None);
  ok (mkData reader_id writer_id writer_sn inline_qos payload).

(** [DataFrag]: a non-empty inline QoS is [todo!()] for the writer. *)
Definition write_DataFrag e (d : DataFrag) : outcome (list Z) :=
  match datafrag_inline_qos d with
  | Some (_ :: _) => Panic
  | _ =>
      Done (write_u16 e 0 ++ write_u16 e 24 ++ write_EntityId e (datafrag_reader_id d) ++
            write_EntityId e (datafrag_writer_id d) ++
            write_SequenceNumber e (datafrag_writer_sn d) ++
            write_u32 e (fragment_starting_num d) ++ write_u16 e (fragments_in_submessage d) ++
            write_u16 e (fragment_size d) ++ write_u32 e (data_size d) ++
            payload_to_bytes (datafrag_serialized_payload d))
  end.

Definition deserialize_datafrag (buf : list Z) (flags : Z) : res DataFrag :=
  let e := if contains flags Flag.Endianness then LittleEndian else BigEndian in
  _ ← read_at 0 (read_u16 e) buf;
  octets_to_inline_qos ← read_at 2 (read_u16 e) buf;
  reader_id ← read_at 4 (read_EntityId e) buf;
  writer_id ← read_at 8 (read_EntityId e) buf;
  writer_sn ← read_at 12 (read_SequenceNumber e) buf;
  starting_num ← read_at 20 (read_u32 e) buf;
  in_submessage ← read_at 24 (read_u16 e) buf;
  frag_size ← read_at 26 (read_u16 e) buf;
  size ← read_at 28 (read_u32 e) buf;
  let pos := 32 + as_u16 (octets_to_inline_qos - 28) in
  '(inline_qos, pos) ←
    (if contains flags Flag.DataFrag.InlineQos
     then q ← read_at pos (read_ParameterList e) buf;
          ok (Some q, pos + length (write_ParameterList e q))
     else ok (None, pos));
  b ← io (slice_from pos buf);
  payload ← (match payload_from_bytes b with Done (inl _) => Panic | r => r end);
  ok (mkDataFrag reader_id writer_id writer_sn starting_num in_submessage size frag_size
        inline_qos payload).

(** The group information is written bare but read as [Option]s. *)
Definition read_Heartbeat e : rd Heartbeat :=
  r ← read_EntityId e; w ← read_EntityId e;
  first ← read_SequenceNumber e; last ← read_SequenceNumber e; count ← read_i32 e;
  cg ← default_on_eof None (read_option e (read_SequenceNumber e));
  fg ← default_on_eof None (read_option e (read_SequenceNumber e));
  lg ← default_on_eof None (read_option e (read_SequenceNumber e));
  ws ← default_on_eof None (read_option e (get_octets 4));
  sws ← default_on_eof None (read_option e (get_octets 4));
  mret (mkHeartbeat r w first last count cg fg lg ws sws).
Definition write_opt {A} (f : A → list Z) (o : option A) : list Z :=
  match o with Some a => f a | None => [] end.
Definition write_Heartbeat e (h : Heartbeat) : list Z :=
  write_EntityId e (hb_reader_id h) ++ write_EntityId e (hb_writer_id h) ++
  write_SequenceNumber e (first_sn h) ++ write_SequenceNumber e (last_sn h) ++
  write_i32 e (hb_count h) ++
  write_opt (write_SequenceNumber e) (current_gsn h) ++
  write_opt (write_SequenceNumber e) (first_gsn h) ++
  write_opt (write_SequenceNumber e) (last_gsn h) ++
  write_opt id (writer_set h) ++ write_opt id (secure_writer_set h).

Definition read_Gap e : rd Gap :=
  r ← read_EntityId e; w ← read_EntityId e;
  start ← read_SequenceNumber e; gl ← read_NumberSet e (read_SequenceNumber e);
  gs ← default_on_eof None (read_option e (read_SequenceNumber e));
  ge ← default_on_eof None (read_option e (read_SequenceNumber e));
  mret (mkGap r w start gl gs ge).
Definition write_Gap e (g : Gap) : outcome (list Z) :=
  set ← write_NumberSet e (write_SequenceNumber e) (gap_list g);
  Done (write_EntityId e (gap_reader_id g) ++ write_EntityId e (gap_writer_id g) ++
        write_SequenceNumber e (gap_start g) ++ set ++
        write_opt (write_SequenceNumber e) (gap_start_gsn g) ++
        write_opt (write_SequenceNumber e) (gap_end_gsn g)).

Definition read_AckNack e : rd AckNack :=
  r ← read_EntityId e; w ← read_EntityId e;
  s ← read_NumberSet e (read_SequenceNumber e); count ← read_i32 e;
  mret (mkAckNack r w s count).
Definition write_AckNack e (a : AckNack) : outcome (list Z) :=
  set ← write_NumberSet e (write_SequenceNumber e) (reader_sn_state a);
  Done (write_EntityId e (an_reader_id a) ++ write_EntityId e (an_writer_id a) ++
        set ++ write_i32 e (an_count a)).

Definition read_NackFrag e : rd NackFrag :=
  r ← read_EntityId e; w ← read_EntityId e; sn ← read_SequenceNumber e;
  s ← read_NumberSet e (read_u32 e); count ← read_i32 e;
  mret (mkNackFrag r w sn s count).
Definition write_NackFrag e (n : NackFrag) : outcome (list Z) :=
  set ← write_NumberSet e (write_u32 e) (fragment_number_state n);
  Done (write_EntityId e (nf_reader_id n) ++ write_EntityId e (nf_writer_id n) ++
        write_SequenceNumber e (nf_writer_sn n) ++ set ++ write_i32 e (nf_count n)).

Definition read_HeartbeatFrag e : rd HeartbeatFrag :=
  r ← read_EntityId e; w ← read_EntityId e; sn ← read_SequenceNumber e;
  last ← read_u32 e; count ← read_i32 e; mret (mkHeartbeatFrag r w sn last count).
Definition write_HeartbeatFrag e (h : HeartbeatFrag) : list Z :=
  write_EntityId e (hbf_reader_id h) ++ write_EntityId e (hbf_writer_id h) ++
  write_SequenceNumber e (hbf_writer_sn h) ++ write_u32 e (last_fragment_num h) ++
  write_i32 e (hbf_count h).

Definition read_ProtocolVersion e : rd ProtocolVersion :=
  mj ← read_u8 e; mn ← read_u8 e; mret (mkProtocolVersion mj mn).
Definition write_ProtocolVersion e (v : ProtocolVersion) : list Z :=
  write_u8 e (major v) ++ write_u8 e (minor v).

Definition read_InfoSource e : rd InfoSource :=
  u ← read_i32 e; v ← read_ProtocolVersion e; vid ← get_octets 2; p ← read_GuidPrefix;
  mret (mkInfoSource u v vid p).
Definition write_InfoSource e (s : InfoSource) : list Z :=
  write_i32 e (is_unused s) ++ write_ProtocolVersion e (is_protocol_version s) ++
  is_vendor_id s ++ write_GuidPrefix (is_guid_prefix s).

(** [InfoReply] and [InfoReplyIp4] have the same fields. *)
Definition read_InfoReply e : rd InfoReply :=
  u ← read_vec e (read_Locator e); m ← read_option e (read_vec e (read_Locator e));
  mret (mkInfoReply u m).
Definition write_InfoReply e (r : InfoReply) : list Z :=
  write_vec e (write_Locator e) (ir_unicast_locator_list r) ++
  write_option e (write_vec e (write_Locator e)) (ir_multicast_locator_list r).

(** ** Submessages and messages *)
Definition write_EntitySubmessage e (s : EntitySubmessage) : outcome (list Z) :=
  match s with
  | EAckNack a _ => write_AckNack e a
  | EData d _ => Done (write_Data e d)
  | EDataFrag d _ => write_DataFrag e d
  | EGap g _ => write_Gap e g
  | EHeartBeat h _ => Done (write_Heartbeat e h)
  | EHeartbeatFrag h _ => Done (write_HeartbeatFrag e h)
  | ENackFrag n _ => write_NackFrag e n
  end.

Definition write_InterpreterSubmessage e (s : InterpreterSubmessage) : list Z :=
  match s with
  | IInfoSource s _ => write_InfoSource e s
  | IInfoDestination p _ => write_GuidPrefix p
  | IInfoReply r _ | IInfoReplyIp4 r _ => write_InfoReply e r
  | IInfoTimestamp None _ => []
  | IInfoTimestamp (Some ts) _ => write_Timestamp e ts
  end.

Definition read_SubMessageHeader e : rd SubMessageHeader :=
  i ← read_u8 e; f ← read_u8 e; l ← read_u16 e; mret (mkSubMessageHeader i f l).
Definition write_SubMessageHeader e (h : SubMessageHeader) : list Z :=
  write_u8 e (submessage_id h) ++ write_u8 e (flags h) ++ write_u16 e (submessage_length h).

Definition write_SubMessageBody e (b : SubMessageBody) : outcome (list Z) :=
  match b with
  | Entity s => write_EntitySubmessage e s
  | Interpreter s => Done (write_InterpreterSubmessage e s)
  end.
Definition write_SubMessage e (m : SubMessage) : outcome (list Z) :=
  b ← write_SubMessageBody e (sm_body m); Done (write_SubMessageHeader e (sm_header m) ++ b).

Definition read_Header e : rd Header :=
  p ← get_octets 4; v ← read_ProtocolVersion e; vid ← get_octets 2; g ← read_GuidPrefix;
  mret (mkHeader p v vid g).
Definition write_Header e (h : Header) : list Z :=
  protocol h ++ write_ProtocolVersion e (version h) ++ vendor_id h ++
  write_GuidPrefix (header_guid_prefix h).

Fixpoint write_SubMessages e (l : list SubMessage) : outcome (list Z) :=
  match l with
  | [] => Done []
  | m :: l => b ← write_SubMessage e m; bs ← write_SubMessages e l; Done (b ++ bs)
  end.
Definition write_Message e (m : Message) : outcome (list Z) :=
  bs ← write_SubMessages e (submessages m); Done (write_Header e (msg_header m) ++ bs).

(** ** [Message::new] *)

(** [BitFlags::from_bits_truncate] for a flag type with the given bits. *)
Definition truncate (mask flags : Z) : Z := Z.land flags mask.

Definition parse_body (h : SubMessageHeader) (buf : list Z) : res (option SubMessageBody) :=
  let e := get_endian h in
  let fl mask := truncate mask (flags h) in
  match get_submessagekind h with
  | DATA => d ← deserialize_data buf (fl 0x1f); ok (Some (Entity (EData d (fl 0x1f))))
  | DATA_FRAG =>
      d ← deserialize_datafrag buf (fl 0xf); ok (Some (Entity (EDataFrag d (fl 0xf))))
  | HEARTBEAT =>
      b ← from_buffer (read_Heartbeat e) buf; ok (Some (Entity (EHeartBeat b (fl 0xf))))
  | HEARTBEAT_FRAG =>
      b ← from_buffer (read_HeartbeatFrag e) buf; ok (Some (Entity (EHeartbeatFrag b (fl 1))))
  | GAP => g ← from_buffer (read_Gap e) buf; ok (Some (Entity (EGap g (fl 3))))
  | ACKNACK => a ← from_buffer (read_AckNack e) buf; ok (Some (Entity (EAckNack a (fl 3))))
  | NACK_FRAG => n ← from_buffer (read_NackFrag e) buf; ok (Some (Entity (ENackFrag n (fl 1))))
  | INFO_SRC =>
      s ← from_buffer (read_InfoSource e) buf; ok (Some (Interpreter (IInfoSource s (fl 1))))
  | INFO_DST =>
      p ← from_buffer read_GuidPrefix buf; ok (Some (Interpreter (IInfoDestination p (fl 1))))
  | INFO_TS =>
      ts ← (if contains (fl 3) Flag.InfoTimestamp.Invalidate then ok None
            else t ← from_buffer (read_Timestamp e) buf; ok (Some t));
      ok (Some (Interpreter (IInfoTimestamp ts (fl 3))))
  | INFO_REPLY =>
      r ← from_buffer (read_InfoReply e) buf; ok (Some (Interpreter (IInfoReply r (fl 3))))
  | INFO_REPLY_IP4 =>
      r ← from_buffer (read_InfoReply e) buf; ok (Some (Interpreter (IInfoReplyIp4 r (fl 3))))
  | PAD | UNKNOWN_RTPS | VENDORSPECIFIC => ok None
  end.

Definition submessage_body_len (h : SubMessageHeader) (remaining : Z) : Z :=
  if bool_decide (submessage_length h = 0)
  then match get_submessagekind h with PAD | INFO_TS => 0 | _ => remaining end
  else submessage_length h.

(** One round of the loop; the header is read in the byte order of the host
    ([read_from_buffer] without a context). *)
Definition parse_submessage (native : Endianness) (body : list Z)
    : res (option SubMessage * list Z) :=
  '(header_buf, body) ← io (split_to 4 body);
  h ← from_buffer (read_SubMessageHeader native) header_buf;
  '(body_buf, body) ← io (split_to (submessage_body_len h (length body)) body);
  b ← parse_body h body_buf;
  ok (mkSubMessage h <$> b, body).

Fixpoint parse_submessages (native : Endianness) (fuel : nat) (body : list Z)
    (acc : list SubMessage) : option (res (list SubMessage)) :=
  match body with
  | [] => Some (ok acc)
  | _ =>
      match fuel with
      | O => None
      | S fuel =>
          match parse_submessage native body with
          | Done (inr (m, body)) => parse_submessages native fuel body (acc ++ option_list m)
          | Done (inl e) => Some (err e)
          | Panic => Some Panic
          end
      end
  end.

(** Every round takes the four octets of a header away, so the length of the
    packet is enough fuel; [None] would be a loop that does not end. *)
Definition message_new (native : Endianness) (buf : list Z) : option (res Message) :=
  match split_to 20 buf with
  | Panic => Some Panic
  | Done (header_buf, body) =>
      match from_buffer (read_Header native) header_buf with
      | Done (inr h) =>
          match parse_submessages native (length body) body [] with
          | None => None
          | Some r => Some (ms ← r; ok (mkMessage h ms))
          end
      | Done (inl e) => Some (err e)
      | Panic => Some Panic
      end
  end.
End wire.
