(* ===== verification/WireProofs.v ===== *)
(** * Round trips and typing of the wire form

    What the writer of one participant emits, the parser of another one
    reads back; what the parser accepts is well typed; the parser always
    ends, and a packet with one to three octets after its last submessage
    aborts it. *)
From stdpp Require Import base tactics numbers list gmap sorting.
From S2P Require Import Prelude Ordered Ids Time SeqNum Qos HistoryCache Message Speedy Wire.

(** ** Well-typed values: every field within its machine type *)
Definition gp_wf (p : GuidPrefix) : Prop := octets 12 (guid_prefix_bytes p).
Definition guid_wf (g : GUID) : Prop := gp_wf (guid_prefix g) ∧ eid_wf (entity_id g).
Definition nset_wf (T : Z → Prop) (s : NumberSet) : Prop :=
  T (bitmap_base s) ∧ in_u 32 (num_bits s) ∧ Forall (in_u 32) (bitmap s) ∧
  Z.of_nat (length (bitmap s)) = div_ceil32 (num_bits s).
Definition loc_wf (l : Locator) : Prop :=
  in_s 32 (kind l) ∧ in_u 32 (port l) ∧ octets 16 (address l).
Definition opt_wf {A} (P : A → Prop) (o : option A) : Prop := ∀ a, o = Some a → P a.
Definition param_wf (p : Param) : Prop :=
  in_u 16 (parameter_id p) ∧ parameter_id p ≠ PID_SENTINEL ∧
  Forall octet (parameter_value p).
Definition payload_wf (p : SerializedPayload) : Prop :=
  octets 2 (representation_identifier p) ∧ octets 2 (representation_options p) ∧
  Forall octet (sp_value p) ∧ sp_value p ≠ [].

Definition data_wf (d : Data) : Prop :=
  eid_wf (data_reader_id d) ∧ eid_wf (data_writer_id d) ∧ in_s 64 (data_writer_sn d) ∧
  opt_wf (Forall param_wf) (data_inline_qos d) ∧ opt_wf payload_wf (data_serialized_payload d).
Definition datafrag_wf (d : DataFrag) : Prop :=
  eid_wf (datafrag_reader_id d) ∧ eid_wf (datafrag_writer_id d) ∧
  in_s 64 (datafrag_writer_sn d) ∧ in_u 32 (fragment_starting_num d) ∧
  in_u 16 (fragments_in_submessage d) ∧ in_u 32 (data_size d) ∧ in_u 16 (fragment_size d) ∧
  opt_wf (Forall param_wf) (datafrag_inline_qos d) ∧ payload_wf (datafrag_serialized_payload d).
Definition hb_wf (h : Heartbeat) : Prop :=
  eid_wf (hb_reader_id h) ∧ eid_wf (hb_writer_id h) ∧ in_s 64 (first_sn h) ∧
  in_s 64 (last_sn h) ∧ in_s 32 (hb_count h) ∧ opt_wf (in_s 64) (current_gsn h) ∧
  opt_wf (in_s 64) (first_gsn h) ∧ opt_wf (in_s 64) (last_gsn h) ∧
  opt_wf (octets 4) (writer_set h) ∧ opt_wf (octets 4) (secure_writer_set h).
Definition gap_wf (g : Gap) : Prop :=
  eid_wf (gap_reader_id g) ∧ eid_wf (gap_writer_id g) ∧ in_s 64 (gap_start g) ∧
  nset_wf (in_s 64) (gap_list g) ∧ opt_wf (in_s 64) (gap_start_gsn g) ∧
  opt_wf (in_s 64) (gap_end_gsn g).
Definition acknack_wf (a : AckNack) : Prop :=
  eid_wf (an_reader_id a) ∧ eid_wf (an_writer_id a) ∧ nset_wf (in_s 64) (reader_sn_state a) ∧
  in_s 32 (an_count a).
Definition nackfrag_wf (n : NackFrag) : Prop :=
  eid_wf (nf_reader_id n) ∧ eid_wf (nf_writer_id n) ∧ in_s 64 (nf_writer_sn n) ∧
  nset_wf (in_u 32) (fragment_number_state n) ∧ in_s 32 (nf_count n).
Definition hbfrag_wf (h : HeartbeatFrag) : Prop :=
  eid_wf (hbf_reader_id h) ∧ eid_wf (hbf_writer_id h) ∧ in_s 64 (hbf_writer_sn h) ∧
  in_u 32 (last_fragment_num h) ∧ in_s 32 (hbf_count h).
Definition version_wf (v : ProtocolVersion) : Prop := octet (major v) ∧ octet (minor v).
Definition infosrc_wf (s : InfoSource) : Prop :=
  in_s 32 (is_unused s) ∧ version_wf (is_protocol_version s) ∧ octets 2 (is_vendor_id s) ∧
  gp_wf (is_guid_prefix s).
Definition inforeply_wf (r : InfoReply) : Prop :=
  Forall loc_wf (ir_unicast_locator_list r) ∧
  opt_wf (Forall loc_wf) (ir_multicast_locator_list r).

Definition body_wf (b : SubMessageBody) : Prop :=
  match b with
  | Entity (EData d _) => data_wf d
  | Entity (EDataFrag d _) => datafrag_wf d
  | Entity (EHeartBeat h _) => hb_wf h
  | Entity (EHeartbeatFrag h _) => hbfrag_wf h
  | Entity (EGap g _) => gap_wf g
  | Entity (EAckNack a _) => acknack_wf a
  | Entity (ENackFrag n _) => nackfrag_wf n
  | Interpreter (IInfoSource s _) => infosrc_wf s
  | Interpreter (IInfoDestination p _) => gp_wf p
  | Interpreter (IInfoTimestamp ts _) => opt_wf Ts.wf ts
  | Interpreter (IInfoReply r _) | Interpreter (IInfoReplyIp4 r _) => inforeply_wf r
  end.
Definition smheader_wf (h : SubMessageHeader) : Prop :=
  octet (submessage_id h) ∧ octet (flags h) ∧ in_u 16 (submessage_length h).
Definition header_wf (h : Header) : Prop :=
  octets 4 (protocol h) ∧ version_wf (version h) ∧ octets 2 (vendor_id h) ∧
  gp_wf (header_guid_prefix h).
Definition submessage_wf (m : SubMessage) : Prop := smheader_wf (sm_header m) ∧ body_wf (sm_body m).
Definition message_wf (m : Message) : Prop :=
  header_wf (msg_header m) ∧ Forall submessage_wf (submessages m).

Lemma opt_wf_none {A} (P : A → Prop) : opt_wf P None.
Proof. by intros ?. Qed.
Lemma opt_wf_some {A} (P : A → Prop) a : P a → opt_wf P (Some a).
Proof. by intros ? ? [= <-]. Qed.
#[export] Hint Resolve opt_wf_none opt_wf_some : wire.

(** ** Every value read is well typed *)
Section typed.
Context `{SpeedyLaws}.

Ltac typed_reader P :=
  repeat (eapply reads_bind; [solve [eauto with wire]|]; intros);
  apply reads_ret; unfold P; cbn; split_and?; eauto with wire.

Lemma reads_EntityId e : reads (read_EntityId e) eid_wf.
Proof. typed_reader eid_wf. Qed.
Lemma reads_gp : reads read_GuidPrefix gp_wf.
Proof.
  eapply reads_bind; [by apply reads_octets|]. intros l Hl. apply reads_ret. exact Hl.
Qed.
Lemma reads_sn e : reads (read_SequenceNumber e) (in_s 64).
Proof.
  eapply reads_bind; [apply reads_i32|]. intros high _.
  eapply reads_bind; [apply reads_u32|]. intros low _. apply reads_ret, sn_of_wire_range.
Qed.
#[local] Hint Resolve reads_EntityId reads_gp reads_sn : wire.

Lemma reads_NumberSet e (r : rd Z) T : reads r T → reads (read_NumberSet e r) (nset_wf T).
Proof.
  intros Hr. eapply reads_bind; [exact Hr|]. intros base Hb.
  eapply reads_bind; [apply reads_u32|]. intros num Hnum.
  eapply reads_bind; [apply reads_n, reads_u32|]. intros map [Hlen Hmap].
  apply reads_ret. split; [done|]. split; [done|]. split; [done|]. simpl. rewrite Hlen.
  unfold in_u in Hnum. rewrite div_ceil32_alt. apply Z2Nat.id. apply Z.div_pos; lia.
Qed.

Lemma reads_oct (n : nat) : reads (get_octets n) (octets n).
Proof. rewrite <-(Nat2Z.id n) at 2. apply reads_octets. lia. Qed.
Lemma reads_oct2 : reads (get_octets 2) (octets 2).
Proof. apply (reads_oct 2). Qed.
Lemma reads_oct4 : reads (get_octets 4) (octets 4).
Proof. apply (reads_oct 4). Qed.
Lemma reads_oct16 : reads (get_octets 16) (octets 16).
Proof. apply (reads_oct 16). Qed.
Lemma reads_opt_eof {A} e (r : rd A) P :
  reads r P → reads (default_on_eof None (read_option e r)) (opt_wf P).
Proof. intros. apply reads_default_on_eof; [by apply reads_option|apply opt_wf_none]. Qed.
#[local] Hint Resolve reads_NumberSet reads_oct2 reads_oct4 reads_oct16 reads_opt_eof : wire.

Lemma reads_Timestamp e : reads (read_Timestamp e) Ts.wf.
Proof. typed_reader Ts.wf. Qed.
Lemma reads_Locator e : reads (read_Locator e) loc_wf.
Proof. typed_reader loc_wf. Qed.
Lemma reads_version e : reads (read_ProtocolVersion e) version_wf.
Proof. typed_reader version_wf. Qed.
#[local] Hint Resolve reads_Timestamp reads_Locator reads_version : wire.

Lemma reads_Heartbeat e : reads (read_Heartbeat e) hb_wf.
Proof. typed_reader hb_wf. Qed.
Lemma reads_HeartbeatFrag e : reads (read_HeartbeatFrag e) hbfrag_wf.
Proof. typed_reader hbfrag_wf. Qed.
Lemma reads_Gap e : reads (read_Gap e) gap_wf.
Proof. typed_reader gap_wf. Qed.
Lemma reads_AckNack e : reads (read_AckNack e) acknack_wf.
Proof. typed_reader acknack_wf. Qed.
Lemma reads_NackFrag e : reads (read_NackFrag e) nackfrag_wf.
Proof. typed_reader nackfrag_wf. Qed.
Lemma reads_InfoSource e : reads (read_InfoSource e) infosrc_wf.
Proof. typed_reader infosrc_wf. Qed.
Lemma reads_Header e : reads (read_Header e) header_wf.
Proof. typed_reader header_wf. Qed.
Lemma reads_SubMessageHeader e : reads (read_SubMessageHeader e) smheader_wf.
Proof. typed_reader smheader_wf. Qed.
Lemma reads_locators e : reads (read_vec e (read_Locator e)) (Forall loc_wf).
Proof. apply reads_vec, reads_Locator. Qed.
Lemma reads_opt {A} e (r : rd A) P : reads r P → reads (read_option e r) (opt_wf P).
Proof. apply reads_option. Qed.
#[local] Hint Resolve reads_locators reads_opt : wire.
Lemma reads_InfoReply e : reads (read_InfoReply e) inforeply_wf.
Proof. typed_reader inforeply_wf. Qed.

(** *** Parameter lists *)
Lemma reads_params e fuel acc :
  Forall param_wf acc → reads (read_params fuel e acc) (Forall param_wf).
Proof.
  revert acc. induction fuel as [|fuel IH]; intros acc Hacc; simpl.
  { intros buf Hbuf. by split. }
  eapply reads_bind; [apply reads_u16|]. intros pid Hpid.
  case_bool_decide as Hs; [by apply reads_ret|].
  eapply reads_bind; [apply reads_i16|]. intros len Hlen.
  eapply reads_bind; [apply reads_octets; by apply wrap_u_range|]. intros v [_ Hv].
  apply IH. apply Forall_app. split; [done|]. repeat constructor; [apply Hpid..|done|done].
Qed.

Lemma reads_ParameterList e : reads (read_ParameterList e) (Forall param_wf).
Proof. intros buf. by apply reads_params. Qed.

(** *** [res] computations *)
Definition res_post {A} (m : res A) (P : A → Prop) : Prop := ∀ a, m = Done (inr a) → P a.

Lemma res_post_bind {A B} (m : res A) (f : A → res B) (P : A → Prop) (Q : B → Prop) :
  res_post m P → (∀ a, P a → res_post (f a) Q) → res_post (m ≫= f) Q.
Proof.
  intros Hm Hf b. destruct m as [[x|a]|]; [done| |done]. intros Hb. by apply (Hf a); [apply Hm|].
Qed.
Lemma res_post_ok {A} (a : A) (P : A → Prop) : P a → res_post (ok a) P.
Proof. by intros Ha ? [= <-]. Qed.
Lemma res_post_from_buffer {A} (r : rd A) buf P :
  Forall octet buf → reads r P → res_post (from_buffer r buf) P.
Proof.
  intros Hbuf Hr a. unfold from_buffer. destruct (read_from_buffer r buf) eqn:E; [done|].
  intros [= <-]. by eapply reads_from_buffer.
Qed.
Lemma res_post_slice n buf :
  Forall octet buf → res_post (io (slice_from n buf)) (Forall octet).
Proof.
  intros Hbuf a. unfold slice_from. case_bool_decide; [|done]. intros [= <-]. by apply Forall_drop.
Qed.
Lemma res_post_read_at {A} pos (r : rd A) buf P :
  Forall octet buf → reads r P → res_post (read_at pos r buf) P.
Proof.
  intros Hbuf Hr. eapply res_post_bind; [by apply res_post_slice|].
  intros b Hb. by apply res_post_from_buffer.
Qed.
Lemma res_post_split_to n buf :
  Forall octet buf →
  res_post (io (split_to n buf)) (λ p, Forall octet p.1 ∧ Forall octet p.2).
Proof.
  intros Hbuf p. unfold split_to. case_bool_decide; [|done]. intros [= <-].
  split; [by apply Forall_take|by apply Forall_drop].
Qed.
Lemma res_post_payload buf :
  Forall octet buf → res_post (payload_from_bytes buf) payload_wf.
Proof.
  intros Hbuf p. unfold payload_from_bytes. case_bool_decide; [done|].
  case_bool_decide as Hlen; [|done]. intros [= <-]. unfold payload_wf, octets; simpl.
  rewrite !length_take, !length_drop. split_and!; try lia.
  - by apply Forall_take.
  - by apply Forall_take, Forall_drop.
  - by apply Forall_drop.
  - intros Hnil. apply (f_equal length) in Hnil. rewrite length_drop in Hnil. simpl in Hnil. lia.
Qed.
Lemma res_post_weaken {A} (m : res A) (P Q : A → Prop) :
  res_post m P → (∀ a, P a → Q a) → res_post m Q.
Proof. unfold res_post. auto. Qed.

Lemma res_post_inline_qos (b : bool) pos e buf :
  Forall octet buf →
  res_post (if b then q ← read_at pos (read_ParameterList e) buf;
                      ok (Some q, pos + length (write_ParameterList e q))
            else ok (None, pos))
    (λ p, opt_wf (Forall param_wf) p.1).
Proof.
  intros Hbuf. destruct b.
  - eapply res_post_bind; [apply res_post_read_at, reads_ParameterList; done|].
    intros q Hq. apply res_post_ok. by apply opt_wf_some.
  - apply res_post_ok, opt_wf_none.
Qed.

#[local] Hint Resolve reads_Heartbeat reads_HeartbeatFrag reads_Gap reads_AckNack reads_NackFrag
  reads_InfoSource reads_InfoReply reads_SubMessageHeader reads_Header : wire.
#[local] Hint Resolve res_post_read_at res_post_from_buffer res_post_slice res_post_payload
  res_post_inline_qos : wire.
Ltac res_steps :=
  repeat (eapply res_post_bind; [solve [eauto with wire]|]; intros).

Lemma deserialize_data_typed buf fl : Forall octet buf → res_post (deserialize_data buf fl) data_wf.
Proof.
  intros Hbuf. unfold deserialize_data. res_steps. destruct a4 as [q pos]. simpl in *.
  eapply (res_post_bind _ _ (opt_wf payload_wf)).
  - destruct (_ || _); [|apply res_post_ok, opt_wf_none]. res_steps. apply res_post_ok. by apply opt_wf_some.
  - intros p Hp. apply res_post_ok. done.
Qed.

Lemma deserialize_datafrag_typed buf fl :
  Forall octet buf → res_post (deserialize_datafrag buf fl) datafrag_wf.
Proof.
  intros Hbuf. unfold deserialize_datafrag. res_steps. destruct a8 as [q pos]. simpl in *.
  eapply res_post_bind; [eauto with wire|]. intros b Hb.
  eapply (res_post_bind _ _ payload_wf).
  - pose proof (res_post_payload b Hb) as Hp. by destruct (payload_from_bytes b) as [[?|?]|].
  - intros p Hp. by apply res_post_ok.
Qed.

Lemma parse_body_typed h buf :
  Forall octet buf → res_post (parse_body h buf) (opt_wf body_wf).
Proof.
  intros Hbuf. unfold parse_body. destruct (get_submessagekind h);
    try (apply res_post_ok, opt_wf_none);
    try (eapply res_post_bind; [eauto using deserialize_data_typed, deserialize_datafrag_typed with wire|];
         intros x Hx; apply res_post_ok, opt_wf_some; exact Hx).
  - eapply (res_post_bind _ _ (opt_wf Ts.wf)).
    + destruct (contains _ _); [apply res_post_ok, opt_wf_none|].
      eapply res_post_bind; [apply res_post_from_buffer, reads_Timestamp; done|].
      intros t Ht. apply res_post_ok. by apply opt_wf_some.
    + intros x Hx. by apply res_post_ok, opt_wf_some.
Qed.

Lemma parse_submessage_typed native body :
  Forall octet body →
  res_post (parse_submessage native body)
    (λ p, opt_wf submessage_wf p.1 ∧ Forall octet p.2).
Proof.
  intros Hbody. unfold parse_submessage.
  eapply res_post_bind; [by apply res_post_split_to|]. intros [hb body'] [Hhb Hb'].
  eapply res_post_bind; [by eauto with wire|]. intros h Hh.
  eapply res_post_bind; [by apply res_post_split_to|]. intros [bb body''] [Hbb Hb''].
  eapply res_post_bind; [by apply parse_body_typed|]. intros b Hb.
  apply res_post_ok. split; [|done]. simpl. destruct b; [|apply opt_wf_none].
  apply opt_wf_some. split; [done|]. by apply Hb.
Qed.

Lemma parse_submessages_typed native fuel body acc r :
  Forall octet body → Forall submessage_wf acc →
  parse_submessages native fuel body acc = Some r → res_post r (Forall submessage_wf).
Proof.
  revert body acc. induction fuel as [|fuel IH]; intros body acc Hbody Hacc;
    (destruct body as [|b body]; [intros [= <-]; by apply res_post_ok|]); [done|].
  cbn [parse_submessages]. pose proof (parse_submessage_typed native (b :: body) Hbody) as Ht.
  destruct (parse_submessage native (b :: body)) as [[e|[m body']]|]; try by intros [= <-].
  destruct (Ht _ eq_refl) as [Hm Hb']. apply IH; [exact Hb'|].
  apply Forall_app. split; [done|]. destruct m; simpl; [|constructor].
  constructor; [by apply Hm|constructor].
Qed.
End typed.

Lemma message_new_typed `{SpeedyLaws} native buf m :
  Forall octet buf → message_new native buf = Some (ok m) → message_wf m.
Proof.
  intros Hbuf. unfold message_new, split_to. case_bool_decide as Hlen; [|done].
  assert (Hh := res_post_from_buffer (read_Header native) (take (Z.to_nat 20) buf) header_wf
    (Forall_take _ _ _ Hbuf) (reads_Header native)).
  destruct (from_buffer _ _) as [[e|h]|]; [done| |done].
  destruct (parse_submessages _ _ _ _) as [r|] eqn:E; [|done].
  apply parse_submessages_typed in E; [|by apply Forall_drop|constructor].
  destruct r as [[e|ms]|]; intros [= <-]. split; [by apply Hh|by apply E].
Qed.


(** ** Round trips *)
Section roundtrip.
Context `{SpeedyLaws}.

Ltac wire_len :=
  unfold write_EntityId, write_SequenceNumber, write_Timestamp, write_SubMessageHeader,
    write_Header, write_ProtocolVersion, write_GuidPrefix, write_u8, write_u16, write_u32,
    write_i32, sn_to_wire; simpl;
  rewrite ?length_app, ?length_put_uint; simpl.

Lemma length_concat_const {A} (n : nat) (f : A → list Z) l :
  (∀ a, length (f a) = n) → length (concat (f <$> l)) = (n * length l)%nat.
Proof. intros Hf. induction l as [|a l IH]; [simpl; lia|]. rewrite fmap_cons. cbn [concat length]. rewrite length_app, Hf, IH. lia. Qed.

Lemma parses_octet e z : octet z → parses (read_u8 e) (write_u8 e z) z.
Proof. intros. by apply parses_u8. Qed.
#[local] Hint Resolve parses_octet : wire.

Lemma parses_EntityId e i : eid_wf i → parses (read_EntityId e) (write_EntityId e i) i.
Proof.
  destruct i as [[[k0 k1] k2] [k]]. unfold eid_wf; simpl. intros (?&?&?&?).
  unfold read_EntityId, write_EntityId; simpl. parse_steps.
Qed.
Lemma length_EntityId e i : length (write_EntityId e i) = 4%nat.
Proof. destruct i as [[[k0 k1] k2] [k]]. by wire_len. Qed.

Lemma parses_SequenceNumber e sn :
  in_s 64 sn → parses (read_SequenceNumber e) (write_SequenceNumber e sn) sn.
Proof.
  intros Hsn. pose proof (sn_wire_roundtrip sn Hsn) as Hrt.
  unfold read_SequenceNumber, write_SequenceNumber. destruct (sn_to_wire sn) as [high low].
  destruct Hrt as (Hhigh & Hlow & Heq).
  eapply parses_bind; [by apply parses_i32|]. eapply parses_bind_last; [by apply parses_u32|].
  rewrite Heq. apply parses_ret.
Qed.
Lemma length_SequenceNumber e sn : length (write_SequenceNumber e sn) = 8%nat.
Proof. by wire_len. Qed.

Lemma parses_oct (n : nat) l : octets n l → parses (get_octets n) l l.
Proof. intros [<- _]. by apply parses_octets. Qed.

Lemma parses_GuidPrefix p : gp_wf p → parses read_GuidPrefix (write_GuidPrefix p) p.
Proof.
  destruct p as [l]. intros Hl. eapply parses_bind_last; [by apply (parses_oct 12)|].
  apply parses_ret.
Qed.

Lemma parses_Timestamp e t : Ts.wf t → parses (read_Timestamp e) (write_Timestamp e t) t.
Proof.
  destruct t. intros [? ?]. unfold read_Timestamp, write_Timestamp; simpl in *. parse_steps.
Qed.

Lemma parses_NumberSet e s :
  nset_wf (in_s 64) s →
  ∃ bs, write_NumberSet e (write_SequenceNumber e) s = Done bs ∧
    parses (read_NumberSet e (read_SequenceNumber e)) bs s ∧
    Z.of_nat (length bs) = 12 + 4 * length (bitmap s).
Proof.
  destruct s as [base num map]. intros (Hb & Hn & Hm & Hlen); simpl in *.
  unfold write_NumberSet; simpl. rewrite bool_decide_true by done. eexists; split; [done|].
  split.
  - eapply parses_bind; [by apply parses_SequenceNumber|].
    eapply parses_bind; [by apply parses_u32|].
    eapply parses_bind_last; [|apply parses_ret].
    apply (parses_n (read_u32 e) (write_u32 e)); [lia|].
    eapply Forall_impl; [exact Hm|]. intros z Hz. by apply parses_u32.
  - rewrite !length_app, length_SequenceNumber, (length_concat_const 4) by (intros; apply length_put_uint).
    unfold write_u32. rewrite length_put_uint. lia.
Qed.

#[local] Hint Resolve parses_EntityId parses_SequenceNumber parses_GuidPrefix parses_Timestamp
  : wire.

(** *** Submessage bodies *)

(** What the receiver of a submessage sees: an invalidated timestamp is gone. *)
Definition received_body (b : SubMessageBody) : SubMessageBody :=
  match b with
  | Interpreter (IInfoTimestamp ts f) =>
      Interpreter (IInfoTimestamp
        (if contains f Flag.InfoTimestamp.Invalidate then None else ts) f)
  | _ => b
  end.
Definition received (m : SubMessage) : SubMessage :=
  mkSubMessage (sm_header m) (received_body (sm_body m)).

(** The submessage can be written, and its body can be read back. *)
Definition sendable (e : Endianness) (m : SubMessage) : Prop :=
  smheader_wf (sm_header m) ∧ submessage_length (sm_header m) ≠ 0 ∧
  ∃ bs, write_SubMessageBody e (sm_body m) = Done bs ∧
    Z.of_nat (length bs) = submessage_length (sm_header m) ∧
    parse_body (sm_header m) bs = ok (Some (received_body (sm_body m))).

Lemma parses_SubMessageHeader e h :
  smheader_wf h → parses (read_SubMessageHeader e) (write_SubMessageHeader e h) h.
Proof.
  destruct h. intros (?&?&?). unfold read_SubMessageHeader, write_SubMessageHeader; simpl in *.
  parse_steps.
Qed.
Lemma length_SubMessageHeader e h : length (write_SubMessageHeader e h) = 4%nat.
Proof. by wire_len. Qed.

Lemma split_to_app n (a b : list Z) :
  Z.of_nat (length a) = n → split_to n (a ++ b) = Done (a, b).
Proof.
  intros <-. unfold split_to. rewrite bool_decide_true by (rewrite length_app; lia).
  by rewrite Nat2Z.id, take_app_length, drop_app_length.
Qed.

Lemma from_buffer_end {A} (r : rd A) bs a : parses_end r bs a → from_buffer r bs = ok a.
Proof. intros Hr. unfold from_buffer. by rewrite (parses_from_buffer r bs a). Qed.
Lemma from_buffer_parses {A} (r : rd A) bs a : parses r bs a → from_buffer r bs = ok a.
Proof. intros. by apply from_buffer_end, parses_end_intro. Qed.

Lemma submessage_parses e m :
  sendable e m →
  ∃ bs, write_SubMessage e m = Done bs ∧ bs ≠ [] ∧
    ∀ rest, parse_submessage e (bs ++ rest) = ok (Some (received m), rest).
Proof.
  intros (Hh & Hne & bs & Hw & Hlen & Hp). unfold write_SubMessage. rewrite Hw.
  eexists; split; [done|]. split.
  { intros Hnil. apply (f_equal length) in Hnil. rewrite length_app, length_SubMessageHeader in Hnil.
    simpl in Hnil. lia. }
  intros rest. unfold parse_submessage. rewrite <-app_assoc, split_to_app
    by (by rewrite length_SubMessageHeader).
  cbn [io mbind res_bind ok]. rewrite (from_buffer_parses _ _ (sm_header m))
    by (by apply parses_SubMessageHeader).
  cbn [mbind res_bind ok]. unfold submessage_body_len. rewrite bool_decide_false by done.
  rewrite split_to_app by done. cbn [io mbind res_bind ok]. by rewrite Hp.
Qed.

Lemma parses_version e v :
  version_wf v → parses (read_ProtocolVersion e) (write_ProtocolVersion e v) v.
Proof.
  destruct v. intros [? ?]. unfold read_ProtocolVersion, write_ProtocolVersion; simpl in *.
  parse_steps.
Qed.

Lemma submessages_parse e ms :
  Forall (sendable e) ms →
  ∃ bs, write_SubMessages e ms = Done bs ∧
    ∀ fuel acc, (length bs ≤ fuel)%nat →
      parse_submessages e fuel bs acc = Some (ok (acc ++ (received <$> ms))).
Proof.
  induction 1 as [|m ms Hm Hms IH].
  - exists []. split; [done|]. intros fuel acc _. rewrite app_nil_r. by destruct fuel.
  - destruct (submessage_parses e m Hm) as (b & Hb & Hne & Hpm). destruct IH as (bs & Hbs & IH).
    exists (b ++ bs). cbn [write_SubMessages]. rewrite Hb, Hbs. split; [done|].
    intros fuel acc Hfuel. destruct b as [|z b]; [done|].
    specialize (Hpm bs). rewrite <-app_comm_cons in Hpm |- *.
    rewrite length_app in Hfuel. cbn [length] in Hfuel.
    destruct fuel as [|fuel]; [lia|]. cbn [parse_submessages]. rewrite Hpm. unfold ok at 1.
    rewrite IH by lia. simpl. by rewrite <-app_assoc.
Qed.

Lemma message_parses e h ms :
  header_wf h → Forall (sendable e) ms →
  ∃ bs, write_Message e (mkMessage h ms) = Done bs ∧
    message_new e bs = Some (ok (mkMessage h (received <$> ms))).
Proof.
  destruct h as [p [mj mn] v g]. intros (Hp & (Hmj & Hmn) & Hv & Hg) Hms; simpl in *.
  destruct (submessages_parse e ms Hms) as (bs & Hbs & Hparse).
  unfold write_Message; simpl. rewrite Hbs. eexists; split; [done|].
  unfold message_new. rewrite split_to_app.
  2:{ destruct Hp as [Hp _], Hv as [Hv _], Hg as [Hg _]. wire_len. lia. }
  rewrite (from_buffer_parses _ _ (mkHeader p (mkProtocolVersion mj mn) v g)).
  - cbn [ok]. by rewrite (Hparse (length bs) [] ltac:(lia)).
  - unfold read_Header, write_Header; simpl.
    eapply parses_bind; [by apply (parses_oct 4)|].
    eapply parses_bind; [by apply (parses_version e (mkProtocolVersion mj mn))|].
    eapply parses_bind; [by apply (parses_oct 2)|].
    eapply parses_bind_last; [by apply parses_GuidPrefix|]. apply parses_ret.
Qed.

(** *** The submessages of the builder *)


Lemma sendable_push e kind fl n b bs (t : Build.t) :
  octet fl → in_u 16 n → n ≠ 0 →
  write_SubMessageBody e b = Done bs → Z.of_nat (length bs) = n →
  parse_body (mkSubMessageHeader (kind_as_u8 kind) fl n) bs = ok (Some (received_body b)) →
  Forall (sendable e) t → Forall (sendable e) (Build.push kind fl n b t).
Proof.
  intros Hfl Hn Hne Hw Hlen Hp Ht. apply Forall_app. split; [done|]. apply Forall_singleton.
  split; [|split; [done|]]; simpl.
  - split; [|done]. destruct kind; concrete.
  - by exists bs.
Qed.

Lemma sendable_info_ts e ts t :
  opt_wf Ts.wf ts → Forall (sendable e) t → Forall (sendable e) (Build.info_ts e ts t).
Proof.
  intros Hts Ht. unfold Build.info_ts. destruct ts as [ts|].
  - apply (sendable_push _ _ _ _ _ (write_Timestamp e ts)); try done;
      [destruct e; concrete|by wire_len|].
    specialize (Hts _ eq_refl). unfold parse_body, get_endian; simpl.
    destruct e; simpl;
      rewrite (from_buffer_parses _ _ ts) by (by apply parses_Timestamp); reflexivity.
  - apply (sendable_push _ _ _ _ _ (write_Timestamp e Ts.TIME_INVALID)); try done;
      [destruct e; concrete|by wire_len|].
    by destruct e.
Qed.

Lemma sendable_info_dst e p t :
  gp_wf p → Forall (sendable e) t → Forall (sendable e) (Build.info_dst e p t).
Proof.
  intros Hp Ht. unfold Build.info_dst.
  apply (sendable_push _ _ _ _ _ (write_GuidPrefix p)); try done;
    [destruct e; concrete|by destruct Hp as [Hl _]; unfold write_GuidPrefix; rewrite Hl|].
  unfold parse_body; simpl.
  destruct e; simpl;
    rewrite (from_buffer_parses _ _ p) by (by apply parses_GuidPrefix); reflexivity.
Qed.

Lemma parses_end_Heartbeat e r w first last count :
  eid_wf r → eid_wf w → in_s 64 first → in_s 64 last → in_s 32 count →
  let h := mkHeartbeat r w first last count None None None None None in
  parses_end (read_Heartbeat e) (write_Heartbeat e h) h.
Proof.
  intros Hr Hw Hf Hl Hc h. subst h. unfold read_Heartbeat, write_Heartbeat; simpl.
  do 4 (eapply parses_end_bind; [by eauto with wire|]).
  eapply parses_end_bind; [by apply parses_i32|].
  do 5 (eapply parses_end_bind_nil; [apply eof_option|]). by apply parses_end_intro, parses_ret.
Qed.

Lemma sendable_heartbeat e lv w r first last count final t :
  eid_wf r → eid_wf w → in_s 64 first → in_s 64 last → in_s 32 count →
  Forall (sendable e) t → Forall (sendable e) (Build.heartbeat e lv w r first last count final t).
Proof.
  intros Hr Hw Hf Hl Hc Ht. unfold Build.heartbeat.
  apply (sendable_push _ _ _ _ _
    (write_Heartbeat e (mkHeartbeat r w first last count None None None None None))); try done.
  - destruct e, lv, final; concrete.
  - unfold write_Heartbeat; simpl. rewrite !length_app, !length_EntityId, !length_SequenceNumber.
    by wire_len.
  - unfold parse_body; simpl.
    destruct e, lv, final; simpl;
      rewrite (from_buffer_end _ _ _ (parses_end_Heartbeat _ _ _ _ _ _ Hr Hw Hf Hl Hc));
      reflexivity.
Qed.

(** The size of a number set as the builder computes it. *)
Lemma sns_size_exact s k :
  0 ≤ k → k + 12 + 4 * length (bitmap s) < 2 ^ 16 →
  as_u16 (k + sns_size s) = k + 12 + 4 * length (bitmap s).
Proof. intros. unfold sns_size. wrap_small. lia. Qed.

Lemma sendable_acknack e w r s count final t :
  eid_wf r → eid_wf w → nset_wf (in_s 64) s → 24 + 4 * length (bitmap s) < 2 ^ 16 →
  in_s 32 count → Forall (sendable e) t → Forall (sendable e) (Build.acknack e w r s count final t).
Proof.
  intros Hr Hw Hs Hlen Hc Ht. unfold Build.acknack.
  destruct (parses_NumberSet e s Hs) as (bs & Hbs & Hp & Hbl).
  eapply (sendable_push _ _ _ _ _
    (write_EntityId e r ++ write_EntityId e w ++ bs ++ write_i32 e count)); try done.
  - destruct e, final; concrete.
  - apply wrap_u_range. lia.
  - rewrite sns_size_exact by lia. lia.
  - simpl. unfold write_AckNack; simpl. by rewrite Hbs.
  - rewrite sns_size_exact by lia. rewrite !length_app, !length_EntityId. unfold write_i32.
    rewrite length_put_uint. lia.
  - assert (from_buffer (read_AckNack e) (write_EntityId e r ++ write_EntityId e w ++ bs ++
      write_i32 e count) = ok (mkAckNack r w s count)) as Hfb.
    { apply from_buffer_parses. unfold read_AckNack.
      eapply parses_bind; [by eauto with wire|]. eapply parses_bind; [by eauto with wire|].
      eapply parses_bind; [exact Hp|]. eapply parses_bind_last; [by apply parses_i32|].
      apply parses_ret. }
    unfold parse_body. change (get_submessagekind _) with ACKNACK. cbv iota beta zeta.
    assert (∀ n, get_endian (mkSubMessageHeader (kind_as_u8 ACKNACK)
      (if final then Z.lor (from_enndianness e) Flag.AckNack.Final else from_enndianness e) n) = e)
      as -> by (intros; by destruct e, final).
    rewrite Hfb. by destruct e, final.
Qed.

Lemma sendable_gap e w r start s t :
  eid_wf r → eid_wf w → in_s 64 start → nset_wf (in_s 64) s →
  28 + 4 * length (bitmap s) < 2 ^ 16 →
  Forall (sendable e) t → Forall (sendable e) (Build.gap e w r start s t).
Proof.
  intros Hr Hw Hst Hs Hlen Ht. unfold Build.gap.
  destruct (parses_NumberSet e s Hs) as (bs & Hbs & Hp & Hbl).
  eapply (sendable_push _ _ _ _ _
    (write_EntityId e r ++ write_EntityId e w ++ write_SequenceNumber e start ++ bs ++ [])); try done.
  - destruct e; concrete.
  - apply wrap_u_range. lia.
  - rewrite sns_size_exact by lia. lia.
  - simpl. unfold write_Gap; simpl. by rewrite Hbs.
  - rewrite sns_size_exact by lia.
    rewrite !length_app, !length_EntityId, length_SequenceNumber. simpl. lia.
  - assert (from_buffer (read_Gap e) (write_EntityId e r ++ write_EntityId e w ++
      write_SequenceNumber e start ++ bs ++ []) = ok (mkGap r w start s None None)) as Hfb.
    { apply from_buffer_end. unfold read_Gap. do 3 (eapply parses_end_bind; [by eauto with wire|]).
      eapply parses_end_bind; [exact Hp|].
      do 2 (eapply parses_end_bind_nil; [apply eof_option|]). by apply parses_end_intro, parses_ret. }
    unfold parse_body. change (get_submessagekind _) with GAP. cbv iota beta zeta.
    assert (∀ n, get_endian (mkSubMessageHeader (kind_as_u8 GAP) (from_enndianness e) n) = e)
      as -> by (intros; by destruct e).
    rewrite Hfb. by destruct e.
Qed.

(** *** DATA: fields at fixed positions *)
Lemma read_at_app {A} pos (r : rd A) pre cur post a buf :
  buf = pre ++ cur ++ post → Z.of_nat (length pre) = pos → parses r cur a →
  read_at pos r buf = ok a.
Proof.
  intros -> <- Hr. unfold read_at, slice_from. rewrite bool_decide_true
    by (rewrite length_app; lia).
  rewrite Nat2Z.id, drop_app_length. cbn [io mbind res_bind ok]. unfold from_buffer.
  by rewrite (parses_prefix r cur post a Hr).
Qed.

Lemma payload_to_from p : payload_wf p → payload_from_bytes (payload_to_bytes p) = ok p.
Proof.
  destruct p as [i o v]. intros ([Hi _] & [Ho _] & _ & Hv); simpl in *.
  destruct i as [|i0 [|i1 [|? ?]]]; try done. destruct o as [|o0 [|o1 [|? ?]]]; try done.
  destruct v as [|v0 v]; [done|]. unfold payload_from_bytes, payload_to_bytes; simpl.
  rewrite bool_decide_false, bool_decide_true by lia. reflexivity.
Qed.

Lemma deserialize_data_written e r w sn sp fl :
  eid_wf r → eid_wf w → in_s 64 sn → opt_wf payload_wf sp →
  (if contains fl Flag.Endianness then LittleEndian else BigEndian) = e →
  contains fl Flag.Data.InlineQos = false → contains fl Flag.Data.Key = false →
  contains fl Flag.Data.Data = bool_decide (is_Some sp) →
  deserialize_data (write_Data e (mkData r w sn None sp)) fl = ok (mkData r w sn None sp).
Proof.
  intros Hr Hw Hsn Hsp He Hq Hk Hd. unfold deserialize_data. rewrite He, Hq, Hk, Hd.
  set (s0 := write_u16 e 0). set (s1 := write_u16 e 16). set (s2 := write_EntityId e r).
  set (s3 := write_EntityId e w). set (s4 := write_SequenceNumber e sn).
  set (s5 := match sp with Some p => payload_to_bytes p | None => [] end).
  assert (write_Data e (mkData r w sn None sp) = s0 ++ s1 ++ s2 ++ s3 ++ s4 ++ s5) as -> by done.
  assert (length s0 = 2%nat ∧ length s1 = 2%nat ∧ length s2 = 4%nat ∧ length s3 = 4%nat ∧
          length s4 = 8%nat) as (H0' & H1' & H2' & H3' & H4').
  { subst s0 s1 s2 s3 s4. rewrite !length_EntityId, length_SequenceNumber.
    unfold write_u16. by rewrite !length_put_uint. }
  rewrite (read_at_app 0 (read_u16 e) [] s0 (s1 ++ s2 ++ s3 ++ s4 ++ s5) 0);
    [|done|done|by apply parses_u16]. cbn [mbind res_bind ok].
  rewrite (read_at_app 2 (read_u16 e) s0 s1 (s2 ++ s3 ++ s4 ++ s5) 16);
    [|done|by rewrite H0'|by apply parses_u16]. cbn [mbind res_bind ok].
  rewrite (read_at_app 4 (read_EntityId e) (s0 ++ s1) s2 (s3 ++ s4 ++ s5) r);
    [|by rewrite <-!app_assoc|rewrite !length_app; lia|by apply parses_EntityId].
  cbn [mbind res_bind ok].
  rewrite (read_at_app 8 (read_EntityId e) (s0 ++ s1 ++ s2) s3 (s4 ++ s5) w);
    [|by rewrite <-!app_assoc|rewrite !length_app; lia|by apply parses_EntityId].
  cbn [mbind res_bind ok].
  rewrite (read_at_app 12 (read_SequenceNumber e) (s0 ++ s1 ++ s2 ++ s3) s4 s5 sn);
    [|by rewrite <-!app_assoc|rewrite !length_app; lia|by apply parses_SequenceNumber].
  cbn [mbind res_bind ok]. change (20 + as_u16 (16 - 16)) with 20.
  destruct sp as [p|]; [|done].
  rewrite bool_decide_true by eauto. cbn [orb].
  assert (slice_from 20 (s0 ++ s1 ++ s2 ++ s3 ++ s4 ++ s5) = Done s5) as ->.
  { unfold slice_from. rewrite bool_decide_true by (rewrite !length_app; lia). f_equal.
    rewrite !app_assoc. rewrite drop_app_length'; [done|]. rewrite !length_app. lia. }
  cbn [io mbind res_bind ok]. subst s5. rewrite payload_to_from by (by apply Hsp). done.
Qed.

(** A change whose payload is not empty and fits one submessage. *)
Definition change_sendable (c : CacheChange) : Prop :=
  in_s 64 (sequence_number c) ∧
  opt_wf (λ p, payload_wf p ∧ 24 + length (sp_value p) < 2 ^ 16) (data_value c).

Lemma sendable_data e w r c t :
  eid_wf r → eid_wf w → change_sendable c →
  Forall (sendable e) t → Forall (sendable e) (Build.data e w r c t).
Proof.
  intros Hr Hw [Hsn Hc] Ht. unfold Build.data.
  assert (opt_wf payload_wf (data_value c)) as Hp by (intros p Hp; by apply Hc).
  set (bs := write_Data e (mkData r w (sequence_number c) None (data_value c))).
  assert (Hlen : Z.of_nat (length bs) =
    20 + match data_value c with Some p => 4 + Z.of_nat (length (sp_value p)) | None => 0 end).
  { subst bs. unfold write_Data; simpl.
    rewrite !length_app, !length_EntityId, length_SequenceNumber. unfold write_u16.
    rewrite !length_put_uint. destruct (data_value c) as [p|]; [|done].
    destruct (Hp p eq_refl) as ([Hi _] & [Ho _] & _). unfold payload_to_bytes.
    rewrite !length_app, Hi, Ho. lia. }
  destruct (data_value c) as [p|] eqn:Hdv.
  - destruct (Hc p eq_refl) as [_ Hsmall].
    assert (as_u16 (2 + 2 + 4 + 4 + 8 + 0 + (4 + length (sp_value p))) =
            24 + length (sp_value p)) as -> by (wrap_small; lia).
    apply (sendable_push _ _ _ _ _ bs); try done.
    + destruct e; concrete.
    + unfold in_u. lia.
    + lia.
    + rewrite Hlen. lia.
    + unfold parse_body; simpl. subst bs.
      destruct e; simpl; rewrite deserialize_data_written; (reflexivity || done).
  - apply (sendable_push _ _ _ _ _ bs); try done.
    + destruct e; concrete.
    + unfold parse_body; simpl. subst bs.
      destruct e; simpl; rewrite deserialize_data_written; (reflexivity || done).
Qed.

(** *** Whole messages *)

(** What [MessageBuilder] can produce, within the limits of the wire form. *)
Inductive builds (e : Endianness) : Build.t → Prop :=
| builds_new : builds e Build.new
| builds_info_ts ts t : opt_wf Ts.wf ts → builds e t → builds e (Build.info_ts e ts t)
| builds_info_dst p t : gp_wf p → builds e t → builds e (Build.info_dst e p t)
| builds_acknack w r s count final t :
    eid_wf r → eid_wf w → nset_wf (in_s 64) s → 24 + 4 * length (bitmap s) < 2 ^ 16 →
    in_s 32 count → builds e t → builds e (Build.acknack e w r s count final t)
| builds_heartbeat lv w r first last count final t :
    eid_wf r → eid_wf w → in_s 64 first → in_s 64 last → in_s 32 count →
    builds e t → builds e (Build.heartbeat e lv w r first last count final t)
| builds_data w r c t :
    eid_wf r → eid_wf w → change_sendable c → builds e t → builds e (Build.data e w r c t)
| builds_gap w r start s t :
    eid_wf r → eid_wf w → in_s 64 start → nset_wf (in_s 64) s →
    28 + 4 * length (bitmap s) < 2 ^ 16 → builds e t → builds e (Build.gap e w r start s t).

Lemma builds_sendable e t : builds e t → Forall (sendable e) t.
Proof.
  induction 1; [constructor|..];
    auto using sendable_info_ts, sendable_info_dst, sendable_acknack, sendable_heartbeat,
      sendable_data, sendable_gap.
Qed.

(** C34. Every message the builder makes can be written, and a participant with
    the same byte order reads back the header and the submessages that were
    put in, in their order; only the placeholder of an invalidated timestamp
    is dropped. *)
Theorem built_message_roundtrip e p t :
  gp_wf p → builds e t →
  ∃ bs, write_Message e (Build.build p t) = Done bs ∧
    message_new e bs = Some (ok (mkMessage (header_new p) (received <$> t))).
Proof.
  intros Hp Ht. apply message_parses; [|by apply builds_sendable].
  split; [concrete|]. split; [split; concrete|]. split; [concrete|exact Hp].
Qed.

(** ** The loop of [Message::new] ends *)

Lemma parse_submessage_consumes native body m body' :
  parse_submessage native body = Done (inr (m, body')) → (length body' + 4 ≤ length body)%nat.
Proof.
  unfold parse_submessage, split_to. case_bool_decide as Hlen; [|done]. cbn [io mbind res_bind ok].
  destruct (from_buffer _ _) as [[?|h]|]; [done| |done]. cbn [mbind res_bind].
  case_bool_decide as Hl2; [|done]. cbn [io mbind res_bind ok].
  destruct (parse_body _ _) as [[?|b]|]; [done| |done]. cbn. intros [= _ <-].
  rewrite !length_drop. lia.
Qed.

Lemma parse_submessages_total native fuel body acc :
  (length body ≤ fuel)%nat → ∃ r, parse_submessages native fuel body acc = Some r.
Proof.
  revert body acc. induction fuel as [|fuel IH]; intros body acc Hfuel;
    (destruct body as [|z body]; [by eexists|]); [simpl in Hfuel; lia|].
  cbn [parse_submessages].
  destruct (parse_submessage native (z :: body)) as [[e|[m body']]|] eqn:E; [by eexists| |by eexists].
  apply IH. apply parse_submessage_consumes in E. simpl in *. lia.
Qed.


(** A packet that goes on with one to three octets after its header, too few
    for a submessage header, aborts the process. *)
Theorem short_tail_panics native h tail :
  header_wf h → 1 ≤ length tail ≤ 3 →
  message_new native (write_Header native h ++ tail) = Some Panic.
Proof.
  intros Hh Htail. destruct h as [p [mj mn] v g].
  destruct (message_parses native (mkHeader p (mkProtocolVersion mj mn) v g) [] Hh) as (bs & Hw & Hp);
    [constructor|].
  unfold write_Message in Hw. simpl in Hw. injection Hw as <-. rewrite app_nil_r in Hp.
  destruct Hh as ([Hl1 _] & _ & [Hl2 _] & [Hl3 _]); simpl in *.
  assert (Hlen : Z.of_nat (length (write_Header native (mkHeader p (mkProtocolVersion mj mn) v g))) = 20)
    by (wire_len; lia).
  unfold message_new in *. rewrite split_to_app by done.
  rewrite <-(app_nil_r (write_Header _ _)), split_to_app in Hp by done.
  destruct (from_buffer _ _) as [[?|hd]|]; [done| |done].
  destruct tail as [|z tail]; [simpl in Htail; lia|].
  cbn [length parse_submessages]. unfold parse_submessage, split_to.
  rewrite bool_decide_false by (simpl in *; lia). done.
Qed.
End roundtrip.

(** ** Concrete runs *)
Module WireSample.
Import Concrete.

Definition prefix : GuidPrefix := mkGuidPrefix [1; 2; 3; 4; 5; 6; 7; 8; 9; 10; 11; 12].
Definition wid : EntityId := mkEntityId (0, 0, 1) Kind.WRITER_NO_KEY_USER_DEFIND.
Definition rid : EntityId := mkEntityId (0, 0, 1) Kind.READER_NO_KEY_USER_DEFIND.
Definition change (v : list Z) : CacheChange :=
  mkCacheChange Alive (mkGUID prefix wid) 3 (mkTimestamp 1 0)
    (Some (mkSerializedPayload [0; 1] [0; 0] v)).
Definition set : NumberSet := mkNumberSet 5 3 [0xA0000000].

(** INFO_DST, INFO_TS without a time, DATA, HEARTBEAT, GAP and ACKNACK. *)
Definition builder (e : Endianness) (v : list Z) : Build.t :=
  Build.acknack e wid rid set 7 false
    (Build.gap e wid rid 4 set
      (Build.heartbeat e true wid rid 1 9 2 true
        (Build.data e wid rid (change v)
          (Build.info_ts e None (Build.info_dst e prefix Build.new))))).

Lemma builder_builds e v :
  Forall octet v → v ≠ [] → 24 + length v < 2 ^ 16 → builds e (builder e v).
Proof.
  intros Hv Hne Hlen. unfold builder.
  assert (eid_wf wid ∧ eid_wf rid ∧ nset_wf (in_s 64) set ∧ gp_wf prefix) as (Hw & Hr & Hs & Hp).
  { unfold eid_wf, octet, nset_wf, gp_wf, octets. simpl. split_and!; try lia; try done;
      repeat constructor; unfold octet, in_u, in_s; lia. }
  apply builds_acknack, builds_gap, builds_heartbeat, builds_data, builds_info_ts, builds_info_dst,
    builds_new; try done.
  split; [split; simpl; lia|]. apply opt_wf_some. split; [|done].
  split; [concrete|]. split; [concrete|]. done.
Qed.

(** The octets the writer emits. *)
Definition written (e : Endianness) (t : Build.t) : list Z :=
  match write_Message e (Build.build prefix t) with Done bs => bs | Panic => [] end.
End WireSample.

Section wire_witnesses.
Import WireSample Concrete.

Lemma built_message_roundtrip_witness :
  ∃ bs, write_Message BigEndian (Build.build prefix (builder BigEndian [42])) = Done bs ∧
    message_new BigEndian bs =
      Some (ok (mkMessage (header_new prefix) (received <$> builder BigEndian [42]))).
Proof.
  apply (built_message_roundtrip BigEndian prefix (builder BigEndian [42])).
  - split; [reflexivity|]. unfold octet. repeat constructor; lia.
  - apply builder_builds; [repeat constructor; unfold octet; lia|discriminate|simpl; lia].
Defined.



Lemma short_tail_panics_witness :
  message_new LittleEndian (write_Header LittleEndian (header_new prefix) ++ [0; 0]) = Some Panic.
Proof.
  apply short_tail_panics; [|simpl; lia].
  split; [split; [reflexivity|repeat constructor; unfold octet; simpl; lia]|].
  split; [split; unfold octet; simpl; lia|].
  split; split; try reflexivity; repeat constructor; unfold octet; simpl; lia.
Defined.

(** The octets of the unit tests of heartbeat.rs, acknack.rs and data.rs. *)
Example test_heartbeat :
  read_from_buffer (read_Heartbeat LittleEndian)
    [0x00; 0x00; 0x00; 0x00; 0x00; 0x01; 0x00; 0xC2; 0x00; 0x00; 0x00; 0x00; 0x04; 0x00;
     0x00; 0x00; 0x00; 0x00; 0x00; 0x00; 0x04; 0x00; 0x00; 0x00; 0x05; 0x00; 0x00; 0x00] =
  inr (mkHeartbeat Eid.UNKNOW Eid.SPDP_BUILTIN_PARTICIPANT_ANNOUNCER 4 4 5
         None None None None None).
Proof. vm_compute. reflexivity. Qed.

Example test_acknack :
  read_from_buffer (read_AckNack LittleEndian)
    [0x00; 0x00; 0x03; 0xc7; 0x00; 0x00; 0x03; 0xc2; 0x00; 0x00; 0x00; 0x00; 0x01; 0x00;
     0x00; 0x00; 0x01; 0x00; 0x00; 0x00; 0x00; 0x00; 0x00; 0x80; 0x03; 0x00; 0x00; 0x00] =
  inr (mkAckNack Eid.SEDP_BUILTIN_PUBLICATIONS_DETECTOR Eid.SEDP_BUILTIN_PUBLICATIONS_ANNOUNCER
         (mkNumberSet 1 1 [0x80000000]) 3).
Proof. vm_compute. reflexivity. Qed.

Example test_data :
  deserialize_data
    [0x00; 0x00; 0x10; 0x00; 0x00; 0x01; 0x00; 0xC7; 0x00; 0x01; 0x00; 0xC2; 0x00; 0x00;
     0x00; 0x00; 0x02; 0x00; 0x00; 0x00; 0x71; 0x00; 0x04; 0x00; 0x00; 0x00; 0x00; 0x03;
     0x01; 0x00; 0x00; 0x00] 0x03 =
  ok (mkData Eid.SPDP_BUILTIN_PARTICIPANT_DETECTOR Eid.SPDP_BUILTIN_PARTICIPANT_ANNOUNCER 2
        (Some [mkParam 0x71 [0; 0; 0; 3]]) None).
Proof. vm_compute. reflexivity. Qed.

(** The length of a submessage is read in the byte order of the host and not
    in that of the E flag: a big-endian message aborts a little-endian host. *)
Example big_endian_message_panics :
  message_new LittleEndian
    (written BigEndian (Build.heartbeat BigEndian false wid rid 1 9 2 true Build.new)) =
  Some Panic.
Proof. vm_compute. reflexivity. Qed.

(** A sample with an empty payload makes the receiver drop the whole packet. *)
Example empty_payload_rejected :
  message_new LittleEndian (written LittleEndian (builder LittleEndian [])) =
  Some (err DataTooSmall).
Proof. vm_compute. reflexivity. Qed.

(** DATA with the D flag and less than a payload header, or with
    octetsToInlineQos below 16, aborts the receiver. *)
Example truncated_payload_panics :
  deserialize_data (write_Data LittleEndian (mkData rid wid 1 None None) ++ [0; 1]) 5 = Panic.
Proof. vm_compute. reflexivity. Qed.
Example short_octets_to_inline_qos_panics :
  deserialize_data
    (write_u16 LittleEndian 0 ++ write_u16 LittleEndian 12 ++ write_EntityId LittleEndian rid ++
     write_EntityId LittleEndian wid ++ write_SequenceNumber LittleEndian 1 ++ replicate 8 0) 5 =
  Panic.
Proof. vm_compute. reflexivity. Qed.

(** The group information of a heartbeat is written bare but read as
    [Option]s, so it does not come back. *)
Example group_info_not_roundtrip :
  let h := mkHeartbeat rid wid 1 9 2 (Some 3) (Some 1) (Some 3) None None in
  read_from_buffer (read_Heartbeat LittleEndian) (write_Heartbeat LittleEndian h) ≠ inr h.
Proof. vm_compute. discriminate. Qed.

(** A parameter list written in big-endian order is not read back: the
    sentinel is one 32-bit number. *)
Example big_endian_sentinel :
  read_from_buffer (read_ParameterList BigEndian) (write_ParameterList BigEndian []) = inl Eof.
Proof. vm_compute. reflexivity. Qed.
End wire_witnesses.
