(* ===== verification/ParameterList.v ===== *)
(** * The wire form of discovery data

    [Readable]/[Writable] of the policies (src/src/dds/qos.rs), of the proxies
    (src/src/structure/proxy.rs) and of the discovery data
    (src/src/discovery/structure/data.rs): the parameter lists that SPDP and
    SEDP exchange.  The reader of a parameter list contains assertions, so its
    monad has panics besides errors. *)
From stdpp Require Import base tactics numbers list gmap strings.
From coqutil Require Import Datatypes.RecordSetters.
From S2P Require Import Prelude Ordered Ids Time SeqNum Qos Topic HistoryCache Message Proxy Writer.
From S2P Require Import DiscoveryData Speedy Wire.
Import OCamlLikeNotations.

(** ** Parameter ids *)
Module Pid.
Definition PAD : Z := 0x0000.
Definition SENTINEL : Z := 0x0001.
Definition PARTICIPANT_LEASE_DURATION : Z := 0x0002.
Definition TIME_BASED_FILTER : Z := 0x0004.
Definition TOPIC_NAME : Z := 0x0005.
Definition OWNERSHIP_STRENGTH : Z := 0x0006.
Definition TYPE_NAME : Z := 0x0007.
Definition DOMAIN_ID : Z := 0x000f.
Definition PROTOCOL_VERSION : Z := 0x0015.
Definition VENDOR_ID : Z := 0x0016.
Definition RELIABILITY : Z := 0x001a.
Definition LIVELINESS : Z := 0x001b.
Definition DURABILITY : Z := 0x001d.
Definition DURABILITY_SERVICE : Z := 0x001e.
Definition OWNERSHIP : Z := 0x001f.
Definition PRESENTATION : Z := 0x0021.
Definition DEADLINE : Z := 0x0023.
Definition DESTINATION_ORDER : Z := 0x0025.
Definition LATENCY_BUDGET : Z := 0x0027.
Definition PARTITION : Z := 0x0029.
Definition LIFESPAN : Z := 0x002b.
Definition USER_DATA : Z := 0x002c.
Definition GROUP_DATA : Z := 0x002d.
Definition TOPIC_DATA : Z := 0x002e.
Definition UNICAST_LOCATOR : Z := 0x002f.
Definition MULTICAST_LOCATOR : Z := 0x0030.
Definition DEFAULT_UNICAST_LOCATOR : Z := 0x0031.
Definition METATRAFFIC_UNICAST_LOCATOR : Z := 0x0032.
Definition METATRAFFIC_MULTICAST_LOCATOR : Z := 0x0033.
Definition PARTICIPANT_MANUAL_LIVELINESS_COUNT : Z := 0x0034.
Definition HISTORY : Z := 0x0040.
Definition RESOURCE_LIMITS : Z := 0x0041.
Definition EXPECTS_INLINE_QOS : Z := 0x0043.
Definition DEFAULT_MULTICAST_LOCATOR : Z := 0x0048.
Definition TRANSPORT_PRIORITY : Z := 0x0049.
Definition PARTICIPANT_GUID : Z := 0x0050.
Definition BUILTIN_ENDPOINT_SET : Z := 0x0058.
Definition PROPERTY_LIST : Z := 0x0059.
Definition ENDPOINT_GUID : Z := 0x005a.
Definition TYPE_MAX_SIZE_SERIALIZED : Z := 0x0060.
Definition ENTITY_NAME : Z := 0x0062.
Definition DOMAIN_TAG : Z := 0x4014.
End Pid.

(** ** Strings: a Rust string is its octets *)
Definition octet_of_ascii (c : Ascii.ascii) : Z := Z.of_N (Ascii.N_of_ascii c).
Definition ascii_of_octet (z : Z) : Ascii.ascii := Ascii.ascii_of_N (Z.to_N z).
Fixpoint as_bytes (s : string) : list Z :=
  match s with
  | EmptyString => []
  | String c s => octet_of_ascii c :: as_bytes s
  end.
Fixpoint from_utf8_unchecked (l : list Z) : string :=
  match l with
  | [] => EmptyString
  | z :: l => String (ascii_of_octet z) (from_utf8_unchecked l)
  end.

(** ** A reader that can panic *)
Definition prd (A : Type) : Type := list Z → outcome (list Z * (ReadError + A)).
#[export] Instance prd_ret : MRet prd := λ A a buf, Done (buf, inr a).
#[export] Instance prd_bind : MBind prd := λ A B f r buf,
  match r buf with
  | Done (buf', inr a) => f a buf'
  | Done (buf', inl e) => Done (buf', inl e)
  | Panic => Panic
  end.
Definition lift {A} (r : rd A) : prd A := λ buf, Done (r buf).
Definition prd_panic {A} : prd A := λ _, Panic.
Definition prd_of {A} (m : outcome A) : prd A := λ buf,
  match m with Done a => Done (buf, inr a) | Panic => Panic end.

Section policies.
Context `{Speedy}.

Definition skip (n : Z) : rd unit := _ ← get_octets n; mret tt.
Definition zeros (n : Z) : list Z := replicate (Z.to_nat n) 0.

(** [#[repr(i32)]] enumerations. *)
Definition read_enum {A} e (f : Z → option A) : rd A :=
  v ← read_i32 e; match f v with Some a => mret a | None => rd_fail Invalid end.
Definition write_enum {A} e (f : A → Z) (a : A) : list Z := write_i32 e (f a).

Definition read_Duration e : rd Duration :=
  s ← read_i32 e; f ← read_u32 e; mret (mkDuration s f).
Definition write_Duration e (d : Duration) : list Z :=
  write_i32 e (seconds d) ++ write_u32 e (fraction d).

Definition read_Durability e : rd Durability := read_enum e durability_read.
Definition write_Durability e (q : Durability) : list Z := write_enum e durability_disc q.
Definition read_Ownership e : rd Ownership := read_enum e ownership_read.
Definition write_Ownership e (q : Ownership) : list Z := write_enum e ownership_disc q.
Definition read_DestinationOrder e : rd DestinationOrder := read_enum e destination_order_read.
Definition write_DestinationOrder e (q : DestinationOrder) : list Z :=
  write_enum e destination_order_disc q.
Definition read_HistoryQosKind e : rd HistoryQosKind := read_enum e history_kind_read.
Definition write_HistoryQosKind e (q : HistoryQosKind) : list Z := write_enum e history_kind_disc q.

Definition read_DurabilityService e : rd DurabilityService :=
  d ← read_Duration e; k ← read_HistoryQosKind e; n ← read_i32 e;
  ms ← read_i32 e; mi ← read_i32 e; mp ← read_i32 e;
  mret (mkDurabilityService d k n ms mi mp).
Definition write_DurabilityService e (q : DurabilityService) : list Z :=
  write_Duration e (service_cleanup_delay q) ++ write_HistoryQosKind e (ds_history_kind q) ++
  write_i32 e (ds_history_depth q) ++ write_i32 e (ds_max_samples q) ++
  write_i32 e (ds_max_instance q) ++ write_i32 e (ds_max_samples_per_instanse q).

Definition read_Deadline e : rd Deadline := d ← read_Duration e; mret (mkDeadline d).
Definition write_Deadline e (q : Deadline) : list Z := write_Duration e (period q).
Definition read_LatencyBudget e : rd LatencyBudget := d ← read_Duration e; mret (mkLatencyBudget d).
Definition write_LatencyBudget e (q : LatencyBudget) : list Z := write_Duration e (latency q).
Definition read_TimeBasedFilter e : rd TimeBasedFilter :=
  d ← read_Duration e; mret (mkTimeBasedFilter d).
Definition write_TimeBasedFilter e (q : TimeBasedFilter) : list Z :=
  write_Duration e (minimun_separation q).
Definition read_Lifespan e : rd Lifespan := d ← read_Duration e; mret (mkLifespan d).
Definition write_Lifespan e (q : Lifespan) : list Z := write_Duration e (lifespan_duration q).

Definition read_Liveliness e : rd Liveliness :=
  k ← read_enum e liveliness_kind_read; d ← read_Duration e; mret (mkLiveliness k d).
Definition write_Liveliness e (q : Liveliness) : list Z :=
  write_enum e liveliness_kind_disc (liveliness_kind q) ++ write_Duration e (lease_duration q).
Definition read_Reliability e : rd Reliability :=
  k ← read_enum e reliability_kind_read; d ← read_Duration e; mret (mkReliability k d).
Definition write_Reliability e (q : Reliability) : list Z :=
  write_enum e reliability_kind_disc (reliability_kind q) ++ write_Duration e (max_bloking_time q).

Definition read_History e : rd History :=
  k ← read_HistoryQosKind e; d ← read_i32 e; mret (mkHistory k d).
Definition write_History e (q : History) : list Z :=
  write_HistoryQosKind e (history_kind q) ++ write_i32 e (depth q).
Definition read_ResourceLimits e : rd ResourceLimits :=
  a ← read_i32 e; b ← read_i32 e; c ← read_i32 e; mret (mkResourceLimits a b c).
Definition write_ResourceLimits e (q : ResourceLimits) : list Z :=
  write_i32 e (max_samples q) ++ write_i32 e (max_instance q) ++
  write_i32 e (max_samples_per_instanse q).
Definition read_OwnershipStrength e : rd OwnershipStrength :=
  v ← read_i32 e; mret (mkOwnershipStrength v).
Definition write_OwnershipStrength e (q : OwnershipStrength) : list Z := write_i32 e (strength q).
Definition read_TransportPriority e : rd TransportPriority :=
  v ← read_i32 e; mret (mkTransportPriority v).
Definition write_TransportPriority e (q : TransportPriority) : list Z := write_i32 e (priority q).

(** [UserData] has a 32-bit length; [TopicData] and [GroupData] are written
    with a 32-bit length and read with a 16-bit one. *)
Definition write_bytes32 e (v : list Z) : list Z :=
  write_u32 e (as_u32 (length v)) ++ v ++ zeros (pad_len (length v)).
Definition read_UserData e : rd UserData :=
  n ← read_u32 e; v ← get_octets n; _ ← skip (pad_len n); mret (mkUserData v).
Definition write_UserData e (q : UserData) : list Z := write_bytes32 e (user_data_value q).
Definition read_bytes16 e : rd (list Z) :=
  n ← read_u16 e; v ← get_octets n; _ ← skip (pad_len n); mret v.
Definition read_TopicData e : rd TopicData := v ← read_bytes16 e; mret (mkTopicData v).
Definition write_TopicData e (q : TopicData) : list Z := write_bytes32 e (topic_data_value q).
Definition read_GroupData e : rd GroupData := v ← read_bytes16 e; mret (mkGroupData v).
Definition write_GroupData e (q : GroupData) : list Z := write_bytes32 e (group_data_value q).
Definition serialized_size (v : list Z) : Z :=
  as_u16 (as_u16 (4 + as_u16 (length v)) + as_u16 (pad_len (length v))).

(** The padding behind a [Presentation] is written here and skipped by the
    caller. *)
Definition access_scope_disc (k : PresentationQosAccessScopeKind) : Z :=
  match k with ScopeInstance => 0 | ScopeTopic => 1 | ScopeGroup => 2 end.
Definition access_scope_read (v : Z) : option PresentationQosAccessScopeKind :=
  match v with 0 => Some ScopeInstance | 1 => Some ScopeTopic | 2 => Some ScopeGroup | _ => None end.
Definition write_bool e (b : bool) : list Z := write_u8 e (if b then 1 else 0).
Definition read_Presentation e : rd Presentation :=
  k ← read_enum e access_scope_read; c ← read_u8 e; o ← read_u8 e;
  mret (mkPresentation k (bool_decide (c = 1)) (bool_decide (o = 1))).
Definition write_Presentation e (q : Presentation) : list Z :=
  write_enum e access_scope_disc (access_scope q) ++ write_bool e (coherent_access q) ++
  write_bool e (ordered_access q) ++ write_u16 e 0.

(** A string behind an [i32] length that counts its null character. *)
Definition read_i32_string e : rd (list Z) :=
  n ← read_i32 e; s ← get_string (as_usize (as_i32 (n - 1))); _ ← read_u8 e;
  _ ← skip (pad_len (as_usize n)); mret s.
Definition write_i32_string e (s : list Z) : list Z :=
  let n := Z.of_nat (length s) + 1 in
  write_i32 e (as_i32 n) ++ s ++ write_u8 e 0 ++ zeros (pad_len n).

(** [Vec::with_capacity] of a negative length, cast to [usize], is a capacity
    overflow. *)
Definition read_Partition e : prd Partition :=
  n ← lift (read_i32 e);
  if bool_decide (n < 0) then prd_panic
  else l ← lift (read_n (read_i32_string e) (Z.to_nat n)); mret (mkPartition l).
Definition write_Partition e (q : Partition) : list Z :=
  write_i32 e (as_i32 (length (partition_name q))) ++
  concat (write_i32_string e <$> partition_name q).

(** [Property]. *)
Definition read_Property e : rd (list Z * list Z) :=
  name ← read_i32_string e; v ← read_i32_string e; mret (name, v).
Definition write_Property e (p : list Z * list Z) : list Z :=
  write_i32_string e p.1 ++ write_i32_string e p.2.

(** ** [SDPBuiltinData::read_from] *)
Definition sdp_empty : SDPBuiltinData :=
  mkSDPBuiltinData (Some 0) None None None None None None [] [] [] [] None None None [] [] None
    None None None None None None None None None None None None None None None None None None
    None None None None None.

(** A name: a [u32] length that counts the null character. *)
Definition read_name e : rd string :=
  n ← read_u32 e; bytes ← get_octets (as_u32 (n - 1)); _ ← skip (1 + pad_len n);
  mret (from_utf8_unchecked bytes).

(** [read_locator_list!]: the constructor of [Locator] asserts. *)
Definition read_locator e : prd Locator :=
  k ← lift (read_i32 e); p ← lift (read_u32 e); a ← lift (get_octets 16); prd_of (Loc.new k p a).

Definition read_flag e : prd bool :=
  flag ← lift (read_u8 e);
  if bool_decide (flag = 1) || bool_decide (flag = 0)
  then _ ← lift (skip 3); mret (bool_decide (flag = 1)) else prd_panic.

(** The bits that [BuiltinEndpoint] names: 0 to 29. *)
Definition ENDPOINT_BITS : Z := 0x3fffffff.

(** One parameter; the [length] is only used for an unknown one. *)
Definition read_parameter e (pid len : Z) (d : SDPBuiltinData) : prd SDPBuiltinData :=
  let loc (f : list Locator → SDPBuiltinData) (ls : list Locator) : prd SDPBuiltinData :=
    l ← read_locator e; mret (f (ls ++ [l])) in
  match pid with
  | 0x000f => v ← lift (read_u16 e); _ ← lift (skip 2); mret { d with sdp_domain_id := Some v }
  | 0x4014 =>
      v ← lift (n ← read_u32 e; get_string n);
      mret { d with sdp_domain_tag := Some (from_utf8_unchecked v) }
  | 0x0062 => _ ← lift (read_name e); mret d
  | 0x0015 =>
      v ← lift (read_ProtocolVersion e); _ ← lift (skip 2);
      mret { d with sdp_protocol_version := Some v }
  | 0x0050 => v ← lift (read_GUID e); mret { d with sdp_guid := Some v }
  | 0x0016 =>
      v ← lift (get_octets 2); _ ← lift (skip 2); mret { d with sdp_vendor_id := Some v }
  | 0x0043 => v ← read_flag e; mret { d with sdp_expects_inline_qos := Some v }
  | 0x0058 =>
      v ← lift (read_u32 e);
      mret { d with sdp_available_builtin_endpoint := Some (truncate ENDPOINT_BITS v) }
  | 0x0032 => loc (λ ls, { d with sdp_metarraffic_unicast_locator_list := ls })
                (sdp_metarraffic_unicast_locator_list d)
  | 0x0033 => loc (λ ls, { d with sdp_metarraffic_multicast_locator_list := ls })
                (sdp_metarraffic_multicast_locator_list d)
  | 0x0031 => loc (λ ls, { d with sdp_default_unicast_locator_list := ls })
                (sdp_default_unicast_locator_list d)
  | 0x0048 => loc (λ ls, { d with sdp_default_multicast_locator_list := ls })
                (sdp_default_multicast_locator_list d)
  | 0x0034 => v ← lift (read_i32 e); mret { d with sdp_manual_liveliness_count := Some v }
  | 0x0002 => v ← lift (read_Duration e); mret { d with sdp_lease_duration := Some v }
  | 0x005a => v ← lift (read_GUID e); mret { d with sdp_remote_guid := Some v }
  | 0x002f => loc (λ ls, { d with sdp_unicast_locator_list := ls }) (sdp_unicast_locator_list d)
  | 0x0030 =>
      loc (λ ls, { d with sdp_multicast_locator_list := ls }) (sdp_multicast_locator_list d)
  | 0x0060 => v ← lift (read_i32 e); mret { d with sdp_data_max_size_serialized := Some v }
  | 0x0007 => v ← lift (read_name e); mret { d with sdp_type_name := Some v }
  | 0x0005 => v ← lift (read_name e); mret { d with sdp_topic_name := Some v }
  | 0x001d => v ← lift (read_Durability e); mret { d with sdp_durability := Some v }
  | 0x0023 => v ← lift (read_Deadline e); mret { d with sdp_deadline := Some v }
  | 0x0027 => v ← lift (read_LatencyBudget e); mret { d with sdp_latency_budget := Some v }
  | 0x001b => v ← lift (read_Liveliness e); mret { d with sdp_liveliness := Some v }
  | 0x001a => v ← lift (read_Reliability e); mret { d with sdp_reliability := Some v }
  | 0x002c => v ← lift (read_UserData e); mret { d with sdp_user_data := Some v }
  | 0x001f => v ← lift (read_Ownership e); mret { d with sdp_ownership := Some v }
  | 0x0025 => v ← lift (read_DestinationOrder e); mret { d with sdp_destination_order := Some v }
  | 0x0040 => v ← lift (read_History e); mret { d with sdp_history := Some v }
  | 0x0041 => v ← lift (read_ResourceLimits e); mret { d with sdp_resource_limits := Some v }
  | 0x0049 => v ← lift (read_TransportPriority e); mret { d with sdp_transport_priority := Some v }
  | 0x0004 => v ← lift (read_TimeBasedFilter e); mret { d with sdp_time_based_filter := Some v }
  | 0x0021 =>
      v ← lift (read_Presentation e); _ ← lift (skip 2); mret { d with sdp_presentation := Some v }
  | 0x0029 => v ← read_Partition e; mret { d with sdp_partition := Some v }
  | 0x002e => v ← lift (read_TopicData e); mret { d with sdp_topic_data := Some v }
  | 0x002d => v ← lift (read_GroupData e); mret { d with sdp_group_data := Some v }
  | 0x001e => v ← lift (read_DurabilityService e); mret { d with sdp_durability_service := Some v }
  | 0x002b => v ← lift (read_Lifespan e); mret { d with sdp_lifespan := Some v }
  | 0x0006 => v ← lift (read_OwnershipStrength e); mret { d with sdp_ownership_strength := Some v }
  | 0x0059 =>
      n ← lift (read_u32 e); _ ← lift (read_n (read_Property e) (Z.to_nat n)); mret d
  | _ => _ ← lift (skip len); mret d
  end.

(** Each round reads two octets or more. *)
Fixpoint read_parameters (fuel : nat) e (d : SDPBuiltinData) : prd SDPBuiltinData :=
  match fuel with
  | O => lift (rd_fail Invalid)
  | S fuel =>
      pid ← lift (read_u16 e);
      if bool_decide (pid = Pid.PAD) then read_parameters fuel e d
      else
        len ← lift (read_u16 e);
        if bool_decide (pid = Pid.SENTINEL) then mret d
        else d ← read_parameter e pid len d; read_parameters fuel e d
  end.
Definition read_SDPBuiltinData e : prd SDPBuiltinData := λ buf,
  read_parameters (S (length buf)) e sdp_empty buf.

(** ** Writers *)
Definition parameter e (pid len : Z) (v : list Z) : list Z :=
  write_u16 e pid ++ write_u16 e len ++ v.
Definition write_locators e (pid : Z) (ls : list Locator) : list Z :=
  concat ((λ l, parameter e pid 24 (write_Locator e l)) <$> ls).
Definition sentinel e : list Z := write_u16 e Pid.SENTINEL ++ write_u16 e 0.

(** [SPDPdiscoveredParticipantData]. *)
Definition write_spdp e (d : SPDPdiscoveredParticipantData) : list Z :=
  parameter e Pid.DOMAIN_ID 4 (write_u32 e (spdp_domain_id d)) ++
  parameter e Pid.PROTOCOL_VERSION 4
    (write_u8 e (major (spdp_protocol_version d)) ++ write_u8 e (minor (spdp_protocol_version d)) ++
     write_u16 e 0) ++
  parameter e Pid.VENDOR_ID 4 (spdp_vendor_id d ++ write_u16 e 0) ++
  parameter e Pid.EXPECTS_INLINE_QOS 4 (write_bool e (spdp_expects_inline_qos d) ++ [0; 0; 0]) ++
  parameter e Pid.PARTICIPANT_GUID 16 (write_GUID e (spdp_guid d)) ++
  write_locators e Pid.METATRAFFIC_UNICAST_LOCATOR (spdp_metarraffic_unicast_locator_list d) ++
  write_locators e Pid.METATRAFFIC_MULTICAST_LOCATOR (spdp_metarraffic_multicast_locator_list d) ++
  write_locators e Pid.DEFAULT_UNICAST_LOCATOR (spdp_default_unicast_locator_list d) ++
  write_locators e Pid.DEFAULT_MULTICAST_LOCATOR (spdp_default_multicast_locator_list d) ++
  parameter e Pid.BUILTIN_ENDPOINT_SET 4
    (write_i32 e (as_i32 (spdp_available_builtin_endpoint d))) ++
  parameter e Pid.PARTICIPANT_LEASE_DURATION 8 (write_Duration e (spdp_lease_duration d)) ++
  match spdp_manual_liveliness_count d with
  | Some n => parameter e Pid.PARTICIPANT_MANUAL_LIVELINESS_COUNT 4 (write_i32 e n)
  | None => []
  end ++
  sentinel e.

(** [ReaderProxy] and [WriterProxy]: the QoS goes with the endpoint. *)
Definition write_ReaderProxy e (p : ReaderProxy) : list Z :=
  let q := rp_qos p in
  parameter e Pid.ENDPOINT_GUID 16 (write_GUID e (remote_reader_guid p)) ++
  parameter e Pid.EXPECTS_INLINE_QOS 4 (write_bool e (expects_inline_qos p) ++ [0; 0; 0]) ++
  write_locators e Pid.UNICAST_LOCATOR (unicast_locator_list (rp_locators p)) ++
  write_locators e Pid.MULTICAST_LOCATOR (multicast_locator_list (rp_locators p)) ++
  parameter e Pid.DURABILITY 4 (write_Durability e (r_durability q).1) ++
  parameter e Pid.DEADLINE 8 (write_Deadline e (r_deadline q).1) ++
  parameter e Pid.LATENCY_BUDGET 8 (write_LatencyBudget e (r_latency_budget q).1) ++
  parameter e Pid.LIVELINESS 12 (write_Liveliness e (r_liveliness q).1) ++
  parameter e Pid.RELIABILITY 12 (write_Reliability e (r_reliability q).1) ++
  parameter e Pid.DESTINATION_ORDER 4 (write_DestinationOrder e (r_destination_order q).1) ++
  parameter e Pid.HISTORY 8 (write_History e (r_history q).1) ++
  parameter e Pid.RESOURCE_LIMITS 12 (write_ResourceLimits e (r_resource_limits q).1) ++
  parameter e Pid.USER_DATA (serialized_size (user_data_value (r_user_data q).1))
    (write_UserData e (r_user_data q).1) ++
  parameter e Pid.OWNERSHIP 4 (write_Ownership e (r_ownership q).1) ++
  parameter e Pid.TIME_BASED_FILTER 8 (write_TimeBasedFilter e (r_time_based_filter q).1).

Definition write_WriterProxy e (p : WriterProxy) : list Z :=
  let q := wp_qos p in
  parameter e Pid.ENDPOINT_GUID 16 (write_GUID e (remote_writer_guid p)) ++
  write_locators e Pid.UNICAST_LOCATOR (unicast_locator_list (wp_locators p)) ++
  write_locators e Pid.MULTICAST_LOCATOR (multicast_locator_list (wp_locators p)) ++
  parameter e Pid.TYPE_MAX_SIZE_SERIALIZED 4 (write_i32 e (data_max_size_serialized p)) ++
  parameter e Pid.DURABILITY 4 (write_Durability e (w_durability q).1) ++
  parameter e Pid.DURABILITY_SERVICE 28 (write_DurabilityService e (w_durability_service q).1) ++
  parameter e Pid.DEADLINE 8 (write_Deadline e (w_deadline q).1) ++
  parameter e Pid.LATENCY_BUDGET 8 (write_LatencyBudget e (w_latency_budget q).1) ++
  parameter e Pid.LIVELINESS 12 (write_Liveliness e (w_liveliness q).1) ++
  parameter e Pid.RELIABILITY 12 (write_Reliability e (w_reliability q).1) ++
  parameter e Pid.DESTINATION_ORDER 4 (write_DestinationOrder e (w_destination_order q).1) ++
  parameter e Pid.HISTORY 8 (write_History e (w_history q).1) ++
  parameter e Pid.RESOURCE_LIMITS 12 (write_ResourceLimits e (w_resource_limits q).1) ++
  parameter e Pid.TRANSPORT_PRIORITY 4 (write_TransportPriority e (w_transport_priority q).1) ++
  parameter e Pid.LIFESPAN 8 (write_Lifespan e (w_lifespan q).1) ++
  parameter e Pid.USER_DATA (serialized_size (user_data_value (w_user_data q).1))
    (write_UserData e (w_user_data q).1) ++
  parameter e Pid.OWNERSHIP 4 (write_Ownership e (w_ownership q).1) ++
  parameter e Pid.OWNERSHIP_STRENGTH 4 (write_OwnershipStrength e (w_ownership_strength q).1).

(** A type or topic name in the topic data: the lengths are [u16]. *)
Definition write_name e (pid : Z) (name : option string) : list Z :=
  match name with
  | None => []
  | Some s =>
      let bytes := as_bytes s in
      let str_len := as_u16 (length bytes) in
      let cdr_str_len := as_u16 (str_len + 4 + 1) in
      let pad := (4 - cdr_str_len mod 4) mod 4 in
      parameter e pid (as_u16 (cdr_str_len + pad))
        (write_u32 e (as_u16 (str_len + 1)) ++ bytes ++ write_u8 e 0 ++ zeros pad)
  end.
Definition write_SubscriptionBuiltinTopicData e (d : SubscriptionBuiltinTopicData) : list Z :=
  write_name e Pid.TYPE_NAME (sub_type_name d) ++ write_name e Pid.TOPIC_NAME (sub_topic_name d).
Definition write_PublicationBuiltinTopicData e (d : PublicationBuiltinTopicData) : list Z :=
  write_name e Pid.TYPE_NAME (pub_type_name d) ++ write_name e Pid.TOPIC_NAME (pub_topic_name d).

(** [DiscoveredReaderData] and [DiscoveredWriterData]. *)
Definition write_DiscoveredReaderData e (p : ReaderProxy) (t : SubscriptionBuiltinTopicData)
    : list Z :=
  write_ReaderProxy e p ++ write_SubscriptionBuiltinTopicData e t ++ sentinel e.
Definition write_DiscoveredWriterData e (p : WriterProxy) (t : PublicationBuiltinTopicData)
    : list Z :=
  write_WriterProxy e p ++ write_PublicationBuiltinTopicData e t ++ sentinel e.

(** ** [ParticipantMessageData] *)
Definition read_ParticipantMessageData e : rd ParticipantMessageData :=
  p ← read_GuidPrefix; k ← get_octets 4; n ← read_u32 e; v ← get_octets n;
  _ ← skip (pad_len n); mret (mkParticipantMessageData p k v).
Definition write_ParticipantMessageData e (d : ParticipantMessageData) : list Z :=
  write_GuidPrefix (pmd_guid_prefix d) ++ pmd_kind d ++ write_bytes32 e (pmd_data d).
End policies.
