(* ===== verification/ParameterListProofs.v ===== *)
(** * Round trips of discovery data

    What a participant announces about itself (SPDP) and about its endpoints
    (SEDP) is what another one decodes, but for one policy: the kind of a
    manual liveliness comes back exchanged. *)
From stdpp Require Import base tactics numbers list gmap strings.
From coqutil Require Import Datatypes.RecordSetters.
From S2P Require Import Prelude Ordered Ids Time SeqNum Qos Topic HistoryCache Message Proxy Writer.
From S2P Require Import DiscoveryData Speedy Wire WireProofs ParameterList.
Import OCamlLikeNotations.

Definition pparses {A} (r : prd A) (bs : list Z) (a : A) : Prop :=
  ∀ rest, r (bs ++ rest) = Done (rest, inr a).

Lemma pparses_lift {A} (r : rd A) bs a : parses r bs a → pparses (lift r) bs a.
Proof. intros Hr rest. unfold lift. by rewrite Hr. Qed.
Lemma pparses_ret {A} (a : A) : pparses (mret a) [] a.
Proof. by intros rest. Qed.
Lemma pparses_bind {A B} (r : prd A) (f : A → prd B) bs bs' a b :
  pparses r bs a → pparses (f a) bs' b → pparses (r ≫= f) (bs ++ bs') b.
Proof. intros Hr Hf rest. rewrite <-app_assoc. unfold mbind, prd_bind. rewrite Hr. apply Hf. Qed.
Lemma pparses_then {A B} (r : prd A) (f : A → B) bs a :
  pparses r bs a → pparses (a ← r; mret (f a)) bs (f a).
Proof.
  intros Hr. rewrite <-(app_nil_r bs). eapply pparses_bind; [exact Hr|]. apply pparses_ret.
Qed.

(** ** Strings *)
Lemma octet_of_ascii_octet c : octet (octet_of_ascii c).
Proof. unfold octet, octet_of_ascii. pose proof (Ascii.N_ascii_bounded c). lia. Qed.
Lemma ascii_octet c : ascii_of_octet (octet_of_ascii c) = c.
Proof. unfold ascii_of_octet, octet_of_ascii. by rewrite N2Z.id, Ascii.ascii_N_embedding. Qed.
Lemma from_utf8_as_bytes s : from_utf8_unchecked (as_bytes s) = s.
Proof. induction s as [|c s IH]; simpl; [done|]. by rewrite ascii_octet, IH. Qed.

(** ** Well-formed values *)
Definition enum_inv {A} (f : A → Z) (g : Z → option A) : Prop :=
  ∀ a, in_s 32 (f a) ∧ g (f a) = Some a.
Definition bytes_wf (l : list Z) : Prop := Forall octet l ∧ length l < 2 ^ 32.
Definition limits_wf (r : ResourceLimits) : Prop :=
  in_s 32 (max_samples r) ∧ in_s 32 (max_instance r) ∧ in_s 32 (max_samples_per_instanse r).
Definition service_wf (q : DurabilityService) : Prop :=
  Dur.wf (service_cleanup_delay q) ∧ in_s 32 (ds_history_depth q) ∧ in_s 32 (ds_max_samples q) ∧
  in_s 32 (ds_max_instance q) ∧ in_s 32 (ds_max_samples_per_instanse q).
(** A locator that its constructor accepts. *)
Definition loc_ok (l : Locator) : Prop :=
  loc_wf l ∧ (kind l = Loc.KIND_UDPV4 → take 12 (address l) = replicate 12 0).
Definition name_wf (s : string) : Prop := length (as_bytes s) + 9 < 2 ^ 16.

Section plist.
Context `{SpeedyLaws}.

Lemma parses_zeros n : 0 ≤ n → parses (skip n) (zeros n) ().
Proof.
  intros Hn. unfold skip. eapply parses_bind_last; [|apply parses_ret].
  apply parses_octets. unfold zeros. rewrite length_replicate. lia.
Qed.
Lemma parses_skip bs n : n = Z.of_nat (length bs) → parses (skip n) bs ().
Proof.
  intros ->. unfold skip. eapply parses_bind_last; [|apply parses_ret]. by apply parses_octets.
Qed.

Lemma parses_enum {A} e (f : A → Z) g a :
  enum_inv f g → parses (read_enum e g) (write_enum e f a) a.
Proof.
  intros Hinv. destruct (Hinv a) as [Hr Hg]. unfold read_enum, write_enum.
  eapply parses_bind_last; [by apply parses_i32|]. rewrite Hg. apply parses_ret.
Qed.
Lemma enum_durability : enum_inv durability_disc durability_read.
Proof. intros []; split; try done; unfold in_s; simpl; lia. Qed.
Lemma enum_ownership : enum_inv ownership_disc ownership_read.
Proof. intros []; split; try done; unfold in_s; simpl; lia. Qed.
Lemma enum_destination_order : enum_inv destination_order_disc destination_order_read.
Proof. intros []; split; try done; unfold in_s; simpl; lia. Qed.
Lemma enum_history_kind : enum_inv history_kind_disc history_kind_read.
Proof. intros []; split; try done; unfold in_s; simpl; lia. Qed.
Lemma enum_reliability_kind : enum_inv reliability_kind_disc reliability_kind_read.
Proof. intros []; split; try done; unfold in_s; simpl; lia. Qed.

Lemma parses_Duration e d : Dur.wf d → parses (read_Duration e) (write_Duration e d) d.
Proof. destruct d. intros [? ?]. unfold read_Duration, write_Duration; simpl in *. parse_steps. Qed.
#[local] Hint Resolve parses_Duration : wire.

Lemma parses_Durability e q : parses (read_Durability e) (write_Durability e q) q.
Proof. apply parses_enum, enum_durability. Qed.
Lemma parses_Ownership e q : parses (read_Ownership e) (write_Ownership e q) q.
Proof. apply parses_enum, enum_ownership. Qed.
Lemma parses_DestinationOrder e q : parses (read_DestinationOrder e) (write_DestinationOrder e q) q.
Proof. apply parses_enum, enum_destination_order. Qed.
Lemma parses_HistoryQosKind e q : parses (read_HistoryQosKind e) (write_HistoryQosKind e q) q.
Proof. apply parses_enum, enum_history_kind. Qed.
#[local] Hint Resolve parses_HistoryQosKind : wire.

Lemma parses_DurabilityService e q :
  service_wf q → parses (read_DurabilityService e) (write_DurabilityService e q) q.
Proof.
  destruct q. intros (?&?&?&?&?). unfold read_DurabilityService, write_DurabilityService; simpl in *.
  parse_steps.
Qed.
Lemma parses_Deadline e q :
  Dur.wf (period q) → parses (read_Deadline e) (write_Deadline e q) q.
Proof. destruct q. intros. unfold read_Deadline, write_Deadline; simpl in *. parse_steps. Qed.
Lemma parses_LatencyBudget e q :
  Dur.wf (latency q) → parses (read_LatencyBudget e) (write_LatencyBudget e q) q.
Proof. destruct q. intros. unfold read_LatencyBudget, write_LatencyBudget; simpl in *. parse_steps. Qed.
Lemma parses_TimeBasedFilter e q :
  Dur.wf (minimun_separation q) → parses (read_TimeBasedFilter e) (write_TimeBasedFilter e q) q.
Proof.
  destruct q. intros. unfold read_TimeBasedFilter, write_TimeBasedFilter; simpl in *. parse_steps.
Qed.
Lemma parses_Lifespan e q :
  Dur.wf (lifespan_duration q) → parses (read_Lifespan e) (write_Lifespan e q) q.
Proof. destruct q. intros. unfold read_Lifespan, write_Lifespan; simpl in *. parse_steps. Qed.
Lemma parses_Reliability e q :
  Dur.wf (max_bloking_time q) → parses (read_Reliability e) (write_Reliability e q) q.
Proof.
  destruct q. intros. unfold read_Reliability, write_Reliability; simpl in *.
  eapply parses_bind; [apply parses_enum, enum_reliability_kind|]. parse_steps.
Qed.
Lemma parses_History e q :
  in_s 32 (depth q) → parses (read_History e) (write_History e q) q.
Proof. destruct q. intros. unfold read_History, write_History; simpl in *. parse_steps. Qed.
Lemma parses_ResourceLimits e q :
  limits_wf q → parses (read_ResourceLimits e) (write_ResourceLimits e q) q.
Proof.
  destruct q. intros (?&?&?). unfold read_ResourceLimits, write_ResourceLimits; simpl in *. parse_steps.
Qed.
Lemma parses_OwnershipStrength e q :
  in_s 32 (strength q) → parses (read_OwnershipStrength e) (write_OwnershipStrength e q) q.
Proof.
  destruct q. intros. unfold read_OwnershipStrength, write_OwnershipStrength; simpl in *. parse_steps.
Qed.
Lemma parses_TransportPriority e q :
  in_s 32 (priority q) → parses (read_TransportPriority e) (write_TransportPriority e q) q.
Proof.
  destruct q. intros. unfold read_TransportPriority, write_TransportPriority; simpl in *. parse_steps.
Qed.

Lemma pad_len_range n : 0 ≤ pad_len n < 4.
Proof. unfold pad_len. apply Z.mod_pos_bound. lia. Qed.

Lemma parses_UserData e q :
  bytes_wf (user_data_value q) → parses (read_UserData e) (write_UserData e q) q.
Proof.
  destruct q as [v]. intros [_ Hlen]. unfold read_UserData, write_UserData, write_bytes32; simpl in *.
  rewrite wrap_u_small by (unfold in_u; lia).
  eapply parses_bind; [apply parses_u32; unfold in_u; lia|].
  eapply parses_bind; [by apply parses_octets|].
  eapply parses_bind_last; [apply parses_zeros; apply pad_len_range|]. apply parses_ret.
Qed.

(** The kinds [ManualByParticipant] and [ManualByTopic] are exchanged. *)
Definition exchange_manual (k : LivelinessQosKind) : LivelinessQosKind :=
  match k with
  | Automatic => Automatic
  | ManualByParticipant => ManualByTopic
  | ManualByTopic => ManualByParticipant
  end.
Definition liveliness_received (q : Liveliness) : Liveliness :=
  mkLiveliness (exchange_manual (liveliness_kind q)) (lease_duration q).

Lemma parses_Liveliness e q :
  Dur.wf (lease_duration q) → parses (read_Liveliness e) (write_Liveliness e q) (liveliness_received q).
Proof.
  destruct q as [k d]. intros Hd. unfold read_Liveliness, write_Liveliness; simpl in *.
  eapply (parses_bind _ _ _ _ (exchange_manual k)).
  - unfold read_enum, write_enum.
    eapply parses_bind_last; [apply parses_i32; destruct k; unfold in_s; simpl; lia|].
    destruct k; apply parses_ret.
  - parse_steps.
Qed.

Lemma parses_GUID e g : guid_wf g → parses (read_GUID e) (write_GUID e g) g.
Proof.
  destruct g. intros [? ?]. unfold read_GUID, write_GUID; simpl in *.
  eapply parses_bind; [by apply parses_GuidPrefix|].
  eapply parses_bind_last; [by apply parses_EntityId|]. apply parses_ret.
Qed.

Lemma parses_name e s :
  name_wf s →
  parses (read_name e)
    (let bytes := as_bytes s in
     let str_len := as_u16 (length bytes) in
     let pad := (4 - as_u16 (str_len + 4 + 1) mod 4) mod 4 in
     write_u32 e (as_u16 (str_len + 1)) ++ bytes ++ write_u8 e 0 ++ zeros pad) s.
Proof.
  unfold name_wf. intros Hlen. cbv zeta. wrap_small. set (n := Z.of_nat (length (as_bytes s))) in *.
  assert (0 ≤ n) by lia.
  assert ((4 - (n + 4 + 1) mod 4) mod 4 = pad_len (n + 1)) as ->.
  { unfold pad_len. replace (n + 4 + 1) with (n + 1 + 1 * 4) by lia. by rewrite Z.mod_add. }
  unfold read_name. eapply parses_bind; [apply parses_u32; unfold in_u; lia|].
  replace (n + 1 - 1) with n by lia. rewrite wrap_u_small by (unfold in_u; lia).
  eapply parses_bind; [by apply parses_octets|].
  eapply parses_bind_last.
  - apply parses_skip. unfold write_u8, zeros. rewrite length_app, length_put_uint, length_replicate.
    pose proof (pad_len_range (n + 1)). lia.
  - rewrite from_utf8_as_bytes. apply parses_ret.
Qed.

Lemma pparses_locator e l : loc_ok l → pparses (read_locator e) (write_Locator e l) l.
Proof.
  destruct l as [k p a]. intros [(Hk & Hp & Ha) Hok]; simpl in *.
  unfold read_locator, write_Locator; simpl.
  eapply pparses_bind; [by apply pparses_lift, parses_i32|].
  eapply pparses_bind; [by apply pparses_lift, parses_u32|]. rewrite <-(app_nil_r a).
  eapply pparses_bind; [by apply pparses_lift, (parses_oct 16)|].
  rewrite app_nil_r. intros rest. unfold prd_of, Loc.new.
  case_bool_decide as Hudp; cbn [andb]; [|done]. by rewrite bool_decide_true by (by apply Hok).
Qed.

Lemma pparses_flag e b : pparses (read_flag e) (write_bool e b ++ [0; 0; 0]) b.
Proof.
  unfold read_flag, write_bool. eapply pparses_bind.
  - apply pparses_lift, parses_u8. destruct b; unfold in_u; lia.
  - destruct b; simpl; rewrite <-(app_nil_r [0; 0; 0]);
      (eapply pparses_bind; [by apply pparses_lift, parses_skip|apply pparses_ret]).
Qed.
(** ** Runs of the parameter loop *)

(** The octets [bs] take the loop from [d] to [d'], in at most as many rounds
    as there are octets. *)
Definition runs e (bs : list Z) (d d' : SDPBuiltinData) : Prop :=
  ∃ n : nat, (n ≤ length bs)%nat ∧
    ∀ fuel rest, read_parameters (n + fuel) e d (bs ++ rest) = read_parameters fuel e d' rest.

Lemma runs_nil e d : runs e [] d d.
Proof. by exists 0%nat. Qed.

Lemma runs_app e bs bs' d d' d'' : runs e bs d d' → runs e bs' d' d'' → runs e (bs ++ bs') d d''.
Proof.
  intros (n & Hn & Hrun) (n' & Hn' & Hrun'). exists (n + n')%nat. rewrite length_app.
  split; [lia|]. intros fuel rest. rewrite <-app_assoc, <-Nat.add_assoc, Hrun. apply Hrun'.
Qed.

Lemma runs_parameter e pid len v d d' :
  in_u 16 pid → in_u 16 len → 2 ≤ pid → pparses (read_parameter e pid len d) v d' →
  runs e (parameter e pid len v) d d'.
Proof.
  intros Hpid Hlen Hp Hv. exists 1%nat. unfold parameter. split.
  { unfold write_u16. rewrite length_app, length_put_uint. lia. }
  intros fuel rest. rewrite <-!app_assoc. cbn [Nat.add read_parameters].
  unfold mbind at 1, prd_bind at 1. unfold lift at 1. rewrite (parses_u16 e pid Hpid).
  rewrite bool_decide_false by (unfold Pid.PAD; lia).
  unfold mbind at 1, prd_bind at 1. unfold lift at 1. rewrite (parses_u16 e len Hlen).
  rewrite bool_decide_false by (unfold Pid.SENTINEL; lia).
  unfold mbind at 1, prd_bind at 1. by rewrite Hv.
Qed.

(** A parameter that stores what its reader gives. *)
Lemma runs_lift {A} e pid len v d (r : rd A) (f : A → SDPBuiltinData) a :
  in_u 16 pid → in_u 16 len → 2 ≤ pid →
  read_parameter e pid len d = (x ← lift r; mret (f x)) → parses r v a →
  runs e (parameter e pid len v) d (f a).
Proof.
  intros ??? Heq Hr. apply runs_parameter; try done. rewrite Heq.
  by apply pparses_then, pparses_lift.
Qed.

Lemma runs_locators e pid ls d (get : SDPBuiltinData → list Locator)
    (set : list Locator → SDPBuiltinData → SDPBuiltinData) :
  in_u 16 pid → 2 ≤ pid →
  (∀ d, read_parameter e pid 24 d = (l ← read_locator e; mret (set (get d ++ [l]) d))) →
  (∀ l d, get (set l d) = l) → (∀ l l' d, set l (set l' d) = set l d) → (∀ d, set (get d) d = d) →
  Forall loc_ok ls →
  runs e (write_locators e pid ls) d (set (get d ++ ls) d).
Proof.
  intros Hpid Hp Hread Hget Hset Heta Hls. revert d.
  induction Hls as [|l ls Hl Hls IH]; intros d.
  { rewrite app_nil_r, Heta. apply runs_nil. }
  unfold write_locators. rewrite fmap_cons. cbn [concat]. eapply runs_app.
  - apply runs_parameter; [done|unfold in_u; lia|done|]. rewrite Hread.
    by apply (pparses_then _ (λ l, set (get d ++ [l]) d)), pparses_locator.
  - specialize (IH (set (get d ++ [l]) d)). rewrite Hget, Hset, <-app_assoc in IH. exact IH.
Qed.

Lemma runs_read e bs d' :
  runs e bs sdp_empty d' → read_SDPBuiltinData e (bs ++ sentinel e) = Done ([], inr d').
Proof.
  intros (n & Hn & Hrun). unfold read_SDPBuiltinData.
  assert (∃ m, S (length (bs ++ sentinel e)) = n + S m)%nat as [m ->].
  { exists (length (bs ++ sentinel e) - n)%nat. rewrite length_app. lia. }
  rewrite Hrun. cbn [read_parameters]. unfold sentinel.
  unfold mbind at 1, prd_bind at 1. unfold lift at 1.
  rewrite (parses_u16 e Pid.SENTINEL) by (unfold in_u, Pid.SENTINEL; lia).
  rewrite bool_decide_false by done.
  unfold mbind at 1, prd_bind at 1. unfold lift at 1.
  rewrite <-(app_nil_r (write_u16 e 0)), (parses_u16 e 0) by (unfold in_u; lia). done.
Qed.

Ltac side := first [done | unfold in_u; lia | apply wrap_u_range; lia].
Ltac run_value :=
  eapply runs_app; [eapply runs_lift; [side|side|done|reflexivity|solve [eauto with wire]]|].

(** ** SPDP *)
Record spdp_wf (d : SPDPdiscoveredParticipantData) : Prop := mk_spdp_wf {
  spw_domain : in_u 16 (spdp_domain_id d);
  spw_version : version_wf (spdp_protocol_version d);
  spw_guid : guid_wf (spdp_guid d);
  spw_vendor : octets 2 (spdp_vendor_id d);
  spw_endpoints : in_u 32 (spdp_available_builtin_endpoint d) ∧
    truncate ENDPOINT_BITS (spdp_available_builtin_endpoint d) = spdp_available_builtin_endpoint d;
  spw_mu : Forall loc_ok (spdp_metarraffic_unicast_locator_list d);
  spw_mm : Forall loc_ok (spdp_metarraffic_multicast_locator_list d);
  spw_du : Forall loc_ok (spdp_default_unicast_locator_list d);
  spw_dm : Forall loc_ok (spdp_default_multicast_locator_list d);
  spw_lease : Dur.wf (spdp_lease_duration d);
  spw_count : opt_wf (in_s 32) (spdp_manual_liveliness_count d);
}.

(** What the announcement says; the domain tag is not sent. *)
Definition spdp_sent (d : SPDPdiscoveredParticipantData) : SDPBuiltinData :=
  { { { { { { { { { { { { sdp_empty with sdp_domain_id := Some (spdp_domain_id d) }
    with sdp_protocol_version := Some (spdp_protocol_version d) }
    with sdp_vendor_id := Some (spdp_vendor_id d) }
    with sdp_expects_inline_qos := Some (spdp_expects_inline_qos d) }
    with sdp_guid := Some (spdp_guid d) }
    with sdp_metarraffic_unicast_locator_list := spdp_metarraffic_unicast_locator_list d }
    with sdp_metarraffic_multicast_locator_list := spdp_metarraffic_multicast_locator_list d }
    with sdp_default_unicast_locator_list := spdp_default_unicast_locator_list d }
    with sdp_default_multicast_locator_list := spdp_default_multicast_locator_list d }
    with sdp_available_builtin_endpoint := Some (spdp_available_builtin_endpoint d) }
    with sdp_lease_duration := Some (spdp_lease_duration d) }
    with sdp_manual_liveliness_count := spdp_manual_liveliness_count d }.

Lemma write_domain_id_le z :
  in_u 16 z → write_u32 LittleEndian z = write_u16 LittleEndian z ++ write_u16 LittleEndian 0.
Proof.
  intros Hz. unfold write_u32, write_u16, in_u in *. rewrite (put_uint_le_app 2 2).
  by rewrite Z.mod_small, Z.div_small.
Qed.

Lemma runs_padded {A} e pid len v bs (pad : list Z) n d (r : rd A) (f : A → SDPBuiltinData) a :
  in_u 16 pid → in_u 16 len → 2 ≤ pid →
  read_parameter e pid len d = (x ← lift r; _ ← lift (skip n); mret (f x)) →
  parses r bs a → v = bs ++ pad → n = Z.of_nat (length pad) →
  runs e (parameter e pid len v) d (f a).
Proof.
  intros ??? Heq Hr -> Hn. apply runs_parameter; try done. rewrite Heq.
  eapply pparses_bind; [by apply pparses_lift|].
  apply (pparses_then (lift (skip n)) (λ _, f a) pad ()). by apply pparses_lift, parses_skip.
Qed.

Ltac run_padded :=
  eapply runs_app; [eapply runs_padded; [side|side|done|reflexivity|solve [eauto with wire]| |];
    [by rewrite <-?app_assoc|by (unfold write_u16; rewrite ?length_put_uint)]|].
Ltac run_flag :=
  eapply runs_app; [apply runs_parameter; [side|side|done|];
    eapply (pparses_then (read_flag _)); apply pparses_flag|].
Ltac run_locators get set :=
  eapply runs_app; [apply (runs_locators _ _ _ _ get set); [side|side|by intros []..|done]|].

Lemma spdp_runs d :
  spdp_wf d →
  ∃ bs, write_spdp LittleEndian d = bs ++ sentinel LittleEndian ∧
    runs LittleEndian bs sdp_empty (spdp_sent d).
Proof.
  intros []. unfold write_spdp. rewrite !app_assoc. eexists; split; [reflexivity|].
  rewrite <-!app_assoc. rewrite write_domain_id_le by done.
  destruct d as [did tag ver guid vid eiq ep mu mm dm du cnt lease]; simpl in *.
  destruct spw_endpoints0 as [Hep Htr].
  run_padded.
  assert (Hv := parses_version LittleEndian ver spw_version0).
  eapply runs_app; [eapply runs_padded; [side|side|done|reflexivity|exact Hv| |]|].
  { unfold write_ProtocolVersion. by rewrite <-app_assoc. }
  { unfold write_u16. by rewrite length_put_uint. }
  assert (Hvid := parses_oct 2 vid spw_vendor0).
  run_padded.
  run_flag.
  assert (Hg := parses_GUID LittleEndian guid spw_guid0).
  run_value.
  run_locators sdp_metarraffic_unicast_locator_list
    (λ l d, { d with sdp_metarraffic_unicast_locator_list := l }).
  run_locators sdp_metarraffic_multicast_locator_list
    (λ l d, { d with sdp_metarraffic_multicast_locator_list := l }).
  run_locators sdp_default_unicast_locator_list
    (λ l d, { d with sdp_default_unicast_locator_list := l }).
  run_locators sdp_default_multicast_locator_list
    (λ l d, { d with sdp_default_multicast_locator_list := l }).
  assert (He : parses (read_u32 LittleEndian) (write_i32 LittleEndian (as_i32 ep)) ep).
  { unfold write_i32. rewrite wrap_u_as_s, wrap_u_small by (done || lia). by apply parses_u32. }
  eapply runs_app; [eapply runs_lift; [side|side|done|reflexivity|exact He]|].
  cbv beta. rewrite Htr.
  assert (Hl := parses_Duration LittleEndian lease spw_lease0).
  run_value.
  destruct cnt as [n|]; [|apply runs_nil].
  refine (runs_lift _ _ _ _ _ (read_i32 LittleEndian) (λ v, spdp_sent
    (mkSPDPdiscoveredParticipantData did tag ver guid vid eiq ep mu mm dm du (Some v) lease)) n _ _ _ _ _);
    [side|side|done|reflexivity|]. apply parses_i32. by apply spw_count0.
Qed.

(** C36. A participant that reads the announcement another one wrote (both write
    little-endian) gets exactly the announced data; only the domain tag,
    which is never sent, comes back empty. *)
Theorem spdp_roundtrip d :
  spdp_wf d →
  ∃ r, read_SDPBuiltinData LittleEndian (write_spdp LittleEndian d) = Done ([], inr r) ∧
    gen_spdp_discoverd_participant_data r =
      Some (mkSPDPdiscoveredParticipantData (spdp_domain_id d) EmptyString
        (spdp_protocol_version d) (spdp_guid d) (spdp_vendor_id d) (spdp_expects_inline_qos d)
        (spdp_available_builtin_endpoint d) (spdp_metarraffic_unicast_locator_list d)
        (spdp_metarraffic_multicast_locator_list d) (spdp_default_multicast_locator_list d)
        (spdp_default_unicast_locator_list d) (spdp_manual_liveliness_count d)
        (spdp_lease_duration d)).
Proof.
  intros Hd. destruct (spdp_runs d Hd) as (bs & -> & Hrun).
  exists (spdp_sent d). split; [by apply runs_read|reflexivity].
Qed.

(** ** SEDP *)
Record writer_announcement_wf (p : WriterProxy) (t : PublicationBuiltinTopicData) : Prop :=
  mk_writer_announcement_wf {
  wa_guid : guid_wf (remote_writer_guid p);
  wa_u : Forall loc_ok (unicast_locator_list (wp_locators p));
  wa_m : Forall loc_ok (multicast_locator_list (wp_locators p));
  wa_size : in_s 32 (data_max_size_serialized p);
  wa_service : service_wf (w_durability_service (wp_qos p)).1;
  wa_deadline : Dur.wf (period (w_deadline (wp_qos p)).1);
  wa_latency : Dur.wf (latency (w_latency_budget (wp_qos p)).1);
  wa_liveliness : Dur.wf (lease_duration (w_liveliness (wp_qos p)).1);
  wa_reliability : Dur.wf (max_bloking_time (w_reliability (wp_qos p)).1);
  wa_history : in_s 32 (depth (w_history (wp_qos p)).1);
  wa_limits : limits_wf (w_resource_limits (wp_qos p)).1;
  wa_priority : in_s 32 (priority (w_transport_priority (wp_qos p)).1);
  wa_lifespan : Dur.wf (lifespan_duration (w_lifespan (wp_qos p)).1);
  wa_user : bytes_wf (user_data_value (w_user_data (wp_qos p)).1);
  wa_strength : in_s 32 (strength (w_ownership_strength (wp_qos p)).1);
  wa_type : opt_wf name_wf (pub_type_name t);
  wa_topic : opt_wf name_wf (pub_topic_name t);
}.

(** The QoS of the proxy that the announcement becomes: every policy counts
    as set, the manual liveliness kinds are exchanged and the policy that is
    not announced has its default. *)
Definition writer_qos_received (q : DataWriterQosPolicies) : DataWriterQosPolicies :=
  mkDataWriterQosPolicies ((w_durability q).1, true) ((w_durability_service q).1, true)
    ((w_deadline q).1, true) ((w_latency_budget q).1, true)
    (liveliness_received (w_liveliness q).1, true) ((w_reliability q).1, true)
    ((w_destination_order q).1, true) ((w_history q).1, true) ((w_resource_limits q).1, true)
    ((w_transport_priority q).1, true) ((w_lifespan q).1, true) ((w_user_data q).1, true)
    ((w_ownership q).1, true) ((w_ownership_strength q).1, true) (qos_default, false).

Lemma runs_name e pid (name : option string) d (set : option string → SDPBuiltinData → SDPBuiltinData) :
  in_u 16 pid → 2 ≤ pid → opt_wf name_wf name →
  (∀ len, read_parameter e pid len d = (x ← lift (read_name e); mret (set (Some x) d))) →
  set None d = d →
  runs e (write_name e pid name) d (set name d).
Proof.
  intros Hpid Hp Hname Hread Hd. unfold write_name. destruct name as [s|].
  - apply (runs_lift e pid _ _ d (read_name e) (λ x, set (Some x) d) s); try done.
    + apply wrap_u_range. lia.
    + apply parses_name. by apply Hname.
  - rewrite Hd. apply runs_nil.
Qed.

Lemma runs_names e type_name topic_name d :
  opt_wf name_wf type_name → opt_wf name_wf topic_name →
  sdp_type_name d = None → sdp_topic_name d = None →
  runs e (write_name e Pid.TYPE_NAME type_name ++ write_name e Pid.TOPIC_NAME topic_name) d
    { { d with sdp_type_name := type_name } with sdp_topic_name := topic_name }.
Proof.
  intros Hty Hto Hd1 Hd2. eapply runs_app.
  - apply (runs_name _ _ _ _ (λ n d, { d with sdp_type_name := n })); try (side || done).
    destruct d. simpl in Hd1. by subst.
  - apply (runs_name _ _ _ _ (λ n d, { d with sdp_topic_name := n })); try (side || done).
    destruct d. simpl in Hd2. by subst.
Qed.

#[local] Hint Resolve parses_Durability parses_Ownership parses_DestinationOrder
  parses_DurabilityService parses_Deadline parses_LatencyBudget parses_TimeBasedFilter
  parses_Lifespan parses_Reliability parses_History parses_ResourceLimits
  parses_OwnershipStrength parses_TransportPriority parses_UserData parses_Liveliness
  parses_GUID : wire.

Lemma writer_proxy_runs e p t :
  writer_announcement_wf p t →
  ∃ d, runs e (write_WriterProxy e p ++ write_PublicationBuiltinTopicData e t) sdp_empty d ∧
    sdp_remote_guid d = Some (remote_writer_guid p) ∧
    sdp_unicast_locator_list d = unicast_locator_list (wp_locators p) ∧
    sdp_multicast_locator_list d = multicast_locator_list (wp_locators p) ∧
    sdp_data_max_size_serialized d = Some (data_max_size_serialized p) ∧
    sdp_type_name d = pub_type_name t ∧ sdp_topic_name d = pub_topic_name t ∧
    writer_proxy_qos d = writer_qos_received (wp_qos p).
Proof.
  intros []. destruct p as [guid ls dmax q cs]. destruct ls as [lu lm du dm]. simpl in *.
  eexists. split.
  - unfold write_WriterProxy, write_PublicationBuiltinTopicData. rewrite <-!app_assoc.
    cbn [remote_writer_guid wp_locators data_max_size_serialized wp_qos unicast_locator_list
      multicast_locator_list].
    run_value.
    run_locators sdp_unicast_locator_list (λ l d, { d with sdp_unicast_locator_list := l }).
    run_locators sdp_multicast_locator_list (λ l d, { d with sdp_multicast_locator_list := l }).
    do 15 run_value.
    by apply runs_names.
  - repeat split; reflexivity.
Qed.

Lemma writer_announcement_main e p t du dm :
  writer_announcement_wf p t →
  ∃ d, read_SDPBuiltinData e (write_DiscoveredWriterData e p t) = Done ([], inr d) ∧
    gen_writerproxy du dm d =
      Some <$> wp_new (remote_writer_guid p)
        (mkLocators (unicast_locator_list (wp_locators p)) (multicast_locator_list (wp_locators p))
           du dm)
        (data_max_size_serialized p) (writer_qos_received (wp_qos p)) ∧
    topic_info d = (n ← pub_topic_name t; ty ← pub_type_name t; Some (n, ty)).
Proof.
  intros Hwf. destruct (writer_proxy_runs e p t Hwf) as (d & Hrun & Hg & Hu & Hm & Hs & Hty & Hto & Hq).
  exists d. unfold write_DiscoveredWriterData. rewrite app_assoc. split; [by apply runs_read|].
  split.
  - unfold gen_writerproxy. by rewrite Hg, Hu, Hm, Hs, Hq.
  - unfold topic_info. by rewrite Hto, Hty.
Qed.

(** C37. The announcement of a writer (SEDP) gives the participant that reads it
    the proxy that was announced: same GUID, locators, maximal size, names
    and QoS, in which the manual liveliness kinds are exchanged. *)
Theorem sedp_writer_roundtrip e p t du dm :
  writer_announcement_wf p t →
  ∃ d, read_SDPBuiltinData e (write_DiscoveredWriterData e p t) = Done ([], inr d) ∧
    gen_writerproxy du dm d =
      Some <$> wp_new (remote_writer_guid p)
        (mkLocators (unicast_locator_list (wp_locators p)) (multicast_locator_list (wp_locators p))
           du dm)
        (data_max_size_serialized p) (writer_qos_received (wp_qos p)) ∧
    topic_info d = (n ← pub_topic_name t; ty ← pub_type_name t; Some (n, ty)).
Proof. apply writer_announcement_main. Qed.

Record reader_announcement_wf (p : ReaderProxy) (t : SubscriptionBuiltinTopicData) : Prop :=
  mk_reader_announcement_wf {
  ra_guid : guid_wf (remote_reader_guid p);
  ra_u : Forall loc_ok (unicast_locator_list (rp_locators p));
  ra_m : Forall loc_ok (multicast_locator_list (rp_locators p));
  ra_deadline : Dur.wf (period (r_deadline (rp_qos p)).1);
  ra_latency : Dur.wf (latency (r_latency_budget (rp_qos p)).1);
  ra_liveliness : Dur.wf (lease_duration (r_liveliness (rp_qos p)).1);
  ra_reliability : Dur.wf (max_bloking_time (r_reliability (rp_qos p)).1);
  ra_history : in_s 32 (depth (r_history (rp_qos p)).1);
  ra_limits : limits_wf (r_resource_limits (rp_qos p)).1;
  ra_user : bytes_wf (user_data_value (r_user_data (rp_qos p)).1);
  ra_filter : Dur.wf (minimun_separation (r_time_based_filter (rp_qos p)).1);
  ra_type : opt_wf name_wf (sub_type_name t);
  ra_topic : opt_wf name_wf (sub_topic_name t);
}.

Definition reader_qos_received (q : DataReaderQosPolicies) : DataReaderQosPolicies :=
  mkDataReaderQosPolicies ((r_durability q).1, true) ((r_deadline q).1, true)
    ((r_latency_budget q).1, true) (liveliness_received (r_liveliness q).1, true)
    ((r_reliability q).1, true) ((r_destination_order q).1, true) ((r_history q).1, true)
    ((r_resource_limits q).1, true) ((r_user_data q).1, true) ((r_ownership q).1, true)
    ((r_time_based_filter q).1, true) (qos_default, false).

Lemma reader_proxy_runs e p t :
  reader_announcement_wf p t →
  ∃ d, runs e (write_ReaderProxy e p ++ write_SubscriptionBuiltinTopicData e t) sdp_empty d ∧
    sdp_remote_guid d = Some (remote_reader_guid p) ∧
    sdp_expects_inline_qos d = Some (expects_inline_qos p) ∧
    sdp_unicast_locator_list d = unicast_locator_list (rp_locators p) ∧
    sdp_multicast_locator_list d = multicast_locator_list (rp_locators p) ∧
    sdp_type_name d = sub_type_name t ∧ sdp_topic_name d = sub_topic_name t ∧
    reader_proxy_qos d = reader_qos_received (rp_qos p).
Proof.
  intros []. destruct p as [guid eiq ls q cs]. destruct ls as [lu lm du dm]. simpl in *.
  eexists. split.
  - unfold write_ReaderProxy, write_SubscriptionBuiltinTopicData. rewrite <-!app_assoc.
    cbn [remote_reader_guid rp_locators expects_inline_qos rp_qos unicast_locator_list
      multicast_locator_list].
    run_value.
    run_flag.
    run_locators sdp_unicast_locator_list (λ l d, { d with sdp_unicast_locator_list := l }).
    run_locators sdp_multicast_locator_list (λ l d, { d with sdp_multicast_locator_list := l }).
    do 11 run_value.
    by apply runs_names.
  - repeat split; reflexivity.
Qed.

Lemma reader_announcement_main e p t hc du dm :
  reader_announcement_wf p t →
  ∃ d, read_SDPBuiltinData e (write_DiscoveredReaderData e p t) = Done ([], inr d) ∧
    gen_readerpoxy hc du dm d =
      Some <$> rp_new (remote_reader_guid p) (expects_inline_qos p)
        (mkLocators (unicast_locator_list (rp_locators p)) (multicast_locator_list (rp_locators p))
           du dm)
        (reader_qos_received (rp_qos p)) hc true ∧
    topic_info d = (n ← sub_topic_name t; ty ← sub_type_name t; Some (n, ty)).
Proof.
  intros Hwf. destruct (reader_proxy_runs e p t Hwf) as (d & Hrun & Hg & He & Hu & Hm & Hty & Hto & Hq).
  exists d. unfold write_DiscoveredReaderData. rewrite app_assoc. split; [by apply runs_read|].
  split.
  - unfold gen_readerpoxy. by rewrite Hg, He, Hu, Hm, Hq.
  - unfold topic_info. by rewrite Hto, Hty.
Qed.

(** The same for the announcement of a reader. *)
Theorem sedp_reader_roundtrip e p t hc du dm :
  reader_announcement_wf p t →
  ∃ d, read_SDPBuiltinData e (write_DiscoveredReaderData e p t) = Done ([], inr d) ∧
    gen_readerpoxy hc du dm d =
      Some <$> rp_new (remote_reader_guid p) (expects_inline_qos p)
        (mkLocators (unicast_locator_list (rp_locators p)) (multicast_locator_list (rp_locators p))
           du dm)
        (reader_qos_received (rp_qos p)) hc true ∧
    topic_info d = (n ← sub_topic_name t; ty ← sub_type_name t; Some (n, ty)).
Proof. apply reader_announcement_main. Qed.

(** ** Liveliness messages *)
Lemma participant_message_main e d :
  gp_wf (pmd_guid_prefix d) → octets 4 (pmd_kind d) → bytes_wf (pmd_data d) →
  parses (read_ParticipantMessageData e) (write_ParticipantMessageData e d) d.
Proof.
  destruct d as [p k v]. intros Hp Hk [_ Hlen].
  unfold read_ParticipantMessageData, write_ParticipantMessageData, write_bytes32; simpl in *.
  rewrite wrap_u_small by (unfold in_u; lia).
  eapply parses_bind; [by apply parses_GuidPrefix|].
  eapply parses_bind; [by apply (parses_oct 4)|].
  eapply parses_bind; [apply parses_u32; unfold in_u; lia|].
  eapply parses_bind; [by apply parses_octets|].
  eapply parses_bind_last; [apply parses_zeros, pad_len_range|]. apply parses_ret.
Qed.

(** ** The fuel of the parameter loop *)

Definition pshrinks {A} (r : prd A) : Prop :=
  ∀ buf, Forall octet buf → ∀ buf' x, r buf = Done (buf', x) → ∃ n, buf' = drop n buf.

Lemma shrinks_enum {A} e (g : Z → option A) : shrinks (read_enum e g).
Proof.
  apply shrinks_bind; [apply shrinks_bind; [apply shrinks_uint|intros; apply shrinks_ret]|].
  intros v. destruct (g v); [apply shrinks_ret|apply shrinks_fail].
Qed.
Lemma pshrinks_lift {A} (r : rd A) : shrinks r → pshrinks (lift r).
Proof.
  intros Hr buf Hbuf buf' x. unfold lift. intros [= Heq]. destruct (Hr buf Hbuf) as [n Hn].
  exists n. by rewrite <-Hn, Heq.
Qed.
Lemma pshrinks_ret {A} (a : A) : pshrinks (mret a).
Proof. intros buf _ buf' x [= <- _]. by exists 0%nat. Qed.
Lemma pshrinks_bind {A B} (r : prd A) (f : A → prd B) :
  pshrinks r → (∀ a, pshrinks (f a)) → pshrinks (r ≫= f).
Proof.
  intros Hr Hf buf Hbuf buf' x. unfold mbind, prd_bind.
  destruct (r buf) as [[b1 [e|a]]|] eqn:E; [|intros Hfa|done].
  - intros [= <- _]. by eapply Hr.
  - destruct (Hr buf Hbuf _ _ E) as [n ->].
    destruct (Hf a _ ltac:(by apply Forall_drop) _ _ Hfa) as [m ->].
    exists (n + m)%nat. by rewrite drop_drop.
Qed.
Lemma pshrinks_panic {A} : pshrinks (@prd_panic A).
Proof. intros buf _ buf' x. done. Qed.
Lemma pshrinks_of {A} (m : outcome A) : pshrinks (prd_of m).
Proof. intros buf _ buf' x. unfold prd_of. destruct m; [intros [= <- _]; by exists 0%nat|done]. Qed.

Ltac shrink :=
  repeat first
    [ apply shrinks_ret | apply shrinks_fail | apply shrinks_enum | apply shrinks_string
    | apply shrinks_n | apply shrinks_bind_uint; intros ? [? ?]
    | apply shrinks_bind; [|intros ?]
    | apply shrinks_uint
    | apply shrinks_octets; first [lia | apply wrap_u_range; lia | apply pad_len_range
        | match goal with |- 0 ≤ 1 + pad_len ?n => pose proof (pad_len_range n); lia end]
    | progress unfold read_u8, read_u16, read_u32, read_i16, read_i32, read_name, read_GUID,
        read_GuidPrefix, read_EntityId, read_ProtocolVersion, read_Duration, read_Durability,
        read_Ownership, read_DestinationOrder, read_HistoryQosKind, read_DurabilityService,
        read_Deadline, read_LatencyBudget, read_TimeBasedFilter, read_Lifespan, read_Liveliness,
        read_Reliability, read_History, read_ResourceLimits, read_OwnershipStrength,
        read_TransportPriority, read_UserData, read_bytes16, read_TopicData, read_GroupData,
        read_Presentation, read_Property, read_i32_string ].

Lemma pshrinks_locator e : pshrinks (read_locator e).
Proof.
  repeat (apply pshrinks_bind; [apply pshrinks_lift; shrink|intros ?]). apply pshrinks_of.
Qed.
Lemma pshrinks_flag e : pshrinks (read_flag e).
Proof.
  apply pshrinks_bind; [apply pshrinks_lift; shrink|intros ?]. destruct (_ || _); [|apply pshrinks_panic].
  apply pshrinks_bind; [apply pshrinks_lift; shrink|intros ?; apply pshrinks_ret].
Qed.
Lemma pshrinks_Partition e : pshrinks (read_Partition e).
Proof.
  apply pshrinks_bind; [apply pshrinks_lift; shrink|intros ?]. case_bool_decide; [apply pshrinks_panic|].
  apply pshrinks_bind; [apply pshrinks_lift; shrink|intros ?; apply pshrinks_ret].
Qed.

Lemma pshrinks_parameter e pid len d : 0 ≤ len → pshrinks (read_parameter e pid len d).
Proof.
  intros Hlen. unfold read_parameter.
  repeat case_match;
    repeat first [apply pshrinks_ret
                 | apply pshrinks_bind; [first [apply pshrinks_locator | apply pshrinks_flag
                     | apply pshrinks_Partition | apply pshrinks_lift; shrink]|intros ?]].
Qed.

Lemma prd_lift_bind {A B} (r : rd A) (f : A → prd B) buf :
  (lift r ≫= f) buf =
  match r buf with (b, inr a) => f a b | (b, inl e) => Done (b, inl e) end.
Proof. unfold mbind, prd_bind, lift. by destruct (r buf) as [? [?|?]]. Qed.

Lemma read_parameters_fuel e f1 f2 d buf :
  Forall octet buf → (length buf < f1)%nat → (length buf < f2)%nat →
  read_parameters f1 e d buf = read_parameters f2 e d buf.
Proof.
  revert f2 d buf. induction f1 as [|f1 IH]; intros [|f2] d buf Hbuf H1 H2; [lia..|].
  cbn [read_parameters]. rewrite !prd_lift_bind. unfold read_u16.
  destruct (decide (2 ≤ length buf)%nat) as [Hl|Hs].
  2:{ destruct (get_uint_short 2 e buf ltac:(lia)) as (n & ->). done. }
  destruct (get_uint_enough 2 e buf Hl Hbuf) as (pid & -> & _).
  case_bool_decide; [apply IH; [by apply Forall_drop|rewrite length_drop; lia..]|].
  rewrite !prd_lift_bind.
  destruct (decide (2 ≤ length (drop 2 buf))%nat) as [Hl2|Hs2].
  2:{ destruct (get_uint_short 2 e (drop 2 buf) ltac:(lia)) as (n & ->). done. }
  destruct (get_uint_enough 2 e (drop 2 buf) Hl2 ltac:(by apply Forall_drop)) as (len & -> & [Hlen _]).
  case_bool_decide; [done|]. unfold mbind, prd_bind. rewrite drop_drop.
  destruct (read_parameter e pid len d (drop (2 + 2) buf)) as [[buf' [er|d']]|] eqn:E; [done| |done].
  destruct (pshrinks_parameter e pid len d Hlen _ ltac:(by apply Forall_drop) _ _ E) as [n ->].
  apply IH; [by apply Forall_drop, Forall_drop|rewrite !length_drop; lia..].
Qed.

(** The parameter loop ends within the length of its input: any larger bound
    on the number of rounds gives the same result. *)
Theorem parameter_loop_terminates e buf fuel :
  Forall octet buf → (length buf < fuel)%nat →
  read_parameters fuel e sdp_empty buf = read_SDPBuiltinData e buf.
Proof. intros Hbuf Hfuel. apply read_parameters_fuel; [done|done|lia]. Qed.
End plist.

(** ** Concrete runs *)
Module ListSample.
Definition prefix : GuidPrefix := mkGuidPrefix [1; 2; 3; 4; 5; 6; 7; 8; 9; 10; 11; 12].
Definition guid (k : EntityKind) : GUID := mkGUID prefix (mkEntityId (0, 0, 1) k).
Definition udp (port : Z) : Locator := Loc.new_from_ipv4 port [192; 168; 0; 1].

Definition participant : SPDPdiscoveredParticipantData :=
  mkSPDPdiscoveredParticipantData 7 EmptyString PROTOCOLVERSION
    (mkGUID prefix Eid.PARTICIPANT) VENDORID_THIS_IMPLEMENTATION false 0xc3f
    [udp 7410] [udp 7400] [udp 7401] [udp 7411] (Some 0) (mkDuration 20 0).

Definition manual : Liveliness := mkLiveliness ManualByTopic (mkDuration 3 0).
Definition wqos : DataWriterQosPolicies := DataWriterQosBuilder_build
  (mkDataWriterQosBuilder (Some TransientLocal) None None None (Some manual) None None None None
     None None (Some (mkUserData [1; 2; 3; 4; 5])) None None None).
Definition rqos : DataReaderQosPolicies := DataReaderQosBuilder_build
  (mkDataReaderQosBuilder None None None (Some manual) None None None None None None None None).
Definition topic : Topic :=
  mkTopic "Square" "ShapeType" (TopicQosBuilder_build TopicQosBuilder_new) WithKey.
Definition locators : Locators := mkLocators [udp 7411] [udp 7401] [] [].
Definition writer_proxy : WriterProxy :=
  mkWriterProxy (guid Kind.WRITER_WITH_KEY_USER_DEFIND) locators 0 wqos ∅.
Definition reader_proxy : ReaderProxy :=
  mkReaderProxy (guid Kind.READER_WITH_KEY_USER_DEFIND) false locators rqos ∅.

Lemma loc_ok_udp p : in_u 32 p → loc_ok (udp p).
Proof.
  intros Hp. split; [|done]. split; [vm_compute; intuition congruence|]. split; [done|]. concrete.
Qed.
Lemma locs_ok p : in_u 32 p → Forall loc_ok [udp p].
Proof. intros. apply Forall_singleton. by apply loc_ok_udp. Qed.
Lemma guid_ok k : octet (value k) → guid_wf (guid k).
Proof. intros Hk. split; [unfold gp_wf; concrete|]. unfold eid_wf, octet in *; simpl. lia. Qed.
End ListSample.

Section list_witnesses.
Import ListSample Concrete.

Ltac number := unfold Dur.wf, limits_wf, service_wf, in_u, in_s; simpl; lia.

Lemma spdp_roundtrip_witness :
  ∃ r, read_SDPBuiltinData LittleEndian (write_spdp LittleEndian participant) = Done ([], inr r) ∧
    gen_spdp_discoverd_participant_data r = Some participant.
Proof.
  apply (spdp_roundtrip participant). constructor; simpl; try (apply locs_ok; unfold in_u; lia).
  - unfold in_u. lia.
  - split; unfold octet; simpl; lia.
  - split; [unfold gp_wf; concrete|]. unfold eid_wf, octet. simpl. lia.
  - concrete.
  - split; [unfold in_u; lia|reflexivity].
  - number.
  - apply opt_wf_some. number.
Defined.

Lemma sedp_writer_roundtrip_witness :
  ∃ d, read_SDPBuiltinData BigEndian
         (write_DiscoveredWriterData BigEndian writer_proxy (pub_builtin_topic_data topic)) =
         Done ([], inr d) ∧
    gen_writerproxy [] [] d =
      Some <$> wp_new (remote_writer_guid writer_proxy) (mkLocators [udp 7411] [udp 7401] [] []) 0
        (writer_qos_received wqos) ∧
    topic_info d = Some ("Square"%string, "ShapeType"%string).
Proof.
  apply (sedp_writer_roundtrip BigEndian writer_proxy (pub_builtin_topic_data topic) [] []).
  constructor; try (apply locs_ok; unfold in_u; lia); try (vm_compute; intuition congruence).
  - apply guid_ok. unfold octet; simpl; lia.
  - split; [|vm_compute; reflexivity]. concrete.
  - apply opt_wf_some. vm_compute. reflexivity.
  - apply opt_wf_some. vm_compute. reflexivity.
Defined.

Lemma sedp_reader_roundtrip_witness :
  ∃ d, read_SDPBuiltinData LittleEndian
         (write_DiscoveredReaderData LittleEndian reader_proxy (sub_builtin_topic_data topic)) =
         Done ([], inr d) ∧
    gen_readerpoxy (hc_new HcDummy) [] [] d =
      Some <$> rp_new (remote_reader_guid reader_proxy) false
        (mkLocators [udp 7411] [udp 7401] [] []) (reader_qos_received rqos) (hc_new HcDummy) true ∧
    topic_info d = Some ("Square"%string, "ShapeType"%string).
Proof.
  apply (sedp_reader_roundtrip LittleEndian reader_proxy (sub_builtin_topic_data topic)
           (hc_new HcDummy) [] []).
  constructor; try (apply locs_ok; unfold in_u; lia); try (vm_compute; intuition congruence).
  - apply guid_ok. unfold octet; simpl; lia.
  - split; [|vm_compute; reflexivity]. concrete.
  - apply opt_wf_some. vm_compute. reflexivity.
  - apply opt_wf_some. vm_compute. reflexivity.
Defined.

Lemma parameter_loop_terminates_witness :
  read_parameters 100 LittleEndian sdp_empty [0; 0; 0x62; 0; 4; 0] =
  read_SDPBuiltinData LittleEndian [0; 0; 0x62; 0; 4; 0].
Proof. apply parameter_loop_terminates; [concrete|simpl; lia]. Defined.

(** A participant that announces a UDPv4 locator with a non-zero prefix, an
    [expects_inline_qos] octet above one or a partition of negative length
    aborts every participant that hears it. *)
Example locator_assertion_panics :
  read_SDPBuiltinData LittleEndian
    (parameter LittleEndian Pid.UNICAST_LOCATOR 24
       (write_Locator LittleEndian (mkLocator Loc.KIND_UDPV4 7400 (replicate 16 1)))) = Panic.
Proof. vm_compute. reflexivity. Qed.
Example flag_assertion_panics :
  read_SDPBuiltinData LittleEndian
    (parameter LittleEndian Pid.EXPECTS_INLINE_QOS 4 [2; 0; 0; 0]) = Panic.
Proof. vm_compute. reflexivity. Qed.
Example negative_partition_panics :
  read_SDPBuiltinData LittleEndian
    (parameter LittleEndian Pid.PARTITION 4 (write_i32 LittleEndian (-1))) = Panic.
Proof. vm_compute. reflexivity. Qed.

(** Topic and group data are written with a 32-bit length and read with a
    16-bit one. *)
Example topic_data_not_roundtrip :
  (read_TopicData LittleEndian (write_TopicData LittleEndian (mkTopicData [1; 2; 3; 4]))).2 =
  inr (mkTopicData [0; 0; 1; 2]).
Proof. vm_compute. reflexivity. Qed.

(** The domain id goes out as 32 bits and comes back from the first 16: in
    big-endian order it is lost. *)
Example big_endian_domain_id_lost :
  match read_SDPBuiltinData BigEndian (write_spdp BigEndian participant) with
  | Done (_, inr d) => sdp_domain_id d
  | _ => None
  end = Some 0.
Proof. vm_compute. reflexivity. Qed.
End list_witnesses.
