(* ===== verification/Receiver.v ===== *)
(** * The message receiver

    src/src/message/message_receiver.rs: from a datagram to the handlers of
    the participant's writers and readers.  The receiver runs on the event
    loop's thread and mutates the endpoints in place, so a step is a function
    from the [World] (receiver, writers, readers, discovery database) to a
    panic or a new world, the events emitted in order, and a result or a
    [MessageError]; what was done before an error stays done. *)
From stdpp Require Import base tactics numbers list gmap strings.
From coqutil Require Import Datatypes.RecordSetters.
From S2P Require Import Prelude Ordered Ids Time SeqNum Qos HistoryCache Topic Message Proxy Writer.
From S2P Require Import DiscoveryData DiscoveryDB Reader Speedy Wire ParameterList.
Import OCamlLikeNotations.

(** ** Data *)

(** The texts of the errors. *)
Inductive Reason :=
| InvalidInfoReply | InvalidInfoReplyIp4 | InvalidInfoTimestamp | InvalidAckNack (reader : GUID)
| InvalidData | InlineQosNotSupported | DeserializeFailed (e : ReadError) | NoSerializedPayload
| IncompleteSpdp | DifferentDomain (self remote : Z) | NoProxy | UnknownParticipant | NoTopicInfo
| NoBuiltinReader | DataFragNotSupported | InvalidGap (writer : GUID) | InvalidHeartbeat (writer : GUID)
| HeartbeatFragNotSupported | NackFragNotSupported.
#[export] Instance Reason_eq_dec : EqDecision Reason.
Proof. solve_decision. Defined.

(** [MessageError::Error] and [MessageError::Warn]. *)
Inductive MessageError := MsgError (why : Reason) | MsgWarn (why : Reason).
#[export] Instance MessageError_eq_dec : EqDecision MessageError.
Proof. solve_decision. Defined.

(** [wlp_timer_sender] is an event, [disc_db] a part of the [World]. *)
Record MessageReceiver := mkMessageReceiver {
  domain_id : Z;
  own_guid_prefix : GuidPrefix;
  source_version : ProtocolVersion;
  source_vendor_id : list Z;
  source_guid_prefix : GuidPrefix;
  dest_guid_prefix : GuidPrefix;
  unicast_reply_locator_list : list Locator;
  multicast_reply_locator_list : list Locator;
  have_timestamp : bool;
  mr_timestamp : Timestamp;
  spdp_data : SerializedPayload;
}.

Record World := mkWorld {
  receiver : MessageReceiver;
  writers : gmap EntityId Writer;
  readers : gmap EntityId Reader;
  disc_db : DiscoveryDB;
}.

Inductive Event :=
| OfWriter (w : EntityId) (ev : WriterEvent)
| OfReader (r : EntityId) (ev : ReaderEvent)
| WlpTimer (r : EntityId).

(** The clock readings of one submessage: the receiver's, the one of
    [handle_spdp_data], the one of the announcement sent back, and those of the
    writers' messages. *)
Record Clock := mkClock {
  clk_data : option Timestamp;
  clk_spdp : option Timestamp;
  clk_builtin : option Timestamp;
  clk_writer : Z → nat → option Timestamp;
}.

(** ** The monad *)
Definition rcv (A : Type) : Type := World → outcome (World * list Event * (MessageError + A)).
#[export] Instance rcv_ret : MRet rcv := λ A a W, Done (W, [], inr a).
#[export] Instance rcv_bind : MBind rcv := λ A B f m W,
  match m W with
  | Done (W1, evs, inr a) =>
      match f a W1 with
      | Done (W2, evs', r) => Done (W2, evs ++ evs', r)
      | Panic => Panic
      end
  | Done (W1, evs, inl e) => Done (W1, evs, inl e)
  | Panic => Panic
  end.

Definition raise {A} (e : MessageError) : rcv A := λ W, Done (W, [], inl e).
Definition warn {A} (why : Reason) : rcv A := raise (MsgWarn why).
Definition error {A} (why : Reason) : rcv A := raise (MsgError why).
Definition catch {A} (m : rcv A) : rcv (MessageError + A) := λ W,
  match m W with Done (W', evs, r) => Done (W', evs, inr r) | Panic => Panic end.
Definition lift_outcome {A} (m : outcome A) : rcv A := λ W,
  match m with Done a => Done (W, [], inr a) | Panic => Panic end.
Definition gets {A} (f : World → A) : rcv A := λ W, Done (W, [], inr (f W)).
Definition modify (f : World → World) : rcv unit := λ W, Done (f W, [], inr tt).
Definition emit (ev : Event) : rcv unit := λ W, Done (W, [ev], inr tt).

Definition set_receiver f W := mkWorld (f (receiver W)) (writers W) (readers W) (disc_db W).
Definition set_writers f W := mkWorld (receiver W) (f (writers W)) (readers W) (disc_db W).
Definition set_readers f W := mkWorld (receiver W) (writers W) (f (readers W)) (disc_db W).
Definition set_disc_db f W := mkWorld (receiver W) (writers W) (readers W) (f (disc_db W)).

(** [readers.get_mut(eid)] followed by a handler, [None] when there is none. *)
Definition with_reader {A} (eid : EntityId)
    (f : Reader → outcome (Reader * list ReaderEvent * A)) : rcv (option A) := λ W,
  match readers W !! eid with
  | None => Done (W, [], inr None)
  | Some r =>
      match f r with
      | Done (r, evs, a) => Done (set_readers <[eid := r]> W, OfReader eid <$> evs, inr (Some a))
      | Panic => Panic
      end
  end.
Definition with_writer {A} (eid : EntityId)
    (f : Writer → outcome (Writer * list WriterEvent * A)) : rcv (option A) := λ W,
  match writers W !! eid with
  | None => Done (W, [], inr None)
  | Some w =>
      match f w with
      | Done (w, evs, a) => Done (set_writers <[eid := w]> W, OfWriter eid <$> evs, inr (Some a))
      | Panic => Panic
      end
  end.

(** A loop over the keys of a map. *)
Fixpoint loop {A} (body : A → EntityId → rcv A) (a : A) (l : list EntityId) : rcv A :=
  match l with
  | [] => mret a
  | eid :: l => a ← body a eid; loop body a l
  end.
Definition for_readers {A} (body : A → EntityId → rcv A) (a : A) : rcv A :=
  l ← gets (λ W, bt_keys (readers W)); loop body a l.

(** A loop that [return]s from the function when the body says [false]. *)
Fixpoint loop_while (body : EntityId → rcv bool) (l : list EntityId) : rcv bool :=
  match l with
  | [] => mret true
  | eid :: l => go ← body eid; if (go : bool) then loop_while body l else mret false
  end.

(** ** The receiver's own state *)

Definition receiver_new (p : GuidPrefix) (domain : Z) (spdp : SerializedPayload) : MessageReceiver :=
  mkMessageReceiver domain p PROTOCOLVERSION VENDORID_UNKNOW GUIDPREFIX_UNKNOW GUIDPREFIX_UNKNOW
    [Loc.INVALID] [Loc.INVALID] false Ts.TIME_INVALID spdp.

Definition reset (m : MessageReceiver) : MessageReceiver :=
  mkMessageReceiver (domain_id m) (own_guid_prefix m) PROTOCOLVERSION VENDORID_UNKNOW
    GUIDPREFIX_UNKNOW GUIDPREFIX_UNKNOW [] [] false Ts.TIME_INVALID (spdp_data m).

Definition reply_locators (r : InfoReply) (f : Z) (why : Reason) : rcv unit :=
  _ ← modify (set_receiver (λ m,
        { m with unicast_reply_locator_list := ir_unicast_locator_list r }));
  if contains f Flag.InfoReply.Multicast then
    match ir_multicast_locator_list r with
    | Some l => modify (set_receiver (λ m, { m with multicast_reply_locator_list := l }))
    | None => warn why
    end
  else modify (set_receiver (λ m, { m with multicast_reply_locator_list := [] })).

Definition handle_interpreter_submessage (s : InterpreterSubmessage) : rcv unit :=
  match s with
  | IInfoReply r f => reply_locators r f InvalidInfoReply
  | IInfoReplyIp4 r f => reply_locators r f InvalidInfoReplyIp4
  | IInfoTimestamp ts f =>
      if negb (contains f Flag.InfoTimestamp.Invalidate) then
        _ ← modify (set_receiver (λ m, { m with have_timestamp := true }));
        match ts with
        | Some t => modify (set_receiver (λ m, { m with mr_timestamp := t }))
        | None => warn InvalidInfoTimestamp
        end
      else modify (set_receiver (λ m, { m with have_timestamp := false }))
  | IInfoSource s _ =>
      modify (set_receiver (λ m,
        mkMessageReceiver (domain_id m) (own_guid_prefix m) (is_protocol_version s) (is_vendor_id s)
          (is_guid_prefix s) (dest_guid_prefix m) [] [] false (mr_timestamp m) (spdp_data m)))
  | IInfoDestination p _ => modify (set_receiver (λ m, { m with dest_guid_prefix := p }))
  end.

(** The guard at the head of the entity handlers. *)
Definition from_self (m : MessageReceiver) : bool :=
  bool_decide (source_guid_prefix m = own_guid_prefix m) &&
  negb (bool_decide (dest_guid_prefix m = GUIDPREFIX_UNKNOW)).

Definition unless_from_self {A} (a : A) (k : rcv A) : rcv A :=
  m ← gets receiver; if from_self m then mret a else k.

Definition source_guid (W : World) (e : EntityId) : GUID :=
  mkGUID (source_guid_prefix (receiver W)) e.

(** ** ACKNACK *)

Definition handle_acknack_submsg (clk : Clock) (a : AckNack) : rcv (option WriterTimer) :=
  unless_from_self None (
    reader_guid ← gets (λ W, source_guid W (an_reader_id a));
    if bool_decide (bitmap_base (reader_sn_state a) = 0) &&
       bool_decide (num_bits (reader_sn_state a) = 0) then mret None
    else if negb (acknack_is_valid a) then warn (InvalidAckNack reader_guid)
    else
      t ← with_writer (an_writer_id a) (handle_acknack (clk_writer clk) a reader_guid);
      mret (mjoin t)).

(** ** Discovery data *)

(** The endianness that the representation identifier stands for. *)
Definition CDR_BE : list Z := [0; 0].
Definition CDR_LE : list Z := [0; 1].
Definition PL_CDR_BE : list Z := [0; 2].
Definition PL_CDR_LE : list Z := [0; 3].
Definition encapsulation (sp : SerializedPayload) : outcome Endianness :=
  let kind := representation_identifier sp in
  if bool_decide (kind = CDR_LE) then Done LittleEndian
  else if bool_decide (kind = CDR_BE) then Done BigEndian
  else if bool_decide (kind = PL_CDR_LE) then Done LittleEndian
  else if bool_decide (kind = PL_CDR_BE) then Done BigEndian
  else Panic.

Section receiver.
Context `{Speedy}.

(** [read_from_buffer_with_ctx(endianness, &bytes[4..])]. *)
Definition deserialize {A} (r : Endianness → prd A) (d : Data) : rcv A :=
  match data_serialized_payload d with
  | None => warn NoSerializedPayload
  | Some sp =>
      e ← lift_outcome (encapsulation sp);
      '(_, res) ← lift_outcome (r e (sp_value sp));
      match res with
      | inr a => mret a
      | inl err => error (DeserializeFailed err)
      end
  end.

(** [BuiltinEndpoint]. *)
Definition PUBLICATIONS_ANNOUNCER : Z := 0x4.
Definition PUBLICATIONS_DETECTOR : Z := 0x8.
Definition SUBSCRIPTIONS_ANNOUNCER : Z := 0x10.
Definition SUBSCRIPTIONS_DETECTOR : Z := 0x20.
Definition PARTICIPANT_MESSAGE_DATA_WRITER : Z := 0x400.
Definition PARTICIPANT_MESSAGE_DATA_READER : Z := 0x800.

(** The QoS that the built-in endpoints of a remote participant are given. *)
Definition remote_reader_qos (r : Reliability) (h : option History) : DataReaderQosPolicies :=
  DataReaderQosBuilder_build { DataReaderQosBuilder_new with
    rb_reliability := Some r; rb_durability := Some TransientLocal; rb_history := h }.
Definition remote_writer_qos (r : Reliability) (h : option History) : DataWriterQosPolicies :=
  DataWriterQosBuilder_build { DataWriterQosBuilder_new with
    wb_reliability := Some r; wb_durability := Some TransientLocal; wb_history := h }.

Definition match_remote_reader (d : SPDPdiscoveredParticipantData) (bit : Z)
    (remote local : EntityId) (qos : DataReaderQosPolicies) : rcv unit :=
  if contains (spdp_available_builtin_endpoint d) bit then
    _ ← with_writer local (λ w,
      '(w, evs) ← matched_reader_add (mkGUID (guid_prefix (spdp_guid d)) remote)
        (spdp_expects_inline_qos d) (spdp_metarraffic_unicast_locator_list d)
        (spdp_metarraffic_multicast_locator_list d) qos w;
      Done (w, evs, tt));
    mret tt
  else mret tt.
Definition match_remote_writer (d : SPDPdiscoveredParticipantData) (bit : Z)
    (remote local : EntityId) (qos : DataWriterQosPolicies) : rcv unit :=
  if contains (spdp_available_builtin_endpoint d) bit then
    _ ← with_reader local (λ r,
      '(r, evs) ← matched_writer_add (mkGUID (guid_prefix (spdp_guid d)) remote)
        (spdp_metarraffic_unicast_locator_list d) (spdp_metarraffic_multicast_locator_list d) 0 qos r;
      Done (r, evs, tt));
    mret tt
  else mret tt.

Definition handle_participant_discovery (d : SPDPdiscoveredParticipantData) : rcv unit :=
  domain ← gets (λ W, domain_id (receiver W));
  if negb (bool_decide (spdp_domain_id d = domain)) then mret tt
  else
    let keep_last_1 := Some (mkHistory KeepLast 1) in
    _ ← match_remote_reader d PUBLICATIONS_DETECTOR Eid.SEDP_BUILTIN_PUBLICATIONS_DETECTOR
          Eid.SEDP_BUILTIN_PUBLICATIONS_ANNOUNCER (remote_reader_qos default_besteffort None);
    _ ← match_remote_writer d PUBLICATIONS_ANNOUNCER Eid.SEDP_BUILTIN_PUBLICATIONS_ANNOUNCER
          Eid.SEDP_BUILTIN_PUBLICATIONS_DETECTOR (remote_writer_qos default_reliable None);
    _ ← match_remote_reader d SUBSCRIPTIONS_DETECTOR Eid.SEDP_BUILTIN_SUBSCRIPTIONS_DETECTOR
          Eid.SEDP_BUILTIN_SUBSCRIPTIONS_ANNOUNCER (remote_reader_qos default_reliable None);
    _ ← match_remote_writer d SUBSCRIPTIONS_ANNOUNCER Eid.SEDP_BUILTIN_SUBSCRIPTIONS_ANNOUNCER
          Eid.SEDP_BUILTIN_SUBSCRIPTIONS_DETECTOR (remote_writer_qos default_reliable None);
    _ ← match_remote_reader d PARTICIPANT_MESSAGE_DATA_READER Eid.P2P_BUILTIN_PARTICIPANT_MESSAGE_READER
          Eid.P2P_BUILTIN_PARTICIPANT_MESSAGE_WRITER (remote_reader_qos default_reliable keep_last_1);
    match_remote_writer d PARTICIPANT_MESSAGE_DATA_WRITER Eid.P2P_BUILTIN_PARTICIPANT_MESSAGE_WRITER
          Eid.P2P_BUILTIN_PARTICIPANT_MESSAGE_READER (remote_writer_qos default_reliable keep_last_1).

(** Where the own announcement goes when a new participant was heard of. *)
Definition reply_destinations (d : SPDPdiscoveredParticipantData) : outcome (list Locator) :=
  if negb (bool_decide (spdp_metarraffic_unicast_locator_list d = []))
  then Done (spdp_metarraffic_unicast_locator_list d)
  else if negb (bool_decide (spdp_default_unicast_locator_list d = []))
  then Done (spdp_default_unicast_locator_list d)
  else Loc.new_list_from_multi_ipv4 7400 [[239; 255; 0; 1]].

Definition handle_spdp_data (clk : Clock) (d : Data) : rcv unit :=
  deserialized ← deserialize read_SDPBuiltinData d;
  match gen_spdp_discoverd_participant_data deserialized with
  | None => warn IncompleteSpdp
  | Some new_data =>
      m ← gets receiver;
      if negb (bool_decide (domain_id m = spdp_domain_id new_data))
      then warn (DifferentDomain (domain_id m) (spdp_domain_id new_data))
      else
        let p := guid_prefix (spdp_guid new_data) in
        let ts := default Ts.TIME_INVALID (clk_spdp clk) in
        known ← gets (λ W, (write_participant p ts new_data (disc_db W)).2);
        _ ← modify (set_disc_db (λ db, (write_participant p ts new_data db).1));
        _ ← (if (known : bool) then mret tt
             else
               locators ← lift_outcome (reply_destinations new_data);
               _ ← with_writer Eid.SPDP_BUILTIN_PARTICIPANT_ANNOUNCER (λ w,
                     evs ← send_builtin_data_for_loc (clk_builtin clk) (spdp_data m) locators w;
                     Done (w, evs, tt));
               mret tt);
        handle_participant_discovery new_data
  end.

(** [readers.get_mut(eid)], [add_change], the timers dropped. *)
Definition add_to_builtin_reader (eid : EntityId) (c : CacheChange) : rcv unit :=
  source ← gets (λ W, source_guid_prefix (receiver W));
  o ← with_reader eid (reader_add_change source c);
  match o with Some _ => mret tt | None => error NoBuiltinReader end.

(** One reader of the loop of [handle_sedp_w_data]. *)
Definition match_announced_writer (wp : WriterProxy) (topic_name data_type : string) (eid : EntityId)
    : rcv bool :=
  o ← with_reader eid (λ r,
    if is_writer_match topic_name data_type r then
      let matches :=
        match topic_kind (entity_id (remote_writer_guid wp)) with
        | Some tk => bool_decide (rd_topic_kind (rconf r) = tk)
        | None => true
        end in
      if (matches : bool) then
        '(r, evs, _) ← matched_writer_add_with_default_locator (remote_writer_guid wp)
                         (wp_locators wp) (data_max_size_serialized wp) (wp_qos wp) r;
        Done (r, evs, Some true)
      else Done (r, [], Some false)
    else Done (r, [], None));
  match mjoin o with
  | Some true => _ ← emit (WlpTimer eid); mret true
  | Some false => mret false
  | None => mret true
  end.

Definition handle_sedp_w_data (d : Data) (c : CacheChange) (ts : Timestamp) : rcv unit :=
  deserialized ← deserialize read_SDPBuiltinData d;
  participant ← gets (λ W, read_participant_data (source_guid_prefix (receiver W)) (disc_db W));
  match participant with
  | None => warn UnknownParticipant
  | Some p =>
      o ← lift_outcome (gen_writerproxy (spdp_default_unicast_locator_list p)
                          (spdp_default_multicast_locator_list p) deserialized);
      match o with
      | None => warn NoProxy
      | Some wp =>
          match topic_info deserialized with
          | None => warn NoTopicInfo
          | Some (topic_name, data_type) =>
              _ ← modify (set_disc_db (write_remote_writer (remote_writer_guid wp) ts
                            (liveliness_kind (w_liveliness (wp_qos wp)).1)));
              l ← gets (λ W, bt_keys (readers W));
              go ← loop_while (match_announced_writer wp topic_name data_type) l;
              if (go : bool) then add_to_builtin_reader Eid.SEDP_BUILTIN_PUBLICATIONS_DETECTOR c
              else mret tt
          end
      end
  end.

(** One writer of the loop of [handle_sedp_r_data]. *)
Definition match_announced_reader (rp : ReaderProxy) (topic_name data_type : string) (eid : EntityId)
    : rcv bool :=
  o ← with_writer eid (λ w,
    if is_reader_match topic_name data_type w then
      let matches :=
        match topic_kind (entity_id (remote_reader_guid rp)) with
        | Some tk => bool_decide (w_topic_kind (conf w) = tk)
        | None => true
        end in
      if (matches : bool) then
        '(w, evs) ← matched_reader_add_with_default_locator (remote_reader_guid rp)
                      (expects_inline_qos rp) (rp_locators rp) (rp_qos rp) w;
        Done (w, evs, true)
      else Done (w, [], false)
    else Done (w, [], true));
  mret (default true o).

Definition handle_sedp_r_data (d : Data) (c : CacheChange) : rcv unit :=
  deserialized ← deserialize read_SDPBuiltinData d;
  participant ← gets (λ W, read_participant_data (source_guid_prefix (receiver W)) (disc_db W));
  match participant with
  | None => warn UnknownParticipant
  | Some p =>
      o ← lift_outcome (gen_readerpoxy (hc_new HcDummy) (spdp_default_unicast_locator_list p)
                          (spdp_default_multicast_locator_list p) deserialized);
      match o with
      | None => warn NoProxy
      | Some rp =>
          match topic_info deserialized with
          | None => warn NoTopicInfo
          | Some (topic_name, data_type) =>
              l ← gets (λ W, bt_keys (writers W));
              go ← loop_while (match_announced_reader rp topic_name data_type) l;
              if (go : bool) then add_to_builtin_reader Eid.SEDP_BUILTIN_SUBSCRIPTIONS_DETECTOR c
              else mret tt
          end
      end
  end.

Definition handle_participant_message (d : Data) (c : CacheChange) (ts : Timestamp) : rcv unit :=
  deserialized ← deserialize (λ e, lift (read_ParticipantMessageData e)) d;
  participant ← gets (λ W, read_participant_data (source_guid_prefix (receiver W)) (disc_db W));
  match participant with
  | None => warn UnknownParticipant
  | Some _ =>
      let update k := modify (set_disc_db
            (update_liveliness_with_guid_prefix_with_kind (pmd_guid_prefix deserialized) ts k)) in
      _ ← (if bool_decide (pmd_kind deserialized = AUTOMATIC_LIVELINESS_UPDATE) then update Automatic
           else if bool_decide (pmd_kind deserialized = MANUAL_LIVELINESS_UPDATE)
           then update ManualByParticipant else mret tt);
      add_to_builtin_reader Eid.P2P_BUILTIN_PARTICIPANT_MESSAGE_READER c
  end.

(** ** DATA *)

(** [write_remote_writer] with the liveliness kind of the matched writer. *)
Definition update_liveliness (g : GUID) (ts : Timestamp) (eid : EntityId) : rcv unit :=
  o ← with_reader eid (λ r, q ← get_matched_writer_qos g r; Done (r, [], q));
  match o with
  | Some q => modify (set_disc_db (write_remote_writer g ts (liveliness_kind (w_liveliness q).1)))
  | None => mret tt
  end.

(** A sample for a reader that knows the writer. *)
Definition deliver (g : GUID) (c : CacheChange) (ts : Timestamp) (eid : EntityId)
    : rcv (list ReaderTimer) :=
  o ← with_reader eid (reader_add_change (guid_prefix g) c);
  _ ← update_liveliness g ts eid;
  mret (default [] (mjoin o)).

Definition knows_writer (g : GUID) (eid : EntityId) : rcv bool :=
  gets (λ W, match readers W !! eid with Some r => is_contain_writer g r | None => false end).

Definition opt_vec (rtv : list ReaderTimer) : option (list ReaderTimer) :=
  match rtv with [] => None | _ => Some rtv end.

Definition for_or (w r : EntityId) (d : Data) : bool :=
  bool_decide (data_writer_id d = w) || bool_decide (data_reader_id d = r).

Definition dispatch_data (clk : Clock) (d : Data) (c : CacheChange) (ts : Timestamp) (g : GUID)
    : rcv (list ReaderTimer) :=
  if for_or Eid.SPDP_BUILTIN_PARTICIPANT_ANNOUNCER Eid.SPDP_BUILTIN_PARTICIPANT_DETECTOR d
  then _ ← handle_spdp_data clk d; mret []
  else if for_or Eid.SEDP_BUILTIN_PUBLICATIONS_ANNOUNCER Eid.SEDP_BUILTIN_PUBLICATIONS_DETECTOR d
  then _ ← handle_sedp_w_data d c ts; mret []
  else if for_or Eid.SEDP_BUILTIN_SUBSCRIPTIONS_ANNOUNCER Eid.SEDP_BUILTIN_SUBSCRIPTIONS_DETECTOR d
  then _ ← handle_sedp_r_data d c; mret []
  else if for_or Eid.P2P_BUILTIN_PARTICIPANT_MESSAGE_WRITER Eid.P2P_BUILTIN_PARTICIPANT_MESSAGE_READER d
  then _ ← handle_participant_message d c ts; mret []
  else if bool_decide (data_reader_id d = Eid.UNKNOW) then
    for_readers (λ rtv eid,
      known ← knows_writer g eid;
      if (known : bool) then rt ← deliver g c ts eid; mret (rtv ++ rt) else mret rtv) []
  else
    known ← knows_writer g (data_reader_id d);
    if (known : bool) then deliver g c ts (data_reader_id d) else mret [].

Definition handle_data_submsg (clk : Clock) (d : Data) (flag : Z) : rcv (option (list ReaderTimer)) :=
  unless_from_self None (
    if bool_decide (data_writer_sn d < 0) ||
       bool_decide (data_writer_sn d = Sn.SEQUENCENUMBER_UNKNOWN) then warn InvalidData
    else if contains flag Flag.Data.InlineQos then warn InlineQosNotSupported
    else
      g ← gets (λ W, source_guid W (data_writer_id d));
      ts ← lift_outcome (unwrap (clk_data clk));
      let c := mkCacheChange Alive g (data_writer_sn d) ts (data_serialized_payload d) in
      rtv ← dispatch_data clk d c ts g;
      mret (opt_vec rtv)).

(** ** GAP and HEARTBEAT *)

Definition handle_gap_submsg (gap : Gap) (flag : Z) : rcv unit :=
  unless_from_self tt (
    g ← gets (λ W, source_guid W (gap_writer_id gap));
    if negb (gap_is_valid gap flag) then warn (InvalidGap g)
    else
      let handle eid := o ← with_reader eid (λ r, Done (handle_gap g gap r, tt)); mret tt in
      if bool_decide (gap_reader_id gap = Eid.UNKNOW) then
        for_readers (λ _ eid,
          known ← knows_writer g eid; if (known : bool) then handle eid else mret tt) tt
      else handle (gap_reader_id gap)).

(** [r.handle_heartbeat(..)] and [update_liveliness_if_need!]. *)
Definition heartbeat_reader (g : GUID) (flag : Z) (hb : Heartbeat) (ts : Timestamp) (eid : EntityId)
    : rcv bool :=
  o ← with_reader eid (handle_heartbeat g flag hb);
  match o with
  | Some _ =>
      _ ← (if contains flag Flag.Heartbeat.Liveliness then update_liveliness g ts eid else mret tt);
      mret true
  | None => mret false
  end.

Definition handle_heartbeat_submsg (clk : Clock) (hb : Heartbeat) (flag : Z) : rcv unit :=
  unless_from_self tt (
    g ← gets (λ W, source_guid W (hb_writer_id hb));
    valid ← lift_outcome (heartbeat_is_valid hb flag);
    if negb valid then warn (InvalidHeartbeat g)
    else
      ts ← lift_outcome (unwrap (clk_data clk));
      let builtin eid :=
        found ← heartbeat_reader g flag hb ts eid;
        if (found : bool) then mret tt else lift_outcome Panic in
      if bool_decide (hb_reader_id hb = Eid.UNKNOW) then
        if bool_decide (hb_writer_id hb = Eid.SEDP_BUILTIN_PUBLICATIONS_ANNOUNCER)
        then builtin Eid.SEDP_BUILTIN_PUBLICATIONS_DETECTOR
        else if bool_decide (hb_writer_id hb = Eid.SEDP_BUILTIN_SUBSCRIPTIONS_ANNOUNCER)
        then builtin Eid.SEDP_BUILTIN_SUBSCRIPTIONS_DETECTOR
        else
          for_readers (λ _ eid,
            known ← knows_writer g eid;
            if (known : bool) then _ ← heartbeat_reader g flag hb ts eid; mret tt else mret tt) tt
      else _ ← heartbeat_reader g flag hb ts (hb_reader_id hb); mret tt).

(** ** Messages and packets *)

(** The timers of everything but DATA are dropped ([map(|_| None)]). *)
Definition handle_entity_submessage (clk : Clock) (s : EntitySubmessage)
    : rcv (option (list ReaderTimer)) :=
  match s with
  | EAckNack a _ => _ ← handle_acknack_submsg clk a; mret None
  | EData d f => handle_data_submsg clk d f
  | EDataFrag _ _ => warn DataFragNotSupported
  | EGap g f => _ ← handle_gap_submsg g f; mret None
  | EHeartBeat hb f => _ ← handle_heartbeat_submsg clk hb f; mret None
  | EHeartbeatFrag _ _ => warn HeartbeatFragNotSupported
  | ENackFrag _ _ => warn NackFragNotSupported
  end.

Definition handle_submessage (clk : Clock) (b : SubMessageBody) : rcv (option (list ReaderTimer)) :=
  match b with
  | Entity e => handle_entity_submessage clk e
  | Interpreter i => _ ← handle_interpreter_submessage i; mret None
  end.

(** The loop over the submessages ends at the first error. *)
Fixpoint handle_submessages (clk : nat → Clock) (l : list SubMessage) (rtv : list ReaderTimer)
    : rcv (list ReaderTimer) :=
  match l with
  | [] => mret rtv
  | m :: l =>
      r ← catch (handle_submessage (clk 0%nat) (sm_body m));
      match r with
      | inl _ => mret rtv
      | inr rt => handle_submessages (clk ∘ S) l (rtv ++ default [] rt)
      end
  end.

Definition handle_parsed_packet (clk : nat → Clock) (m : Message) : rcv (option (list ReaderTimer)) :=
  _ ← modify (set_receiver (λ r, { (reset r) with
        dest_guid_prefix := own_guid_prefix r;
        source_guid_prefix := header_guid_prefix (msg_header m) }));
  rtv ← handle_submessages clk (submessages m) [];
  mret (opt_vec rtv).

(** The tests before [Message::new]; only the log tells the first three
    apart. *)
Inductive PacketKind := TooSmall | NotRtps | DdsPing | RtpsPacket.
Definition DDSPING : list Z := [0x44; 0x44; 0x53; 0x50; 0x49; 0x4e; 0x47].
Definition classify (msg : list Z) : PacketKind :=
  if bool_decide (length msg < 16) then TooSmall
  else if negb (bool_decide (take 4 msg = PROTOCOLVID)) then NotRtps
  else if bool_decide (length msg < 20) then
    if bool_decide (take 7 (drop 9 msg) = DDSPING) then DdsPing else TooSmall
  else RtpsPacket.

(** One packet of [handle_packet]; [message_new] always ends. *)
Definition handle_datagram (native : Endianness) (clk : nat → Clock) (msg : list Z)
    : rcv (list ReaderTimer) :=
  match classify msg with
  | RtpsPacket =>
      parsed ← lift_outcome (default Panic (message_new native msg));
      match parsed with
      | inl _ => mret []
      | inr m => rt ← handle_parsed_packet clk m; mret (default [] rt)
      end
  | _ => mret []
  end.

Fixpoint handle_packets (native : Endianness) (clk : nat → nat → Clock) (l : list (list Z))
    (rtv : list ReaderTimer) : rcv (list ReaderTimer) :=
  match l with
  | [] => mret rtv
  | msg :: l =>
      rt ← handle_datagram native (clk 0%nat) msg;
      handle_packets native (clk ∘ S) l (rtv ++ rt)
  end.

Definition handle_packet (native : Endianness) (clk : nat → nat → Clock) (l : list (list Z))
    : rcv (option (list ReaderTimer)) :=
  rtv ← handle_packets native clk l []; mret (opt_vec rtv).
End receiver.
