(* ===== verification/ReceiverProofs.v ===== *)
(** * What the message receiver guarantees

    Theorems on src/src/message/message_receiver.rs as [Receiver] models it,
    on top of the theorems on its parts: whatever packets arrive, the writers,
    the readers and the discovery database keep their invariants; a
    participant ignores its own messages; what an announced endpoint leads to;
    when a heartbeat aborts the process. *)
From stdpp Require Import base tactics numbers list gmap strings.
From S2P Require Import Prelude Ordered Ids Time SeqNum Qos HistoryCache Topic Message Proxy Writer.
From S2P Require Import WriterProofs DiscoveryData DiscoveryDB Reader ReaderProofs Speedy Wire WireProofs.
From S2P Require Import ParameterList ParameterListProofs Receiver.

(** ** Typing of discovery data

    The durations of a parsed announcement are in the range of their fields. *)
Definition sdp_ok (d : SDPBuiltinData) : Prop :=
  opt_wf Dur.wf (sdp_lease_duration d) ∧
  opt_wf (λ l, Dur.wf (lifespan_duration l)) (sdp_lifespan d) ∧
  opt_wf (λ l, Dur.wf (lease_duration l)) (sdp_liveliness d).

Section sdp.
Context `{SpeedyLaws}.

Lemma reads_Duration e : reads (read_Duration e) Dur.wf.
Proof.
  eapply reads_bind; [apply reads_i32|]. intros s Hs.
  eapply reads_bind; [apply reads_u32|]. intros f Hf. by apply reads_ret.
Qed.
Lemma reads_Lifespan e : reads (read_Lifespan e) (λ l, Dur.wf (lifespan_duration l)).
Proof. eapply reads_bind; [apply reads_Duration|]. intros d Hd. by apply reads_ret. Qed.
Lemma reads_enum {A} e (g : Z → option A) : reads (read_enum e g) (λ _, True).
Proof.
  eapply reads_bind; [apply reads_i32|]. intros v _. destruct (g v); [by apply reads_ret|].
  intros buf Hbuf. by split.
Qed.
Lemma reads_Liveliness e : reads (read_Liveliness e) (λ l, Dur.wf (lease_duration l)).
Proof.
  eapply reads_bind; [apply reads_enum|]. intros k _.
  eapply reads_bind; [apply reads_Duration|]. intros d Hd. by apply reads_ret.
Qed.

(** Three parameters carry such a duration, the others leave them alone. *)
Lemma read_parameter_ok e pid len d buf buf' d' :
  Forall octet buf → sdp_ok d → read_parameter e pid len d buf = Done (buf', inr d') → sdp_ok d'.
Proof.
  intros Hbuf (H1 & H2 & H3). unfold read_parameter.
  repeat case_match;
    unfold mbind, prd_bind, lift; intros Hr;
    repeat (case_match; try discriminate Hr; try (progress simplify_eq));
    cbv [mret prd_ret] in Hr; injection Hr as <- <-; try done.
  all: match goal with
    | Hrd : read_Duration _ _ = (_, inr _) |- _ =>
        pose proof (proj2 (reads_Duration e buf Hbuf)) as Hok
    | Hrd : read_Lifespan _ _ = (_, inr _) |- _ =>
        pose proof (proj2 (reads_Lifespan e buf Hbuf)) as Hok
    | Hrd : read_Liveliness _ _ = (_, inr _) |- _ =>
        pose proof (proj2 (reads_Liveliness e buf Hbuf)) as Hok
    end.
  all: split_and!; try done; simpl; apply opt_wf_some; apply Hok;
    match goal with Hrd : _ = (_, inr _) |- _ => by rewrite Hrd end.
Qed.

Lemma read_parameters_ok fuel e d buf buf' d' :
  Forall octet buf → sdp_ok d → read_parameters fuel e d buf = Done (buf', inr d') → sdp_ok d'.
Proof.
  revert d buf. induction fuel as [|fuel IH]; intros d buf Hbuf Hd; [done|].
  cbn [read_parameters]. rewrite prd_lift_bind.
  destruct (reads_u16 e buf Hbuf) as [Hb1 _]. destruct (read_u16 e buf) as [b1 [?|pid]]; [done|].
  case_bool_decide; [by apply IH|]. rewrite prd_lift_bind.
  destruct (reads_u16 e b1 Hb1) as [Hb2 Hlen]. destruct (read_u16 e b1) as [b2 [?|len]]; [done|].
  cbn [fst snd] in *. destruct (Hlen _ eq_refl) as [Hlen0 _].
  case_bool_decide; [by intros [= <- <-]|]. unfold mbind, prd_bind.
  destruct (read_parameter e pid len d b2) as [[b3 [?|d3]]|] eqn:E; [done| |done].
  apply IH; [|by eapply read_parameter_ok].
  destruct (pshrinks_parameter e pid len d Hlen0 _ Hb2 _ _ E) as [n ->]. by apply Forall_drop.
Qed.

Lemma read_SDPBuiltinData_ok e buf buf' d :
  Forall octet buf → read_SDPBuiltinData e buf = Done (buf', inr d) → sdp_ok d.
Proof. intros Hbuf. apply read_parameters_ok; [done|]. split_and!; apply opt_wf_none. Qed.
End sdp.

Lemma duration_default_wf : Dur.wf (mkDuration 100 0).
Proof. split; unfold in_s, in_u; simpl; lia. Qed.

Lemma gen_spdp_lease d p :
  sdp_ok d → gen_spdp_discoverd_participant_data d = Some p → Dur.wf (spdp_lease_duration p).
Proof.
  intros (H1 & _ & _) H. unfold gen_spdp_discoverd_participant_data in H.
  repeat (match goal with H : (_ ≫= _) = Some _ |- _ => apply bind_Some in H as (? & ? & H) end).
  injection H as <-. simpl. destruct (sdp_lease_duration d) as [l|] eqn:E; [by apply H1|].
  apply duration_default_wf.
Qed.

(** ** A logic for the receiver

    [keeps I m Φ]: a run of [m] from a world that satisfies [I] that does not
    panic ends in one that satisfies [I], errors included; a result satisfies
    [Φ]. *)
Definition keeps (I : World → Prop) {A} (m : rcv A) (Φ : A → Prop) : Prop :=
  ∀ W W' evs r, I W → m W = Done (W', evs, r) → I W' ∧ ∀ a, r = inr a → Φ a.

Section keeps.
Context {I : World → Prop}.

Lemma keeps_ret {A} (a : A) (Φ : A → Prop) : Φ a → keeps I (mret a) Φ.
Proof. intros Ha W W' evs r HW [= <- <- <-]. split; [done|]. by intros ? [= <-]. Qed.
Lemma keeps_raise {A} e (Φ : A → Prop) : keeps I (raise e) Φ.
Proof. intros W W' evs r HW [= <- <- <-]. by split. Qed.
Lemma keeps_bind {A B} (m : rcv A) (f : A → rcv B) Φ Ψ :
  keeps I m Φ → (∀ a, Φ a → keeps I (f a) Ψ) → keeps I (m ≫= f) Ψ.
Proof.
  intros Hm Hf W W' evs r HW. unfold mbind, rcv_bind.
  destruct (m W) as [[[W1 ev1] [e|a]]|] eqn:E; [| |done].
  - intros [= <- <- <-]. split; [|done]. by eapply Hm.
  - destruct (Hm _ _ _ _ HW E) as [HW1 Ha].
    destruct (f a W1) as [[[W2 ev2] r2]|] eqn:E2; [|done]. intros [= <- <- <-].
    by eapply Hf; [apply Ha|exact HW1|].
Qed.
Lemma keeps_weaken {A} (m : rcv A) (Φ Ψ : A → Prop) : keeps I m Φ → (∀ a, Φ a → Ψ a) → keeps I m Ψ.
Proof. intros Hm Hi W W' evs r HW E. destruct (Hm _ _ _ _ HW E). split; [done|]. auto. Qed.
Lemma keeps_any {A} (m : rcv A) Φ : keeps I m Φ → keeps I m (λ _, True).
Proof. intros Hm. by eapply keeps_weaken. Qed.
Lemma keeps_gets {A} (f : World → A) (Φ : A → Prop) : (∀ W, I W → Φ (f W)) → keeps I (gets f) Φ.
Proof. intros Hf W W' evs r HW [= <- <- <-]. split; [done|]. intros ? [= <-]. by apply Hf. Qed.
Lemma keeps_modify f : (∀ W, I W → I (f W)) → keeps I (modify f) (λ _, True).
Proof. intros Hf W W' evs r HW [= <- <- <-]. split; [|done]. by apply Hf. Qed.
Lemma keeps_emit ev : keeps I (emit ev) (λ _, True).
Proof. intros W W' evs r HW [= <- <- <-]. by split. Qed.
Lemma keeps_lift {A} (m : outcome A) (Φ : A → Prop) : (∀ a, m = Done a → Φ a) → keeps I (lift_outcome m) Φ.
Proof.
  intros Hm W W' evs r HW. unfold lift_outcome. destruct m; [|done].
  intros [= <- <- <-]. split; [done|]. intros ? [= <-]. by apply Hm.
Qed.
Lemma keeps_catch {A} (m : rcv A) Φ : keeps I m Φ → keeps I (catch m) (λ r, ∀ a, r = inr a → Φ a).
Proof.
  intros Hm W W' evs r HW. unfold catch. destruct (m W) as [[[W1 ev1] r1]|] eqn:E; [|done].
  intros [= <- <- <-]. destruct (Hm _ _ _ _ HW E) as [HW1 H1]. split; [done|]. by intros x [= <-].
Qed.
Lemma keeps_unless_post {A} (a : A) (k : rcv A) (Φ : A → Prop) :
  Φ a → keeps I k Φ → keeps I (unless_from_self a k) Φ.
Proof.
  intros Ha Hk. eapply (keeps_bind _ _ (λ _, True)); [by apply keeps_gets|].
  intros m _. destruct (from_self m); [by apply keeps_ret|done].
Qed.
Lemma keeps_unless {A} (a : A) (k : rcv A) : keeps I k (λ _, True) → keeps I (unless_from_self a k) (λ _, True).
Proof. by apply keeps_unless_post. Qed.
Lemma keeps_loop_post {A} (body : A → EntityId → rcv A) a l (Φ : A → Prop) :
  (∀ a e, Φ a → keeps I (body a e) Φ) → Φ a → keeps I (loop body a l) Φ.
Proof.
  intros Hb. revert a. induction l as [|e l IH]; intros a Ha; [by apply keeps_ret|].
  eapply keeps_bind; [by apply Hb|]. intros a' Ha'. by apply IH.
Qed.
Lemma keeps_loop {A} (body : A → EntityId → rcv A) a l :
  (∀ a e, keeps I (body a e) (λ _, True)) → keeps I (loop body a l) (λ _, True).
Proof. intros Hb. by apply keeps_loop_post. Qed.
Lemma keeps_loop_while body l :
  (∀ e, keeps I (body e) (λ _, True)) → keeps I (loop_while body l) (λ _, True).
Proof.
  intros Hb. induction l as [|e l IH]; [by apply keeps_ret|].
  eapply keeps_bind; [apply Hb|]. intros [] _; [apply IH|by apply keeps_ret].
Qed.
End keeps.

(** ** The invariant of the world *)

(** Compared with the world [W0]: no endpoint came or went, none changed its
    configuration, and every component satisfies its own invariant. *)
Record world_ok (W0 W : World) : Prop := {
  wo_readers_conf : rconf <$> readers W = rconf <$> readers W0;
  wo_writers_conf : conf <$> writers W = conf <$> writers W0;
  wo_readers : ∀ e r, readers W !! e = Some r → reader_wf r;
  wo_writers : ∀ e w, writers W !! e = Some w → writer_wf w ∧ unsent_stored w;
  wo_leases : leases_wf (disc_db W);
  wo_own : own_guid_prefix (receiver W) = own_guid_prefix (receiver W0) ∧
           domain_id (receiver W) = domain_id (receiver W0) ∧
           spdp_data (receiver W) = spdp_data (receiver W0);
}.
Definition world_wf (W : World) : Prop := world_ok W W.

Section world.
Context (W0 : World).

Lemma world_set_receiver f :
  (∀ m, own_guid_prefix (f m) = own_guid_prefix m ∧ domain_id (f m) = domain_id m ∧
        spdp_data (f m) = spdp_data m) →
  keeps (world_ok W0) (modify (set_receiver f)) (λ _, True).
Proof.
  intros Hf. apply keeps_modify. intros W [].
  split; try done. simpl. destruct (Hf (receiver W)) as (-> & -> & ->). done.
Qed.

Lemma world_set_db f :
  (∀ db, leases_wf db → leases_wf (f db)) →
  keeps (world_ok W0) (modify (set_disc_db f)) (λ _, True).
Proof. intros Hf. apply keeps_modify. intros W []. split; try done. by apply Hf. Qed.

(** A reader of [W0], as far as its configuration goes. *)
Definition reader_of (eid : EntityId) (r : Reader) : Prop :=
  ∃ r0, readers W0 !! eid = Some r0 ∧ rconf r0 = rconf r.

Lemma world_reader_of W eid r : world_ok W0 W → readers W !! eid = Some r → reader_of eid r.
Proof.
  intros [H1 _ _ _ _ _] E. assert (Hc : (rconf <$> readers W0) !! eid = Some (rconf r))
    by (by rewrite <-H1, lookup_fmap, E). by apply lookup_fmap_Some in Hc as (r0 & ? & ?); exists r0.
Qed.

Lemma world_insert_reader W eid r r' :
  world_ok W0 W → readers W !! eid = Some r → reader_wf r' → rconf r' = rconf r →
  world_ok W0 (set_readers <[eid := r']> W).
Proof.
  intros [H1 H2 H3 H4 H5 H6] E Hwf Hcf. split; try done; simpl.
  - rewrite fmap_insert, Hcf, H1. apply insert_id. by rewrite <-H1, lookup_fmap, E.
  - intros e r1 [[_ <-]|[_ ?]]%lookup_insert_Some; [done|by eapply H3].
Qed.

Lemma world_insert_writer W eid w w' :
  world_ok W0 W → writers W !! eid = Some w → conf w' = conf w → writer_wf w' → unsent_stored w' →
  world_ok W0 (set_writers <[eid := w']> W).
Proof.
  intros [H1 H2 H3 H4 H5 H6] E Hcf Hwf Hu. split; try done; simpl.
  - rewrite fmap_insert, Hcf, H2. apply insert_id. by rewrite <-H2, lookup_fmap, E.
  - intros e w1 [[_ <-]|[_ ?]]%lookup_insert_Some; [done|by eapply H4].
Qed.

Lemma world_with_reader_post {A} eid (f : Reader → outcome (Reader * list ReaderEvent * A)) (Φ : A → Prop) :
  (∀ r r' evs a, reader_wf r → reader_of eid r → f r = Done (r', evs, a) →
     (reader_wf r' ∧ rconf r' = rconf r) ∧ Φ a) →
  keeps (world_ok W0) (with_reader eid f) (λ o, ∀ a, o = Some a → Φ a).
Proof.
  intros Hf W W' evs res HW. unfold with_reader.
  destruct (readers W !! eid) as [r|] eqn:E; [|intros [= <- <- <-]; by split; [|intros ? [= <-]]].
  destruct (f r) as [[[r' evs'] a]|] eqn:Ef; [|done]. intros [= <- <- <-].
  pose proof (world_reader_of _ _ _ HW E) as Hr0.
  destruct (Hf r r' evs' a) as [[Hwf Hcf] Ha]; [by eapply (wo_readers _ _ HW)|done..|].
  split; [by eapply world_insert_reader|by intros ? [= <-] ? [= <-]].
Qed.

Lemma world_with_reader {A} eid (f : Reader → outcome (Reader * list ReaderEvent * A)) :
  (∀ r r' evs a, reader_wf r → f r = Done (r', evs, a) → reader_wf r' ∧ rconf r' = rconf r) →
  keeps (world_ok W0) (with_reader eid f) (λ _, True).
Proof.
  intros Hf. eapply keeps_any, (world_with_reader_post _ _ (λ _, True)).
  intros r r' evs a Hwf _ E. split; [by eapply Hf|done].
Qed.

Lemma world_with_writer {A} eid (f : Writer → outcome (Writer * list WriterEvent * A)) :
  (∀ w w' evs a, writer_wf w → unsent_stored w → f w = Done (w', evs, a) →
     conf w' = conf w ∧ writer_wf w' ∧ unsent_stored w') →
  keeps (world_ok W0) (with_writer eid f) (λ _, True).
Proof.
  intros Hf W W' evs res HW. unfold with_writer. destruct (writers W !! eid) as [w|] eqn:E; [|by intros [= <- <- <-]].
  destruct (f w) as [[[w' evs'] a]|] eqn:Ef; [|done]. intros [= <- <- <-]. split; [|done].
  destruct (wo_writers _ _ HW _ _ E) as [Hwf0 Hu0].
  destruct (Hf w w' evs' a Hwf0 Hu0 Ef) as (Hcf & Hwf & Hu). by eapply world_insert_writer.
Qed.
End world.

(** ** The handlers keep the invariant *)

Lemma update_liveliness_leases p ts k db :
  leases_wf db → leases_wf (update_liveliness_with_guid_prefix_with_kind p ts k db).
Proof. done. Qed.
Lemma write_remote_writer_leases g ts k db : leases_wf db → leases_wf (write_remote_writer g ts k db).
Proof. unfold write_remote_writer. intros Hdb. by case_bool_decide. Qed.
Lemma write_participant_leases p ts d db :
  Dur.wf (spdp_lease_duration d) → leases_wf db → leases_wf (write_participant p ts d db).1.
Proof.
  intros Hd Hdb q e. simpl. intros [[_ <-]|[_ ?]]%lookup_insert_Some; [done|by eapply Hdb].
Qed.

(** The numbers a message carries stay within [seq_bound] (and [is_valid] or
    the test of [handle_data_submsg] does not exclude 0). *)
Definition body_bounded (b : SubMessageBody) : Prop :=
  match b with
  | Entity (EData d _) => seq_ok (data_writer_sn d)
  | Entity (EHeartBeat hb _) => last_sn hb ≤ seq_bound
  | Entity (EGap g _) => Forall seq_ok (gap_numbers g)
  | _ => True
  end.
Definition message_bounded (m : Message) : Prop := Forall (body_bounded ∘ sm_body) (submessages m).

(** The reader that a timer is for. *)
Definition timer_reader (t : ReaderTimer) : EntityId :=
  match t with TimerHeartbeat e _ | TimerReaderDeadline e _ _ | TimerLifespan e _ _ _ => e end.
Definition timer_known (W0 : World) (t : ReaderTimer) : Prop :=
  ∃ e r, readers W0 !! e = Some r ∧ timer_reader t = entity_id (rguid r).

Lemma add_change_timers p c r r' evs rt t :
  reader_add_change p c r = Done (r', evs, rt) → t ∈ default [] rt → timer_reader t = entity_id (rguid r).
Proof.
  unfold reader_add_change. cbv zeta. destruct (rematch_spec (mkGUID p (entity_id (writer_guid c))) r) as (_ & Hcf & _).
  destruct (rematch _ r) as [r1 ev1]. cbn [fst] in Hcf. destruct (matched_writers r1 !! _) as [wp|];
    [|by intros [= _ _ <-] ?%elem_of_nil].
  intros E Ht. apply outcome_bind_Done in E as (rt' & Ht' & E). apply outcome_bind_Done in E as ([r2 ev2] & _ & E).
  injection E as _ _ <-. replace (rguid r) with (rguid r1) by (unfold rguid; by rewrite Hcf).
  unfold sample_timers in Ht'. apply outcome_bind_Done in Ht' as (l & Hl & Ht').
  apply outcome_bind_Done in Ht' as (d & Hd & [= <-]).
  assert (Hin : t ∈ l ++ d) by (by destruct (l ++ d)). clear Ht. apply elem_of_app in Hin as [Hin|Hin].
  - clear Hd. case_bool_decide; [injection Hl as <-; by apply elem_of_nil in Hin|].
    apply outcome_bind_Done in Hl as (? & _ & [= <-]). by apply list_elem_of_singleton in Hin as ->.
  - clear Hl. case_bool_decide; [injection Hd as <-; by apply elem_of_nil in Hin|].
    apply outcome_bind_Done in Hd as (? & _ & [= <-]). by apply list_elem_of_singleton in Hin as ->.
Qed.

Section handlers.
Context `{SpeedyLaws} (W0 : World).
Notation known_timers := (λ o : option (list ReaderTimer), Forall (timer_known W0) (default [] o)).
Notation keeps' m := (keeps (world_ok W0) m (λ _, True)).

(** Reduces a handler to its steps; the lemmas below are tried at each. *)
Create HintDb keeps.
Ltac walk :=
  repeat first
    [ progress cbv zeta
    | apply keeps_ret; exact Logic.I
    | apply keeps_raise
    | apply keeps_unless
    | solve [eauto with keeps]
    | match goal with
      | |- keeps _ (if ?b then _ else _) _ => destruct b
      | |- keeps _ (match ?o with Some _ => _ | None => _ end) _ => destruct o
      | |- keeps _ (gets _) (λ _, True) => by apply keeps_gets
      | |- keeps _ (_ ≫= _) _ => eapply (keeps_bind _ _ (λ _, True)); [|intros ? _]
      end ].

Lemma world_reply_locators r f why : keeps' (reply_locators r f why).
Proof. unfold reply_locators. walk; by apply world_set_receiver. Qed.
#[local] Hint Resolve world_reply_locators : keeps.

Lemma world_interpreter s : keeps' (handle_interpreter_submessage s).
Proof. destruct s; simpl; walk; by apply world_set_receiver. Qed.

Lemma world_acknack clk a : keeps' (handle_acknack_submsg clk a).
Proof.
  unfold handle_acknack_submsg. walk. apply world_with_writer.
  intros w w' evs t Hwf Hu Ha.
  destruct (handle_acknack_main (clk_writer clk) a a0 w Hwf Hu) as (? & ? & ? & E & ?).
  rewrite E in Ha. by injection Ha as <- <- <-.
Qed.

Lemma world_add_change p c eid :
  seq_ok (sequence_number c) →
  keeps (world_ok W0) (with_reader eid (reader_add_change p c)) (λ o, ∀ a, o = Some a → known_timers a).
Proof.
  intros Hc. apply world_with_reader_post. intros r r' evs a Hwf (r0 & Hr0 & Hcf) Ha.
  split; [by eapply reader_add_change_wf|]. apply Forall_forall. intros t Ht.
  exists eid, r0. split; [done|]. rewrite (add_change_timers _ _ _ _ _ _ _ Ha Ht). unfold rguid. by rewrite Hcf.
Qed.

Lemma world_update_liveliness g ts eid : keeps' (update_liveliness g ts eid).
Proof.
  unfold update_liveliness. walk.
  - apply world_with_reader. intros r r' evs a Hwf Hq. outcome_simplify. done.
  - apply world_set_db. intros db. apply write_remote_writer_leases.
Qed.

Lemma world_deliver g c ts eid :
  seq_ok (sequence_number c) → keeps (world_ok W0) (deliver g c ts eid) (Forall (timer_known W0)).
Proof.
  intros Hc. unfold deliver. eapply keeps_bind; [by apply world_add_change|]. intros o Ho.
  eapply keeps_bind; [apply world_update_liveliness|]. intros _ _. apply keeps_ret.
  destruct o as [a|]; [by apply Ho|by constructor].
Qed.

Lemma world_builtin_add eid c : seq_ok (sequence_number c) → keeps' (add_to_builtin_reader eid c).
Proof. intros Hc. unfold add_to_builtin_reader. walk. by eapply keeps_any, world_add_change. Qed.

(** *** Discovery *)

Lemma keeps_deserialize_sdp d :
  data_wf d → keeps (world_ok W0) (deserialize read_SDPBuiltinData d) sdp_ok.
Proof.
  intros (_ & _ & _ & _ & Hp). unfold deserialize.
  destruct (data_serialized_payload d) as [sp|] eqn:E; [|apply keeps_raise].
  destruct (Hp sp eq_refl) as (_ & _ & Hv & _).
  eapply (keeps_bind _ _ (λ _, True)); [by apply keeps_lift|]. intros e _.
  eapply (keeps_bind _ _ (λ x : list Z * (ReadError + SDPBuiltinData), ∀ a, x.2 = inr a → sdp_ok a)).
  - apply keeps_lift. intros [b x] Hr a Ha. simpl in Ha. subst x. by eapply read_SDPBuiltinData_ok.
  - intros [b [?|a]] Ha; [apply keeps_raise|]. apply keeps_ret. by apply Ha.
Qed.

Lemma matched_writer_add_keeps g u m n r rt h r' evs :
  reader_wf r → matched_writer_add g u m n (remote_writer_qos rt h) r = Done (r', evs) →
  reader_wf r' ∧ rconf r' = rconf r.
Proof.
  intros Hwf Ha. unfold matched_writer_add in Ha. apply outcome_bind_Done in Ha as ([[r1 ev1] t1] & Ha & Hr).
  injection Hr as <- <-. eapply matched_writer_add_wf; [done| | |exact Ha];
    (split; unfold in_s, in_u; vm_compute; split; congruence).
Qed.

Lemma world_match_reader d bit remote local qos : keeps' (match_remote_reader d bit remote local qos).
Proof.
  unfold match_remote_reader. walk. apply world_with_writer.
  intros w w' evs a Hwf Hu Ha. apply outcome_bind_Done in Ha as ([w1 ev1] & Ha & Hr).
  injection Hr as <- <- <-. destruct (matched_reader_add_inv _ _ _ _ _ _ _ Hwf Ha) as (? & _ & ? & Hu'). auto.
Qed.

Lemma world_match_writer d bit remote local rt h :
  keeps' (match_remote_writer d bit remote local (remote_writer_qos rt h)).
Proof.
  unfold match_remote_writer. walk. apply world_with_reader.
  intros r r' evs a Hwf Ha. apply outcome_bind_Done in Ha as ([r1 ev1] & Ha & Hr).
  injection Hr as <- <- <-. by eapply matched_writer_add_keeps.
Qed.
#[local] Hint Resolve world_match_reader world_match_writer : keeps.

Lemma world_participant_discovery d : keeps' (handle_participant_discovery d).
Proof. unfold handle_participant_discovery. walk. Qed.
#[local] Hint Resolve world_participant_discovery : keeps.

Lemma world_spdp clk d : data_wf d → keeps' (handle_spdp_data clk d).
Proof.
  intros Hd. unfold handle_spdp_data.
  eapply keeps_bind; [by apply keeps_deserialize_sdp|]. intros sdp Hsdp.
  destruct (gen_spdp_discoverd_participant_data sdp) as [nd|] eqn:Egen; [|apply keeps_raise].
  pose proof (gen_spdp_lease _ _ Hsdp Egen) as Hl. walk.
  - apply world_set_db. intros db. by apply write_participant_leases.
  - by apply keeps_lift.
  - apply world_with_writer. intros w w' evs u Hwf Hu Ha. apply outcome_bind_Done in Ha as (? & _ & Hr).
    by injection Hr as <- <- <-.
Qed.

Lemma wp_new_inv g ls n q wp : wp_new g ls n q = Done wp → remote_writer_guid wp = g ∧ wp_qos wp = q.
Proof. unfold wp_new. destruct (negb _); [done|]. by intros [= <-]. Qed.

Lemma gen_writerproxy_qos du dm d o wp :
  sdp_ok d → gen_writerproxy du dm d = Done o → o = Some wp →
  Dur.wf (lifespan_duration (w_lifespan (wp_qos wp)).1) ∧
  Dur.wf (lease_duration (w_liveliness (wp_qos wp)).1).
Proof.
  intros (_ & H2 & H3) Hg ->. unfold gen_writerproxy in Hg. destruct (sdp_remote_guid d); [|done].
  destruct (wp_new _ _ _ _) as [wp'|] eqn:E; [|done]. injection Hg as <-.
  destruct (wp_new_inv _ _ _ _ _ E) as [_ ->]. simpl. unfold unwrap_or_default.
  split; [destruct (sdp_lifespan d); [by apply H2|]|destruct (sdp_liveliness d); [by apply H3|]];
    (split; unfold in_s, in_u; vm_compute; split; congruence).
Qed.

Lemma world_announced_writer wp tn dt eid :
  Dur.wf (lifespan_duration (w_lifespan (wp_qos wp)).1) →
  Dur.wf (lease_duration (w_liveliness (wp_qos wp)).1) →
  keeps' (match_announced_writer wp tn dt eid).
Proof.
  intros H1 H2. unfold match_announced_writer. eapply (keeps_bind _ _ (λ _, True)).
  - apply world_with_reader. intros r r' evs a Hwf. destruct (is_writer_match tn dt r); [|by intros [= <- <- <-]].
    cbv zeta. destruct (match topic_kind _ with Some _ => _ | None => _ end); [|by intros [= <- <- <-]].
    intros Ha. apply outcome_bind_Done in Ha as ([[r1 ev1] t1] & Ha & Hr). injection Hr as <- <- <-.
    by eapply matched_writer_add_wf.
  - intros o _. destruct (mjoin o) as [[]|]; walk. apply keeps_emit.
Qed.

Lemma world_sedp_w d c ts : data_wf d → seq_ok (sequence_number c) → keeps' (handle_sedp_w_data d c ts).
Proof.
  intros Hd Hc. unfold handle_sedp_w_data.
  eapply keeps_bind; [by apply keeps_deserialize_sdp|]. intros sdp Hsdp.
  eapply (keeps_bind _ _ (λ _, True)); [by apply keeps_gets|]. intros [p|] _; [|apply keeps_raise].
  eapply keeps_bind; [apply keeps_lift; intros o Ho; exact (λ wp, gen_writerproxy_qos _ _ _ o wp Hsdp Ho)|].
  intros [wp|] Hwp; [|apply keeps_raise]. destruct (Hwp wp eq_refl) as [Hl1 Hl2].
  destruct (topic_info sdp) as [[tn dt]|]; [|apply keeps_raise]. walk.
  - apply world_set_db. intros db. apply write_remote_writer_leases.
  - apply keeps_loop_while. intros e. by apply world_announced_writer.
  - by apply world_builtin_add.
Qed.

Lemma world_sedp_r d c : data_wf d → seq_ok (sequence_number c) → keeps' (handle_sedp_r_data d c).
Proof.
  intros Hd Hc. unfold handle_sedp_r_data.
  eapply keeps_bind; [by apply keeps_deserialize_sdp|]. intros sdp Hsdp. walk.
  { by apply keeps_lift. }
  destruct p as [tn dt]. walk.
  - apply keeps_loop_while. intros e. unfold match_announced_reader. walk.
    apply world_with_writer. intros w w' evs b Hwf Hu. destruct (is_reader_match tn dt w); [|by intros [= <- <- <-]].
    cbv zeta. destruct (match topic_kind _ with Some _ => _ | None => _ end); [|by intros [= <- <- <-]].
    intros Ha. apply outcome_bind_Done in Ha as ([w1 ev1] & Ha & Hr). injection Hr as <- <- <-.
    destruct (matched_reader_add_inv _ _ _ _ _ _ _ Hwf Ha) as (? & _ & ? & Hu'). auto.
  - by apply world_builtin_add.
Qed.

Lemma world_participant_message d c ts :
  seq_ok (sequence_number c) → keeps' (handle_participant_message d c ts).
Proof.
  intros Hc. unfold handle_participant_message. walk.
  - unfold deserialize. walk; [by apply keeps_lift..|]. destruct a0 as [b [?|?]]; walk.
  - apply world_set_db. intros db. apply update_liveliness_leases.
  - apply world_set_db. intros db. apply update_liveliness_leases.
  - by apply world_builtin_add.
Qed.
(** *** Entity submessages *)

Lemma keeps_then_nil {A} (m : rcv A) : keeps' m → keeps (world_ok W0) (_ ← m; mret []) (Forall (timer_known W0)).
Proof. intros Hm. eapply keeps_bind; [exact Hm|]. intros _ _. apply keeps_ret. by constructor. Qed.

Lemma world_dispatch clk d c ts g :
  data_wf d → seq_ok (sequence_number c) →
  keeps (world_ok W0) (dispatch_data clk d c ts g) (Forall (timer_known W0)).
Proof.
  intros Hd Hc. unfold dispatch_data, for_readers, knows_writer.
  destruct (for_or _ _ d); [by apply keeps_then_nil, world_spdp|].
  destruct (for_or _ _ d); [by apply keeps_then_nil, world_sedp_w|].
  destruct (for_or _ _ d); [by apply keeps_then_nil, world_sedp_r|].
  destruct (for_or _ _ d); [by apply keeps_then_nil, world_participant_message|].
  case_bool_decide; (eapply (keeps_bind _ _ (λ _, True)); [by apply keeps_gets|]).
  - intros l _. apply keeps_loop_post; [|by constructor]. intros rtv e Hrtv.
    eapply (keeps_bind _ _ (λ _, True)); [by apply keeps_gets|]. intros [] _; [|by apply keeps_ret].
    eapply keeps_bind; [by apply world_deliver|]. intros rt Hrt. apply keeps_ret. by apply Forall_app.
  - intros [] _; [by apply world_deliver|]. apply keeps_ret. by constructor.
Qed.

Lemma known_opt_vec l : Forall (timer_known W0) l → known_timers (opt_vec l).
Proof. by destruct l. Qed.

Lemma world_data clk d f :
  data_wf d → seq_ok (data_writer_sn d) → keeps (world_ok W0) (handle_data_submsg clk d f) known_timers.
Proof.
  intros Hd Hc. unfold handle_data_submsg. apply keeps_unless_post; [by constructor|].
  destruct (_ || _); [apply keeps_raise|]. destruct (contains _ _); [apply keeps_raise|].
  eapply (keeps_bind _ _ (λ _, True)); [by apply keeps_gets|]. intros g _.
  eapply (keeps_bind _ _ (λ _, True)); [by apply keeps_lift|]. intros ts _. cbv zeta.
  eapply keeps_bind; [by apply world_dispatch|]. intros rtv Hrtv. by apply keeps_ret, known_opt_vec.
Qed.

Lemma world_gap g f : Forall seq_ok (gap_numbers g) → keeps' (handle_gap_submsg g f).
Proof.
  intros Hg. unfold handle_gap_submsg, for_readers, knows_writer. walk.
  all: try (apply keeps_loop; intros u e; walk).
  all: apply world_with_reader; intros r r' evs x Hwf Hh; injection Hh as Hh <-;
    pose proof (rs_gap a g r Hg) as Hst; rewrite Hh in Hst; by apply reader_step_inv in Hst.
Qed.

Lemma heartbeat_valid_first hb f : heartbeat_is_valid hb f = Done true → 1 ≤ first_sn hb.
Proof. unfold heartbeat_is_valid. case_bool_decide; [done|]. lia. Qed.

Lemma world_heartbeat_reader g f hb ts eid : hb_ok hb → keeps' (heartbeat_reader g f hb ts eid).
Proof.
  intros Hhb. unfold heartbeat_reader. walk; [|apply world_update_liveliness].
  apply world_with_reader. intros r r' evs a Hwf Hh.
  destruct (handle_heartbeat_main g f hb r Hhb Hwf) as (r2 & ev2 & t2 & E & Hwf2 & Hcf & _).
  rewrite E in Hh. by injection Hh as <- <- <-.
Qed.

Lemma world_heartbeat clk hb f : last_sn hb ≤ seq_bound → keeps' (handle_heartbeat_submsg clk hb f).
Proof.
  intros Hl. unfold handle_heartbeat_submsg. apply keeps_unless.
  eapply (keeps_bind _ _ (λ _, True)); [by apply keeps_gets|]. intros g _.
  eapply (keeps_bind _ _ (λ b : bool, b = true → hb_ok hb)).
  { apply keeps_lift. intros b Hb ->. split; [by eapply heartbeat_valid_first|done]. }
  intros b Hb. destruct b; [|apply keeps_raise]. cbn [negb].
  assert (Hr : ∀ ts eid, keeps' (heartbeat_reader g f hb ts eid))
    by (intros; by apply world_heartbeat_reader, Hb).
  unfold for_readers, knows_writer. walk; try (by apply keeps_lift).
  apply keeps_loop. intros u e. walk.
Qed.

Lemma world_then {A} (m : rcv A) : keeps' m → keeps (world_ok W0) (_ ← m; mret None) known_timers.
Proof. intros Hm. eapply keeps_bind; [exact Hm|]. intros a _. apply keeps_ret. by constructor. Qed.

Lemma world_submessage clk b :
  body_wf b → body_bounded b → keeps (world_ok W0) (handle_submessage clk b) known_timers.
Proof.
  destruct b as [[d f|d f|hb f|hb f|g f|a f|n f]|i]; simpl; intros Hwf Hb; try apply keeps_raise.
  - by apply world_data.
  - by apply world_then, world_heartbeat.
  - by apply world_then, world_gap.
  - by apply world_then, world_acknack.
  - by apply world_then, world_interpreter.
Qed.

Lemma world_submessages clk l rtv :
  Forall submessage_wf l → Forall (body_bounded ∘ sm_body) l → Forall (timer_known W0) rtv →
  keeps (world_ok W0) (handle_submessages clk l rtv) (Forall (timer_known W0)).
Proof.
  intros Hwf Hb. revert clk rtv. induction Hwf as [|m l [_ Hm] Hl IH]; intros clk rtv Hrtv;
    cbn [handle_submessages]; [by apply keeps_ret|].
  inversion Hb as [|? ? Hm2 Hl2]; subst.
  eapply keeps_bind; [eapply keeps_catch; by apply world_submessage|].
  intros [e|rt] Hrt; [by apply keeps_ret|]. apply IH; [done|]. apply Forall_app. split; [done|by apply Hrt].
Qed.

Lemma world_message clk m :
  message_wf m → message_bounded m → keeps (world_ok W0) (handle_parsed_packet clk m) known_timers.
Proof.
  intros [_ Hwf] Hb. unfold handle_parsed_packet.
  eapply (keeps_bind _ _ (λ _, True)); [by apply world_set_receiver|]. intros _ _.
  eapply keeps_bind; [by apply world_submessages|]. intros rtv Hrtv. by apply keeps_ret, known_opt_vec.
Qed.

(** A packet of octets that, if it parses, carries bounded numbers. *)
Definition packet_ok (native : Endianness) (msg : list Z) : Prop :=
  Forall octet msg ∧ ∀ m, message_new native msg = Some (ok m) → message_bounded m.

Lemma world_datagram native clk msg :
  packet_ok native msg → keeps (world_ok W0) (handle_datagram native clk msg) (Forall (timer_known W0)).
Proof.
  intros [Hoct Hb]. unfold handle_datagram. destruct (classify msg); try (apply keeps_ret; by constructor).
  eapply (keeps_bind _ _ (λ x, ∀ m, x = inr m → message_wf m ∧ message_bounded m)).
  - apply keeps_lift. intros x Hx m ->. destruct (message_new native msg) as [r|] eqn:E; [|done].
    simpl in Hx. subst r. split; [by eapply message_new_typed|by apply Hb].
  - intros [e|m] Hm; [apply keeps_ret; by constructor|]. destruct (Hm m eq_refl) as [Hm1 Hm2].
    eapply keeps_bind; [by apply world_message|]. intros rt Hrt. by apply keeps_ret.
Qed.

Lemma world_packets native clk l rtv :
  Forall (packet_ok native) l → Forall (timer_known W0) rtv →
  keeps (world_ok W0) (handle_packets native clk l rtv) (Forall (timer_known W0)).
Proof.
  intros Hl. revert clk rtv. induction Hl as [|msg l Hm Hl IH]; intros clk rtv Hrtv; [by apply keeps_ret|].
  cbn [handle_packets]. eapply keeps_bind; [by apply world_datagram|]. intros rt Hrt.
  apply IH. by apply Forall_app.
Qed.

Lemma world_packet native clk l :
  Forall (packet_ok native) l → keeps (world_ok W0) (handle_packet native clk l) known_timers.
Proof.
  intros Hl. unfold handle_packet. eapply keeps_bind; [by apply world_packets|].
  intros rtv Hrtv. by apply keeps_ret, known_opt_vec.
Qed.
End handlers.


(** ** A participant's own messages *)

(** Submessages that do not change where a message comes from or goes to. *)
Definition undirected (b : SubMessageBody) : bool :=
  match b with
  | Interpreter (IInfoSource _ _) | Interpreter (IInfoDestination _ _) => false
  | _ => true
  end.

(** The run changes the receiver's own state only, and it stays [from_self]. *)
Definition idle {A} (m : rcv A) (Φ : A → Prop) : Prop :=
  ∀ W, from_self (receiver W) = true →
    ∃ mr r, m W = Done (set_receiver (λ _, mr) W, [], r) ∧ from_self mr = true ∧ ∀ a, r = inr a → Φ a.

Lemma set_receiver_id W : set_receiver (λ _, receiver W) W = W.
Proof. by destruct W. Qed.

Lemma idle_ret {A} (a : A) (Φ : A → Prop) : Φ a → idle (mret a) Φ.
Proof.
  intros Ha W HW. exists (receiver W), (inr a). rewrite set_receiver_id. split_and!; [done..|].
  by intros ? [= <-].
Qed.
Lemma idle_raise {A} e (Φ : A → Prop) : idle (raise e) Φ.
Proof. intros W HW. exists (receiver W), (inl e). by rewrite set_receiver_id. Qed.
Lemma idle_bind {A B} (m : rcv A) (f : A → rcv B) Φ Ψ :
  idle m Φ → (∀ a, Φ a → idle (f a) Ψ) → idle (m ≫= f) Ψ.
Proof.
  intros Hm Hf W HW. unfold mbind, rcv_bind. destruct (Hm W HW) as (m1 & [e|a] & -> & H1 & Ha).
  - exists m1, (inl e). by split_and!.
  - destruct (Hf a (Ha a eq_refl) (set_receiver (λ _, m1) W) H1) as (m2 & r2 & -> & H2 & Hb).
    by exists m2, r2.
Qed.
Lemma idle_modify f : (∀ m, from_self m = true → from_self (f m) = true) → idle (modify (set_receiver f)) (λ _, True).
Proof. intros Hf W HW. exists (f (receiver W)), (inr tt). split_and!; [done|by apply Hf|done]. Qed.
Lemma idle_catch {A} (m : rcv A) Φ : idle m Φ → idle (catch m) (λ r, ∀ a, r = inr a → Φ a).
Proof.
  intros Hm W HW. unfold catch. destruct (Hm W HW) as (m1 & r & -> & H1 & Hr). exists m1, (inr r).
  split_and!; [done..|]. by intros ? [= <-].
Qed.
Lemma idle_unless {A} (a : A) (k : rcv A) : idle (unless_from_self a k) (λ x, x = a).
Proof.
  intros W HW. unfold unless_from_self, gets, mbind, rcv_bind. rewrite HW.
  exists (receiver W), (inr a). rewrite set_receiver_id. split_and!; [done..|]. by intros ? [= <-].
Qed.

Lemma idle_submessage `{Speedy} clk b : undirected b = true → idle (handle_submessage clk b) (λ rt, rt = None).
Proof.
  destruct b as [[d f|d f|hb f|hb f|g f|a f|n f]|[s f|p f|ts f|r f|r f]]; intros Hu; try done; try apply idle_raise;
    try (apply idle_unless);
    try (eapply idle_bind; [apply idle_unless|]; intros x _; by apply idle_ret).
  - eapply (idle_bind _ _ (λ _, True)); [|by intros; apply idle_ret]. simpl.
    destruct (negb _); [|by apply idle_modify].
    eapply idle_bind; [by apply idle_modify|]. intros _ _. destruct ts; [by apply idle_modify|apply idle_raise].
  - eapply (idle_bind _ _ (λ _, True)); [|by intros; apply idle_ret]. simpl. unfold reply_locators.
    eapply idle_bind; [by apply idle_modify|]. intros _ _.
    destruct (contains _ _); [|by apply idle_modify].
    destruct (ir_multicast_locator_list r); [by apply idle_modify|apply idle_raise].
  - eapply (idle_bind _ _ (λ _, True)); [|by intros; apply idle_ret]. simpl. unfold reply_locators.
    eapply idle_bind; [by apply idle_modify|]. intros _ _.
    destruct (contains _ _); [|by apply idle_modify].
    destruct (ir_multicast_locator_list r); [by apply idle_modify|apply idle_raise].
Qed.

Lemma idle_submessages `{Speedy} clk l rtv :
  Forall (λ m, undirected (sm_body m) = true) l → idle (handle_submessages clk l rtv) (λ r, r = rtv).
Proof.
  intros Hl. revert clk rtv. induction Hl as [|m l Hm Hl IH]; intros clk rtv; [by apply idle_ret|].
  cbn [handle_submessages]. eapply idle_bind; [by eapply idle_catch, idle_submessage|].
  intros [e|rt] Hr; [by apply idle_ret|]. rewrite (Hr rt eq_refl). cbn [default]. rewrite app_nil_r. apply IH.
Qed.

(** The loop over the submessages catches every error. *)
Lemma submessages_no_error `{Speedy} clk l rtv W W' evs e :
  ¬ handle_submessages clk l rtv W = Done (W', evs, inl e).
Proof.
  revert clk rtv W W' evs. induction l as [|m l IH]; intros clk rtv W W' evs; [done|].
  cbn [handle_submessages]. unfold mbind, rcv_bind, catch.
  destruct (handle_submessage _ _ W) as [[[W1 ev1] [e1|rt]]|]; [done| |done].
  destruct (handle_submessages _ l _ W1) as [[[W2 ev2] r2]|] eqn:E; [|done].
  intros [= _ _ ->]. by eapply IH.
Qed.

(** A participant ignores what it sent itself: multicast brings its own
    messages back, and unless one redirects itself with INFO_SRC or INFO_DST
    nothing happens to any endpoint or to the database, nothing is sent and
    no timer is asked for. *)
Theorem own_message_ignored `{Speedy} clk m W :
  header_guid_prefix (msg_header m) = own_guid_prefix (receiver W) →
  own_guid_prefix (receiver W) ≠ GUIDPREFIX_UNKNOW →
  Forall (λ m, undirected (sm_body m) = true) (submessages m) →
  ∃ mr, handle_parsed_packet clk m W = Done (set_receiver (λ _, mr) W, [], inr None).
Proof.
  intros Hsrc Hown Hm. unfold handle_parsed_packet.
  unfold modify at 1. unfold mbind at 1, rcv_bind at 1. set (W1 := set_receiver _ W).
  assert (HW1 : from_self (receiver W1) = true).
  { unfold from_self. simpl. rewrite Hsrc, bool_decide_true, bool_decide_false; done. }
  destruct (idle_submessages clk (submessages m) [] Hm W1 HW1) as (mr & [e|r] & E & _ & Hr).
  { by apply submessages_no_error in E. }
  rewrite (Hr r eq_refl) in E. exists mr. unfold mbind at 1, rcv_bind at 1. by rewrite E.
Qed.

(** ** Steps that touch one reader

    [touches e R m]: a run of [m] leaves the receiver and every reader but
    [e] alone and relates the two states of [e] by [R]. *)
Definition touches (e : EntityId) (R : Reader → Reader → Prop) {A} (m : rcv A) : Prop :=
  ∀ W W' evs a, m W = Done (W', evs, inr a) →
    receiver W' = receiver W ∧ (∀ e', e' ≠ e → readers W' !! e' = readers W !! e') ∧
    option_Forall2 R (readers W !! e) (readers W' !! e).

Lemma option_Forall2_eq {A} (o : option A) : option_Forall2 (=) o o.
Proof. destruct o; by constructor. Qed.

Lemma rcv_bind_Done {A B} (m : rcv A) (f : A → rcv B) W W' evs b :
  (m ≫= f) W = Done (W', evs, inr b) →
  ∃ W1 ev1 ev2 a, m W = Done (W1, ev1, inr a) ∧ f a W1 = Done (W', ev2, inr b) ∧ evs = ev1 ++ ev2.
Proof.
  unfold mbind, rcv_bind. destruct (m W) as [[[W1 ev1] [e|a]]|]; [done| |done].
  destruct (f a W1) as [[[W2 ev2] r]|] eqn:E; [|done]. intros [= <- <- ->]. eauto 10.
Qed.

Lemma touches_with_reader {A} e (f : Reader → outcome (Reader * list ReaderEvent * A)) :
  touches e (λ r r', ∃ evs a, f r = Done (r', evs, a)) (with_reader e f).
Proof.
  intros W W' evs o. unfold with_reader. destruct (readers W !! e) as [r|] eqn:E.
  - destruct (f r) as [[[r' ev'] a]|] eqn:Ef; [|done]. intros [= <- <- <-]. split; [done|]. simpl.
    split; [intros e' He; by apply lookup_insert_ne|]. rewrite lookup_insert_eq. constructor. eauto.
  - intros [= <- <- <-]. split_and!; [done..|]. rewrite E. constructor.
Qed.

Lemma touches_bind_eq {A B} e R (m : rcv A) (f : A → rcv B) :
  touches e R m → (∀ a, touches e (=) (f a)) → touches e R (m ≫= f).
Proof.
  intros Hm Hf W W' evs b H. apply rcv_bind_Done in H as (W1 & ev1 & ev2 & a & H1 & H2 & _).
  destruct (Hm _ _ _ _ H1) as (Hr1 & Ho1 & He1). destruct (Hf _ _ _ _ _ H2) as (Hr2 & Ho2 & He2).
  split; [congruence|]. split; [intros e' Hne; by rewrite Ho2, Ho1|].
  revert He2. inversion He1 as [r r1 HR Ha Hb|Ha Hb]; inversion 1; subst; constructor; done.
Qed.

Lemma touches_weaken {A} e (R R' : Reader → Reader → Prop) (m : rcv A) :
  touches e R m → (∀ r r', R r r' → R' r r') → touches e R' m.
Proof.
  intros Hm Hi W W' evs a H. destruct (Hm _ _ _ _ H) as (? & ? & He). split_and!; [done..|].
  inversion He; constructor; auto.
Qed.

Lemma touches_ret {A} e (a : A) : touches e (=) (mret a).
Proof. intros W W' evs b [= <- <- <-]. split_and!; [done..|apply option_Forall2_eq]. Qed.
Lemma touches_modify_db e f : touches e (=) (modify (set_disc_db f)).
Proof. intros W W' evs b [= <- <- <-]. split_and!; [done..|apply option_Forall2_eq]. Qed.

Lemma touches_update_liveliness e g ts : touches e (=) (update_liveliness g ts e).
Proof.
  unfold update_liveliness. apply touches_bind_eq.
  - eapply touches_weaken; [apply touches_with_reader|]. intros r r' (evs & a & H). by outcome_simplify.
  - intros [q|]; [apply touches_modify_db|apply touches_ret].
Qed.

(** A body guarded by [knows_writer]. *)
Definition if_known (g : GUID) (R : Reader → Reader → Prop) (r r' : Reader) : Prop :=
  if is_contain_writer g r then R r r' else r' = r.

Lemma touches_if_known {A} e g R (m : rcv A) (a : A) :
  touches e R m → touches e (if_known g R) (known ← knows_writer g e; if (known : bool) then m else mret a).
Proof.
  intros Hm W W' evs b H. apply rcv_bind_Done in H as (W1 & ev1 & ev2 & k & H1 & H2 & _).
  unfold knows_writer, gets in H1. injection H1 as <- <- <-. unfold if_known.
  destruct (readers W !! e) as [r|] eqn:E; [destruct (is_contain_writer g r) eqn:Eg|].
  - destruct (Hm _ _ _ _ H2) as (? & ? & He). split_and!; [done..|]. rewrite E in He.
    inversion He; subst. constructor. by rewrite Eg.
  - destruct (touches_ret e a _ _ _ _ H2) as (? & ? & He). split_and!; [done..|]. rewrite E in He.
    inversion He; subst. constructor. by rewrite Eg.
  - destruct (touches_ret e a _ _ _ _ H2) as (? & ? & He). split_and!; [done..|]. rewrite E in He.
    inversion He; subst. constructor.
Qed.

Lemma loop_touches {A} R (body : A → EntityId → rcv A) l a W W' evs b :
  (∀ a e, touches e R (body a e)) → NoDup l → loop body a l W = Done (W', evs, inr b) →
  receiver W' = receiver W ∧ (∀ e, e ∉ l → readers W' !! e = readers W !! e) ∧
  (∀ e, e ∈ l → option_Forall2 R (readers W !! e) (readers W' !! e)).
Proof.
  intros Hb Hnd. revert a W evs. induction Hnd as [|e l He Hnd IH]; intros a W evs.
  { intros [= <- _ _]. split_and!; [done..|]. by intros e ?%elem_of_nil. }
  cbn [loop]. intros H. apply rcv_bind_Done in H as (W1 & ev1 & ev2 & a1 & H1 & H2 & _).
  destruct (Hb _ _ _ _ _ _ H1) as (Hr1 & Ho1 & He1). destruct (IH _ _ _ H2) as (Hr2 & Ho2 & He2).
  split; [congruence|]. split.
  - intros e' [Hne Hl]%not_elem_of_cons. by rewrite Ho2, Ho1.
  - intros e' [->|Hl]%elem_of_cons; [by rewrite Ho2|]. rewrite <-Ho1 by (by intros ->). by apply He2.
Qed.

Lemma for_readers_touches {A} R (body : A → EntityId → rcv A) a W W' evs b :
  (∀ a e, touches e R (body a e)) → for_readers body a W = Done (W', evs, inr b) →
  ∀ e, option_Forall2 R (readers W !! e) (readers W' !! e).
Proof.
  intros Hb H. apply rcv_bind_Done in H as (W1 & ev1 & ev2 & l & H1 & H2 & _). injection H1 as <- <- <-.
  destruct (loop_touches R body _ a W W' ev2 b Hb (NoDup_bt_keys _) H2) as (_ & Ho & He). intros e.
  destruct (decide (e ∈ bt_keys (readers W))) as [Hin|Hn]; [by apply He|].
  rewrite Ho by done. rewrite elem_of_bt_keys in Hn. apply eq_None_not_Some in Hn. rewrite Hn. constructor.
Qed.

(** ** Submessages that are addressed to no reader in particular *)

(** The writer of such a submessage, and what it does to a reader. *)
Definition broadcast (clk : Clock) (g : GUID) (s : EntitySubmessage) (r r' : Reader) : Prop :=
  match s with
  | EData d _ =>
      ∃ ts evs rt, clk_data clk = Some ts ∧
        reader_add_change (guid_prefix g)
          (mkCacheChange Alive g (data_writer_sn d) ts (data_serialized_payload d)) r = Done (r', evs, rt)
  | EGap gap _ => r' = (handle_gap g gap r).1
  | EHeartBeat hb f => ∃ evs rt, handle_heartbeat g f hb r = Done (r', evs, rt)
  | _ => False
  end.
Definition broadcast_writer (s : EntitySubmessage) : option EntityId :=
  match s with
  | EData d _ => if bool_decide (data_reader_id d = Eid.UNKNOW) then Some (data_writer_id d) else None
  | EGap gap _ => if bool_decide (gap_reader_id gap = Eid.UNKNOW) then Some (gap_writer_id gap) else None
  | EHeartBeat hb _ => if bool_decide (hb_reader_id hb = Eid.UNKNOW) then Some (hb_writer_id hb) else None
  | _ => None
  end.

Section broadcast.
Context `{Speedy}.

Lemma for_or_false w r d :
  data_reader_id d = Eid.UNKNOW → is_builtin w = true → is_builtin r = true →
  is_builtin (data_writer_id d) = false → for_or w r d = false.
Proof.
  intros Hr Hw Hr' Hd. unfold for_or. apply orb_false_iff. split; apply bool_decide_eq_false; intros E.
  - subst w. congruence.
  - rewrite <-E, Hr in Hr'. by vm_compute in Hr'.
Qed.

Lemma data_broadcast clk d f g W W' evs r :
  data_reader_id d = Eid.UNKNOW → is_builtin (data_writer_id d) = false →
  from_self (receiver W) = false → g = source_guid W (data_writer_id d) →
  handle_data_submsg clk d f W = Done (W', evs, inr r) →
  ∀ e, option_Forall2 (if_known g (broadcast clk g (EData d f))) (readers W !! e) (readers W' !! e).
Proof.
  intros Hr Hb Hs -> Hx. unfold handle_data_submsg, unless_from_self in Hx.
  apply rcv_bind_Done in Hx as (W1 & ev1 & ev2 & m & H1 & Hx & _). injection H1 as <- <- <-. rewrite Hs in Hx.
  destruct (_ || _); [done|]. destruct (contains _ _); [done|].
  apply rcv_bind_Done in Hx as (W1 & ev3 & ev4 & g & H1 & Hx & _). injection H1 as <- <- <-.
  apply rcv_bind_Done in Hx as (W1 & ev5 & ev6 & ts & H1 & Hx & _).
  destruct (clk_data clk) as [ts'|] eqn:Ets; [|done]. injection H1 as <- <- <-.
  cbv zeta in Hx. apply rcv_bind_Done in Hx as (W1 & ev7 & ev8 & rtv & H1 & Hx & _). injection Hx as <- _ _.
  unfold dispatch_data in H1. rewrite !for_or_false, bool_decide_true in H1 by done.
  eapply for_readers_touches; [|exact H1]. intros rt e. apply touches_if_known.
  apply touches_bind_eq; [|intros; apply touches_ret]. unfold deliver.
  apply touches_bind_eq; [|intros; apply touches_bind_eq; [apply touches_update_liveliness|intros; apply touches_ret]].
  eapply touches_weaken; [apply touches_with_reader|]. intros r0 r1 (ev & o & E). simpl. rewrite Ets. eauto.
Qed.

Lemma gap_broadcast gap f g W W' evs :
  gap_reader_id gap = Eid.UNKNOW → from_self (receiver W) = false → g = source_guid W (gap_writer_id gap) →
  handle_gap_submsg gap f W = Done (W', evs, inr tt) →
  ∀ e, option_Forall2 (if_known g (λ r r', r' = (handle_gap g gap r).1)) (readers W !! e) (readers W' !! e).
Proof.
  intros Hr Hs -> Hx. unfold handle_gap_submsg, unless_from_self in Hx.
  apply rcv_bind_Done in Hx as (W1 & ev1 & ev2 & m & H1 & Hx & _). injection H1 as <- <- <-. rewrite Hs in Hx.
  apply rcv_bind_Done in Hx as (W1 & ev3 & ev4 & g & H1 & Hx & _). injection H1 as <- <- <-.
  destruct (negb _); [done|]. cbv zeta in Hx. rewrite bool_decide_true in Hx by done.
  eapply for_readers_touches; [|exact Hx]. intros rt e. apply touches_if_known.
  apply touches_bind_eq; [|intros; apply touches_ret].
  eapply touches_weaken; [apply touches_with_reader|]. intros r0 r1 (ev & o & [= E _]). by rewrite E.
Qed.

Lemma heartbeat_broadcast clk hb f g W W' evs :
  hb_reader_id hb = Eid.UNKNOW → is_builtin (hb_writer_id hb) = false →
  from_self (receiver W) = false → g = source_guid W (hb_writer_id hb) →
  handle_heartbeat_submsg clk hb f W = Done (W', evs, inr tt) →
  ∀ e, option_Forall2 (if_known g (λ r r', ∃ evs rt, handle_heartbeat g f hb r = Done (r', evs, rt)))
         (readers W !! e) (readers W' !! e).
Proof.
  intros Hr Hb Hs -> Hx. unfold handle_heartbeat_submsg, unless_from_self in Hx.
  apply rcv_bind_Done in Hx as (W1 & ev1 & ev2 & m & H1 & Hx & _). injection H1 as <- <- <-. rewrite Hs in Hx.
  apply rcv_bind_Done in Hx as (W1 & ev3 & ev4 & g & H1 & Hx & _). injection H1 as <- <- <-.
  apply rcv_bind_Done in Hx as (W1 & ev5 & ev6 & v & H1 & Hx & _).
  destruct (heartbeat_is_valid hb f) as [v'|]; [|done]. injection H1 as <- <- <-.
  destruct (negb v'); [done|].
  apply rcv_bind_Done in Hx as (W1 & ev7 & ev8 & ts & H1 & Hx & _).
  destruct (clk_data clk) as [ts'|]; [|done]. injection H1 as <- <- <-. cbv zeta in Hx.
  rewrite bool_decide_true in Hx by done.
  rewrite !bool_decide_false in Hx by (intros E; rewrite E in Hb; by vm_compute in Hb).
  eapply for_readers_touches; [|exact Hx]. intros rt e. apply touches_if_known.
  apply touches_bind_eq; [|intros; apply touches_ret]. unfold heartbeat_reader.
  apply touches_bind_eq; [apply touches_with_reader|]. intros [o|]; [|apply touches_ret].
  apply touches_bind_eq; [|intros; apply touches_ret].
  destruct (contains _ _); [apply touches_update_liveliness|apply touches_ret].
Qed.

End broadcast.

(** ** A heartbeat that asserts liveliness *)

Lemma get_matched_writer_qos_panic g r : get_matched_writer_qos g r = Panic ↔ is_contain_writer g r = false.
Proof.
  unfold get_matched_writer_qos, is_contain_writer.
  destruct (matched_writers r !! g) as [?|], (unmatched_writers r !! g) as [?|];
    rewrite ?(bool_decide_true (is_Some (Some _))), ?(bool_decide_false (is_Some None)) by eauto using is_Some_None;
    simpl; naive_solver.
Qed.

Lemma known_contain g r : is_contain_writer g r = false ↔ known g r = None.
Proof.
  unfold known, is_contain_writer. rewrite orb_false_iff, !bool_decide_eq_false, <-!eq_None_not_Some.
  destruct (unmatched_writers r !! g); naive_solver.
Qed.

Lemma handle_heartbeat_unknown g f hb r :
  known g r = None → handle_heartbeat g f hb r = Done (r, [], None).
Proof.
  unfold known, handle_heartbeat, rematch. destruct (unmatched_writers r !! g); [done|]. by intros ->.
Qed.

Lemma handle_heartbeat_knows g f hb r :
  hb_ok hb → reader_wf r → ∃ r' evs rt, handle_heartbeat g f hb r = Done (r', evs, rt) ∧
    is_contain_writer g r' = is_contain_writer g r.
Proof.
  intros Hhb Hwf. destruct (known g r) as [wp|] eqn:Hk.
  - destruct (handle_heartbeat_main g f hb r Hhb Hwf) as (r' & evs & rt & -> & _ & _ & _ & Hm).
    eexists _, _, _. split; [reflexivity|]. rewrite Hk in Hm.
    destruct (is_contain_writer g r) eqn:E; [|apply known_contain in E; congruence].
    unfold is_contain_writer. rewrite Hm. by rewrite bool_decide_true by done.
  - rewrite handle_heartbeat_unknown by done. eauto 10.
Qed.

(** A heartbeat with the Liveliness flag that is addressed to one reader
    aborts the process exactly when that reader does not know the writer
    ([get_matched_writer_qos] panics); without the flag, or for a reader that
    does not exist, it never does. *)
Theorem addressed_heartbeat_aborts_iff `{Speedy} clk hb f W g :
  world_wf W → from_self (receiver W) = false → g = source_guid W (hb_writer_id hb) →
  is_Some (clk_data clk) → heartbeat_is_valid hb f = Done true → last_sn hb ≤ seq_bound →
  hb_reader_id hb ≠ Eid.UNKNOW →
  handle_heartbeat_submsg clk hb f W = Panic ↔
    contains f Flag.Heartbeat.Liveliness = true ∧
    ∃ r, readers W !! hb_reader_id hb = Some r ∧ is_contain_writer g r = false.
Proof.
  intros HW Hs -> [ts Hts] Hv Hl Hr. assert (Hhb : hb_ok hb) by (split; [by eapply heartbeat_valid_first|done]).
  set (g := source_guid W (hb_writer_id hb)).
  unfold handle_heartbeat_submsg, unless_from_self, gets, lift_outcome, mret, rcv_ret.
  rewrite Hv, Hts. unfold mbind, rcv_bind. rewrite Hs. cbn [negb unwrap]. fold g.
  rewrite (bool_decide_false (hb_reader_id hb = _)) by done.
  unfold heartbeat_reader, with_reader, mbind, rcv_bind, mret, rcv_ret.
  destruct (readers W !! hb_reader_id hb) as [r|] eqn:E.
  2:{ split; [done|]. by intros (_ & r & ? & _). }
  destruct (handle_heartbeat_knows g f hb r Hhb) as (r' & evs & rt & -> & Hk); [by eapply (wo_readers _ _ HW)|].
  destruct (contains f _) eqn:Ef.
  2:{ split; [done|]. by intros [? _]. }
  unfold update_liveliness, with_reader, mbind, rcv_bind. cbn [readers set_readers].
  rewrite lookup_insert_eq.
  destruct (get_matched_writer_qos g r') as [q|] eqn:Eq.
  - split; [done|]. intros (_ & r0 & [= <-] & Hc). rewrite <-Hk in Hc.
    apply get_matched_writer_qos_panic in Hc. congruence.
  - split; [intros _|done]. split; [done|]. exists r. split; [done|].
    rewrite <-Hk. by apply get_matched_writer_qos_panic.
Qed.

(** ** What the announcement of a remote writer leads to *)

Lemma loop_while_touches R (C : Reader → Prop) body l W W' evs b :
  (∀ e W W' evs b, body e W = Done (W', evs, inr b) →
     (b = false → ∃ r, readers W !! e = Some r ∧ C r) ∧
     receiver W' = receiver W ∧ (∀ e', e' ≠ e → readers W' !! e' = readers W !! e') ∧
     option_Forall2 (λ r r', b = true → R r r') (readers W !! e) (readers W' !! e)) →
  NoDup l → loop_while body l W = Done (W', evs, inr b) →
  (b = false ∧ ∃ e r, e ∈ l ∧ readers W !! e = Some r ∧ C r) ∨
  (b = true ∧ receiver W' = receiver W ∧ (∀ e, e ∉ l → readers W' !! e = readers W !! e) ∧
   ∀ e, e ∈ l → option_Forall2 R (readers W !! e) (readers W' !! e)).
Proof.
  intros Hb Hnd. revert W evs. induction Hnd as [|e l He Hnd IH]; intros W evs.
  { intros [= <- _ <-]. right. split_and!; [done..|]. by intros e ?%elem_of_nil. }
  cbn [loop_while]. intros H. apply rcv_bind_Done in H as (W1 & ev1 & ev2 & go & H1 & H2 & _).
  destruct (Hb _ _ _ _ _ H1) as (HC & Hr1 & Ho1 & He1). destruct go.
  2:{ injection H2 as <- _ <-. left. split; [done|]. destruct (HC eq_refl) as (r & ? & ?).
      exists e, r. split; [by left|done]. }
  destruct (IH _ _ H2) as [(-> & e' & r' & Hin & Hr' & Hc)|(-> & Hr2 & Ho2 & He2)].
  - left. split; [done|]. exists e', r'. rewrite Ho1 in Hr' by (by intros ->).
    split; [by right|done].
  - right. split; [done|]. split; [congruence|]. split.
    + intros e' [Hne Hl]%not_elem_of_cons. by rewrite Ho2, Ho1.
    + intros e' [->|Hl]%elem_of_cons; [|rewrite <-Ho1 by (by intros ->); by apply He2].
      rewrite Ho2 by done. inversion He1; constructor; auto.
Qed.

(** The topic of a reader is the announced one but the topic kinds differ. *)
Definition kind_mismatch (g : GUID) (r : Reader) : Prop :=
  ∃ tk, topic_kind (entity_id g) = Some tk ∧ rd_topic_kind (rconf r) ≠ tk.

(** What an announced writer does to a reader. *)
Definition meets_writer (wp : WriterProxy) (tn ty : string) (r r' : Reader) : Prop :=
  if is_writer_match tn ty r
  then ∃ evs rt, matched_writer_add_with_default_locator (remote_writer_guid wp) (wp_locators wp)
                   (data_max_size_serialized wp) (wp_qos wp) r = Done (r', evs, rt)
  else r' = r.

Lemma match_announced_writer_inv wp tn ty e W W' evs b :
  match_announced_writer wp tn ty e W = Done (W', evs, inr b) →
  (b = false → ∃ r, readers W !! e = Some r ∧ is_writer_match tn ty r = true ∧
     kind_mismatch (remote_writer_guid wp) r) ∧
  receiver W' = receiver W ∧ (∀ e', e' ≠ e → readers W' !! e' = readers W !! e') ∧
  option_Forall2 (λ r r', b = true → meets_writer wp tn ty r r') (readers W !! e) (readers W' !! e).
Proof.
  unfold match_announced_writer. intros H.
  apply rcv_bind_Done in H as (W1 & ev1 & ev2 & o & H1 & H2 & _).
  unfold with_reader in H1. destruct (readers W !! e) as [r|] eqn:E.
  2:{ injection H1 as <- _ <-. cbn in H2. injection H2 as <- _ <-. split; [done|]. split_and!; [done..|].
      rewrite E. constructor. }
  unfold meets_writer. destruct (is_writer_match tn ty r) eqn:Em.
  2:{ injection H1 as <- _ <-. cbn in H2. injection H2 as <- _ <-. split; [done|]. split; [done|]. cbn.
      split; [intros; by apply lookup_insert_ne|]. rewrite lookup_insert_eq. constructor. by rewrite Em. }
  cbv zeta in H1. unfold kind_mismatch.
  destruct (match topic_kind _ with Some _ => _ | None => _ end) eqn:Ek.
  - destruct (matched_writer_add_with_default_locator _ _ _ _ r) as [[[r1 e1] t1]|] eqn:Ea; [|done].
    injection H1 as <- _ <-. cbn in H2. injection H2 as <- _ <-. split; [done|]. split; [done|]. cbn.
    split; [intros; by apply lookup_insert_ne|]. rewrite lookup_insert_eq. constructor. rewrite Em. eauto.
  - injection H1 as <- _ <-. cbn in H2. injection H2 as <- _ <-. split.
    + intros _. exists r. split_and!; [done..|].
      destruct (topic_kind _) as [tk|]; [|done]. apply bool_decide_eq_false in Ek. eauto.
    + split; [done|]. cbn. split; [intros; by apply lookup_insert_ne|]. rewrite lookup_insert_eq.
      by constructor.
Qed.

Lemma matched_writer_add_result g ls n q r r' evs rt :
  matched_writer_add_with_default_locator g ls n q r = Done (r', evs, rt) →
  reader_is_compatible (rqos r) q = inr tt ∨ is_Some (matched_writers r !! g) →
  ∃ wp, matched_writers r' !! g = Some wp ∧ wp_locators wp = ls ∧ wp_qos wp = q.
Proof.
  unfold matched_writer_add_with_default_locator.
  destruct (matched_writers r !! g) as [wp|] eqn:E.
  - intros [= <- <- <-] _. cbn. rewrite lookup_insert_eq. eauto.
  - intros H [Hc|[? ?]]; [|done]. rewrite Hc in H. unfold wp_new in H. destruct (negb _); [done|].
    cbn [mbind outcome_bind] in H. apply outcome_bind_Done in H as (t & _ & H). injection H as <- _ _.
    cbn. rewrite lookup_insert_eq. eauto.
Qed.

Lemma deserialize_inv `{Speedy} {A} (rd : Endianness → prd A) d sp e W W' evs a res :
  data_serialized_payload d = Some sp → encapsulation sp = Done e → rd e (sp_value sp) = Done ([], inr a) →
  deserialize rd d W = Done (W', evs, res) → W' = W ∧ res = inr a.
Proof.
  intros Hp He Hr. unfold deserialize, lift_outcome, mbind, rcv_bind. rewrite Hp, He, Hr.
  unfold mret, rcv_ret. by intros [= <- _ <-].
Qed.

Lemma add_to_builtin_reader_touches eid c : touches eid (λ _ _, True) (add_to_builtin_reader eid c).
Proof.
  intros W W' evs a H. unfold add_to_builtin_reader in H.
  apply rcv_bind_Done in H as (W1 & ev1 & ev2 & p & H1 & H & _). injection H1 as <- <- <-.
  apply rcv_bind_Done in H as (W1 & ev3 & ev4 & o & H1 & H & _).
  destruct (touches_with_reader _ _ _ _ _ _ H1) as (Hr & Ho & He).
  destruct o; [|done]. injection H as <- _ _. split_and!; [done..|]. by inversion He; constructor.
Qed.

(** The whole of [handle_sedp_w_data], for an announcement that can be read
    and comes from a known participant. *)
Lemma sedp_w_main `{Speedy} d c ts e sp sdp part wp tn ty W W' evs :
  data_serialized_payload d = Some sp → encapsulation sp = Done e →
  read_SDPBuiltinData e (sp_value sp) = Done ([], inr sdp) →
  read_participant_data (source_guid_prefix (receiver W)) (disc_db W) = Some part →
  gen_writerproxy (spdp_default_unicast_locator_list part) (spdp_default_multicast_locator_list part) sdp
    = Done (Some wp) →
  topic_info sdp = Some (tn, ty) →
  handle_sedp_w_data d c ts W = Done (W', evs, inr tt) →
  (∀ eid r, readers W !! eid = Some r → is_writer_match tn ty r = true →
     ¬ kind_mismatch (remote_writer_guid wp) r) →
  ∀ eid, eid ≠ Eid.SEDP_BUILTIN_PUBLICATIONS_DETECTOR →
    option_Forall2 (meets_writer wp tn ty) (readers W !! eid) (readers W' !! eid).
Proof.
  intros Hp Henc Hrd Hpart Hgen Htop Hrun Hk eid Heid. unfold handle_sedp_w_data in Hrun.
  apply rcv_bind_Done in Hrun as (W1 & ev1 & ev2 & sdp' & H1 & Hrun & _).
  destruct (deserialize_inv _ _ _ _ _ _ _ _ _ Hp Henc Hrd H1) as [-> [= ->]]. clear H1.
  apply rcv_bind_Done in Hrun as (W1 & ev3 & ev4 & part' & H1 & Hrun & _). injection H1 as <- <- <-.
  rewrite Hpart in Hrun. unfold lift_outcome in Hrun. rewrite Hgen, Htop in Hrun.
  apply rcv_bind_Done in Hrun as (W1 & ev5 & ev6 & wp' & H1 & Hrun & _). injection H1 as <- <- <-.
  apply rcv_bind_Done in Hrun as (W1 & ev7 & ev8 & u & H1 & Hrun & _). injection H1 as <- <- <-.
  apply rcv_bind_Done in Hrun as (W1 & ev9 & ev10 & l & H1 & Hrun & _). injection H1 as <- <- <-.
  apply rcv_bind_Done in Hrun as (W1 & ev11 & ev12 & go & H1 & Hrun & _).
  apply (loop_while_touches (meets_writer wp tn ty)
    (λ r, is_writer_match tn ty r = true ∧ kind_mismatch (remote_writer_guid wp) r)) in H1;
    [|intros; by eapply match_announced_writer_inv|apply NoDup_bt_keys].
  destruct H1 as [(_ & e' & r & _ & Hr & Hm & Hmis)|(-> & Hrec & Ho & He)].
  { exfalso. by eapply Hk. }
  destruct (add_to_builtin_reader_touches _ _ _ _ _ _ Hrun) as (_ & Ho2 & _).
  rewrite Ho2 by done. destruct (decide (eid ∈ bt_keys (readers W))) as [Hin|Hn]; [by apply He|].
  rewrite Ho by done. cbn [readers set_disc_db].
  rewrite elem_of_bt_keys in Hn. apply eq_None_not_Some in Hn. rewrite Hn. constructor.
Qed.

(** The announcement of a remote writer, as its participant writes it, makes
    the writer known to exactly the local readers of its topic: a reader of
    the same topic and type that accepts the offered QoS (or knew the writer
    already) ends with a proxy that has the announced locators, completed by
    the defaults of the participant, and the announced QoS; a reader of
    another topic is not touched.  (The reader of the announcements itself
    also stores the sample.)  It needs that no local reader of the same topic
    has the other topic kind: the loop ends at the first one. *)
Theorem announced_writer_is_matched `{SpeedyLaws} clk d f e sp p t tn ty part W W' evs res eid r :
  from_self (receiver W) = false →
  data_writer_id d = Eid.SEDP_BUILTIN_PUBLICATIONS_ANNOUNCER →
  data_reader_id d ≠ Eid.SPDP_BUILTIN_PARTICIPANT_DETECTOR →
  data_serialized_payload d = Some sp → encapsulation sp = Done e →
  sp_value sp = write_DiscoveredWriterData e p t →
  writer_announcement_wf p t → pub_topic_name t = Some tn → pub_type_name t = Some ty →
  read_participant_data (source_guid_prefix (receiver W)) (disc_db W) = Some part →
  let ls := mkLocators (unicast_locator_list (wp_locators p)) (multicast_locator_list (wp_locators p))
              (spdp_default_unicast_locator_list part) (spdp_default_multicast_locator_list part) in
  has_locator ls = true →
  (∀ eid r, readers W !! eid = Some r → is_writer_match tn ty r = true →
     ¬ kind_mismatch (remote_writer_guid p) r) →
  handle_data_submsg clk d f W = Done (W', evs, inr res) →
  eid ≠ Eid.SEDP_BUILTIN_PUBLICATIONS_DETECTOR → readers W !! eid = Some r →
  ∃ r', readers W' !! eid = Some r' ∧
    if is_writer_match tn ty r
    then reader_is_compatible (rqos r) (writer_qos_received (wp_qos p)) = inr tt ∨
           is_Some (matched_writers r !! remote_writer_guid p) →
         ∃ wp, matched_writers r' !! remote_writer_guid p = Some wp ∧ wp_locators wp = ls ∧
               wp_qos wp = writer_qos_received (wp_qos p)
    else r' = r.
Proof.
  intros Hs Hw Hr Hp Henc Hv Hwf Htn Hty Hpart ls Hls Hkind Hrun Heid Hreid.
  destruct (writer_announcement_main e p t (spdp_default_unicast_locator_list part)
    (spdp_default_multicast_locator_list part) Hwf) as (sdp & Hrd & Hgen & Htop).
  fold ls in Hgen. unfold wp_new in Hgen. rewrite Hls in Hgen. cbn in Hgen.
  rewrite Htn, Hty in Htop. cbn in Htop. rewrite <-Hv in Hrd.
  unfold handle_data_submsg, unless_from_self in Hrun.
  apply rcv_bind_Done in Hrun as (W1 & ev1 & ev2 & m & H1 & Hrun & _). injection H1 as <- <- <-.
  rewrite Hs in Hrun. destruct (_ || _); [done|]. destruct (contains _ _); [done|].
  apply rcv_bind_Done in Hrun as (W1 & ev3 & ev4 & g & H1 & Hrun & _). injection H1 as <- <- <-.
  apply rcv_bind_Done in Hrun as (W1 & ev5 & ev6 & ts & H1 & Hrun & _).
  destruct (clk_data clk) as [ts'|]; [|done]. injection H1 as <- <- <-. cbv zeta in Hrun.
  apply rcv_bind_Done in Hrun as (W1 & ev7 & ev8 & rtv & H1 & Hrun & _). injection Hrun as <- _ _.
  unfold dispatch_data in H1.
  replace (for_or Eid.SPDP_BUILTIN_PARTICIPANT_ANNOUNCER Eid.SPDP_BUILTIN_PARTICIPANT_DETECTOR d)
    with false in H1 by (unfold for_or; rewrite Hw, !bool_decide_false by done; done).
  replace (for_or Eid.SEDP_BUILTIN_PUBLICATIONS_ANNOUNCER Eid.SEDP_BUILTIN_PUBLICATIONS_DETECTOR d)
    with true in H1 by (unfold for_or; by rewrite Hw, bool_decide_true).
  apply rcv_bind_Done in H1 as (W2 & ev9 & ev10 & [] & H1 & H2 & _). injection H2 as <- _ _.
  pose proof (sedp_w_main d _ _ e sp sdp part _ tn ty W W2 ev9 Hp Henc Hrd Hpart Hgen Htop H1 Hkind eid Heid) as Hm.
  rewrite Hreid in Hm. inversion Hm as [r0 r' Hmeet Hr0 Hr'|]; subst r0. exists r'. split; [done|].
  unfold meets_writer in Hmeet. destruct (is_writer_match tn ty r); [|done].
  intros Hcomp. destruct Hmeet as (ev & rt & Hadd). by eapply matched_writer_add_result.
Qed.

(** ** Concrete runs *)
Module ReceiverSample.
Import ReaderSample Concrete.

(** A participant with one user-defined reader and the reader of the SEDP
    announcements; it knows the participant of [ReaderSample.writer 1]. *)
Definition own : GuidPrefix := guid_prefix guid.
Definition detector : Reader :=
  reader_new (mkReaderConf (mkGUID own Eid.SEDP_BUILTIN_PUBLICATIONS_DETECTOR) WithKey Reliable
    [locator 9] [] false Dur.ZERO
    (mkTopic "DCPSPublication" "PublicationBuiltinTopicData" (TopicQosBuilder_build TopicQosBuilder_new) WithKey)
    (qos default_reliable (-1)) LittleEndian) (hc_new HcReader).
Definition remote : SPDPdiscoveredParticipantData :=
  mkSPDPdiscoveredParticipantData 0 EmptyString PROTOCOLVERSION
    (mkGUID (guid_prefix (writer 1)) Eid.PARTICIPANT) VENDORID_THIS_IMPLEMENTATION false 0xc3f
    [locator 1] [] [] [locator 1] None (mkDuration 20 0).
Definition mr (source : GuidPrefix) : MessageReceiver :=
  mkMessageReceiver 0 own PROTOCOLVERSION VENDORID_UNKNOW source own [] [] false Ts.TIME_INVALID
    (mkSerializedPayload PL_CDR_LE [0; 0] [1]).
Definition world (source : GuidPrefix) : World :=
  mkWorld (mr source) ∅
    (<[entity_id guid := waiting]> {[Eid.SEDP_BUILTIN_PUBLICATIONS_DETECTOR := detector]})
    (mkDiscoveryDB {[guid_prefix (writer 1) := (Live (mkTimestamp 1 0), remote)]} ∅ ∅).
Definition clk : Clock :=
  mkClock (Some (mkTimestamp 2 0)) (Some (mkTimestamp 2 0)) (Some (mkTimestamp 2 0))
    (λ _ _, Some (mkTimestamp 2 0)).

Lemma world_sample_wf p : world_wf (world p).
Proof.
  split; try done.
  - intros e r. simpl. intros [[_ <-]|[_ [_ <-]%lookup_singleton_Some]]%lookup_insert_Some.
    + apply reliable_wf, waiting_reachable.
    + apply (reader_reachable_inv (rconf detector)); [vm_compute; (split; split; congruence)|apply rr_new].
  - intros q e. simpl. intros [_ <-]%lookup_singleton_Some. simpl. split; unfold in_s, in_u; simpl; lia.
Qed.

(** A run ends without a panic, and without an error. *)
Definition succeeds {A} (m : outcome (World * list Event * (MessageError + A))) : bool :=
  match m with Done (_, inr _) => true | _ => false end.
Lemma succeeds_Done {A} (m : outcome (World * list Event * (MessageError + A))) :
  succeeds m = true → ∃ W' evs r, m = Done (W', evs, inr r).
Proof. destruct m as [[[W' evs] [e|r]]|]; try done. eauto. Qed.

(** Sample 2 of writer 1, the one the reader waits for. *)
Definition data : Data :=
  mkData Eid.UNKNOW (entity_id (writer 1)) 2 None (Some (mkSerializedPayload CDR_LE [0; 0] [2])).
Definition lively_heartbeat (w r : EntityId) : Heartbeat :=
  mkHeartbeat r w 1 3 1 None None None None None.
Definition packet : list Z :=
  match write_Message LittleEndian (Build.build (guid_prefix (writer 1))
    (Build.data LittleEndian (entity_id (writer 1)) Eid.UNKNOW
       (mkCacheChange Alive (writer 1) 2 (mkTimestamp 2 0) (data_serialized_payload data))
       (Build.info_ts LittleEndian (Some (mkTimestamp 2 0)) Build.new))) with
  | Done b => b | Panic => [] end.
(** The announcement of another writer on the reader's topic. *)
Definition announced : WriterProxy :=
  mkWriterProxy (mkGUID (guid_prefix (writer 1)) (mkEntityId (0, 0, 7) Kind.WRITER_NO_KEY_USER_DEFIND))
    (mkLocators [locator 1] [] [] []) 0 (writer_qos 10) ∅.
Definition announcement : Data :=
  mkData Eid.UNKNOW Eid.SEDP_BUILTIN_PUBLICATIONS_ANNOUNCER 1 None
    (Some (mkSerializedPayload PL_CDR_LE [0; 0]
      (write_DiscoveredWriterData LittleEndian announced (pub_builtin_topic_data topic)))).

Lemma announced_wf : writer_announcement_wf announced (pub_builtin_topic_data topic).
Proof.
  assert (Hl : Forall loc_ok [locator 1]).
  { apply Forall_singleton. split; [|done].
    split; [vm_compute; split; congruence|]. split; [vm_compute; split; congruence|concrete]. }
  constructor; try exact Hl; try (by apply Forall_nil); try (vm_compute; intuition congruence).
  - split; [unfold gp_wf; concrete|]. unfold eid_wf, octet; simpl; lia.
  - split; [by apply Forall_nil|vm_compute; reflexivity].
  - apply opt_wf_some. vm_compute. reflexivity.
  - apply opt_wf_some. vm_compute. reflexivity.
Qed.
End ReceiverSample.

Section receiver_witnesses.
Import ReceiverSample ReaderSample Concrete.


Lemma own_message_ignored_witness :
  ∃ mr', handle_parsed_packet (λ _, clk)
    (Build.build own (Build.data LittleEndian (entity_id (writer 1)) Eid.UNKNOW (sample 1 2) Build.new))
    (world GUIDPREFIX_UNKNOW) = Done (set_receiver (λ _, mr') (world GUIDPREFIX_UNKNOW), [], inr None).
Proof.
  apply own_message_ignored; [reflexivity|vm_compute; congruence|].
  repeat (apply Forall_cons; split); [reflexivity|by apply Forall_nil].
Defined.


Lemma addressed_heartbeat_aborts_iff_witness :
  handle_heartbeat_submsg clk (lively_heartbeat (entity_id (writer 2)) (entity_id guid)) 7
    (world (guid_prefix (writer 2))) = Panic.
Proof.
  apply (addressed_heartbeat_aborts_iff clk _ 7 (world (guid_prefix (writer 2))) (writer 2)).
  - apply world_sample_wf.
  - reflexivity.
  - reflexivity.
  - eauto.
  - reflexivity.
  - vm_compute. congruence.
  - vm_compute. congruence.
  - split; [reflexivity|]. exists waiting. split; vm_compute; reflexivity.
Defined.

Lemma announced_writer_is_matched_witness :
  ∃ W' evs res r', handle_data_submsg clk announcement 5 (world (guid_prefix (writer 1))) = Done (W', evs, inr res) ∧
    readers W' !! entity_id guid = Some r' ∧
    ∃ wp, matched_writers r' !! remote_writer_guid announced = Some wp ∧
      wp_locators wp = mkLocators [locator 1] [] [locator 1] [].
Proof.
  destruct (succeeds_Done (handle_data_submsg clk announcement 5 (world (guid_prefix (writer 1)))))
    as (W' & evs & res & E); [vm_compute; reflexivity|].
  destruct (announced_writer_is_matched clk announcement 5 LittleEndian
    (mkSerializedPayload PL_CDR_LE [0; 0]
      (write_DiscoveredWriterData LittleEndian announced (pub_builtin_topic_data topic)))
    announced (pub_builtin_topic_data topic) "Square" "ShapeType" remote
    (world (guid_prefix (writer 1))) W' evs res (entity_id guid) waiting) as (r' & Hr' & Hm);
    try reflexivity; try (vm_compute; congruence); try exact E.
  - apply announced_wf.
  - simpl. intros eid r. intros [[_ <-]|[_ [_ <-]%lookup_singleton_Some]]%lookup_insert_Some.
    + intros _ (tk & Htk & Hne). vm_compute in Htk. injection Htk as <-. by apply Hne.
    + vm_compute. discriminate.
  - exists W', evs, res, r'. split; [exact E|]. split; [exact Hr'|].
    destruct Hm as (wp & Hwp & Hls & _); [left; vm_compute; reflexivity|].
    exists wp. split; [exact Hwp|exact Hls].
Defined.
End receiver_witnesses.
