(* ===== verification/Protocol.v ===== *)
(** * From participant to participant

    The reliable protocol of two participants composed from its parts: the
    reader's ACKNACK is serialized, received by the participant of the writer
    ([handle_packet]), answered by the writer with the requested sample, which
    is serialized, received by the participant of the reader and delivered.
    The network is the identity on octets here: a packet that is lost or
    delayed is a handler that has not been called yet. *)
From stdpp Require Import base tactics numbers list gmap strings.
From coqutil Require Import Datatypes.RecordSetters.
From S2P Require Import Prelude Ordered Ids Time SeqNum Qos HistoryCache Topic Message Proxy Writer.
From S2P Require Import WriterProofs DiscoveryData DiscoveryDB Reader ReaderProofs Speedy Wire WireProofs.
From S2P Require Import ParameterList ParameterListProofs Receiver ReceiverProofs.
Import OCamlLikeNotations.

(** ** Runs of the receiver *)
Definition runs_to {A} (m : rcv A) (W W' : World) (evs : list Event) (a : A) : Prop :=
  m W = Done (W', evs, inr a).

Section runs_to.
Context {A B : Type}.

Lemma runs_to_bind (m : rcv A) (f : A → rcv B) W W1 W2 ev1 ev2 a b :
  runs_to m W W1 ev1 a → runs_to (f a) W1 W2 ev2 b → runs_to (m ≫= f) W W2 (ev1 ++ ev2) b.
Proof. unfold runs_to, mbind, rcv_bind. by intros -> ->. Qed.
Lemma runs_to_ret (a : A) W : runs_to (mret a) W W [] a.
Proof. done. Qed.
Lemma runs_to_gets_bind (g : World → A) (f : A → rcv B) W W' evs b :
  runs_to (f (g W)) W W' evs b → runs_to (gets g ≫= f) W W' evs b.
Proof. unfold runs_to, mbind, rcv_bind, gets. by intros ->. Qed.
Lemma runs_to_modify_bind g (f : unit → rcv B) W W' evs b :
  runs_to (f tt) (g W) W' evs b → runs_to (modify g ≫= f) W W' evs b.
Proof. unfold runs_to, mbind, rcv_bind, modify. by intros ->. Qed.
Lemma runs_to_lift_bind (o : outcome A) (f : A → rcv B) a W W' evs b :
  o = Done a → runs_to (f a) W W' evs b → runs_to (lift_outcome o ≫= f) W W' evs b.
Proof. intros ->. unfold runs_to, mbind, rcv_bind, lift_outcome. by intros ->. Qed.
End runs_to.

Lemma runs_to_bind_nil {A B} (m : rcv A) (f : A → rcv B) W W1 W2 ev a b :
  runs_to m W W1 ev a → runs_to (f a) W1 W2 [] b → runs_to (m ≫= f) W W2 ev b.
Proof. intros. rewrite <-(app_nil_r ev). by eapply runs_to_bind. Qed.

Lemma runs_to_with_reader {A} e (f : Reader → outcome (Reader * list ReaderEvent * A)) r r' evs a W :
  readers W !! e = Some r → f r = Done (r', evs, a) →
  runs_to (with_reader e f) W (set_readers <[e := r']> W) (OfReader e <$> evs) (Some a).
Proof. intros Hr Hf. unfold runs_to, with_reader. by rewrite Hr, Hf. Qed.
Lemma runs_to_with_writer {A} e (f : Writer → outcome (Writer * list WriterEvent * A)) w w' evs a W :
  writers W !! e = Some w → f w = Done (w', evs, a) →
  runs_to (with_writer e f) W (set_writers <[e := w']> W) (OfWriter e <$> evs) (Some a).
Proof. intros Hr Hf. unfold runs_to, with_writer. by rewrite Hr, Hf. Qed.

(** ** A datagram is the message it carries *)
Section datagram.
Context `{SpeedyLaws}.

Lemma header_octets e p : gp_wf p →
  Z.of_nat (length (write_Header e (header_new p))) = 20 ∧
  take 4 (write_Header e (header_new p)) = PROTOCOLVID.
Proof.
  intros [Hl _]. unfold write_Header, write_ProtocolVersion, write_GuidPrefix, write_u8. simpl.
  rewrite !length_app, !length_put_uint. cbn [length]. rewrite Hl. split; [lia|done].
Qed.

Lemma classify_rtps e p ms bs :
  gp_wf p → write_Message e (mkMessage (header_new p) ms) = Done bs → classify bs = RtpsPacket.
Proof.
  intros Hp. destruct (header_octets e p Hp) as [Hlen Hmagic]. unfold write_Message.
  cbn [msg_header Message.submessages]. revert Hlen Hmagic. generalize (write_Header e (header_new p)).
  intros h Hlen Hmagic Hw. apply outcome_bind_Done in Hw as (body & _ & [= <-]).
  unfold classify. rewrite length_app, !bool_decide_false by lia.
  rewrite take_app_le, Hmagic by lia. rewrite (bool_decide_true (PROTOCOLVID = _)) by done. cbn [negb].
  by rewrite bool_decide_false by lia.
Qed.

Lemma datagram_of_message e p t clk :
  gp_wf p → builds e t →
  ∃ bs, write_Message e (Build.build p t) = Done bs ∧
    ∀ W W' evs rt, runs_to (handle_parsed_packet clk (mkMessage (header_new p) (received <$> t))) W W' evs rt →
      runs_to (handle_datagram e clk bs) W W' evs (default [] rt).
Proof.
  intros Hp Ht. destruct (message_parses e (header_new p) t) as (bs & Hw & Hparse).
  { split; [concrete|]. split; [split; concrete|]. split; [concrete|exact Hp]. }
  { by apply builds_sendable. }
  exists bs. split; [done|]. intros W W' evs rt Hrun.
  assert (Hclass : classify bs = RtpsPacket).
  { by eapply classify_rtps. }
  unfold handle_datagram. rewrite Hclass, Hparse. cbn [default].
  eapply runs_to_lift_bind; [reflexivity|]. by eapply runs_to_bind_nil.
Qed.
End datagram.

(** ** The writer's participant *)
Lemma runs_to_catch {A} (m : rcv A) W W' evs a :
  runs_to m W W' evs a → runs_to (catch m) W W' evs (inr a).
Proof. unfold runs_to, catch. by intros ->. Qed.

Section steps.
Context `{Speedy}.

Lemma runs_to_submessage clk m l rtv W W1 W2 ev1 ev2 rt rt' :
  runs_to (handle_submessage (clk 0%nat) (sm_body m)) W W1 ev1 rt →
  runs_to (handle_submessages (clk ∘ S) l (rtv ++ default [] rt)) W1 W2 ev2 rt' →
  runs_to (handle_submessages clk (m :: l) rtv) W W2 (ev1 ++ ev2) rt'.
Proof.
  intros Hm Hl. cbn [handle_submessages]. eapply runs_to_bind; [by apply runs_to_catch|]. exact Hl.
Qed.

(** The world in which the submessages of a packet from [p] are handled. *)
Definition packet_world (p : GuidPrefix) (W : World) : World :=
  set_receiver (λ r, { (reset r) with
    dest_guid_prefix := own_guid_prefix r; source_guid_prefix := p }) W.

Lemma runs_to_packet clk p l W W' evs rtv :
  runs_to (handle_submessages clk l []) (packet_world p W) W' evs rtv →
  runs_to (handle_parsed_packet clk (mkMessage (header_new p) l)) W W' evs (opt_vec rtv).
Proof.
  intros Hl. unfold handle_parsed_packet. apply runs_to_modify_bind.
  eapply runs_to_bind_nil; [exact Hl|]. done.
Qed.

(** An ACKNACK of another participant is handled by the writer it names. *)
Lemma acknack_runs clk a f W w w' evs wt :
  from_self (receiver W) = false → acknack_is_valid a = true →
  writers W !! an_writer_id a = Some w →
  handle_acknack (clk_writer clk) a (source_guid W (an_reader_id a)) w = Done (w', evs, wt) →
  runs_to (handle_submessage clk (Entity (EAckNack a f))) W
    (set_writers <[an_writer_id a := w']> W) (OfWriter (an_writer_id a) <$> evs) None.
Proof.
  intros Hs Hv Hw Hh. cbn [handle_submessage handle_entity_submessage].
  eapply (runs_to_bind_nil _ _ _ _ _ _ wt); [|done].
  unfold handle_acknack_submsg, unless_from_self. apply runs_to_gets_bind. rewrite Hs.
  apply runs_to_gets_bind. rewrite (bool_decide_false (bitmap_base _ = 0)), Hv.
  2:{ unfold acknack_is_valid, sns_is_valid in Hv. rewrite !andb_true_iff, !bool_decide_eq_true in Hv. lia. }
  cbn [andb negb]. eapply (runs_to_bind_nil _ _ _ _ _ _ (Some wt)); [|done].
  eapply runs_to_with_writer; [exact Hw|exact Hh].
Qed.

Lemma acknack_packet_runs clk p q h1 h2 fd a f W w w' evs wt :
  p ≠ own_guid_prefix (receiver W) → acknack_is_valid a = true →
  writers W !! an_writer_id a = Some w →
  handle_acknack (clk_writer (clk 1%nat)) a (mkGUID p (an_reader_id a)) w = Done (w', evs, wt) →
  ∃ W', runs_to (handle_parsed_packet clk (mkMessage (header_new p)
          [mkSubMessage h1 (Interpreter (IInfoDestination q fd)); mkSubMessage h2 (Entity (EAckNack a f))]))
        W W' (OfWriter (an_writer_id a) <$> evs) None ∧
    readers W' = readers W ∧ writers W' = <[an_writer_id a := w']> (writers W).
Proof.
  intros Hp Hv Hw Hh. eexists. split; [|split].
  - change None with (opt_vec []). apply runs_to_packet.
    rewrite <-(app_nil_l (OfWriter _ <$> evs)). eapply runs_to_submessage.
    { cbn [sm_body handle_submessage handle_interpreter_submessage].
      apply runs_to_modify_bind. done. }
    rewrite <-(app_nil_r (OfWriter _ <$> evs)). eapply runs_to_submessage.
    + eapply acknack_runs; [|exact Hv|exact Hw|exact Hh].
      unfold from_self. cbn. by rewrite bool_decide_false.
    + apply runs_to_ret.
  - done.
  - done.
Qed.
End steps.

(** ** The reader's participant *)
Section delivery.
Context `{Speedy}.

(** A reader that can take sample [c] of writer [g] without a panic. *)
Definition ready_for (g : GUID) (c : CacheChange) (r : Reader) : Prop :=
  reader_wf r ∧ (is_contain_writer g r = true → reader_is_reliable r = true ∧ agrees c (reader_cache r)).

(** What the sample does to it. *)
Definition takes (g : GUID) (c : CacheChange) (r r' : Reader) : Prop :=
  ∃ evs rt, reader_add_change (guid_prefix g) c r = Done (r', evs, rt).

Lemma contains_known g r : is_contain_writer g r = true → ∃ wp, known g r = Some wp.
Proof.
  unfold is_contain_writer, known. rewrite orb_true_iff, !bool_decide_eq_true.
  destruct (unmatched_writers r !! g); [eauto|]. intros [[wp ->]|[? [=]]]; eauto.
Qed.

Lemma deliver_runs g c ts e W r :
  readers W !! e = Some r → ready_for g c r → is_contain_writer g r = true → sample_of g c →
  ∃ W' evs rt, runs_to (deliver g c ts e) W W' evs rt.
Proof.
  intros Hr [Hwf Hready] Hc Hof. destruct (Hready Hc) as [Hrel Hag]. destruct (contains_known g r Hc) as [wp Hk].
  pose proof (reliable_add_main g c r wp Hwf Hrel Hof Hag Hk) as Hadd. destruct (reorder_state _ _).
  destruct Hadd as (r' & evs & rt & Hadd & _ & _ & _ & _ & Hm & _).
  eexists _, _, _. unfold deliver. eapply runs_to_bind.
  { eapply runs_to_with_reader; [exact Hr|exact Hadd]. }
  eapply runs_to_bind; [|apply runs_to_ret]. unfold update_liveliness.
  eapply runs_to_bind.
  - eapply runs_to_with_reader; [apply lookup_insert_eq|].
    unfold get_matched_writer_qos. by rewrite Hm.
  - by unfold modify.
Qed.

Lemma loop_runs {A} R (P : Reader → Prop) (body : A → EntityId → rcv A) l :
  (∀ a e, touches e R (body a e)) →
  (∀ a e W, (∀ r, readers W !! e = Some r → P r) → ∃ W' evs b, runs_to (body a e) W W' evs b) →
  NoDup l → ∀ a W, (∀ e r, e ∈ l → readers W !! e = Some r → P r) →
  ∃ W' evs b, runs_to (loop body a l) W W' evs b.
Proof.
  intros Ht Hb. induction 1 as [|e l He Hnd IH]; intros a W HP; [eexists _, _, _; apply runs_to_ret|].
  destruct (Hb a e W) as (W1 & ev1 & a1 & H1); [intros r; apply HP; by left|].
  destruct (Ht _ _ _ _ _ _ H1) as (_ & Ho & _).
  destruct (IH a1 W1) as (W2 & ev2 & b & H2).
  { intros e' r He'. rewrite Ho by (by intros ->). apply HP. by right. }
  eexists _, _, _. cbn [loop]. eapply runs_to_bind; eauto.
Qed.

(** The ids of a sample that is not for a built-in reader. *)
Definition user_data (d : Data) : Prop :=
  is_builtin (data_writer_id d) = false ∧
  (data_reader_id d = Eid.UNKNOW ∨ is_builtin (data_reader_id d) = false).

Lemma for_or_user w r d :
  user_data d → is_builtin w = true → is_builtin r = true → r ≠ Eid.UNKNOW → for_or w r d = false.
Proof.
  intros [Hd Hr] Hw Hr' Hne. unfold for_or. apply orb_false_iff.
  split; apply bool_decide_eq_false; intros E; [subst w; congruence|subst r].
  destruct Hr as [?|?]; congruence.
Qed.

Lemma touches_deliver g c ts e : touches e (takes g c) (deliver g c ts e).
Proof.
  apply touches_bind_eq.
  - eapply touches_weaken; [apply touches_with_reader|]. intros r r' (evs & rt & E). by exists evs, rt.
  - intros o. apply touches_bind_eq; [apply touches_update_liveliness|intros; apply touches_ret].
Qed.

Lemma known_deliver_runs {A} g c ts e (a : A) (k : list ReaderTimer → A) W :
  sample_of g c → (∀ r, readers W !! e = Some r → ready_for g c r) →
  ∃ W' evs b, runs_to (known ← knows_writer g e;
     if (known : bool) then rt ← deliver g c ts e; mret (k rt) else mret a) W W' evs b.
Proof.
  intros Hof Hr. unfold knows_writer. destruct (readers W !! e) as [r|] eqn:E.
  - destruct (is_contain_writer g r) eqn:Eg.
    + destruct (deliver_runs g c ts e W r E (Hr r eq_refl) Eg Hof) as (W' & evs & rt & Hd).
      eexists _, _, _. apply runs_to_gets_bind. rewrite E, Eg.
      eapply runs_to_bind_nil; [exact Hd|apply runs_to_ret].
    + eexists _, _, _. apply runs_to_gets_bind. rewrite E, Eg. apply runs_to_ret.
  - eexists _, _, _. apply runs_to_gets_bind. rewrite E. apply runs_to_ret.
Qed.

Lemma is_builtin_ne e e' : is_builtin e = false → is_builtin e' = true → e ≠ e'.
Proof. intros H1 H2 ->. congruence. Qed.

(** DATA of a user-defined writer: every reader it is for takes the sample. *)
Lemma data_runs clk d f ts W g :
  let c := mkCacheChange Alive g (data_writer_sn d) ts (data_serialized_payload d) in
  from_self (receiver W) = false → user_data d → contains f Flag.Data.InlineQos = false →
  clk_data clk = Some ts → g = source_guid W (data_writer_id d) → seq_ok (data_writer_sn d) →
  (∀ e r, readers W !! e = Some r → ready_for g c r) →
  ∃ W' evs rt, runs_to (handle_submessage clk (Entity (EData d f))) W W' evs rt ∧
    ∀ e, data_reader_id d = Eid.UNKNOW ∨ data_reader_id d = e →
      option_Forall2 (if_known g (takes g c)) (readers W !! e) (readers W' !! e).
Proof.
  intros c Hs Hu Hf Hclk Hg Hsn Hready.
  assert (Hof : sample_of g c) by done.
  assert (Hd : ∃ W' evs rt, runs_to (dispatch_data clk d c ts g) W W' evs rt ∧
    ∀ e, data_reader_id d = Eid.UNKNOW ∨ data_reader_id d = e →
      option_Forall2 (if_known g (takes g c)) (readers W !! e) (readers W' !! e)).
  { unfold dispatch_data. rewrite !for_or_user by done. case_bool_decide as Hr.
    - assert (Hrun : ∃ W' evs rt, runs_to (for_readers (λ rtv eid,
        known ← knows_writer g eid;
        if (known : bool) then rt ← deliver g c ts eid; mret (rtv ++ rt) else mret rtv) []) W W' evs rt).
      { unfold for_readers. destruct (loop_runs (if_known g (takes g c)) (ready_for g c)
          (λ rtv eid, known ← knows_writer g eid;
             if (known : bool) then rt ← deliver g c ts eid; mret (rtv ++ rt) else mret rtv)
          (bt_keys (readers W))) with (a := @nil ReaderTimer) (W := W) as (W' & evs & b & Hrun).
        - intros rtv e. apply touches_if_known.
          apply touches_bind_eq; [apply touches_deliver|intros; apply touches_ret].
        - intros rtv e W1 HP. by apply (known_deliver_runs g c ts e rtv (app rtv)).
        - apply NoDup_bt_keys.
        - intros e r _. apply Hready.
        - eexists _, _, _. by apply runs_to_gets_bind. }
      destruct Hrun as (W' & evs & rt & Hrun). exists W', evs, rt. split; [exact Hrun|]. intros e _.
      eapply for_readers_touches; [|exact Hrun]. intros rtv e'. apply touches_if_known.
      apply touches_bind_eq; [apply touches_deliver|intros; apply touches_ret].
    - assert (Hrun : ∃ W' evs rt, runs_to (known ← knows_writer g (data_reader_id d);
        if (known : bool) then deliver g c ts (data_reader_id d) else mret []) W W' evs rt).
      { unfold knows_writer. destruct (readers W !! data_reader_id d) as [r|] eqn:E.
        - destruct (is_contain_writer g r) eqn:Eg.
          + destruct (deliver_runs g c ts _ W r E (Hready _ _ E) Eg Hof) as (W' & evs & rt & Hd).
            eexists _, _, _. apply runs_to_gets_bind. rewrite E, Eg. exact Hd.
          + eexists _, _, _. apply runs_to_gets_bind. rewrite E, Eg. apply runs_to_ret.
        - eexists _, _, _. apply runs_to_gets_bind. rewrite E. apply runs_to_ret. }
      destruct Hrun as (W' & evs & rt & Hrun). exists W', evs, rt. split; [exact Hrun|].
      intros e [He|<-]; [done|].
      by apply (touches_if_known _ g (takes g c) _ [] (touches_deliver g c ts _) _ _ _ _ Hrun). }
  destruct Hd as (W' & evs & rt & Hd & Hrel). exists W', evs. eexists. split; [|exact Hrel].
  cbn [handle_submessage handle_entity_submessage]. unfold handle_data_submsg, unless_from_self.
  apply runs_to_gets_bind. rewrite Hs, Hf.
  rewrite (bool_decide_false (data_writer_sn d < 0)), (bool_decide_false (data_writer_sn d = _)).
  2,3: unfold seq_ok, seq_bound in Hsn; change Sn.SEQUENCENUMBER_UNKNOWN with (-4294967296); lia.
  cbn [orb]. apply runs_to_gets_bind. eapply runs_to_lift_bind; [by rewrite Hclk|]. rewrite <-Hg.
  eapply runs_to_bind_nil; [exact Hd|apply runs_to_ret].
Qed.

(** The two submessages of a sample: the second finds the receiver [mr]. *)
Lemma data_packet_runs clk p h1 h2 t ft d f W :
  (contains ft Flag.InfoTimestamp.Invalidate = false → is_Some t) →
  ∃ mr, source_guid_prefix mr = p ∧ own_guid_prefix mr = own_guid_prefix (receiver W) ∧
    ∀ W' evs rt, runs_to (handle_submessage (clk 1%nat) (Entity (EData d f))) (set_receiver (λ _, mr) W) W' evs rt →
      runs_to (handle_parsed_packet clk (mkMessage (header_new p)
        [mkSubMessage h1 (Interpreter (IInfoTimestamp t ft)); mkSubMessage h2 (Entity (EData d f))])) W W' evs
        (opt_vec (default [] rt)).
Proof.
  intros Ht.
  assert (Hts : ∃ mr, runs_to (handle_submessage (clk 0%nat) (Interpreter (IInfoTimestamp t ft))) (packet_world p W)
    (set_receiver (λ _, mr) W) [] None ∧
    source_guid_prefix mr = p ∧ own_guid_prefix mr = own_guid_prefix (receiver W)).
  { cbn [handle_submessage handle_interpreter_submessage].
    destruct (contains ft _) eqn:E; cbn [negb]; [|destruct (Ht eq_refl) as [t' ->]].
    - by exists { (receiver (packet_world p W)) with have_timestamp := false }.
    - by exists { { (receiver (packet_world p W)) with have_timestamp := true } with mr_timestamp := t' }. }
  destruct Hts as (mr & Hts & Hsrc & Hown). exists mr. split; [exact Hsrc|]. split; [exact Hown|].
  intros W' evs rt Hrun. apply runs_to_packet.
  rewrite <-(app_nil_l evs). eapply runs_to_submessage; [exact Hts|].
  rewrite <-(app_nil_r evs). eapply runs_to_submessage; [exact Hrun|]. apply runs_to_ret.
Qed.
End delivery.

(** ** A lost sample is repaired *)
Section repair.
Context `{SpeedyLaws}.

Lemma ack_bitmap_short st :
  sns_is_valid st = true → sns_wf st → 24 + 4 * length (bitmap st) < 2 ^ 16.
Proof.
  intros Hv (_ & Hn & _ & Hlen). unfold sns_is_valid in Hv. rewrite !andb_true_iff, !bool_decide_eq_true in Hv.
  destruct Hv as ((_ & Hv) & _). rewrite div_ceil32_alt in Hlen. unfold in_u in Hn.
  assert ((num_bits st + 31) / 32 < 9) by (apply Z.div_lt_upper_bound; lia). lia.
Qed.

(** The reader's side: the ACKNACK it sends, as octets, and what is left of
    the reader's state. *)
Lemma acknack_octets g r wp :
  reader_wf r → matched_writers r !! g = Some wp → rd_endianness (rconf r) = LittleEndian →
  guid_wf (rguid r) → guid_wf g →
  (∀ s, s ∈ missing_changes wp → s - ack_base wp < 255) →
  ∃ r1 evs st bs, handle_hb_response_timeout g r = Done (r1, evs) ∧
    reader_wf r1 ∧ same_but_ready r r1 ∧ sn_set st = missing_changes wp ∧ sns_is_valid st = true ∧
    (∀ ll l, get_unicast_ll_from_writer_proxy wp = Some ll → l ∈ ll → kind l = Loc.KIND_UDPV4 →
       ∃ ev, ev ∈ evs ∧ sent_msg ev = Some (acknack_msg r g wp st)) ∧
    write_Message LittleEndian (acknack_msg r g wp st) = Done bs ∧
    ∀ clk W w w' ev wt, own_guid_prefix (receiver W) ≠ guid_prefix (rguid r) →
      writers W !! entity_id g = Some w →
      handle_acknack (clk_writer (clk 1%nat))
        (mkAckNack (entity_id (rguid r)) (entity_id g) st 1) (rguid r) w = Done (w', ev, wt) →
      ∃ W', runs_to (handle_datagram LittleEndian clk bs) W W' (OfWriter (entity_id g) <$> ev) [] ∧
        readers W' = readers W ∧ writers W' = <[entity_id g := w']> (writers W).
Proof.
  intros Hwf Hg He [Hrp Hre] [Hgp Hge] Hspan. pose proof (rw_matched _ Hwf _ _ Hg) as Hok.
  destruct (hb_timeout_main g wp r Hwf Hg) as (r1 & evs & st & Hrun & Hst & Hwf1 & Hsame & _).
  destruct (ack_set_total g wp Hok) as (st' & Hst' & Hsw & _ & Hset & Hvalid).
  assert (st' = st) as -> by congruence. apply Hvalid in Hspan.
  assert (Hb : builds LittleEndian (Build.acknack LittleEndian (entity_id g) (entity_id (rguid r)) st 1 false
    (Build.info_dst LittleEndian (guid_prefix (remote_writer_guid wp)) Build.new))).
  { apply builds_acknack; [done|done|exact Hsw|by apply ack_bitmap_short|done|].
    rewrite (wpo_guid _ _ Hok). apply builds_info_dst; [exact Hgp|apply builds_new]. }
  destruct (datagram_of_message LittleEndian (guid_prefix (rguid r)) _ (λ _, mkClock None None None (λ _ _, None)) Hrp Hb)
    as (bs & Hbs & _).
  exists r1, (evs ++ ack_sends r g wp st), st, bs. split; [exact Hrun|]. split; [exact Hwf1|]. split; [exact Hsame|].
  split; [exact Hset|]. split; [exact Hspan|]. split; [|split].
  - intros ll l Hll Hl Hk. destruct (proj2 (ack_sends_spec r g wp st) ll l Hll Hl Hk) as (ev & Hev & Hm).
    exists ev. split; [|exact Hm]. apply elem_of_app. by right.
  - unfold acknack_msg. rewrite He. exact Hbs.
  - intros clk W w w' ev wt Hown Hw Hh.
    destruct (datagram_of_message LittleEndian (guid_prefix (rguid r)) _ clk Hrp Hb) as (bs' & Hbs' & Hdg).
    assert (bs' = bs) as -> by congruence.
    assert (Hh' : handle_acknack (clk_writer (clk 1%nat)) (mkAckNack (entity_id (rguid r)) (entity_id g) st 1)
      (mkGUID (guid_prefix (rguid r)) (entity_id (rguid r))) w = Done (w', ev, wt))
      by (destruct (rguid r); exact Hh).
    assert (Hp := λ h1 h2 fd f, acknack_packet_runs clk (guid_prefix (rguid r)) (guid_prefix (remote_writer_guid wp))
      h1 h2 fd (mkAckNack (entity_id (rguid r)) (entity_id g) st 1) f W w w' ev wt (not_eq_sym Hown) Hspan Hw Hh').
    edestruct Hp as (W' & HW & Hrw). exists W'. split; [|exact Hrw].
    apply (Hdg _ _ _ None). exact HW.
Qed.

(** The writer's side: a sample it sends, as octets, and how a participant
    comes to handle it. *)
Lemma data_datagram w reid now c :
  guid_wf (wguid w) → eid_wf reid → opt_wf Ts.wf now → change_sendable c →
  ∃ bs, write_Message LittleEndian (data_msg w reid now c) = Done bs ∧
    ∀ clk W, own_guid_prefix (receiver W) ≠ guid_prefix (wguid w) →
      ∃ mr f, source_guid_prefix mr = guid_prefix (wguid w) ∧ from_self mr = false ∧
        contains f Flag.Data.InlineQos = false ∧
        ∀ W' evs rt,
          runs_to (handle_submessage (clk 1%nat)
            (Entity (EData (mkData reid (entity_id (wguid w)) (sequence_number c) None (data_value c)) f)))
            (set_receiver (λ _, mr) W) W' evs rt →
          ∃ rt', runs_to (handle_datagram LittleEndian clk bs) W W' evs rt'.
Proof.
  intros [Hgp Hge] Hre Hnow Hc.
  assert (Hb : builds LittleEndian (Build.data LittleEndian (entity_id (wguid w)) reid c
    (Build.info_ts LittleEndian now Build.new))).
  { apply builds_data; [done..|]. apply builds_info_ts; [done|apply builds_new]. }
  destruct (datagram_of_message LittleEndian (guid_prefix (wguid w)) _ (λ _, mkClock None None None (λ _ _, None)) Hgp Hb)
    as (bs & Hbs & _).
  exists bs. split; [exact Hbs|]. intros clk W Hown.
  destruct (datagram_of_message LittleEndian (guid_prefix (wguid w)) _ clk Hgp Hb) as (bs' & Hbs' & Hdg).
  assert (bs' = bs) as -> by congruence. clear Hbs'.
  assert (∃ h1 h2 t ft f, received <$> Build.data LittleEndian (entity_id (wguid w)) reid c
      (Build.info_ts LittleEndian now Build.new) =
    [mkSubMessage h1 (Interpreter (IInfoTimestamp t ft));
     mkSubMessage h2 (Entity (EData (mkData reid (entity_id (wguid w)) (sequence_number c) None (data_value c)) f))] ∧
    (contains ft Flag.InfoTimestamp.Invalidate = false → is_Some t) ∧ contains f Flag.Data.InlineQos = false)
    as (h1 & h2 & t & ft & f & Hl & Ht & Hf).
  { unfold Build.data, Build.info_ts, Build.push. destruct (data_value c) as [v|], now as [t|];
      (do 5 eexists; split; [reflexivity|]; split; [by eauto|reflexivity]). }
  rewrite Hl in Hdg.
  destruct (data_packet_runs clk (guid_prefix (wguid w)) h1 h2 t ft
    (mkData reid (entity_id (wguid w)) (sequence_number c) None (data_value c)) f W Ht) as (mr & Hsrc & Hmo & Hrun).
  exists mr, f. split; [exact Hsrc|]. split; [|split; [exact Hf|]].
  - unfold from_self. by rewrite Hsrc, Hmo, bool_decide_false.
  - intros W' evs rt Hd. eexists. by apply Hdg, Hrun.
Qed.

(** What a sample of a user-defined writer does to the readers that get it. *)
Lemma data_octets w reid now c :
  guid_wf (wguid w) → eid_wf reid → opt_wf Ts.wf now → change_sendable c →
  ∃ bs, write_Message LittleEndian (data_msg w reid now c) = Done bs ∧
    ∀ clk W ts,
      let c' := mkCacheChange Alive (wguid w) (sequence_number c) ts (data_value c) in
      own_guid_prefix (receiver W) ≠ guid_prefix (wguid w) → clk_data (clk 1%nat) = Some ts →
      is_builtin (entity_id (wguid w)) = false → (reid = Eid.UNKNOW ∨ is_builtin reid = false) →
      seq_ok (sequence_number c) → (∀ e r, readers W !! e = Some r → ready_for (wguid w) c' r) →
      ∃ W' evs rt, runs_to (handle_datagram LittleEndian clk bs) W W' evs rt ∧
        ∀ e, reid = Eid.UNKNOW ∨ reid = e →
          option_Forall2 (if_known (wguid w) (takes (wguid w) c')) (readers W !! e) (readers W' !! e).
Proof.
  intros Hg Hre Hnow Hc. destruct (data_datagram w reid now c Hg Hre Hnow Hc) as (bs & Hbs & Hdg).
  exists bs. split; [exact Hbs|]. intros clk W ts c' Hown Hclk Hbw Hbr Hsn Hready.
  destruct (Hdg clk W Hown) as (mr & f & Hsrc & Hself & Hf & Hrun).
  destruct (data_runs (clk 1%nat) (mkData reid (entity_id (wguid w)) (sequence_number c) None (data_value c)) f ts
    (set_receiver (λ _, mr) W) (wguid w)) as (W' & evs & rt & Hd & Hrel); [exact Hself|by split|exact Hf|exact Hclk| |done..|].
  { unfold source_guid. cbn. rewrite Hsrc. by destruct (wguid w). }
  destruct (Hrun _ _ _ Hd) as [rt' Hdgr]. by exists W', evs, rt'.
Qed.

(** What a sample that was taken has changed. *)
Lemma takes_sample g c r r2 wp :
  reader_wf r → reader_is_reliable r = true → sample_of g c → agrees c (reader_cache r) →
  known g r = Some wp → takes g c r r2 →
  ∃ wp2, matched_writers r2 !! g = Some wp2 ∧
    (∀ s, s ∈ missing_changes wp2 ↔ s ∈ missing_changes wp ∧ s ≠ sequence_number c) ∧
    (changes (reader_cache r) !! change_key c = None → ¬ full (r_resource_limits (rqos r)).1 (reader_cache r) →
     history_kind (r_history (rqos r)).1 = KeepAll → changes (reader_cache r2) !! change_key c = Some c).
Proof.
  intros Hwf Hrel Hc Hag Hk (evs & rt & Hrun). exists (received_change_set (sequence_number c) wp). split_and!.
  - pose proof (reliable_add_main g c r wp Hwf Hrel Hc Hag Hk) as Hadd. destruct (reorder_state _ _).
    destruct Hadd as (r' & evs' & rt' & Hadd & _ & _ & _ & _ & Hm & _). rewrite Hrun in Hadd.
    by injection Hadd as <- _ _.
  - intros s. rewrite !elem_of_missing_changes, wp_status_received.
    destruct (decide (sequence_number c = s)); naive_solver.
  - intros Hfresh Hroom Hall.
    destruct (reliable_add_stores g c r wp Hwf Hrel Hc Hk Hfresh Hroom Hall) as (r' & evs' & rt' & Hadd & Hst).
    rewrite Hrun in Hadd. by injection Hadd as <- _ _.
Qed.

(** Reader [r] of the participant in state [WR] and writer [w] of the one in
    state [WW] have matched each other and are user-defined. *)
Record linked (WR WW : World) (r : Reader) (wp : WriterProxy) (w : Writer) (rp : ReaderProxy) : Prop := {
  lk_worlds : world_wf WR ∧ world_wf WW;
  lk_reader : readers WR !! entity_id (rguid r) = Some r;
  lk_writer : writers WW !! entity_id (wguid w) = Some w;
  lk_own : own_guid_prefix (receiver WR) = guid_prefix (rguid r) ∧
           own_guid_prefix (receiver WW) = guid_prefix (wguid w);
  lk_apart : guid_prefix (rguid r) ≠ guid_prefix (wguid w);
  lk_guids : guid_wf (rguid r) ∧ guid_wf (wguid w);
  lk_user : is_builtin (entity_id (rguid r)) = false ∧ is_builtin (entity_id (wguid w)) = false;
  lk_wp : matched_writers r !! wguid w = Some wp ∧ unmatched_writers r !! wguid w = None;
  lk_rp : matched_readers w !! rguid r = Some rp;
  lk_reader_conf : reader_is_reliable r = true ∧ rd_endianness (rconf r) = LittleEndian;
}.

(** Every reader that would get the sample is reliable and has no other sample
    of that number. *)
Definition awaiting (WR : World) (g : GUID) (c : CacheChange) : Prop :=
  ∀ e r, readers WR !! e = Some r → is_contain_writer g r = true →
    reader_is_reliable r = true ∧ agrees c (reader_cache r).

Lemma awaiting_rest WR r r1 g c :
  readers WR !! entity_id (rguid r) = Some r → is_Some (matched_writers r !! g) →
  same_but_ready r r1 → awaiting WR g c →
  awaiting (set_readers <[entity_id (rguid r) := r1]> WR) g c.
Proof.
  intros Hr Hm [H1 _ _ H4] Hawait e r'. simpl. rewrite lookup_insert_Some.
  intros [[<- <-]|[_ He]]; [|exact (Hawait e r' He)]. intros _.
  destruct (Hawait _ _ Hr) as [Hrel Hag].
  { unfold is_contain_writer. by rewrite bool_decide_true. }
  unfold reader_is_reliable, agrees in *. by rewrite H1, H4.
Qed.

(** DATA for reader [r], which is in state [r1] by now. *)
Lemma sample_arrives clk WR WW r r1 wp w rp reid now c ts :
  linked WR WW r wp w rp → reader_wf r1 → same_but_ready r r1 →
  (reid = Eid.UNKNOW ∨ reid = entity_id (rguid r)) → opt_wf Ts.wf now → change_sendable c →
  writer_guid c = wguid w → seq_ok (sequence_number c) → clk_data (clk 1%nat) = Some ts →
  awaiting WR (wguid w) c →
  ∃ bs WR2 evs rt r2 wp2, write_Message LittleEndian (data_msg w reid now c) = Done bs ∧
    handle_datagram LittleEndian clk bs (set_readers <[entity_id (rguid r) := r1]> WR) = Done (WR2, evs, inr rt) ∧
    readers WR2 !! entity_id (rguid r) = Some r2 ∧ matched_writers r2 !! wguid w = Some wp2 ∧
    (∀ s, s ∈ missing_changes wp2 ↔ s ∈ missing_changes wp ∧ s ≠ sequence_number c) ∧
    (changes (reader_cache r) !! change_key c = None →
     ¬ full (r_resource_limits (rqos r)).1 (reader_cache r) → history_kind (r_history (rqos r)).1 = KeepAll →
     ∃ c2, changes (reader_cache r2) !! change_key c = Some c2 ∧ data_value c2 = data_value c).
Proof.
  intros [[HWR _] Hr _ [Hor _] Hapart [Hrg Hwg] [Hbr Hbw] [Hwp Hun] _ [Hrel _]]
    Hwf1 Hsame Hreid Hnow Hsend Hcg Hok Hclk Hawait.
  destruct (data_octets w reid now c Hwg) as (bs & Hbs & Hfrom);
    [destruct Hreid as [->| ->]; [concrete|apply Hrg]|done|done|].
  set (c' := mkCacheChange Alive (wguid w) (sequence_number c) ts (data_value c)) in *.
  assert (Hkey : change_key c' = change_key c) by (unfold change_key; by rewrite Hcg).
  assert (Hawait1 : awaiting (set_readers <[entity_id (rguid r) := r1]> WR) (wguid w) c)
    by (eapply awaiting_rest; [done|by rewrite Hwp|done|done]).
  assert (Hag : ∀ r', agrees c (reader_cache r') → agrees c' (reader_cache r'))
    by (intros r'; unfold agrees; by rewrite Hkey).
  destruct (Hfrom clk (set_readers <[entity_id (rguid r) := r1]> WR) ts) as (WR2 & evs & rt & Hrun & Hrel2).
  { simpl. by rewrite Hor. }
  { done. }
  { done. }
  { destruct Hreid as [->| ->]; [by left|by right]. }
  { done. }
  { intros e r' He. split.
    - simpl in He. apply lookup_insert_Some in He as [[_ <-]|[_ He]]; [done|by eapply (wo_readers _ _ HWR)].
    - intros Hk. destruct (Hawait1 e r' He Hk) as [? ?]. split; [done|by apply Hag]. }
  specialize (Hrel2 (entity_id (rguid r)) Hreid). simpl in Hrel2. rewrite lookup_insert_eq in Hrel2.
  inversion Hrel2 as [? r2 Htakes Heq Hr2|]; subst. destruct Hsame as [H1 H2 H3 H4].
  unfold if_known, is_contain_writer in Htakes. rewrite H2, Hwp, bool_decide_true in Htakes by done.
  destruct (takes_sample (wguid w) c' r1 r2 wp) as (wp2 & Hm2 & Hmiss & Hst); [done|..|done|].
  { unfold reader_is_reliable in *. by rewrite H1. }
  { done. }
  { apply Hag. unfold agrees. rewrite H4. apply (Hawait _ _ Hr). unfold is_contain_writer. by rewrite Hwp, bool_decide_true. }
  { unfold known. by rewrite H3, Hun, H2. }
  exists bs, WR2, evs, rt, r2, wp2. split_and!; [exact Hbs|exact Hrun|by rewrite Hr2|exact Hm2|exact Hmiss|].
  intros Hfresh Hroom Hall. exists c'. split; [|done]. rewrite <-Hkey. apply Hst.
  - by rewrite H4, Hkey.
  - unfold full in *. unfold rqos in *. by rewrite H1, H4.
  - unfold rqos in *. by rewrite H1.
Qed.

(** C8. The repair of a lost sample over the wire.  A reader misses sample [s]
    of a matched writer that still has it: the octets of the ACKNACK that the
    reader sends make the participant of the writer send a DATA message to
    the reader's locators, whose octets make the participant of the reader
    take the sample: afterwards [s], and nothing else, is no longer missing,
    and it is stored when the cache has room. *)
Theorem lost_sample_is_repaired clkW clkR WR WW r wp w rp ll l s c ts :
  linked WR WW r wp w rp →
  s ∈ missing_changes wp → (∀ s', s' ∈ missing_changes wp → s' - ack_base wp < 255) →
  an_state w = Waiting → w_nack_response_delay (conf w) = Dur.ZERO →
  reader_locators (entity_id (wguid w)) rp = Some ll → l ∈ ll →
  (∀ cfr, rp_cache_state rp !! s = Some cfr → cfr_is_relevant cfr = true) →
  changes (writer_cache w) !! mkHCKey (wguid w) s = Some c → change_sendable c →
  (∀ i, opt_wf Ts.wf (clk_writer (clkW 1%nat) s i)) → clk_data (clkR 1%nat) = Some ts →
  awaiting WR (wguid w) c →
  ∃ r1 evs1 ack b1 WW2 evsW data b2 WR2 evsR rt r2 wp2,
    handle_hb_response_timeout (wguid w) r = Done (r1, evs1) ∧
    (∀ ll' l', get_unicast_ll_from_writer_proxy wp = Some ll' → l' ∈ ll' → kind l' = Loc.KIND_UDPV4 →
       ∃ ev, ev ∈ evs1 ∧ sent_msg ev = Some ack) ∧
    write_Message LittleEndian ack = Done b1 ∧
    handle_datagram LittleEndian clkW b1 WW = Done (WW2, evsW, inr []) ∧
    OfWriter (entity_id (wguid w)) <$> send_msg_to_locator l data ⊆ evsW ∧
    write_Message LittleEndian data = Done b2 ∧
    handle_datagram LittleEndian clkR b2 (set_readers <[entity_id (rguid r) := r1]> WR) = Done (WR2, evsR, inr rt) ∧
    readers WR2 !! entity_id (rguid r) = Some r2 ∧ matched_writers r2 !! wguid w = Some wp2 ∧
    (∀ s', s' ∈ missing_changes wp2 ↔ s' ∈ missing_changes wp ∧ s' ≠ s) ∧
    (changes (reader_cache r) !! mkHCKey (wguid w) s = None →
     ¬ full (r_resource_limits (rqos r)).1 (reader_cache r) → history_kind (r_history (rqos r)).1 = KeepAll →
     ∃ c2, changes (reader_cache r2) !! mkHCKey (wguid w) s = Some c2 ∧ data_value c2 = data_value c).
Proof.
  intros Hlk Hs Hspan Han Hdelay Hll Hl Hcfr Hc Hsend Hnow Hclk Hawait.
  destruct (lk_worlds _ _ _ _ _ _ Hlk) as [HWR HWW].
  pose proof (wo_readers _ _ HWR _ _ (lk_reader _ _ _ _ _ _ Hlk)) as Hrwf.
  destruct (wo_writers _ _ HWW _ _ (lk_writer _ _ _ _ _ _ Hlk)) as [Hwwf Hunsent].
  destruct (lk_wp _ _ _ _ _ _ Hlk) as [Hwp _]. destruct (lk_guids _ _ _ _ _ _ Hlk) as [Hrg Hwg].
  pose proof (wf_key _ (ww_cache _ Hwwf) _ _ Hc) as Hkey. injection Hkey as Hcg Hsn. symmetry in Hcg. subst s.
  pose proof (missing_bounds _ wp _ (rw_matched _ Hrwf _ _ Hwp) Hs) as Hok.
  destruct (acknack_octets (wguid w) r wp) as (r1 & evs1 & st & b1 & Hrun1 & Hwf1 & Hsame & Hset & _ & Hack & Hb1 & Hto);
    [done..|apply Hlk|done|done|done|].
  set (a := mkAckNack (entity_id (rguid r)) (entity_id (wguid w)) st 1) in *.
  destruct (handle_acknack_main (clk_writer (clkW 1%nat)) a (rguid r) w Hwwf Hunsent)
    as (w' & evW & wt & Hh & _).
  destruct (requested_data_main (clk_writer (clkW 1%nat)) a (rguid r) rp ll l (sequence_number c) c w w' evW wt)
    as (reid & i & Hreid & Hsent); [done..|apply Hlk|done|done|by rewrite <-Hset in Hs|done|done|done|].
  destruct (Hto clkW WW w w' evW wt) as (WW2 & Hrun2 & _);
    [rewrite (proj2 (lk_own _ _ _ _ _ _ Hlk)); apply not_eq_sym, Hlk|apply Hlk|done|].
  destruct (sample_arrives clkR WR WW r r1 wp w rp reid (clk_writer (clkW 1%nat) (sequence_number c) i) c ts)
    as (b2 & WR2 & evsR & rt & r2 & wp2 & Hb2 & Hrun3 & Hr2 & Hm2 & Hmiss & Hst); [done..|].
  exists r1, evs1, (acknack_msg r (wguid w) wp st), b1, WW2, (OfWriter (entity_id (wguid w)) <$> evW),
    (data_msg w reid (clk_writer (clkW 1%nat) (sequence_number c) i) c), b2, WR2, evsR, rt, r2, wp2.
  split_and!; [exact Hrun1|exact Hack|exact Hb1|exact Hrun2|intros ev (ev0 & -> & Hev)%list_elem_of_fmap; apply list_elem_of_fmap; eauto|exact Hb2|exact Hrun3
    |exact Hr2|exact Hm2|exact Hmiss|].
  unfold change_key in Hst. rewrite Hcg in Hst. exact Hst.
Qed.
End repair.

(** ** A concrete pair of participants *)
Module ProtocolSample.
Import Concrete.

(** The writer of [WriterProofs.Sample] with the reader of [ReaderSample],
    after it wrote and sent samples 1 to 3. *)
Definition join (w : Writer) : outcome Writer :=
  r ← matched_reader_add ReaderSample.guid false [ReaderSample.locator 9] []
        (Sample.reader_qos Volatile default_reliable) w; Done r.1.
Definition steps : list (Writer → outcome Writer) :=
  [join; Sample.write 1; Sample.process; Sample.write 2; Sample.process; Sample.write 3; Sample.process].
Definition writer : Writer := Sample.the (Sample.run Sample.reliable_conf steps).

Lemma writer_Done : Sample.run Sample.reliable_conf steps = Done writer.
Proof. vm_compute. reflexivity. Qed.

Definition is_step (f : Writer → outcome Writer) : Prop :=
  ∀ w w', writer_reachable Sample.reliable_conf w → f w = Done w' → writer_step w w'.
Lemma writer_run_reachable l w : Forall is_step l → Sample.run Sample.reliable_conf l = Done w →
  writer_reachable Sample.reliable_conf w.
Proof.
  revert w. induction l as [|f l IH] using rev_ind; intros w Hl H.
  - apply Sample.start_reachable. unfold Sample.run in H. apply outcome_bind_Done in H as (w0 & H & Hw).
    simpl in Hw. injection Hw as <-. exact H.
  - rewrite Forall_app, Forall_singleton in Hl. destruct Hl as [Hl Hf].
    apply Sample.run_snoc in H as (w0 & H & Hs). specialize (IH w0 Hl H). eapply wr_step; [exact IH|].
    by apply Hf.
Qed.
Lemma write_is_step s : 0 < s < Sn.MAX → is_step (Sample.write s).
Proof.
  intros Hs w w' Hw. apply (Sample.write_step s); [done|].
  destruct (reliable_reachable_inv Sample.reliable_conf w) as (Hc & _ & _); [done..|]. unfold wguid. by rewrite Hc.
Qed.
Lemma writer_inv : writer_wf writer ∧ unsent_stored writer.
Proof.
  apply (reliable_reachable_inv Sample.reliable_conf); [done|done|].
  apply (writer_run_reachable steps); [|apply writer_Done].
  assert (Hp : is_step Sample.process) by (intros w w' _; apply Sample.process_step).
  assert (Hj : is_step join).
  { intros w w' _ H. unfold join in H. apply outcome_bind_Done in H as ([w1 evs] & Hn & [= <-]). by eapply ws_add. }
  unfold steps. apply Forall_cons; split; [exact Hj|].
  do 3 (apply Forall_cons; split; [by apply write_is_step|apply Forall_cons; split; [exact Hp|]]).
  by apply Forall_nil.
Qed.

Definition writer_world : World :=
  mkWorld (mkMessageReceiver 0 (guid_prefix Sample.guid) PROTOCOLVERSION VENDORID_UNKNOW GUIDPREFIX_UNKNOW
             GUIDPREFIX_UNKNOW [] [] false Ts.TIME_INVALID (mkSerializedPayload PL_CDR_LE [0; 0] [1]))
    {[entity_id Sample.guid := writer]} ∅ (mkDiscoveryDB ∅ ∅ ∅).
Definition reader_world : World := ReceiverSample.world GUIDPREFIX_UNKNOW.

Lemma writer_world_wf : world_wf writer_world.
Proof.
  split; try done.
  intros e w. simpl. intros [_ <-]%lookup_singleton_Some. apply writer_inv.
Qed.

Definition proxy_of_writer : WriterProxy :=
  default ReceiverSample.announced (matched_writers ReaderSample.waiting !! wguid writer).
Definition proxy_of_reader : ReaderProxy :=
  default (mkReaderProxy ReaderSample.guid false (mkLocators [] [] [] []) (Sample.reader_qos Volatile default_reliable) ∅)
    (matched_readers writer !! rguid ReaderSample.waiting).

Lemma sample_linked :
  linked reader_world writer_world ReaderSample.waiting proxy_of_writer writer proxy_of_reader.
Proof.
  split.
  - split; [apply ReceiverSample.world_sample_wf|apply writer_world_wf].
  - vm_compute. reflexivity.
  - vm_compute. reflexivity.
  - split; vm_compute; reflexivity.
  - vm_compute. congruence.
  - split; (split; [unfold gp_wf; concrete|]); unfold eid_wf, octet; vm_compute; intuition congruence.
  - split; vm_compute; reflexivity.
  - split; vm_compute; reflexivity.
  - vm_compute. reflexivity.
  - split; vm_compute; reflexivity.
Qed.

Lemma proxy_of_writer_missing : missing_changes proxy_of_writer = [2].
Proof. vm_compute. reflexivity. Qed.

Lemma sample_awaiting : awaiting reader_world (wguid writer) (Sample.change 2).
Proof.
  intros e r. simpl. intros [[_ <-]|[_ [_ <-]%lookup_singleton_Some]]%lookup_insert_Some.
  - intros _. split; [vm_compute; reflexivity|]. intros c Hc.
    assert (E : changes (reader_cache ReaderSample.waiting) !! change_key (Sample.change 2) = None)
      by (vm_compute; reflexivity).
    rewrite E in Hc. discriminate Hc.
  - intros H. vm_compute in H. discriminate H.
Qed.
End ProtocolSample.

Import Concrete.

Lemma lost_sample_is_repaired_witness :
  missing_changes ProtocolSample.proxy_of_writer = [2] ∧
  ∃ r1 evs1 b2 WR2 evsR rt r2 wp2,
    handle_hb_response_timeout (wguid ProtocolSample.writer) ReaderSample.waiting = Done (r1, evs1) ∧
    handle_datagram LittleEndian (λ _, ReceiverSample.clk) b2
      (set_readers <[entity_id (rguid ReaderSample.waiting) := r1]> ProtocolSample.reader_world)
      = Done (WR2, evsR, inr rt) ∧
    readers WR2 !! entity_id (rguid ReaderSample.waiting) = Some r2 ∧
    matched_writers r2 !! wguid ProtocolSample.writer = Some wp2 ∧ 2 ∉ missing_changes wp2.
Proof.
  split; [exact ProtocolSample.proxy_of_writer_missing|].
  destruct (lost_sample_is_repaired (λ _, ReceiverSample.clk) (λ _, ReceiverSample.clk)
    _ _ _ _ _ _ [ReaderSample.locator 9] (ReaderSample.locator 9) 2 (Sample.change 2) (mkTimestamp 2 0)
    ProtocolSample.sample_linked) as
    (r1 & evs1 & ack & b1 & WW2 & evsW & data & b2 & WR2 & evsR & rt & r2 & wp2 & H1 & _ & _ & _ & _ & _ & H2 & H3 & H4 & H5 & _).
  - rewrite ProtocolSample.proxy_of_writer_missing. left.
  - rewrite ProtocolSample.proxy_of_writer_missing. intros s' ->%list_elem_of_singleton. vm_compute. reflexivity.
  - vm_compute. reflexivity.
  - vm_compute. reflexivity.
  - vm_compute. reflexivity.
  - left.
  - intros cfr Hcfr. vm_compute in Hcfr. injection Hcfr as <-. reflexivity.
  - vm_compute. reflexivity.
  - split; [vm_compute; split; congruence|]. intros p [= <-]. split; [|vm_compute; reflexivity].
    unfold payload_wf. concrete.
  - intros i. apply opt_wf_some. unfold Ts.wf, in_u; simpl; lia.
  - reflexivity.
  - exact ProtocolSample.sample_awaiting.
  - exists r1, evs1, b2, WR2, evsR, rt, r2, wp2. split_and!; [exact H1|exact H2|exact H3|exact H4|].
    rewrite H5. intros [_ Hne]. by apply Hne.
Defined.
