(* ===== verification/Timer.v ===== *)
(** * The timers of the event loop

    [mio_extras::timer::Timer] is a third-party crate: the class [TimerLib]
    has the operations that dds/event_loop.rs calls and [TimerLaws] their
    documented behaviour, stated through the entries that are pending in a
    timer.  A timer reads [Instant::now()] itself; the reading is an argument
    here.  [TimerModel] is a concrete realisation, for the concrete runs. *)
From stdpp Require Import base tactics numbers list gmap.
From S2P Require Import Prelude Ordered Time.

Class TimerLib := {
  Timer : Type → Type;
  Timeout : Type;
  Instant : Type;
  timer_default : ∀ {A}, Timer A;
  set_timeout : ∀ {A}, Instant → CoreDuration → A → Timer A → Timer A * Timeout;
  cancel_timeout : ∀ {A}, Timeout → Timer A → Timer A * option A;
  timer_poll : ∀ {A}, Instant → Timer A → Timer A * option A;
}.

(** [pending t to]: what was handed over with the timeout [to], while it has
    neither fired nor been cancelled.  [due now t] counts the entries whose
    time has come at [now]: a new entry lies at least one tick ahead, so it is
    not among them. *)
Class TimerLaws (L : TimerLib) := {
  timeout_eq_dec :: EqDecision Timeout;
  pending : ∀ {A}, Timer A → Timeout → option A;
  due : ∀ {A}, Instant → Timer A → nat;
  pending_default A to : pending (@timer_default L A) to = None;
  pending_set A now d (a : A) t :
    pending t (set_timeout now d a t).2 = None ∧
    ∀ to, pending (set_timeout now d a t).1 to =
      if decide (to = (set_timeout now d a t).2) then Some a else pending t to;
  pending_cancel A to (t : Timer A) :
    (cancel_timeout to t).2 = pending t to ∧
    ∀ to', pending (cancel_timeout to t).1 to' = if decide (to' = to) then None else pending t to';
  pending_poll A now (t : Timer A) :
    match (timer_poll now t).2 with
    | None => ∀ to, pending (timer_poll now t).1 to = pending t to
    | Some a => ∃ to, pending t to = Some a ∧
        ∀ to', pending (timer_poll now t).1 to' = if decide (to' = to) then None else pending t to'
    end;
  due_set A now d (a : A) t : due now (set_timeout now d a t).1 = due now t;
  due_poll A now (t : Timer A) :
    match (timer_poll now t).2 with
    | None => due now t = 0%nat ∧ due now (timer_poll now t).1 = 0%nat
    | Some _ => due now t = S (due now (timer_poll now t).1)
    end;
}.

(** ** What is pending *)

Section pending.
Context `{TimerLaws}.

(** Every entry satisfies [P]. *)
Definition timer_all {A} (P : A → Prop) (t : Timer A) : Prop :=
  ∀ to a, pending t to = Some a → P a.

(** No two entries have the same key. *)
Definition timer_once {A K} (key : A → K) (t : Timer A) : Prop :=
  ∀ to to' a a', pending t to = Some a → pending t to' = Some a' → key a = key a' → to = to'.

Lemma timer_all_impl {A} (P Q : A → Prop) t : timer_all P t → (∀ a, P a → Q a) → timer_all Q t.
Proof. intros Ht Hi to a Hp. by eapply Hi, Ht. Qed.

Lemma timer_all_default {A} (P : A → Prop) : timer_all P timer_default.
Proof. intros to a. by rewrite pending_default. Qed.

Lemma timer_all_set {A} (P : A → Prop) now d a t :
  P a → timer_all P t → timer_all P (set_timeout now d a t).1.
Proof.
  intros Ha Ht to a'. destruct (pending_set A now d a t) as [_ ->]. case_decide; [by intros [= <-]|apply Ht].
Qed.

Lemma timer_all_cancel {A} (P : A → Prop) to t : timer_all P t → timer_all P (cancel_timeout to t).1.
Proof. intros Ht to' a'. destruct (pending_cancel A to t) as [_ ->]. case_decide; [done|apply Ht]. Qed.

Lemma timer_all_poll {A} (P : A → Prop) now t t' o :
  timer_poll now t = (t', o) → timer_all P t → timer_all P t' ∧ ∀ a, o = Some a → P a.
Proof.
  intros Hp Ht. pose proof (pending_poll A now t) as H1. rewrite Hp in H1. cbn [fst snd] in H1. destruct o as [a|].
  - destruct H1 as (to & Ha & H1). split; [|by intros ? [= <-]; eapply Ht].
    intros to' a'. rewrite H1. case_decide; [done|apply Ht].
  - split; [|done]. intros to' a'. rewrite H1. apply Ht.
Qed.

(** A timer and the map in which the code remembers the timeout of each key:
    exactly the timeouts of the map are pending. *)
Definition tracks {A} `{Countable K} (key : A → K) (m : gmap K Timeout) (t : Timer A) : Prop :=
  ∀ k to, m !! k = Some to ↔ ∃ a, pending t to = Some a ∧ key a = k.

Section tracks.
Context {A : Type} `{Countable K} (key : A → K).
Implicit Types (m : gmap K Timeout) (t : Timer A).

Lemma tracks_default : tracks key ∅ timer_default.
Proof.
  intros k to. rewrite lookup_empty. split; [done|]. intros (a & Ha & _). by rewrite pending_default in Ha.
Qed.

(** The entry of one key, replaced: [cancel_timeout] where the map has one,
    [set_timeout], [insert]. *)
Definition reset_timeout (now : Instant) (d : CoreDuration) (a : A) (mt : gmap K Timeout * Timer A)
    : gmap K Timeout * Timer A :=
  let t := match mt.1 !! key a with Some to => (cancel_timeout to mt.2).1 | None => mt.2 end in
  let '(t, to) := set_timeout now d a t in (<[key a := to]> mt.1, t).

(** Everything but [k]: the state between a poll and the new timeout. *)
Lemma tracks_set m t (t0 : Timer A * Timeout) now d a :
  (∀ k to, k ≠ key a → m !! k = Some to ↔ ∃ b, pending t to = Some b ∧ key b = k) →
  (∀ to b, pending t to = Some b → key b ≠ key a) →
  set_timeout now d a t = (t0.1, t0.2) →
  tracks key (<[key a := t0.2]> m) t0.1.
Proof.
  intros Hm Hno Hset. destruct t0 as [t' to']. cbn [fst snd] in *.
  destruct (pending_set A now d a t) as [Hfresh Hp]. rewrite Hset in Hfresh, Hp. cbn [fst snd] in *.
  intros k to. rewrite lookup_insert, Hp. destruct (decide (key a = k)) as [<-|Hne].
  - split.
    + intros [= ->]. exists a. by rewrite decide_True.
    + intros (b & Hb & Hk). case_decide; [by subst|]. by apply Hno in Hb.
  - rewrite Hm by congruence. split.
    + intros (b & Hb & Hk). exists b. split; [|done]. rewrite decide_False; [done|]. intros ->. congruence.
    + intros (b & Hb & Hk). case_decide; [by simplify_eq|]. by exists b.
Qed.

Lemma reset_timeout_tracks now d a m t :
  tracks key m t → let mt := reset_timeout now d a (m, t) in tracks key mt.1 mt.2.
Proof.
  intros Hm. unfold reset_timeout. cbn [fst snd].
  set (t1 := match m !! key a with Some to => _ | None => _ end).
  destruct (set_timeout now d a t1) as [t2 to] eqn:E. cbn [fst snd].
  assert (Hp : ∀ to b, pending t1 to = Some b ↔ pending t to = Some b ∧ key b ≠ key a).
  { intros to1 b. unfold t1. destruct (m !! key a) as [to0|] eqn:Hk.
    - destruct (pending_cancel A to0 t) as [_ ->]. destruct (Hm (key a) to0) as [H2 _].
      destruct (H2 Hk) as (b0 & Hb0 & Hkb0). case_decide as Heq.
      + subst to1. split; [done|]. intros [Hb Hn]. congruence.
      + split; [|tauto]. intros Hb. split; [done|]. intros Hkb. apply Heq.
        assert (m !! key a = Some to1) by (apply Hm; eauto). congruence.
    - split; [|tauto]. intros Hb. split; [done|]. intros Hkb.
      assert (m !! key a = Some to1) by (apply Hm; eauto). congruence. }
  apply (tracks_set m t1 (t2, to) now d a); [| |exact E].
  - intros k to1 Hne. rewrite (Hm k to1). split; intros (b & Hb & Hkb); exists b.
    + split; [|done]. apply Hp. split; [done|congruence].
    + apply Hp in Hb as [Hb _]. done.
  - intros to1 b Hb. apply Hp in Hb as [_ Hb]. exact Hb.
Qed.

(** A timeout fires and is set again for the same key. *)
Lemma poll_tracks now m t t' a now' d a' :
  tracks key m t → timer_poll now t = (t', Some a) → key a' = key a →
  tracks key (<[key a' := (set_timeout now' d a' t').2]> m) (set_timeout now' d a' t').1.
Proof.
  intros Hm Hpoll Hk. pose proof (pending_poll A now t) as H1. rewrite Hpoll in H1. cbn [fst snd] in H1.
  destruct H1 as (to0 & Ha & Hp).
  apply (tracks_set m t' (set_timeout now' d a' t') now' d a'); [| |by destruct (set_timeout _ _ _ _)].
  - intros k to Hne. rewrite (Hm k to). split; intros (b & Hb & Hkb); exists b; (split; [|done]).
    + rewrite Hp. rewrite decide_False; [done|]. intros ->. congruence.
    + rewrite Hp in Hb. by case_decide.
  - intros to b. rewrite Hp. case_decide as Heq; [done|]. intros Hb Hkb. apply Heq.
    assert (m !! key a = Some to) by (apply Hm; exists b; split; [done|congruence]).
    assert (m !! key a = Some to0) by (apply Hm; eauto). congruence.
Qed.

Lemma poll_none_tracks now m t t' : tracks key m t → timer_poll now t = (t', None) → tracks key m t'.
Proof.
  intros Hm Hpoll k to. pose proof (pending_poll A now t) as H1. rewrite Hpoll in H1. cbn [fst snd] in H1.
  rewrite (Hm k to). by setoid_rewrite H1.
Qed.

Lemma tracks_once m t : tracks key m t → timer_once key t.
Proof.
  intros Hm to to' a a' Ha Ha' Hk. assert (m !! key a = Some to) by (apply Hm; eauto).
  assert (m !! key a = Some to') by (apply Hm; eauto). congruence.
Qed.
End tracks.

(** Exactly the keys of [P] are pending, each once. *)
Definition one_each {A} (P : A → Prop) (t : Timer A) : Prop :=
  timer_all P t ∧ timer_once id t ∧ ∀ a, P a → ∃ to, pending t to = Some a.

Lemma one_each_set {A} (P : A → Prop) now d a t :
  one_each P t → ¬ P a → one_each (λ b, b = a ∨ P b) (set_timeout now d a t).1.
Proof.
  intros (H1 & H2 & H3) Hn. destruct (pending_set A now d a t) as [Hf Hp]. split_and!.
  - intros to b. rewrite Hp. case_decide; [intros [= <-]; by left|]. intros Hb. right. by eapply H1.
  - intros to to' b b'. rewrite !Hp. repeat case_decide; subst; try done.
    + intros [= <-] Hb Heq. unfold id in Heq. subst. exfalso. by eapply Hn, H1.
    + intros Hb [= <-] Heq. unfold id in Heq. subst. exfalso. by eapply Hn, H1.
    + apply H2.
  - intros b [->|Hb].
    + exists (set_timeout now d a t).2. by rewrite Hp, decide_True.
    + destruct (H3 b Hb) as [to Hto]. exists to. rewrite Hp, decide_False; [done|]. intros ->. congruence.
Qed.

Lemma one_each_poll {A} (P : A → Prop) now t t' a :
  one_each P t → timer_poll now t = (t', Some a) → P a ∧ one_each (λ b, b ≠ a ∧ P b) t'.
Proof.
  intros (H1 & H2 & H3) Hpoll. pose proof (pending_poll A now t) as Hp. rewrite Hpoll in Hp. cbn [fst snd] in Hp.
  destruct Hp as (to0 & Ha & Hp). split; [by eapply H1|]. split_and!.
  - intros to b. rewrite Hp. case_decide as Hne; [done|]. intros Hb. split; [|by eapply H1].
    intros ->. by eapply Hne, (H2 to to0 a a).
  - intros to to' b b'. rewrite !Hp. repeat case_decide; try done. apply H2.
  - intros b [Hne Hb]. destruct (H3 b Hb) as [to Hto]. exists to. rewrite Hp, decide_False; [done|].
    intros ->. congruence.
Qed.

Lemma one_each_poll_none {A} (P : A → Prop) now t t' :
  one_each P t → timer_poll now t = (t', None) → one_each P t'.
Proof.
  intros (H1 & H2 & H3) Hpoll. pose proof (pending_poll A now t) as Hp. rewrite Hpoll in Hp. cbn [fst snd] in Hp.
  split_and!.
  - intros to b. rewrite Hp. apply H1.
  - intros to to' b b'. rewrite !Hp. apply H2.
  - intros b Hb. destruct (H3 b Hb) as [to Hto]. exists to. by rewrite Hp.
Qed.

Lemma one_each_ext {A} (P Q : A → Prop) t : (∀ a, P a ↔ Q a) → one_each P t → one_each Q t.
Proof.
  intros He (H1 & H2 & H3). split_and!; [|done|].
  - intros to a Ha. by eapply He, H1.
  - intros a Ha. by apply H3, He.
Qed.

Lemma one_each_default {A} (P : A → Prop) : (∀ a, ¬ P a) → one_each P timer_default.
Proof.
  intros Hn. split_and!.
  - apply timer_all_default.
  - intros to to' a a'. by rewrite pending_default.
  - intros a Ha. by destruct (Hn a).
Qed.
End pending.

(** ** A realisation

    The entries with the time they fire at, in nanoseconds; a timeout is a
    number not in use, and any entry that is due may fire. *)
Module TimerModel.
Definition fires {A} (now : Z) (e : nat * (Z * A)) : bool := bool_decide (e.2.1 ≤ now).
Definition due_slots {A} (now : Z) (q : gmap nat (Z * A)) : list (nat * (Z * A)) :=
  filter (λ e, fires now e = true) (map_to_list q).
Definition set {A} (now : Z) (d : CoreDuration) (a : A) (q : gmap nat (Z * A)) : gmap nat (Z * A) * nat :=
  let i := fresh (dom q) in (<[i := (now + Z.max 1 (core_nanos d), a)]> q, i).
Definition cancel {A} (i : nat) (q : gmap nat (Z * A)) : gmap nat (Z * A) * option A :=
  (delete i q, snd <$> q !! i).
Definition poll {A} (now : Z) (q : gmap nat (Z * A)) : gmap nat (Z * A) * option A :=
  match due_slots now q with
  | [] => (q, None)
  | (i, (_, a)) :: _ => (delete i q, Some a)
  end.

Lemma fresh_slot {A} (q : gmap nat (Z * A)) : q !! fresh (dom q) = None.
Proof. by apply (not_elem_of_dom_1 (D := gset nat)), is_fresh. Qed.

Lemma elem_of_due {A} now (q : gmap nat (Z * A)) i z a :
  (i, (z, a)) ∈ due_slots now q ↔ q !! i = Some (z, a) ∧ z ≤ now.
Proof.
  unfold due_slots, fires. rewrite list_elem_of_filter, elem_of_map_to_list, bool_decide_eq_true. simpl. tauto.
Qed.

Lemma due_slots_insert {A} now i z a (q : gmap nat (Z * A)) :
  q !! i = None → length (due_slots now (<[i := (z, a)]> q)) =
    ((if decide (z ≤ now)%Z then 1 else 0) + length (due_slots now q))%nat.
Proof.
  intros Hi. unfold due_slots. rewrite map_to_list_insert by done. rewrite filter_cons. unfold fires at 1. simpl.
  repeat case_decide; try done; exfalso; case_bool_decide; done.
Qed.

Section laws.
Context {A : Type}.
Implicit Types (q : gmap nat (Z * A)).
Definition entry q (i : nat) : option A := snd <$> q !! i.

Lemma set_spec now d a q :
  entry q (set now d a q).2 = None ∧
  ∀ i, entry (set now d a q).1 i = if decide (i = (set now d a q).2) then Some a else entry q i.
Proof.
  unfold set, entry. cbn [fst snd]. split; [by rewrite fresh_slot|].
  intros i. case_decide; [subst|]; by rewrite ?lookup_insert_eq, ?lookup_insert_ne by done.
Qed.

Lemma cancel_spec i q :
  (cancel i q).2 = entry q i ∧
  ∀ i', entry (cancel i q).1 i' = if decide (i' = i) then None else entry q i'.
Proof.
  unfold cancel, entry. cbn [fst snd]. split; [done|].
  intros i'. case_decide; [subst|]; by rewrite ?lookup_delete_eq, ?lookup_delete_ne by done.
Qed.

Lemma poll_spec now q :
  match (poll now q).2 with
  | None => ∀ i, entry (poll now q).1 i = entry q i
  | Some a => ∃ i, entry q i = Some a ∧
      ∀ i', entry (poll now q).1 i' = if decide (i' = i) then None else entry q i'
  end.
Proof.
  unfold poll. destruct (due_slots now q) as [|[i [z a]] l] eqn:E; [done|]. cbn [fst snd].
  assert (Hin : (i, (z, a)) ∈ due_slots now q) by (rewrite E; left). apply elem_of_due in Hin as [Hi _].
  exists i. unfold entry. split; [by rewrite Hi|]. apply (cancel_spec i q).
Qed.

Lemma set_due now d a q : length (due_slots now (set now d a q).1) = length (due_slots now q).
Proof.
  unfold set. cbn [fst]. rewrite due_slots_insert by apply fresh_slot. by rewrite decide_False by lia.
Qed.

Lemma poll_due now q :
  match (poll now q).2 with
  | None => length (due_slots now q) = 0%nat ∧ length (due_slots now (poll now q).1) = 0%nat
  | Some _ => length (due_slots now q) = S (length (due_slots now (poll now q).1))
  end.
Proof.
  unfold poll. destruct (due_slots now q) as [|[i [z a]] l] eqn:E; cbn [fst snd]; [by rewrite E|].
  assert (Hin : (i, (z, a)) ∈ due_slots now q) by (rewrite E; left). apply elem_of_due in Hin as [Hi Hz].
  pose proof (due_slots_insert now i z a (delete i q)) as Hl.
  rewrite insert_delete_id, E, decide_True in Hl by done. apply Hl, lookup_delete_eq.
Qed.
End laws.

#[export] Instance lib : TimerLib := {
  Timer A := gmap nat (Z * A); Timeout := nat; Instant := Z;
  timer_default A := ∅; set_timeout := @set; cancel_timeout := @cancel; timer_poll := @poll;
}.

#[export] Instance laws : TimerLaws lib := {
  pending A := entry;
  due A now q := length (due_slots now q);
  pending_default A to := eq_refl;
  pending_set A := set_spec;
  pending_cancel A := cancel_spec;
  pending_poll A := poll_spec;
  due_set A := set_due;
  due_poll A := poll_due;
}.
End TimerModel.
