(* ===== verification/Tokens.v ===== *)
(** * Ports and poll tokens

    src/src/network/net_util.rs: the ports of a participant, in [u16]
    arithmetic.  src/src/dds/tokens.rs: what a poll token stands for.  A
    [Token] is its number. *)
From stdpp Require Import base tactics numbers list gmap.
From S2P Require Import Prelude Ordered Ids.

(** ** Ports *)

Definition PB : Z := 7400.
Definition DG : Z := 250.
Definition PG : Z := 2.
Definition D0 : Z := 0.
Definition D1 : Z := 10.
Definition D2 : Z := 1.
Definition D3 : Z := 11.

Definition spdp_multicast_port (domain_id : Z) : Z :=
  as_u16 (as_u16 (PB + as_u16 (DG * domain_id)) + D0).
Definition spdp_unicast_port (domain_id participant_id : Z) : Z :=
  as_u16 (as_u16 (as_u16 (PB + as_u16 (DG * domain_id)) + D1) + as_u16 (PG * participant_id)).
Definition usertraffic_multicast_port (domain_id : Z) : Z :=
  as_u16 (as_u16 (PB + as_u16 (DG * domain_id)) + D2).
Definition usertraffic_unicast_port (domain_id participant_id : Z) : Z :=
  as_u16 (as_u16 (as_u16 (PB + as_u16 (DG * domain_id)) + D3) + as_u16 (PG * participant_id)).

(** ** Tokens *)

Inductive TokenDec := ReservedToken (token : Z) | EntityToken (e : EntityId).

Definition token_decode (token : Z) : TokenDec :=
  if bool_decide (0x40 ≤ token) && bool_decide (token < 0x60) then ReservedToken token
  else EntityToken (eid_from_usize token).

Module Token.
Definition PTB : Z := 0x40.
Definition ADD_WRITER := PTB + 0x1.
Definition ADD_READER := PTB + 0x3.
Definition DISCOVERY_UNI := PTB + 0x5.
Definition DISCOVERY_MULTI := PTB + 0x6.
Definition SPDP_SEND_TIMER := PTB + 0x8.
Definition USERTRAFFIC_UNI := PTB + 0x9.
Definition USERTRAFFIC_MULTI := PTB + 0xA.
Definition DISCOVERY_DB_UPDATE := PTB + 0xB.
Definition WRITER_HEARTBEAT_TIMER := PTB + 0xF.
Definition READER_HEARTBEAT_TIMER := PTB + 0x11.
Definition DISC_WRITER_ADD := PTB + 0x12.
Definition DISC_READER_ADD := PTB + 0x13.
Definition WRITER_NACK_TIMER := PTB + 0x15.
Definition PARTICIPANT_MESSAGE_READER := PTB + 0x16.
Definition WRITER_LIVELINESS_CHECK_TIMER := PTB + 0x17.
Definition ASSERT_AUTOMATIC_LIVELINESS_TIMER := PTB + 0x18.
Definition SET_WLP_TIMER := PTB + 0x19.
Definition PARTICIPANT_LIVELINESS_TIMER := PTB + 0x1A.
Definition PARTICIPANT_MESSAGE_CMD_RECEIVER := PTB + 0x1B.
Definition CHECK_MANUAL_LIVELINESS_TIMER := PTB + 0x1C.
Definition WRITER_DEADLINE_TIMER := PTB + 0x1D.
Definition READER_DEADLINE_TIMER := PTB + 0x1E.
Definition READER_LIFESPAN_TIMER := PTB + 0x1F.
End Token.

(** ** Entity keys

    [DomainParticipant::gen_entity_key]: the low three octets of a counter
    of 32 bits, which starts at [FIRST_ENTITY_KEY]. *)
Definition FIRST_ENTITY_KEY : Z := 0x0300.
Definition key_octets (n : Z) : Z * Z * Z :=
  (Z.land (Z.shiftr n 16) 0xff, Z.land (Z.shiftr n 8) 0xff, Z.land n 0xff).
Definition gen_entity_key (generator : Z) : Z * (Z * Z * Z) :=
  (as_u32 (generator + 1), key_octets generator).

(** The entity keys that the specification reserves for built-in endpoints
    have at most the number [0x200]. *)
Definition key_number (k : Z * Z * Z) : Z := let '(a, b, c) := k in a * 2 ^ 16 + b * 2 ^ 8 + c.

(** ** Theorems *)

(** The sockets of a participant, as [DomainParticipantInner::new] opens them. *)
Inductive Socket := SpdpMulticast | UserMulticast | SpdpUnicast (p : Z) | UserUnicast (p : Z).
Definition socket_port (d : Z) (s : Socket) : Z :=
  match s with
  | SpdpMulticast => spdp_multicast_port d
  | UserMulticast => usertraffic_multicast_port d
  | SpdpUnicast p => spdp_unicast_port d p
  | UserUnicast p => usertraffic_unicast_port d p
  end.
Definition socket_ok (s : Socket) : Prop :=
  match s with SpdpUnicast p | UserUnicast p => 0 ≤ p < 120 | _ => True end.
(** The last domain whose ports all fit in 16 bits. *)
Definition LAST_DOMAIN : Z := 231.

Lemma socket_port_value d s :
  0 ≤ d ≤ LAST_DOMAIN → socket_ok s →
  socket_port d s = 7400 + 250 * d +
    match s with SpdpMulticast => 0 | UserMulticast => 1 | SpdpUnicast p => 10 + 2 * p | UserUnicast p => 11 + 2 * p end.
Proof.
  unfold LAST_DOMAIN, socket_port, spdp_multicast_port, usertraffic_multicast_port, spdp_unicast_port,
    usertraffic_unicast_port, PB, DG, PG, D0, D1, D2, D3.
  intros Hd Hs. destruct s; simpl in Hs; wrap_small; lia.
Qed.

(** The port mapping is collision free: in the domains up to 231, for the
    participant ids below 120 that the search loop tries, two sockets have
    the same port only if they are the same socket of the same domain, and no
    port wraps around. *)
Theorem ports_injective d d' s s' :
  0 ≤ d ≤ LAST_DOMAIN → 0 ≤ d' ≤ LAST_DOMAIN → socket_ok s → socket_ok s' →
  7400 ≤ socket_port d s < 2 ^ 16 ∧ (socket_port d s = socket_port d' s' → d = d' ∧ s = s').
Proof.
  intros Hd Hd' Hs Hs'. rewrite !socket_port_value by done. unfold LAST_DOMAIN in *. split.
  - destruct s; simpl in Hs; lia.
  - intros He. assert (d = d') as <- by (destruct s, s'; simpl in *; lia). split; [done|].
    destruct s, s'; simpl in *; f_equal; lia.
Qed.

Lemma ports_injective_witness :
  7400 ≤ socket_port LAST_DOMAIN (UserUnicast 119) < 2 ^ 16 ∧
  (socket_port LAST_DOMAIN (UserUnicast 119) = socket_port LAST_DOMAIN (SpdpUnicast 119) →
   LAST_DOMAIN = LAST_DOMAIN ∧ UserUnicast 119 = SpdpUnicast 119).
Proof. apply ports_injective; unfold LAST_DOMAIN; simpl; lia. Defined.

(** One domain further the ports wrap around, below the base. *)
Example domain_232_wraps : usertraffic_unicast_port 232 119 = 113.
Proof. reflexivity. Qed.

Lemma key_octets_range n : 0 ≤ n → let '(a, b, c) := key_octets n in octet a ∧ octet b ∧ octet c.
Proof.
  intros Hn. unfold key_octets, octet. change 0xff with (Z.ones 8). rewrite !Z.land_ones by lia.
  pose proof (Z.mod_pos_bound (Z.shiftr n 16) (2 ^ 8)). pose proof (Z.mod_pos_bound (Z.shiftr n 8) (2 ^ 8)).
  pose proof (Z.mod_pos_bound n (2 ^ 8)). lia.
Qed.

Lemma key_octets_number n : 0 ≤ n → key_number (key_octets n) = n mod 2 ^ 24.
Proof.
  intros Hn. unfold key_octets, key_number. change 0xff with (Z.ones 8).
  rewrite !Z.land_ones, !Z.shiftr_div_pow2 by lia.
  change (2 ^ 24) with (2 ^ 8 * (2 ^ 8 * 2 ^ 8)). rewrite !Z.rem_mul_r by lia.
  change (2 ^ 16) with (2 ^ 8 * 2 ^ 8). rewrite Z.div_div by lia. lia.
Qed.

(** The keys that a participant hands out, in order. *)
Fixpoint gen_entity_keys (n : nat) (generator : Z) : list (Z * Z * Z) :=
  match n with
  | O => []
  | S n => let '(g, k) := gen_entity_key generator in k :: gen_entity_keys n g
  end.

Lemma gen_entity_keys_lookup (n : nat) g (i : nat) k :
  0 ≤ g → g + n ≤ 2 ^ 32 → gen_entity_keys n g !! i = Some k → k = key_octets (g + i) ∧ (i < n)%nat.
Proof.
  revert g i. induction n as [|n IH]; intros g i Hg Hn; [done|]. cbn [gen_entity_keys gen_entity_key].
  destruct i as [|i]; simpl.
  - intros [= <-]. split; [|lia]. by rewrite Z.add_0_r.
  - destruct (decide (n = 0)%nat) as [->|Hn0]; [done|].
    rewrite (wrap_u_small 32) by (unfold in_u; lia). intros Hk. apply IH in Hk as [-> ?]; [|lia..].
    split; [|lia]. f_equal. lia.
Qed.

(** The first 2^24 - 0x300 entities of a participant have different
    keys, none of which is the key of a built-in endpoint, so that together
    with its kind a key names one entity. *)
Theorem entity_keys_unique (n i j : nat) ki kj :
  n + FIRST_ENTITY_KEY ≤ 2 ^ 24 →
  gen_entity_keys n FIRST_ENTITY_KEY !! i = Some ki → gen_entity_keys n FIRST_ENTITY_KEY !! j = Some kj →
  (ki = kj → i = j) ∧ 0x0201 < key_number ki.
Proof.
  unfold FIRST_ENTITY_KEY. intros Hn Hi Hj.
  apply gen_entity_keys_lookup in Hi as [-> Hi]; [|lia..]. apply gen_entity_keys_lookup in Hj as [-> Hj]; [|lia..].
  rewrite key_octets_number, Z.mod_small by lia. split; [|lia].
  intros He. apply (f_equal key_number) in He. rewrite !key_octets_number, !Z.mod_small in He by lia. lia.
Qed.

Lemma entity_keys_unique_witness :
  ((0, 3, 0) = (0, 3, 1) → 0%nat = 1%nat) ∧ 0x0201 < key_number (0, 3, 0).
Proof. apply (entity_keys_unique 2 0 1 (0, 3, 0) (0, 3, 1)); [unfold FIRST_ENTITY_KEY; lia|reflexivity..]. Defined.

(** An endpoint's token is never taken for one of the loop's own, and is
    decoded to the endpoint. *)
Theorem endpoint_token_decoded e :
  eid_wf e → entity_key e ≠ (0, 0, 0) → token_decode (eid_as_usize e) = EntityToken e.
Proof.
  intros Hwf Hk. pose proof (eid_from_as_usize e Hwf) as He. unfold token_decode.
  destruct (_ && _) eqn:Hb; [|by rewrite He]. exfalso. apply Hk. rewrite <-He.
  apply andb_true_iff in Hb as [H1%bool_decide_eq_true H2%bool_decide_eq_true].
  generalize dependent (eid_as_usize e). intros n _ H1 H2.
  assert (Hn : n ∈ seqZ 0x40 0x20) by (apply elem_of_seqZ; lia). vm_compute in Hn.
  repeat (apply elem_of_cons in Hn as [->|Hn]; [reflexivity|]). by apply elem_of_nil in Hn.
Qed.
