(* ===== verification/EventLoop.v ===== *)
(** * The event loop

    src/src/dds/event_loop.rs: the thread that owns the endpoints.  Its state
    adds to the [World] of the receiver the timers with the timeouts they are
    remembered by, and the channel on which the receiver asks for a liveliness
    timer.  A handler is a function from the state to a panic or a new state,
    the events emitted in order and a result.  A [while let Some(..) =
    timer.poll()] loop is [while_let]: it has fuel for the polls, and says
    whether it came to its end.  Waiting for events, sockets and channels
    are left out: what a socket or a channel delivers is an argument. *)
From stdpp Require Import base tactics numbers list gmap strings.
From coqutil Require Import Datatypes.RecordSetters.
From S2P Require Import Prelude Ordered Ids Time SeqNum Qos HistoryCache Topic Message Proxy Writer.
From S2P Require Import DiscoveryData DiscoveryDB Reader Speedy Wire ParameterList Receiver Timer Tokens.
Import OCamlLikeNotations.

Definition ASSERT_LIVELINESS_PERIOD : Z := 10.

(** What a new endpoint is announced with goes to the discovery thread. *)
Inductive LoopEvent :=
| OfWorld (ev : Event)
| NotifyNewWriter (e : EntityId) (d : WriterProxy * PublicationBuiltinTopicData)
| NotifyNewReader (e : EntityId) (d : ReaderProxy * SubscriptionBuiltinTopicData).

(** A writer as it comes over the channel: its configuration and the cache
    that it shares with its DataWriter ([WriterIngredients]). *)
Record WriterIngredients := mkWriterIngredients { wi_conf : WriterConf; wi_whc : HistoryCache }.
Record ReaderIngredients := mkReaderIngredients { ri_conf : ReaderConf; ri_rhc : HistoryCache }.

(** [Writer::sedp_data]. *)
Definition writer_sedp_data (w : Writer) : outcome (WriterProxy * PublicationBuiltinTopicData) :=
  proxy ← wp_new (wguid w)
    (mkLocators (w_unicast_locator_list (conf w)) (w_multicast_locator_list (conf w)) [] [])
    (w_data_max_size_serialized (conf w)) (wqos w);
  Done (proxy, pub_builtin_topic_data (w_topic (conf w))).

Section event_loop.
Context {TL : TimerLib} `{Speedy}.

Record EventLoop := mkEventLoop {
  el_domain_id : Z;
  el_guid_prefix : GuidPrefix;
  world : World;
  writer_hb_timer : Timer EntityId;
  reader_hb_timer : Timer (EntityId * GUID);
  reader_deadline_timer : Timer ((EntityId * GUID) * CoreDuration);
  reader_deadline_timeout : gmap (EntityId * GUID) Timeout;
  reader_lifespan_timer : Timer (EntityId * HCKey);
  writer_nack_timer : Timer (EntityId * GUID);
  writer_deadline_timer : Timer (EntityId * CoreDuration);
  writer_deadline_timeout : gmap EntityId Timeout;
  wlp_queue : list EntityId;
  wlp_timer : Timer EntityId;
  wlp_timeouts : gmap EntityId Timeout;
  assert_liveliness_timer : Timer unit;
  check_liveliness_timer : Timer (list GUID);
  check_liveliness_timer_to : option (CoreDuration * Timeout);
}.

(** The readings of the clocks in one round of a handler. *)
Record Readings := mkReadings {
  at_poll : Instant;
  at_set : Instant;
  clock : option Timestamp;
  clock_of_writer : EntityId → option Timestamp;
  clock_of_update : EntityId → option Timestamp;
  clock_of_remote : GUID → option Timestamp;
  clock_of_msg : Z → nat → option Timestamp;
}.

(** ** The monad *)

Definition lp (A : Type) : Type := EventLoop → outcome (EventLoop * list LoopEvent * A).
#[global] Instance lp_ret : MRet lp := λ A a L, Done (L, [], a).
#[global] Instance lp_bind : MBind lp := λ A B f m L,
  match m L with
  | Done (L1, evs, a) =>
      match f a L1 with
      | Done (L2, evs', b) => Done (L2, evs ++ evs', b)
      | Panic => Panic
      end
  | Panic => Panic
  end.

Definition lget {A} (f : EventLoop → A) : lp A := λ L, Done (L, [], f L).
Definition lset (f : EventLoop → EventLoop) : lp unit := λ L, Done (f L, [], tt).
Definition ltell (ev : LoopEvent) : lp unit := λ L, Done (L, [ev], tt).
Definition ldo {A} (m : outcome A) : lp A := λ L,
  match m with Done a => Done (L, [], a) | Panic => Panic end.

Fixpoint lfor {A} (l : list A) (body : nat → A → lp unit) : lp unit :=
  match l with
  | [] => mret tt
  | x :: l => _ ← body 0%nat x; lfor l (body ∘ S)
  end.

Definition wlp_reader (ev : Event) : option EntityId :=
  match ev with WlpTimer r => Some r | _ => None end.

(** A part of the receiver's code; what it asks for on the channel is queued. *)
Definition in_world {A} (m : rcv A) : lp (option A) := λ L,
  match m (world L) with
  | Done (W, evs, r) =>
      Done ({ L with world := W; wlp_queue := wlp_queue L ++ omap wlp_reader evs },
            OfWorld <$> evs, match r with inr a => Some a | inl _ => None end)
  | Panic => Panic
  end.
Definition on_reader {A} (e : EntityId) (f : Reader → outcome (Reader * list ReaderEvent * A))
    : lp (option A) := o ← in_world (with_reader e f); mret (mjoin o).
Definition on_writer {A} (e : EntityId) (f : Writer → outcome (Writer * list WriterEvent * A))
    : lp (option A) := o ← in_world (with_writer e f); mret (mjoin o).
Definition on_db (f : DiscoveryDB → DiscoveryDB) : lp unit :=
  lset (λ L, { L with world := set_disc_db f (world L) }).

(** ** Setting timers *)

Definition set_reader_timer (c : Readings) (t : ReaderTimer) : lp unit :=
  match t with
  | TimerHeartbeat e g =>
      o ← lget (λ L, readers (world L) !! e);
      match o with
      | Some r =>
          d ← ldo (heartbeat_response_delay r);
          lset (λ L, { L with reader_hb_timer := (set_timeout (at_set c) d (e, g) (reader_hb_timer L)).1 })
      | None => mret tt
      end
  | TimerReaderDeadline e g d =>
      lset (λ L,
        let '(m, t) := reset_timeout fst (at_set c) d (e, g, d)
                         (reader_deadline_timeout L, reader_deadline_timer L) in
        { L with reader_deadline_timeout := m; reader_deadline_timer := t })
  | TimerLifespan e k ts d =>
      now ← ldo (unwrap (clock c));
      d ← ldo (Ts.sub (Ts.add ts d) now);
      lset (λ L, { L with reader_lifespan_timer := (set_timeout (at_set c) d (e, k) (reader_lifespan_timer L)).1 })
  end.
Definition handle_set_reader_timer (c : nat → Readings) (l : list ReaderTimer) : lp unit :=
  lfor l (λ i, set_reader_timer (c i)).

Definition set_writer_timer (c : Readings) (t : WriterTimer) : lp unit :=
  match t with
  | TimerNack e g =>
      o ← lget (λ L, writers (world L) !! e);
      match o with
      | Some w =>
          d ← ldo (nack_response_delay w);
          lset (λ L, { L with writer_nack_timer := (set_timeout (at_set c) d (e, g) (writer_nack_timer L)).1 })
      | None => mret tt
      end
  | TimerDeadline e d =>
      lset (λ L,
        let '(m, t) := reset_timeout fst (at_set c) d (e, d)
                         (writer_deadline_timeout L, writer_deadline_timer L) in
        { L with writer_deadline_timeout := m; writer_deadline_timer := t })
  end.
Definition handle_set_writer_timer (c : nat → Readings) (l : list WriterTimer) : lp unit :=
  lfor l (λ i, set_writer_timer (c i)).

(** ** Timers that fire *)

(** [while let Some(a) = poll() { body }]. *)
Fixpoint while_let {A} (fuel : nat) (poll : Readings → lp (option A)) (body : Readings → A → lp unit)
    (c : nat → Readings) : lp bool :=
  match fuel with
  | O => mret false
  | S fuel =>
      o ← poll (c 0%nat);
      match o with
      | Some a => _ ← body (c 0%nat) a; while_let fuel poll body (c ∘ S)
      | None => mret true
      end
  end.

(** WRITER_HEARTBEAT_TIMER *)
Definition poll_writer_hb (c : Readings) : lp (option EntityId) := λ L,
  let '(t, o) := timer_poll (at_poll c) (writer_hb_timer L) in Done ({ L with writer_hb_timer := t }, [], o).
Definition writer_hb_fired (c : Readings) (e : EntityId) : lp unit :=
  o ← on_writer e (λ w, let '(w, evs) := send_heart_beat (clock c) false w in Done (w, evs, w));
  match o with
  | Some w =>
      d ← ldo (heartbeat_period w);
      lset (λ L, { L with writer_hb_timer :=
        (set_timeout (at_set c) d (entity_id (wguid w)) (writer_hb_timer L)).1 })
  | None => mret tt
  end.

(** READER_DEADLINE_TIMER *)
Definition poll_reader_deadline (c : Readings) : lp (option ((EntityId * GUID) * CoreDuration)) := λ L,
  let '(t, o) := timer_poll (at_poll c) (reader_deadline_timer L) in
  Done ({ L with reader_deadline_timer := t }, [], o).
Definition reader_deadline_fired (c : Readings) (a : (EntityId * GUID) * CoreDuration) : lp unit :=
  o ← on_reader a.1.1 (λ r, Done (r, notify_reqested_deadline_missed a.1.2, tt));
  match o with
  | Some _ =>
      lset (λ L,
        let '(t, to) := set_timeout (at_set c) a.2 a (reader_deadline_timer L) in
        { L with reader_deadline_timer := t;
                 reader_deadline_timeout := <[a.1 := to]> (reader_deadline_timeout L) })
  | None => ldo Panic
  end.

(** READER_LIFESPAN_TIMER *)
Definition poll_reader_lifespan (c : Readings) : lp (option (EntityId * HCKey)) := λ L,
  let '(t, o) := timer_poll (at_poll c) (reader_lifespan_timer L) in
  Done ({ L with reader_lifespan_timer := t }, [], o).
Definition reader_lifespan_fired (c : Readings) (a : EntityId * HCKey) : lp unit :=
  o ← on_reader a.1 (λ r, Done (reader_remove_change_if_exist a.2 r, [], tt));
  match o with Some _ => mret tt | None => ldo Panic end.

(** WRITER_DEADLINE_TIMER *)
Definition poll_writer_deadline (c : Readings) : lp (option (EntityId * CoreDuration)) := λ L,
  let '(t, o) := timer_poll (at_poll c) (writer_deadline_timer L) in
  Done ({ L with writer_deadline_timer := t }, [], o).
Definition writer_deadline_fired (c : Readings) (a : EntityId * CoreDuration) : lp unit :=
  o ← on_writer a.1 (λ w, Done (w, notify_offered_deadline_missed w, tt));
  match o with
  | Some _ =>
      lset (λ L,
        let '(t, to) := set_timeout (at_set c) a.2 a (writer_deadline_timer L) in
        { L with writer_deadline_timer := t;
                 writer_deadline_timeout := <[a.1 := to]> (writer_deadline_timeout L) })
  | None => ldo Panic
  end.

(** [reader.check_liveliness(&mut self.discovery_db)]. *)
Definition check_remote_liveliness (c : Readings) (e : EntityId) : lp unit :=
  db ← lget (λ L, disc_db (world L));
  o ← on_reader e (λ r,
    match check_liveliness (clock_of_remote c) db r with
    | Done (db, r, evs) => Done (r, evs, db)
    | Panic => Panic
    end);
  match o with Some db => on_db (λ _, db) | None => mret tt end.

(** WRITER_LIVELINESS_CHECK_TIMER *)
Definition poll_wlp (c : Readings) : lp (option EntityId) := λ L,
  let '(t, o) := timer_poll (at_poll c) (wlp_timer L) in Done ({ L with wlp_timer := t }, [], o).
Definition wlp_fired (c : Readings) (e : EntityId) : lp unit :=
  o ← lget (λ L, readers (world L) !! e);
  match o with
  | Some r =>
      _ ← check_remote_liveliness c e;
      o ← lget (λ L, readers (world L) !! e);
      d ← ldo (get_min_remote_writer_lease_duration (default r o));
      lset (λ L,
        let '(t, to) := set_timeout (at_set c) d (entity_id (rguid r)) (wlp_timer L) in
        { L with wlp_timer := t; wlp_timeouts := <[entity_id (rguid r) := to]> (wlp_timeouts L) })
  | None => mret tt
  end.

(** SET_WLP_TIMER: one message of the channel. *)
Definition set_wlp_timer (c : Readings) (e : EntityId) : lp unit :=
  o ← lget (λ L, readers (world L) !! e);
  match o with
  | Some r =>
      d ← ldo (get_min_remote_writer_lease_duration r);
      to ← lget (λ L, wlp_timeouts L !! entity_id (rguid r));
      _ ← (match to with
           | Some to =>
               _ ← lset (λ L, { L with wlp_timer := (cancel_timeout to (wlp_timer L)).1 });
               check_remote_liveliness c e
           | None => mret tt
           end);
      lset (λ L,
        let '(t, to) := set_timeout (at_set c) d (entity_id (rguid r)) (wlp_timer L) in
        { L with wlp_timer := t; wlp_timeouts := <[entity_id (rguid r) := to]> (wlp_timeouts L) })
  | None => mret tt
  end.
Definition recv_wlp (c : Readings) : lp (option EntityId) := λ L,
  match wlp_queue L with
  | [] => Done (L, [], None)
  | e :: q => Done ({ L with wlp_queue := q }, [], Some e)
  end.

(** ASSERT_AUTOMATIC_LIVELINESS_TIMER: one writer of the loop. *)
Definition assert_automatic_one (c : Readings) (now : Timestamp) (e : EntityId) : lp unit :=
  o ← lget (λ L, writers (world L) !! e);
  match o with
  | None => mret tt
  | Some w =>
      st ← lget (λ L, read_local_writer (wguid w) (disc_db (world L)));
      match st with
      | Live ts =>
          duration ← ldo (Ts.sub now ts);
          let l := (w_liveliness (wqos w)).1 in
          if negb (bool_decide (liveliness_kind l = Automatic)) then mret tt
          else if bool_decide (lease_duration l = Dur.INFINITE) then mret tt
          else
            half ← ldo (Dur.to_core (Dur.half (lease_duration l)));
            if bool_decide (ord_lt half duration) then
              _ ← on_writer e (λ w,
                    match assert_liveliness (clock_of_writer c e) w with
                    | Done (w, evs) => Done (w, evs, tt)
                    | Panic => Panic
                    end);
              now ← ldo (unwrap (clock_of_update c e));
              on_db (write_local_writer (wguid w) now (liveliness_kind l))
            else mret tt
      | _ => mret tt
      end
  end.
Definition assert_automatic_liveliness (c : Readings) : lp unit :=
  _ ← lset (λ L, { L with assert_liveliness_timer := (timer_poll (at_poll c) (assert_liveliness_timer L)).1 });
  let now := default Ts.TIME_INVALID (clock c) in
  l ← lget (λ L, bt_keys (writers (world L)));
  _ ← lfor l (λ _, assert_automatic_one c now);
  d ← ldo (core_duration_new ASSERT_LIVELINESS_PERIOD 0);
  lset (λ L, { L with assert_liveliness_timer := (set_timeout (at_set c) d tt (assert_liveliness_timer L)).1 }).

(** CHECK_MANUAL_LIVELINESS_TIMER *)
Definition poll_check_liveliness (c : Readings) : lp (option (list GUID)) := λ L,
  let '(t, o) := timer_poll (at_poll c) (check_liveliness_timer L) in
  Done ({ L with check_liveliness_timer := t }, [], o).
Definition check_local_liveliness (c : Readings) (g : GUID) : lp unit :=
  _ ← on_writer (entity_id g) (λ w,
        match writer_check_liveliness (clock_of_writer c (entity_id g)) w with
        | Done (w, evs) => Done (w, evs, tt)
        | Panic => Panic
        end);
  mret tt.
Definition check_liveliness_fired (c : Readings) (wgs : list GUID) : lp unit :=
  _ ← lfor wgs (λ _, check_local_liveliness c);
  to ← lget check_liveliness_timer_to;
  d ← ldo (unwrap (fst <$> to));
  lset (λ L,
    let '(t, to) := set_timeout (at_set c) d wgs (check_liveliness_timer L) in
    { L with check_liveliness_timer := t; check_liveliness_timer_to := Some (d, to) }).

(** READER_HEARTBEAT_TIMER *)
Definition poll_reader_hb (c : Readings) : lp (option (EntityId * GUID)) := λ L,
  let '(t, o) := timer_poll (at_poll c) (reader_hb_timer L) in Done ({ L with reader_hb_timer := t }, [], o).
Definition reader_hb_fired (c : Readings) (a : EntityId * GUID) : lp unit :=
  _ ← on_reader a.1 (λ r, '(r, evs) ← handle_hb_response_timeout a.2 r; Done (r, evs, tt)); mret tt.

(** WRITER_NACK_TIMER *)
Definition poll_writer_nack (c : Readings) : lp (option (EntityId * GUID)) := λ L,
  let '(t, o) := timer_poll (at_poll c) (writer_nack_timer L) in Done ({ L with writer_nack_timer := t }, [], o).
Definition writer_nack_fired (c : Readings) (a : EntityId * GUID) : lp unit :=
  _ ← on_writer a.1 (λ w, '(w, evs) ← handle_nack_response_timeout (clock_of_msg c) a.2 w; Done (w, evs, tt)); mret tt.

(** ** Registration *)

(** One more writer for the timer that checks the local writers of a manual
    kind. *)
Definition watch_writer (c : Readings) (w : Writer) : lp unit :=
  let ld := lease_duration (w_liveliness (wqos w)).1 in
  to ← lget check_liveliness_timer_to;
  match to with
  | Some (d, to) =>
      t ← lget (λ L, cancel_timeout to (check_liveliness_timer L));
      match t.2 with
      | Some wgs =>
          half ← ldo (Dur.to_core (Dur.half ld));
          let d := if bool_decide (ord_lt half d) then half else d in
          let '(t, to) := set_timeout (at_set c) d (wgs ++ [wguid w]) t.1 in
          lset (λ L, { L with check_liveliness_timer := t; check_liveliness_timer_to := Some (d, to) })
      | None => lset (λ L, { L with check_liveliness_timer := t.1 })
      end
  | None =>
      d ← ldo (Dur.to_core (Dur.half ld));
      lset (λ L,
        let '(t, to) := set_timeout (at_set c) d [wguid w] (check_liveliness_timer L) in
        { L with check_liveliness_timer := t; check_liveliness_timer_to := Some (d, to) })
  end.
Definition watch_manual_liveliness (c : Readings) (w : Writer) : lp unit :=
  match liveliness_kind (w_liveliness (wqos w)).1 with
  | Automatic => mret tt
  | ManualByTopic | ManualByParticipant =>
      if bool_decide (lease_duration (w_liveliness (wqos w)).1 = Dur.INFINITE) then mret tt
      else watch_writer c w
  end.

(** The multicast group of SPDP as a matched reader of the announcer. *)
Definition spdp_reader_qos : DataReaderQosPolicies :=
  DataReaderQosBuilder_build { DataReaderQosBuilder_new with rb_reliability := Some default_besteffort }.
Definition match_spdp_group (w : Writer) : lp Writer :=
  if bool_decide (entity_id (wguid w) = Eid.SPDP_BUILTIN_PARTICIPANT_ANNOUNCER) then
    domain ← lget el_domain_id;
    '(w, evs) ← ldo (matched_reader_add GUID_UNKNOW false []
        [Loc.new_from_ipv4 (spdp_multicast_port domain) [239; 255; 0; 1]] spdp_reader_qos w);
    _ ← lfor evs (λ _ ev, ltell (OfWorld (OfWriter (entity_id (wguid w)) ev)));
    mret w
  else mret w.

Definition builtin_writers : list EntityId :=
  [Eid.SPDP_BUILTIN_PARTICIPANT_ANNOUNCER; Eid.SEDP_BUILTIN_PUBLICATIONS_ANNOUNCER;
   Eid.SEDP_BUILTIN_SUBSCRIPTIONS_ANNOUNCER; Eid.P2P_BUILTIN_PARTICIPANT_MESSAGE_WRITER].
Definition builtin_readers : list EntityId :=
  [Eid.SPDP_BUILTIN_PARTICIPANT_DETECTOR; Eid.SEDP_BUILTIN_PUBLICATIONS_DETECTOR;
   Eid.SEDP_BUILTIN_SUBSCRIPTIONS_DETECTOR; Eid.P2P_BUILTIN_PARTICIPANT_MESSAGE_READER].

Definition register_writer (c : Readings) (wi : WriterIngredients) : lp unit :=
  '(w, wt) ← ldo (writer_new (wi_conf wi) (wi_whc wi) (clock c));
  _ ← (match wt with Some t => handle_set_writer_timer (λ _, c) [t] | None => mret tt end);
  w ← match_spdp_group w;
  let e := entity_id (wguid w) in
  _ ← (if is_reliable w then
         d ← ldo (heartbeat_period w);
         lset (λ L, { L with writer_hb_timer := (set_timeout (at_set c) d e (writer_hb_timer L)).1 })
       else mret tt);
  _ ← watch_manual_liveliness c w;
  _ ← (if bool_decide (e ∈ builtin_writers) then mret tt
       else d ← ldo (writer_sedp_data w); ltell (NotifyNewWriter e d));
  now ← ldo (unwrap (clock_of_update c e));
  _ ← on_db (write_local_writer (wguid w) now (liveliness_kind (w_liveliness (wqos w)).1));
  lset (λ L, { L with world := set_writers <[e := w]> (world L) }).

Definition register_reader (ri : ReaderIngredients) : lp unit :=
  let r := reader_new (ri_conf ri) (ri_rhc ri) in
  let e := entity_id (rguid r) in
  _ ← (if bool_decide (e ∈ builtin_readers) then mret tt
       else d ← ldo (reader_sedp_data r); ltell (NotifyNewReader e d));
  lset (λ L, { L with world := set_readers <[e := r]> (world L) }).

(** ** Packets, commands, lost participants *)

(** DISCOVERY_* and USERTRAFFIC_* tokens: the packets of a socket. *)
Definition handle_packets_of_socket (native : Endianness) (clk : nat → nat → Clock) (c : nat → Readings)
    (packets : list (list Z)) : lp unit :=
  o ← in_world (handle_packet native clk packets);
  match mjoin o with
  | Some rts => handle_set_reader_timer c rts
  | None => mret tt
  end.

(** The token of a writer: the commands of its DataWriter. *)
Definition handle_entity_token (c : Readings) (ct : nat → Readings) (now : nat → Z → nat → option Timestamp)
    (e : EntityId) (cmds : list WriterCmd) : lp unit :=
  if is_writer e then
    o ← lget (λ L, writers (world L) !! e);
    match o with
    | Some w =>
        p ← lget el_guid_prefix;
        t ← ldo (unwrap (clock c));
        _ ← on_db (write_local_writer (mkGUID p e) t (liveliness_kind (w_liveliness (wqos w)).1));
        wts ← on_writer e (handle_writer_cmd now cmds);
        match mjoin wts with
        | Some wts => handle_set_writer_timer ct wts
        | None => mret tt
        end
    | None => mret tt
    end
  else ldo Panic.

Definition remove_discoverd_participant (p : GuidPrefix) : lp unit :=
  lr ← lget (λ L, bt_keys (readers (world L)));
  _ ← lfor lr (λ _ e,
        _ ← on_reader e (λ r, let '(r, evs) := delete_writer_proxy p r in Done (r, evs, tt)); mret tt);
  lw ← lget (λ L, bt_keys (writers (world L)));
  lfor lw (λ _ e,
    _ ← on_writer e (λ w, let '(w, evs) := delete_reader_proxy p w in Done (w, evs, tt)); mret tt).

(** DISCOVERY_DB_UPDATE: the notifications of the discovery thread. *)
Definition handle_participant_discovery_updates (l : list GuidPrefix) : lp unit :=
  lfor l (λ _, remove_discoverd_participant).

(** ** Construction *)

Definition event_loop_init (domain : Z) (p : GuidPrefix) (db : DiscoveryDB) (spdp : SerializedPayload)
    (now : Instant) (d : CoreDuration) : EventLoop :=
  mkEventLoop domain p (mkWorld (receiver_new p domain spdp) ∅ ∅ db)
    timer_default timer_default timer_default ∅ timer_default timer_default timer_default ∅ []
    timer_default ∅ (set_timeout now d tt timer_default).1 timer_default None.

(** [BuiltinEndpointsIngredients], in the order of [register_builtin_endpoints]. *)
Inductive Ingredients := IngWriter (wi : WriterIngredients) | IngReader (ri : ReaderIngredients).
Definition register (c : Readings) (i : Ingredients) : lp unit :=
  match i with IngWriter wi => register_writer c wi | IngReader ri => register_reader ri end.
Definition register_builtin_endpoints (c : nat → Readings) (l : list Ingredients) : lp unit :=
  lfor l (λ i, register (c i)).

Definition event_loop_new (domain : Z) (p : GuidPrefix) (db : DiscoveryDB) (spdp : SerializedPayload)
    (now : Instant) (c : nat → Readings) (l : list Ingredients) : outcome (EventLoop * list LoopEvent) :=
  d ← core_duration_new ASSERT_LIVELINESS_PERIOD 0;
  match register_builtin_endpoints c l (event_loop_init domain p db spdp now d) with
  | Done (L, evs, _) => Done (L, evs)
  | Panic => Panic
  end.

(** ** One event of the loop

    What is ready when the poll returns: the token with what its socket or
    channel delivers. *)
Inductive Delivery :=
| Packets (l : list (list Z))
| NewWriters (l : list WriterIngredients)
| NewReaders (l : list ReaderIngredients)
| Lost (l : list GuidPrefix)
| Commands (l : list WriterCmd)
| Nothing.

Definition ended (m : lp bool) : lp unit := _ ← m; mret tt.

Definition handle_event (native : Endianness) (clk : nat → nat → Clock) (c : nat → Readings)
    (now : nat → Z → nat → option Timestamp) (fuel : nat) (token : Z) (d : Delivery) : lp unit :=
  match token_decode token with
  | ReservedToken token =>
      if bool_decide (token ∈ [Token.DISCOVERY_MULTI; Token.DISCOVERY_UNI; Token.USERTRAFFIC_MULTI;
                               Token.USERTRAFFIC_UNI]) then
        match d with Packets l => handle_packets_of_socket native clk c l | _ => mret tt end
      else if bool_decide (token = Token.ADD_WRITER) then
        match d with NewWriters l => lfor l (λ i, register_writer (c i)) | _ => mret tt end
      else if bool_decide (token = Token.ADD_READER) then
        match d with NewReaders l => lfor l (λ _, register_reader) | _ => mret tt end
      else if bool_decide (token = Token.DISCOVERY_DB_UPDATE) then
        match d with Lost l => handle_participant_discovery_updates l | _ => mret tt end
      else if bool_decide (token = Token.WRITER_HEARTBEAT_TIMER) then
        ended (while_let fuel poll_writer_hb writer_hb_fired c)
      else if bool_decide (token = Token.READER_DEADLINE_TIMER) then
        ended (while_let fuel poll_reader_deadline reader_deadline_fired c)
      else if bool_decide (token = Token.READER_LIFESPAN_TIMER) then
        ended (while_let fuel poll_reader_lifespan reader_lifespan_fired c)
      else if bool_decide (token = Token.WRITER_DEADLINE_TIMER) then
        ended (while_let fuel poll_writer_deadline writer_deadline_fired c)
      else if bool_decide (token = Token.WRITER_LIVELINESS_CHECK_TIMER) then
        ended (while_let fuel poll_wlp wlp_fired c)
      else if bool_decide (token = Token.ASSERT_AUTOMATIC_LIVELINESS_TIMER) then
        assert_automatic_liveliness (c 0%nat)
      else if bool_decide (token = Token.CHECK_MANUAL_LIVELINESS_TIMER) then
        ended (while_let fuel poll_check_liveliness check_liveliness_fired c)
      else if bool_decide (token = Token.READER_HEARTBEAT_TIMER) then
        ended (while_let fuel poll_reader_hb reader_hb_fired c)
      else if bool_decide (token = Token.WRITER_NACK_TIMER) then
        ended (while_let fuel poll_writer_nack writer_nack_fired c)
      else if bool_decide (token = Token.SET_WLP_TIMER) then
        ended (while_let fuel recv_wlp set_wlp_timer c)
      else mret tt
  | EntityToken e =>
      handle_entity_token (c 0%nat) (c ∘ S) now e (match d with Commands l => l | _ => [] end)
  end.
End event_loop.
