(* ===== verification/EventLoopProofs.v ===== *)
(** * Correctness of the event loop

    The invariant of the event loop: the endpoints are well formed, every
    timer refers to endpoints that exist, the remembered timeouts are those
    that are pending, every reliable writer has one heartbeat timer, and the
    writers of a manual liveliness kind are all watched. *)
From stdpp Require Import base tactics numbers list gmap strings.
From coqutil Require Import Datatypes.RecordSetters.
From S2P Require Import Prelude Ordered Ids Time SeqNum Qos HistoryCache Topic Message Proxy Writer WriterProofs.
From S2P Require Import DiscoveryData DiscoveryDB Reader ReaderProofs Speedy Wire ParameterList Receiver.
From S2P Require Import ReceiverProofs Timer Tokens EventLoop.
Import OCamlLikeNotations.

(** ** Configurations *)

(** A delay of the configuration: read from a [CoreDuration]. *)
Definition delay_ok (d : Duration) : Prop := Dur.wf d ∧ 0 ≤ seconds d.

Record writer_conf_ok (cf : WriterConf) : Prop := {
  wc_deadline : Dur.wf (period (w_deadline (w_qos cf)).1);
  wc_lease : Dur.wf (lease_duration (w_liveliness (w_qos cf)).1);
  wc_heartbeat : delay_ok (w_heartbeat_period cf);
  wc_nack : delay_ok (w_nack_response_delay cf);
}.
Record reader_conf_ok (cf : ReaderConf) : Prop := {
  rc_deadline : Dur.wf (period (r_deadline (rd_qos cf)).1);
  rc_heartbeat : delay_ok (rd_heartbeat_response_delay cf);
}.

Definition reliable_conf (cf : WriterConf) : bool :=
  match w_reliability_level cf with Reliable => true | BestEffort => false end.

(** A writer whose liveliness the application asserts, with a finite lease. *)
Definition watched (cf : WriterConf) : Prop :=
  liveliness_kind (w_liveliness (w_qos cf)).1 ≠ Automatic ∧
  lease_duration (w_liveliness (w_qos cf)).1 ≠ Dur.INFINITE.
#[export] Instance watched_dec cf : Decision (watched cf).
Proof. unfold watched. apply _. Defined.

Notation wconfs W := (conf <$> writers W).
Notation rconfs W := (rconf <$> readers W).

Lemma delay_total d : delay_ok d → no_panic (core_duration_new (as_u64 (seconds d)) (fraction d)).
Proof.
  intros [[Hs Hf] Hp]. unfold in_s, in_u in *. unfold core_duration_new, NANOS_PER_SEC. wrap_small.
  rewrite bool_decide_true; [apply no_panic_Done|].
  assert (fraction d / 1000000000 < 2 ^ 32) by (apply Z.div_lt_upper_bound; lia). lia.
Qed.

(** ** Weakest preconditions

    [wpl strict m Q L]: from [L], [m] ends with a result and a state that
    satisfy [Q], or panics, which [strict] excludes. *)
Section wpl.
Context {TL : TimerLib}.

Definition wpl (strict : bool) {A} (m : lp A) (Q : A → EventLoop → Prop) (L : EventLoop) : Prop :=
  match m L with Done (L', _, a) => Q a L' | Panic => strict = false end.

Lemma wpl_bind s {A B} (m : lp A) (f : A → lp B) Q L :
  wpl s m (λ a, wpl s (f a) Q) L → wpl s (m ≫= f) Q L.
Proof.
  unfold wpl, mbind, lp_bind. destruct (m L) as [[[L1 ev1] a]|]; [|done].
  by destruct (f a L1) as [[[L2 ev2] b]|].
Qed.
Lemma wpl_mono s {A} (m : lp A) (Q Q' : A → EventLoop → Prop) L :
  wpl s m Q L → (∀ a L', Q a L' → Q' a L') → wpl s m Q' L.
Proof. unfold wpl. destruct (m L) as [[[L1 ev1] a]|]; [|done]. auto. Qed.
Lemma wpl_ret s {A} (a : A) (Q : A → EventLoop → Prop) L : Q a L → wpl s (mret a) Q L.
Proof. done. Qed.
Lemma wpl_get s {A} (f : EventLoop → A) Q L : Q (f L) L → wpl s (lget f) Q L.
Proof. done. Qed.
Lemma wpl_set s f Q L : Q tt (f L) → wpl s (lset f) Q L.
Proof. done. Qed.
Lemma wpl_tell s ev Q L : Q tt L → wpl s (ltell ev) Q L.
Proof. done. Qed.
Lemma wpl_do s {A} (m : outcome A) (Q : A → EventLoop → Prop) L :
  (s = true → no_panic m) → (∀ a, m = Done a → Q a L) → wpl s (ldo m) Q L.
Proof.
  unfold wpl, ldo. destruct m; [by auto|]. intros Hs _. destruct s; [|done].
  destruct (Hs eq_refl). congruence.
Qed.
Lemma wpl_for s {A} (I : EventLoop → Prop) (l : list A) (body : nat → A → lp unit) L :
  (∀ i x L, x ∈ l → I L → wpl s (body i x) (λ _, I) L) → I L → wpl s (lfor l body) (λ _, I) L.
Proof.
  revert body L. induction l as [|x l IH]; intros body L Hb HL; [by apply wpl_ret|].
  apply wpl_bind. eapply wpl_mono; [apply Hb; [left|done]|]. intros [] L1 HL1.
  apply (IH (body ∘ S)); [|done]. intros i y L2 Hy. apply Hb. by right.
Qed.

(** Every clock reading of the round is after the epoch. *)
Definition clocks_ok (c : Readings) : Prop :=
  is_Some (clock c) ∧ ∀ e, is_Some (clock_of_writer c e) ∧ is_Some (clock_of_update c e) ∧
    ∀ g, is_Some (clock_of_remote c g).

(** A loop over a timer keeps what each round keeps. *)
Definition round_ok (s : bool) (I : EventLoop → Prop) {A} (poll : Readings → lp (option A))
    (body : Readings → A → lp unit) : Prop :=
  ∀ c L, (s = true → clocks_ok c) → I L → wpl s (poll c) (λ o L1, match o with Some a => wpl s (body c a) (λ _, I) L1 | None => I L1 end) L.

Lemma wpl_while s I {A} fuel (poll : Readings → lp (option A)) body c L :
  round_ok s I poll body → (s = true → ∀ i, clocks_ok (c i)) → I L →
  wpl s (while_let fuel poll body c) (λ _, I) L.
Proof.
  intros Hr. revert c L. induction fuel as [|fuel IH]; intros c L Hc HL; [by apply wpl_ret|].
  cbn [while_let]. apply wpl_bind. eapply wpl_mono; [apply Hr; [by auto|done]|].
  intros [a|] L1 H1; [|by apply wpl_ret]. apply wpl_bind. eapply wpl_mono; [exact H1|]. intros [] L2 H2.
  apply IH; [|done]. intros Hs i. by apply Hc.
Qed.

(** ** Frames

    [framed L L']: only the world and the channel differ, and the world has
    the same endpoints and is well formed. *)
Definition framed (L L' : EventLoop) : Prop :=
  ∃ W q, L' = { L with world := W; wlp_queue := q } ∧ world_ok (world L) W.

Lemma framed_refl L : world_wf (world L) → framed L L.
Proof. intros Hw. exists (world L), (wlp_queue L). split; [by destruct L|done]. Qed.

Lemma world_ok_trans W0 W1 W2 : world_ok W0 W1 → world_ok W1 W2 → world_ok W0 W2.
Proof. intros [? ? ? ? ? (? & ? & ?)] [? ? ? ? ? (? & ? & ?)]. split; try congruence; try done. split_and!; congruence. Qed.

Lemma world_ok_wf W0 W : world_ok W0 W → world_wf W.
Proof. intros []. by split. Qed.

Lemma framed_trans L1 L2 L3 : framed L1 L2 → framed L2 L3 → framed L1 L3.
Proof.
  intros (W & q & -> & H1) (W' & q' & -> & H2). exists W', q'. split; [done|].
  by eapply world_ok_trans.
Qed.

Lemma framed_wf L L' : framed L L' → world_wf (world L').
Proof. intros (W & q & -> & HW). by eapply world_ok_wf. Qed.

Lemma framed_confs L L' :
  framed L L' → wconfs (world L') = wconfs (world L) ∧ rconfs (world L') = rconfs (world L).
Proof. intros (W & q & -> & [Hr Hw _ _ _ _]). by split. Qed.

Lemma wpl_in_world {A} (m : rcv A) (Φ : A → Prop) (Q : option A → EventLoop → Prop) L :
  world_wf (world L) → keeps (world_ok (world L)) m Φ →
  (∀ L' o, framed L L' → (∀ a, o = Some a → Φ a) → Q o L') → wpl false (in_world m) Q L.
Proof.
  intros HW Hm HQ. unfold wpl, in_world. destruct (m (world L)) as [[[W evs] r]|] eqn:E; [|done].
  destruct (Hm _ _ _ _ HW E) as [HW' Hr]. apply HQ; [by eexists _, _|]. intros a. destruct r; [done|].
  intros [= <-]. by apply Hr.
Qed.

Lemma wpl_on_reader_full s {A} e (f : Reader → outcome (Reader * list ReaderEvent * A)) (Φ : Reader → Reader → A → Prop)
    (Q : option A → EventLoop → Prop) L W :
  world L = W → world_wf W →
  (∀ r, readers W !! e = Some r → reader_wf r →
     match f r with
     | Done (r', _, a) => (reader_wf r' ∧ rconf r' = rconf r) ∧ Φ r r' a
     | Panic => s = false
     end) →
  (∀ L', framed L L' → writers (world L') = writers W →
     match readers W !! e with
     | None => readers (world L') = readers W → Q None L'
     | Some r => ∀ r' a, readers (world L') = <[e := r']> (readers W) → Φ r r' a → Q (Some a) L'
     end) →
  wpl s (on_reader e f) Q L.
Proof.
  intros <- HW Hf HQ. unfold on_reader. apply wpl_bind. unfold wpl at 1, in_world, with_reader.
  destruct (readers (world L) !! e) as [r|] eqn:E.
  - pose proof (wo_readers _ _ HW _ _ E) as Hwf. specialize (Hf r eq_refl Hwf).
    destruct (f r) as [[[r' evs] a]|]; [|done]. destruct Hf as [[Hwf' Hcf] Ha]. apply wpl_ret.
    eapply HQ; [|reflexivity|reflexivity|exact Ha].
    eexists _, _. split; [reflexivity|]. by eapply world_insert_reader.
  - apply wpl_ret, HQ; [by eexists _, _|done..].
Qed.

Lemma wpl_on_reader s {A} e (f : Reader → outcome (Reader * list ReaderEvent * A)) (Φ : Reader → Reader → A → Prop)
    (Q : option A → EventLoop → Prop) L W :
  world L = W → world_wf W →
  (∀ r, readers W !! e = Some r → reader_wf r →
     match f r with
     | Done (r', _, a) => (reader_wf r' ∧ rconf r' = rconf r) ∧ Φ r r' a
     | Panic => s = false
     end) →
  (∀ L', framed L L' →
     match readers W !! e with
     | None => Q None L'
     | Some r => ∀ r' a, readers (world L') = <[e := r']> (readers W) → Φ r r' a → Q (Some a) L'
     end) →
  wpl s (on_reader e f) Q L.
Proof.
  intros HW Hwf Hf HQ. eapply wpl_on_reader_full; [done..|]. intros L' HL _. specialize (HQ L' HL).
  by destruct (readers W !! e).
Qed.

Lemma wpl_on_writer_full s {A} e (f : Writer → outcome (Writer * list WriterEvent * A)) (Φ : Writer → Writer → A → Prop)
    (Q : option A → EventLoop → Prop) L W :
  world L = W → world_wf W →
  (∀ w, writers W !! e = Some w → writer_wf w → unsent_stored w →
     match f w with
     | Done (w', _, a) => (conf w' = conf w ∧ writer_wf w' ∧ unsent_stored w') ∧ Φ w w' a
     | Panic => s = false
     end) →
  (∀ L', framed L L' → readers (world L') = readers W →
     match writers W !! e with
     | None => writers (world L') = writers W → Q None L'
     | Some w => ∀ w' a, writers (world L') = <[e := w']> (writers W) → Φ w w' a → Q (Some a) L'
     end) →
  wpl s (on_writer e f) Q L.
Proof.
  intros <- HW Hf HQ. unfold on_writer. apply wpl_bind. unfold wpl at 1, in_world, with_writer.
  destruct (writers (world L) !! e) as [w|] eqn:E.
  - destruct (wo_writers _ _ HW _ _ E) as [Hwf Hu]. specialize (Hf w eq_refl Hwf Hu).
    destruct (f w) as [[[w' evs] a]|]; [|done]. destruct Hf as [(Hcf & Hwf' & Hu') Ha]. apply wpl_ret.
    eapply HQ; [|reflexivity|reflexivity|exact Ha].
    eexists _, _. split; [reflexivity|]. by eapply world_insert_writer.
  - apply wpl_ret, HQ; [by eexists _, _|done..].
Qed.

Lemma wpl_on_writer s {A} e (f : Writer → outcome (Writer * list WriterEvent * A)) (Φ : Writer → Writer → A → Prop)
    (Q : option A → EventLoop → Prop) L W :
  world L = W → world_wf W →
  (∀ w, writers W !! e = Some w → writer_wf w → unsent_stored w →
     match f w with
     | Done (w', _, a) => (conf w' = conf w ∧ writer_wf w' ∧ unsent_stored w') ∧ Φ w w' a
     | Panic => s = false
     end) →
  (∀ L', framed L L' →
     match writers W !! e with
     | None => Q None L'
     | Some w => ∀ w' a, writers (world L') = <[e := w']> (writers W) → Φ w w' a → Q (Some a) L'
     end) →
  wpl s (on_writer e f) Q L.
Proof.
  intros HW Hwf Hf HQ. eapply wpl_on_writer_full; [done..|]. intros L' HL _. specialize (HQ L' HL).
  by destruct (writers W !! e).
Qed.

(** The database is shared: its leases must be well formed. *)
Lemma wpl_on_db s f Q L :
  world_wf (world L) → (∀ db, leases_wf db → leases_wf (f db)) →
  (∀ L', framed L L' → readers (world L') = readers (world L) → writers (world L') = writers (world L) → Q tt L') →
  wpl s (on_db f) Q L.
Proof.
  intros HW Hf HQ. apply wpl_set, HQ; [|done..]. exists (set_disc_db f (world L)), (wlp_queue L).
  split; [by destruct L|]. destruct HW. split; try done. by apply Hf.
Qed.
End wpl.

(** ** The invariant *)

Section invariant.
Context {TL : TimerLib} `{!TimerLaws TL}.

(** One entry holds every watched writer, and comes back within half the
    lease of each. *)
Definition check_ok (wc : gmap EntityId WriterConf) (t : Timer (list GUID))
    (o : option (CoreDuration * Timeout)) : Prop :=
  match o with
  | None => (∀ to, pending t to = None) ∧ ∀ e cf, wc !! e = Some cf → ¬ watched cf
  | Some (d, to) => ∃ wgs, pending t to = Some wgs ∧ (∀ to', is_Some (pending t to') → to' = to) ∧
      ∀ e cf, wc !! e = Some cf → watched cf →
        w_guid cf ∈ wgs ∧
        ∀ half, Dur.to_core (Dur.half (lease_duration (w_liveliness (w_qos cf)).1)) = Done half → ¬ ord_lt half d
  end.

Record loop_ok (L : EventLoop) : Prop := {
  lo_world : world_wf (world L);
  lo_writers : ∀ e cf, wconfs (world L) !! e = Some cf →
    w_guid cf = mkGUID (el_guid_prefix L) e ∧ writer_conf_ok cf;
  lo_readers : ∀ e cf, rconfs (world L) !! e = Some cf →
    rd_guid cf = mkGUID (el_guid_prefix L) e ∧ reader_conf_ok cf;
  lo_hb : one_each (λ e, reliable_conf <$> wconfs (world L) !! e = Some true) (writer_hb_timer L);
  lo_reader_deadline : tracks fst (reader_deadline_timeout L) (reader_deadline_timer L);
  lo_reader_deadline_known : timer_all (λ a, is_Some (rconfs (world L) !! a.1.1)) (reader_deadline_timer L);
  lo_lifespan_known : timer_all (λ a, is_Some (rconfs (world L) !! a.1)) (reader_lifespan_timer L);
  lo_writer_deadline : tracks fst (writer_deadline_timeout L) (writer_deadline_timer L);
  lo_writer_deadline_known : timer_all (λ a, is_Some (wconfs (world L) !! a.1)) (writer_deadline_timer L);
  lo_wlp : tracks id (wlp_timeouts L) (wlp_timer L);
  lo_wlp_known : timer_all (λ e, is_Some (rconfs (world L) !! e)) (wlp_timer L);
  lo_assert : ∃ to, pending (assert_liveliness_timer L) to = Some tt;
  lo_check : check_ok (wconfs (world L)) (check_liveliness_timer L) (check_liveliness_timer_to L);
}.

(** Two states with the same endpoints and timers. *)
Lemma loop_ok_framed L L' : framed L L' → loop_ok L → loop_ok L'.
Proof.
  intros Hf []. pose proof (framed_wf _ _ Hf) as Hw. pose proof (framed_confs _ _ Hf) as [Hcw Hcr].
  destruct Hf as (W & q & -> & _). split; cbn in *; rewrite ?Hcw, ?Hcr; assumption.
Qed.

Lemma confs_lookup_reader L e : is_Some (rconfs (world L) !! e) ↔ is_Some (readers (world L) !! e).
Proof. by rewrite lookup_fmap, fmap_is_Some. Qed.
Lemma confs_lookup_writer L e : is_Some (wconfs (world L) !! e) ↔ is_Some (writers (world L) !! e).
Proof. by rewrite lookup_fmap, fmap_is_Some. Qed.

Lemma reader_entity L e r : loop_ok L → readers (world L) !! e = Some r →
  rguid r = mkGUID (el_guid_prefix L) e ∧ reader_conf_ok (rconf r).
Proof. intros Hok E. apply (lo_readers _ Hok e). by rewrite lookup_fmap, E. Qed.
Lemma writer_entity L e w : loop_ok L → writers (world L) !! e = Some w →
  wguid w = mkGUID (el_guid_prefix L) e ∧ writer_conf_ok (conf w).
Proof. intros Hok E. apply (lo_writers _ Hok e). by rewrite lookup_fmap, E. Qed.

Lemma reset_timeout_all {A} `{Countable K} (key : A → K) (P : A → Prop) now d a m t :
  P a → timer_all P t → timer_all P (reset_timeout key now d a (m, t)).2.
Proof.
  intros Ha Ht. unfold reset_timeout. cbn [fst snd].
  destruct (m !! key a) as [to|].
  - pose proof (timer_all_set P now d a _ Ha (timer_all_cancel P to t Ht)) as Hs. by destruct (set_timeout _ _ _ _).
  - pose proof (timer_all_set P now d a _ Ha Ht) as Hs. by destruct (set_timeout _ _ _ _).
Qed.

(** *** Setting timers *)

Lemma set_reader_timer_ok s c t L :
  loop_ok L → is_Some (rconfs (world L) !! timer_reader t) → (s = true → is_Some (clock c)) →
  wpl s (set_reader_timer c t) (λ _, loop_ok) L.
Proof.
  intros Hok Hr Hc. destruct t as [e g|e g d|e k ts d]; cbn [set_reader_timer timer_reader] in *.
  - apply wpl_bind, wpl_get. destruct (readers (world L) !! e) as [r|] eqn:E; [|by apply wpl_ret].
    destruct (reader_entity _ _ _ Hok E) as [_ [_ Hd]].
    apply wpl_bind, wpl_do; [by intros _; apply delay_total|]. intros d _. apply wpl_set.
    destruct Hok; split; cbn; try assumption.
  - apply wpl_set. pose proof (reset_timeout_tracks fst (at_set c) d (e, g, d) _ _ (lo_reader_deadline _ Hok)) as Ht.
    pose proof (reset_timeout_all fst (λ a, is_Some (rconfs (world L) !! a.1.1)) (at_set c) d (e, g, d)
      (reader_deadline_timeout L) _ Hr (lo_reader_deadline_known _ Hok)) as Ha.
    destruct (reset_timeout _ _ _ _ _) as [m t]. destruct Hok; split; cbn; assumption.
  - apply wpl_bind, wpl_do; [intros Hs; destruct (Hc Hs) as [now ->]; apply no_panic_Done|]. intros now _.
    apply wpl_bind, wpl_do; [intros _; apply ts_sub_no_panic|]. intros d' _. apply wpl_set.
    destruct Hok; split; cbn; try assumption. by apply timer_all_set.
Qed.

Lemma confs_framed_known L L' e :
  framed L L' → is_Some (rconfs (world L') !! e) ↔ is_Some (rconfs (world L) !! e).
Proof. intros Hf. by destruct (framed_confs _ _ Hf) as [_ ->]. Qed.

(** A list of timers: the endpoints stay the same. *)
Definition loop_like (L0 L : EventLoop) : Prop :=
  loop_ok L ∧ rconfs (world L) = rconfs (world L0) ∧ wconfs (world L) = wconfs (world L0).

Lemma set_reader_timer_world s c t L :
  wpl s (set_reader_timer c t) (λ _, loop_ok) L → wpl s (set_reader_timer c t) (λ _, loop_like L) L.
Proof.
  unfold wpl. destruct (set_reader_timer c t L) as [[[L' evs] u]|] eqn:E; [|done]. intros Hok. split; [done|].
  assert (world L' = world L) as ->; [|done]. destruct t as [e g|e g d|e k ts d]; cbn [set_reader_timer] in E.
  - unfold mbind, lp_bind, lget in E. destruct (readers (world L) !! e) as [r|]; [|by injection E as <- _ _].
    unfold ldo in E. destruct (heartbeat_response_delay r); [|done]. by injection E as <- _ _.
  - unfold lset in E. destruct (reset_timeout _ _ _ _ _). by injection E as <- _ _.
  - unfold mbind, lp_bind, ldo in E. destruct (unwrap (clock c)); [|done]. destruct (Ts.sub _ _); [|done].
    by injection E as <- _ _.
Qed.

Lemma handle_set_reader_timer_ok s c l L :
  loop_ok L → Forall (λ t, is_Some (rconfs (world L) !! timer_reader t)) l → (s = true → ∀ i, is_Some (clock (c i))) →
  wpl s (handle_set_reader_timer c l) (λ _, loop_ok) L.
Proof.
  intros Hok Hl Hc. eapply wpl_mono.
  - apply (wpl_for s (loop_like L)); [|done]. intros i t L1 Ht (Hok1 & Hr1 & Hw1). unfold loop_like. rewrite <-Hr1, <-Hw1.
    apply set_reader_timer_world, set_reader_timer_ok; [done| |by auto]. rewrite Hr1. rewrite Forall_forall in Hl. by apply Hl.
  - by intros ? L' [? _].
Qed.

(** The writer of a timer. *)
Definition timer_writer (t : WriterTimer) : EntityId :=
  match t with TimerNack e _ | TimerDeadline e _ => e end.

Lemma set_writer_deadline_ok s c e d L :
  loop_ok L → is_Some (wconfs (world L) !! e) →
  wpl s (set_writer_timer c (TimerDeadline e d)) (λ _, loop_like L) L.
Proof.
  intros Hok He. apply wpl_set.
  pose proof (reset_timeout_tracks fst (at_set c) d (e, d) _ _ (lo_writer_deadline _ Hok)) as Ht.
  pose proof (reset_timeout_all fst (λ a, is_Some (wconfs (world L) !! a.1)) (at_set c) d (e, d)
      (writer_deadline_timeout L) _ He (lo_writer_deadline_known _ Hok)) as Ha.
  destruct (reset_timeout _ _ _ _ _) as [m t]. split; [|done]. destruct Hok; split; cbn; assumption.
Qed.

Lemma set_writer_nack_ok s c e g L :
  loop_ok L → wpl s (set_writer_timer c (TimerNack e g)) (λ _, loop_like L) L.
Proof.
  intros Hok. cbn [set_writer_timer]. apply wpl_bind, wpl_get.
  destruct (writers (world L) !! e) as [w|] eqn:E; [|by apply wpl_ret].
  destruct (writer_entity _ _ _ Hok E) as [_ [_ _ _ Hd]].
  apply wpl_bind, wpl_do; [by intros _; apply delay_total|]. intros d _. apply wpl_set.
  split; [|done]. destruct Hok; split; cbn; assumption.
Qed.

Lemma handle_set_writer_timer_ok s c l L :
  loop_ok L → Forall (λ t, is_Some (wconfs (world L) !! timer_writer t)) l →
  wpl s (handle_set_writer_timer c l) (λ _, loop_ok) L.
Proof.
  intros Hok Hl. eapply wpl_mono.
  - apply (wpl_for s (loop_like L)); [|done]. intros i t L1 Ht (Hok1 & Hr1 & Hw1). unfold loop_like.
    rewrite <-Hr1, <-Hw1. rewrite Forall_forall in Hl. specialize (Hl t Ht). rewrite <-Hw1 in Hl.
    destruct t as [e g|e d]; [by apply set_writer_nack_ok|by apply set_writer_deadline_ok].
  - by intros ? L' [? _].
Qed.

(** *** Timers that fire *)

(** The invariant, field by field; [reframe] first takes a frame apart. *)
Ltac rebuild Hok :=
  match type of Hok with loop_ok ?L => destruct L, Hok; cbn in *; unfold constant in *; split; cbn; try assumption end.
Ltac reframe_with Hok Hf tac :=
  let Hwf' := fresh "Hwf'" in let Hcw := fresh "Hcw" in let Hcr := fresh "Hcr" in
  pose proof (framed_wf _ _ Hf) as Hwf'; pose proof (framed_confs _ _ Hf) as [Hcw Hcr];
  destruct Hf as (?W & ?q & -> & _);
  match type of Hok with loop_ok ?L =>
    destruct L, Hok; cbn in *; unfold constant in *; tac; split; cbn; rewrite ?Hcw, ?Hcr; try assumption end.
Ltac reframe Hok Hf := reframe_with Hok Hf idtac.

Lemma writer_hb_round s : round_ok s loop_ok poll_writer_hb writer_hb_fired.
Proof.
  intros c L Hc Hok. unfold wpl at 1, poll_writer_hb.
  destruct (timer_poll (at_poll c) (writer_hb_timer L)) as [t [e|]] eqn:Ep.
  - destruct (one_each_poll _ _ _ _ _ (lo_hb _ Hok) Ep) as [He Ht].
    apply wpl_bind.
    apply (wpl_on_writer _ _ _ (λ w w' a, a = w' ∧ conf w' = conf w) _ _ (world L)); [reflexivity|exact (lo_world _ Hok)| |].
    + intros w Hw Hwf Hu. destruct (send_heart_beat_inv (clock c) false w Hwf) as (H1 & H2 & H3).
      destruct (send_heart_beat (clock c) false w) as [w' evs]. cbn [fst] in *. split; [|done]. auto.
    + intros L' Hf.
      destruct (writers (world L) !! e) as [w|] eqn:Hw; [|by rewrite lookup_fmap, Hw in He].
      intros w' a _ [-> Hcf]. destruct (writer_entity _ _ _ Hok Hw) as [Hg [_ _ Hd _]].
      apply wpl_bind, wpl_do; [intros _; apply delay_total; by rewrite Hcf|]. intros d _. apply wpl_set.
      assert (Hg' : entity_id (wguid w') = e) by (unfold wguid in *; by rewrite Hcf, Hg). rewrite Hg'.
      pose proof (one_each_set _ (at_set c) d e _ Ht) as Hs.
      reframe Hok Hf. eapply one_each_ext; [|apply Hs; by intros []].
      intros b. cbn beta. destruct (decide (b = e)) as [->|]; naive_solver.
  - pose proof (one_each_poll_none _ _ _ _ (lo_hb _ Hok) Ep). rebuild Hok.
Qed.

Lemma reader_deadline_round s : round_ok s loop_ok poll_reader_deadline reader_deadline_fired.
Proof.
  intros c L Hc Hok. unfold wpl at 1, poll_reader_deadline.
  destruct (timer_poll (at_poll c) (reader_deadline_timer L)) as [t o] eqn:Ep.
  destruct (timer_all_poll _ _ _ _ _ Ep (lo_reader_deadline_known _ Hok)) as [Hall Ha].
  destruct o as [a|]; cbn beta iota.
  - specialize (Ha a eq_refl). apply wpl_bind.
    apply (wpl_on_reader _ _ _ (λ _ _ _, True) _ _ (world L)); [reflexivity|exact (lo_world _ Hok)|by intros r _ Hwf|].
    intros L' Hf. apply confs_lookup_reader in Ha as [r Hr].
    rewrite Hr. intros _ _ _ _. apply wpl_set.
    pose proof (poll_tracks fst _ _ _ _ _ (at_set c) a.2 a (lo_reader_deadline _ Hok) Ep eq_refl) as Htr.
    pose proof (timer_all_set (λ a, is_Some (rconfs (world L) !! a.1.1)) (at_set c) a.2 a t) as Hset.
    assert (Hk : is_Some (rconfs (world L) !! a.1.1)) by (apply confs_lookup_reader; eauto).
    specialize (Hset Hk Hall). reframe_with Hok Hf ltac:(revert Htr Hset; destruct (set_timeout _ _ _ t); intros Htr Hset).
  - pose proof (poll_none_tracks fst _ _ _ _ (lo_reader_deadline _ Hok) Ep). rebuild Hok.
Qed.

Lemma writer_deadline_round s : round_ok s loop_ok poll_writer_deadline writer_deadline_fired.
Proof.
  intros c L Hc Hok. unfold wpl at 1, poll_writer_deadline.
  destruct (timer_poll (at_poll c) (writer_deadline_timer L)) as [t o] eqn:Ep.
  destruct (timer_all_poll _ _ _ _ _ Ep (lo_writer_deadline_known _ Hok)) as [Hall Ha].
  destruct o as [a|]; cbn beta iota.
  - specialize (Ha a eq_refl). apply wpl_bind.
    apply (wpl_on_writer _ _ _ (λ _ _ _, True) _ _ (world L)); [reflexivity|exact (lo_world _ Hok)|by intros w _ Hwf|].
    intros L' Hf. apply confs_lookup_writer in Ha as [w Hw].
    rewrite Hw. intros _ _ _ _. apply wpl_set.
    pose proof (poll_tracks fst _ _ _ _ _ (at_set c) a.2 a (lo_writer_deadline _ Hok) Ep eq_refl) as Htr.
    pose proof (timer_all_set (λ a, is_Some (wconfs (world L) !! a.1)) (at_set c) a.2 a t) as Hset.
    assert (Hk : is_Some (wconfs (world L) !! a.1)) by (apply confs_lookup_writer; eauto).
    specialize (Hset Hk Hall). reframe_with Hok Hf ltac:(revert Htr Hset; destruct (set_timeout _ _ _ t); intros Htr Hset).
  - pose proof (poll_none_tracks fst _ _ _ _ (lo_writer_deadline _ Hok) Ep). rebuild Hok.
Qed.

Lemma reader_lifespan_round s : round_ok s loop_ok poll_reader_lifespan reader_lifespan_fired.
Proof.
  intros c L Hc Hok. unfold wpl at 1, poll_reader_lifespan.
  destruct (timer_poll (at_poll c) (reader_lifespan_timer L)) as [t o] eqn:Ep.
  destruct (timer_all_poll _ _ _ _ _ Ep (lo_lifespan_known _ Hok)) as [Hall Ha].
  assert (Hok1 : loop_ok ({ L with reader_lifespan_timer := t })) by (rebuild Hok).
  destruct o as [a|]; [|exact Hok1]. specialize (Ha a eq_refl). apply wpl_bind.
  apply (wpl_on_reader _ _ _ (λ _ _ _, True) _ _ (world L)); [reflexivity|exact (lo_world _ Hok)| |].
  - intros r _ Hwf. split; [|done]. apply (reader_step_inv _ _ Hwf). constructor.
  - intros L' Hf. apply confs_lookup_reader in Ha as [r Hr]. rewrite Hr.
    intros r' [] _ _. apply wpl_ret. by eapply loop_ok_framed.
Qed.

Lemma reader_hb_round s : round_ok s loop_ok poll_reader_hb reader_hb_fired.
Proof.
  intros c L Hc Hok. unfold wpl at 1, poll_reader_hb.
  destruct (timer_poll (at_poll c) (reader_hb_timer L)) as [t o].
  assert (Hok1 : loop_ok ({ L with reader_hb_timer := t })) by (rebuild Hok).
  destruct o as [a|]; [|exact Hok1]. apply wpl_bind.
  apply (wpl_on_reader _ _ _ (λ _ _ _, True) _ _ (world L)); [reflexivity|exact (lo_world _ Hok)| |].
  - intros r _ Hwf. destruct (handle_hb_response_timeout a.2 r) as [[r' evs]|] eqn:E.
    + split; [|done]. apply (reader_step_inv _ _ Hwf). by econstructor.
    + exfalso. unfold handle_hb_response_timeout in E. destruct (matched_writers r !! a.2) as [wp|] eqn:Hm; [|done].
      destruct (hb_timeout_main a.2 wp r Hwf Hm) as (? & ? & ? & E' & _).
      unfold handle_hb_response_timeout in E'. rewrite Hm in E'. congruence.
  - intros L' Hf. destruct (readers (world L) !! a.1); [intros ? ? _ _|]; by eapply loop_ok_framed.
Qed.

Lemma nack_response_total now g w :
  writer_wf w → unsent_stored w →
  ∃ w' evs, handle_nack_response_timeout now g w = Done (w', evs) ∧
    conf w' = conf w ∧ writer_wf w' ∧ unsent_stored w'.
Proof.
  intros Hwf Hu. assert (Hwf' : writer_wf (set_an_state Waiting w)) by by apply set_an_state_wf.
  destruct (nack_response_main now g w Hwf') as (n & w2 & evs2 & Heq & -> & _).
  eexists _, _. split; [exact Heq|]. split_and!; [done|by apply (nack_answered_wf n g)|by apply (nack_answered_unsent n g)].
Qed.

Lemma writer_nack_round s : round_ok s loop_ok poll_writer_nack writer_nack_fired.
Proof.
  intros c L Hc Hok. unfold wpl at 1, poll_writer_nack.
  destruct (timer_poll (at_poll c) (writer_nack_timer L)) as [t o].
  assert (Hok1 : loop_ok ({ L with writer_nack_timer := t })) by (rebuild Hok).
  destruct o as [a|]; [|exact Hok1]. apply wpl_bind.
  apply (wpl_on_writer _ _ _ (λ _ _ _, True) _ _ (world L)); [reflexivity|exact (lo_world _ Hok)| |].
  - intros w _ Hwf Hu. by destruct (nack_response_total (clock_of_msg c) a.2 w Hwf Hu) as (w' & evs & -> & Hi).
  - intros L' Hf. destruct (writers (world L) !! a.1); [intros ? ? _ _|]; by eapply loop_ok_framed.
Qed.

(** *** Liveliness of remote writers *)

(** No matched writer has announced a negative lease. *)
Definition leases_nonneg (r : Reader) : Prop :=
  ∀ g wp, matched_writers r !! g = Some wp → 0 ≤ seconds (lease_duration (w_liveliness (wp_qos wp)).1).
Definition remote_leases (L : EventLoop) : Prop :=
  ∀ e r, readers (world L) !! e = Some r → leases_nonneg r.

Lemma foldM_mono {A B} (f g : A → B → outcome A) l a b :
  (∀ a x b, f a x = Done b → g a x = Done b) → foldM f a l = Done b → foldM g a l = Done b.
Proof.
  intros Hfg. revert a. induction l as [|x l IH]; intros a; [done|]. rewrite !foldM_cons.
  intros (a1 & H1 & H2)%outcome_bind_Done. rewrite (Hfg _ _ _ H1). by apply IH.
Qed.

(** A clock that was not needed may as well have been there. *)
Definition some_clock (now : GUID → option Timestamp) (g : GUID) : option Timestamp :=
  Some (default Ts.TIME_INVALID (now g)).
Lemma liveliness_lost_clock now db g wp b :
  liveliness_lost (now g) db g wp = Done b → liveliness_lost (some_clock now g) db g wp = Done b.
Proof.
  unfold liveliness_lost, some_clock. cbv zeta. destruct (bool_decide _); [done|].
  destruct (read_remote_writer g db); [|exact id..].
  destruct (now g); [exact id|]. intros E. discriminate E.
Qed.
Lemma check_liveliness_clock now db r res :
  check_liveliness now db r = Done res → check_liveliness (some_clock now) db r = Done res.
Proof.
  unfold check_liveliness. intros (l & Hl & E)%outcome_bind_Done. rewrite <-E. clear E.
  erewrite foldM_mono; [reflexivity| |exact Hl]. intros acc g acc'. cbv beta.
  intros (wp & Hwp & (b & Hb & E)%outcome_bind_Done)%outcome_bind_Done. rewrite Hwp. cbn [mbind outcome_bind].
  by rewrite (liveliness_lost_clock _ _ _ _ _ Hb).
Qed.

Lemma unmatch_nonneg l r : leases_nonneg r →
  NoDup l → (∀ g, g ∈ l → is_Some (matched_writers r !! g)) →
  leases_nonneg (for_writers matched_writer_unmatch l r).1.
Proof.
  intros Hn Hnd Hl g wp. destruct (unmatch_all_lookup l r Hnd Hl) as [-> _]. case_bool_decide; [done|apply Hn].
Qed.

(** What the check does to a reader and to the database. *)
Lemma check_liveliness_effect now db r :
  reader_wf r → leases_wf db →
  match check_liveliness now db r with
  | Done (db', r', _) =>
      (reader_wf r' ∧ rconf r' = rconf r) ∧ leases_wf db' ∧ (leases_nonneg r → leases_nonneg r')
  | Panic => ¬ ∀ g, is_Some (now g)
  end.
Proof.
  intros Hwf Hdb. destruct (check_liveliness now db r) as [[[db' r'] evs]|] eqn:E.
  - pose proof (check_liveliness_clock _ _ _ _ E) as E'.
    split; [by eapply (reader_step_inv _ _ Hwf), rs_liveliness; [|exact E']; eexists|].
    destruct (check_liveliness_main (some_clock now) db r Hwf) as (l & db2 & evs2 & E2 & Hnd & -> & Hl); [by eexists|].
    rewrite E' in E2. injection E2 as -> -> _. split.
    + assert (Hp : ∀ db0, participant_data (foldl (λ db g, update_remote_writer_state g LivelinessLost db) db0 l)
          = participant_data db0).
      { clear. induction l as [|g l IH]; intros db0; [done|]. simpl. rewrite IH.
        unfold update_remote_writer_state. by destruct (remote_writer_data db0 !! g) as [[? ?]|]. }
      intros p e. rewrite Hp. apply Hdb.
    + intros Hn. apply unmatch_nonneg; [done..|]. intros g (wp & ? & _)%Hl. by exists wp.
  - intros Hnow. destruct (check_liveliness_main now db r Hwf Hnow) as (? & ? & ? & E2 & _). congruence.
Qed.

Lemma min_lease_total r : leases_nonneg r → reader_wf r → no_panic (get_min_remote_writer_lease_duration r).
Proof.
  intros Hn Hwf. unfold get_min_remote_writer_lease_duration. cbv zeta. set (min := foldl _ _ _).
  assert (Hmin : delay_ok min).
  { unfold min. assert (Hl : ∀ wp, wp ∈ bt_values (matched_writers r) →
        delay_ok (lease_duration (w_liveliness (wp_qos wp)).1)).
    { intros wp [g Hg]%elem_of_bt_values. split; [by eapply wpo_lease, (rw_matched _ Hwf)|by eapply Hn]. }
    assert (Hi : delay_ok Dur.INFINITE) by (unfold delay_ok, Dur.wf, in_s, in_u; simpl; lia).
    revert Hl Hi. generalize (bt_values (matched_writers r)), Dur.INFINITE.
    induction l as [|wp l IH]; intros d Hl Hd; [done|]. cbn [foldl]. apply IH; [intros; apply Hl; by right|].
    destruct (Dur.lt _ _); [apply Hl; by left|done]. }
  case_bool_decide; [by eexists|by apply delay_total].
Qed.

(** The check of one reader, on top of the invariant and the leases. *)
Definition with_leases (s : bool) (L : EventLoop) : Prop := loop_ok L ∧ (s = true → remote_leases L).

Lemma insert_leases L L' e r r' :
  readers (world L) !! e = Some r → readers (world L') = <[e := r']> (readers (world L)) →
  (leases_nonneg r → leases_nonneg r') → remote_leases L → remote_leases L'.
Proof.
  intros Hr Hins Himp Hl e' r2. rewrite Hins, lookup_insert_Some. intros [[_ <-]|[_ ?]]; [|by eapply Hl].
  apply Himp. by eapply Hl.
Qed.

Lemma check_remote_ok s c e L r :
  world_wf (world L) → readers (world L) !! e = Some r → (s = true → clocks_ok c) →
  wpl s (check_remote_liveliness c e) (λ _ L', framed L L' ∧ (remote_leases L → remote_leases L') ∧
    ∃ r', readers (world L') !! e = Some r' ∧ rconf r' = rconf r) L.
Proof.
  intros HW Hr Hc. unfold check_remote_liveliness. apply wpl_bind, wpl_get, wpl_bind.
  apply (wpl_on_reader _ _ _ (λ r r' db, leases_wf db ∧ (leases_nonneg r → leases_nonneg r') ∧ rconf r' = rconf r)
    _ _ (world L)); [reflexivity|done| |].
  - intros r0 _ Hwf. pose proof (check_liveliness_effect (clock_of_remote c) (disc_db (world L)) r0 Hwf
      (wo_leases _ _ HW)) as He.
    destruct (check_liveliness _ _ r0) as [[[db' r'] evs]|]; [by destruct He as ([? ?] & ? & ?)|].
    destruct s; [|done]. destruct (Hc eq_refl) as [_ Hcs]. destruct He. intros g. by apply (Hcs e).
  - intros L1 Hf. rewrite Hr. intros r' db Hins (Hdb & Hn & Hcf).
    apply wpl_on_db; [by eapply framed_wf|done|]. intros L2 Hf2 Hrd _. rewrite <-Hrd in Hins.
    split; [by eapply framed_trans|]. split; [by eapply insert_leases|].
    exists r'. split; [by rewrite Hins, lookup_insert_eq|done].
Qed.

(** The timeout of a reader replaced in the timer of the liveliness check,
    from a state where its entry is gone. *)
Definition set_wlp (c : Readings) (d : CoreDuration) (e : EntityId) (L : EventLoop) : EventLoop :=
  let '(t, to) := set_timeout (at_set c) d e (wlp_timer L) in
  { L with wlp_timer := t; wlp_timeouts := <[e := to]> (wlp_timeouts L) }.

Lemma set_wlp_ok c d e L L' t s :
  loop_ok L → framed ({ L with wlp_timer := t }) L' → is_Some (readers (world L) !! e) →
  tracks id (<[e := (set_timeout (at_set c) d e t).2]> (wlp_timeouts L)) (set_timeout (at_set c) d e t).1 →
  timer_all (λ e, is_Some (rconfs (world L) !! e)) t →
  (s = true → remote_leases L') → with_leases s (set_wlp c d e L').
Proof.
  intros Hok Hf He Htr Hall Hl. unfold set_wlp. split.
  - pose proof (timer_all_set (λ e, is_Some (rconfs (world L) !! e)) (at_set c) d e t) as Hset.
    rewrite <-confs_lookup_reader in He. specialize (Hset He Hall).
    reframe_with Hok Hf ltac:(revert Htr Hset; destruct (set_timeout _ _ _ t); intros Htr Hset).
  - intros Hs. specialize (Hl Hs). clear Htr. destruct (set_timeout _ _ _ (wlp_timer L')). exact Hl.
Qed.

Lemma wlp_round s : round_ok s (with_leases s) poll_wlp wlp_fired.
Proof.
  intros c L Hc [Hok Hl]. unfold wpl at 1, poll_wlp.
  destruct (timer_poll (at_poll c) (wlp_timer L)) as [t o] eqn:Ep.
  destruct (timer_all_poll _ _ _ _ _ Ep (lo_wlp_known _ Hok)) as [Hall Ha].
  destruct o as [e|]; cbn beta iota.
  - specialize (Ha e eq_refl). apply confs_lookup_reader in Ha as [r Hr].
    apply wpl_bind, wpl_get. change (world ({ L with wlp_timer := t })) with (world L). rewrite Hr.
    destruct (reader_entity _ _ _ Hok Hr) as [Hg _].
    assert (entity_id (rguid r) = e) as -> by by rewrite Hg.
    apply wpl_bind. eapply wpl_mono; [apply (check_remote_ok s c e _ r); [exact (lo_world _ Hok)|exact Hr|done]|].
    intros [] L2 (Hf & Hl2 & r2 & Hr2 & Hcf). apply wpl_bind, wpl_get. rewrite Hr2.
    apply wpl_bind, wpl_do.
    { intros Hs. apply min_lease_total; [by eapply Hl2; [apply Hl|]|]. by eapply (wo_readers _ _ (framed_wf _ _ Hf)). }
    intros d _. apply wpl_set. apply (set_wlp_ok c d e L L2 t); [done|done|by exists r| |done|by intros; apply Hl2, Hl].
    by apply (poll_tracks id _ _ _ _ _ (at_set c) d e (lo_wlp _ Hok) Ep).
  - pose proof (poll_none_tracks id _ _ _ _ (lo_wlp _ Hok) Ep). split; [rebuild Hok|exact Hl].
Qed.

Lemma set_wlp_round s : round_ok s (with_leases s) recv_wlp set_wlp_timer.
Proof.
  intros c L Hc [Hok Hl]. unfold wpl at 1, recv_wlp. destruct (wlp_queue L) as [|e q]; [by split|].
  assert (Hok1 : loop_ok ({ L with wlp_queue := q })) by rebuild Hok.
  assert (Hl1 : s = true → remote_leases ({ L with wlp_queue := q })) by exact Hl.
  generalize dependent ({ L with wlp_queue := q }). clear L Hok Hl q. intros L Hok Hl.
  apply wpl_bind, wpl_get. destruct (readers (world L) !! e) as [r|] eqn:Hr; [|by apply wpl_ret].
  destruct (reader_entity _ _ _ Hok Hr) as [Hg _].
  assert (entity_id (rguid r) = e) as -> by by rewrite Hg.
  apply wpl_bind, wpl_do.
  { intros Hs. apply min_lease_total; [by eapply Hl|]. by eapply (wo_readers _ _ (lo_world _ Hok)). }
  intros d _. apply wpl_bind, wpl_get.
  pose proof (reset_timeout_tracks id (at_set c) d e _ _ (lo_wlp _ Hok)) as Htr. unfold reset_timeout in Htr.
  cbn [fst snd] in Htr. change (id e) with e in Htr. destruct (wlp_timeouts L !! e) as [to|] eqn:Hto.
  - apply wpl_bind, wpl_bind, wpl_set.
    eapply wpl_mono; [apply (check_remote_ok s c e _ r); [exact (lo_world _ Hok)|exact Hr|done]|].
    intros [] L2 (Hf & Hl2 & _). apply wpl_set.
    apply (set_wlp_ok c d e L L2 (cancel_timeout to (wlp_timer L)).1); [done|done|by exists r| |
      by apply timer_all_cancel, (lo_wlp_known _ Hok)|by intros; apply Hl2, Hl].
    by destruct (set_timeout _ _ _ (cancel_timeout to (wlp_timer L)).1).
  - apply wpl_bind, wpl_ret, wpl_set.
    apply (set_wlp_ok c d e L L (wlp_timer L)); [done| |by exists r| |apply (lo_wlp_known _ Hok)|exact Hl].
    + replace ({ L with wlp_timer := wlp_timer L }) with L by (by destruct L). apply framed_refl, (lo_world _ Hok).
    + by destruct (set_timeout _ _ _ (wlp_timer L)).
Qed.

(** *** Liveliness of local writers *)

Lemma assert_liveliness_total now w :
  Dur.wf (lease_duration (w_liveliness (wqos w)).1) → is_Some now →
  is_Some (get_last_added_ts (wguid w) (writer_cache w)) → no_panic (assert_liveliness now w).
Proof.
  intros Hwf [n ->] [ts Hts]. unfold assert_liveliness. cbv zeta.
  change (wguid (set_alive true w)) with (wguid w). change (writer_cache (set_alive true w)) with (writer_cache w).
  change (wqos (set_alive true w)) with (wqos w). rewrite Hts.
  case_bool_decide; [apply no_panic_Done|]. cbn [unwrap mbind outcome_bind].
  destruct (ts_sub_no_panic n ts) as [el ->]. destruct (to_core_no_panic _ Hwf) as [ld ->]. cbn [mbind outcome_bind].
  case_bool_decide; apply no_panic_Done.
Qed.

Lemma writer_check_total now w :
  Dur.wf (lease_duration (w_liveliness (wqos w)).1) → is_Some now → no_panic (writer_check_liveliness now w).
Proof.
  intros Hwf [n ->]. unfold writer_check_liveliness. cbv zeta. destruct (is_alive w); [|apply no_panic_Done].
  case_bool_decide; [apply no_panic_Done|]. destruct (get_last_added_ts _ _) as [ts|]; [|apply no_panic_Done].
  cbn [unwrap mbind outcome_bind]. destruct (ts_sub_no_panic n ts) as [el ->].
  destruct (to_core_no_panic _ Hwf) as [ld ->]. cbn [mbind outcome_bind]. case_bool_decide; apply no_panic_Done.
Qed.

Lemma write_local_writer_leases g ts k db : leases_wf db → leases_wf (write_local_writer g ts k db).
Proof. unfold write_local_writer. intros Hdb. by case_bool_decide. Qed.

(** The configurations of a framed state are those of the invariant. *)
Lemma framed_writer_conf L L1 L' e w :
  loop_ok L → world L1 = world L → framed L1 L' → writers (world L') !! e = Some w →
  wguid w = mkGUID (el_guid_prefix L) e ∧ writer_conf_ok (conf w).
Proof.
  intros Hok H1 Hf Hw. apply (lo_writers _ Hok e). destruct (framed_confs _ _ Hf) as [Hc _].
  by rewrite <-H1, <-Hc, lookup_fmap, Hw.
Qed.

Lemma assert_automatic_one_ok s c now e L L1 L' :
  loop_ok L → world L1 = world L → (s = true → clocks_ok c) →
  framed L1 L' → wpl s (assert_automatic_one c now e) (λ _, framed L1) L'.
Proof.
  intros Hok H1 Hc Hf. unfold assert_automatic_one. apply wpl_bind, wpl_get.
  destruct (writers (world L') !! e) as [w|] eqn:Hw; [|by apply wpl_ret].
  destruct (framed_writer_conf _ _ _ _ _ Hok H1 Hf Hw) as [_ [_ Hlease _ _]].
  apply wpl_bind, wpl_get. destruct (read_local_writer _ _) as [ts| |]; [|by apply wpl_ret..].
  apply wpl_bind, wpl_do; [intros _; apply ts_sub_no_panic|]. intros dur _. cbv zeta.
  destruct (negb _); [by apply wpl_ret|]. case_bool_decide as Hinf; [by apply wpl_ret|].
  apply wpl_bind, wpl_do; [intros _; by apply to_core_no_panic, half_wf|]. intros half _.
  case_bool_decide; [|by apply wpl_ret]. apply wpl_bind.
  apply (wpl_on_writer _ _ _ (λ w w' _, w' = set_alive true w) _ _ (world L')); [reflexivity|by eapply framed_wf| |].
  - intros w0 Hw0 Hwf Hu. rewrite Hw in Hw0. injection Hw0 as <-.
    destruct (assert_liveliness (clock_of_writer c e) w) as [[w' evs]|] eqn:E.
    + apply assert_liveliness_inv in E as ->. auto with umber.
    + destruct s; [|done]. destruct (Hc eq_refl) as [_ Hcw].
      destruct (assert_liveliness_total (clock_of_writer c e) w Hlease) as [x Hx]; [apply (Hcw e)|by apply ww_added|congruence].
  - intros L2 Hf2. rewrite Hw. intros w' [] Hins ->. apply wpl_bind, wpl_do.
    { intros Hs. destruct (Hc Hs) as [_ Hcw]. destruct (Hcw e) as (_ & [t ->] & _). apply no_panic_Done. }
    intros t _. apply wpl_on_db; [by eapply framed_wf|intros db; apply write_local_writer_leases|].
    intros L3 Hf3 _ Hw3. by eapply framed_trans; [exact Hf|eapply framed_trans].
Qed.

Lemma assert_automatic_ok s c L :
  loop_ok L → (s = true → clocks_ok c) → wpl s (assert_automatic_liveliness c) (λ _, loop_ok) L.
Proof.
  intros Hok Hs. unfold assert_automatic_liveliness. apply wpl_bind, wpl_set, wpl_bind, wpl_get, wpl_bind.
  set (t := (timer_poll (at_poll c) (assert_liveliness_timer L)).1).
  set (L1 := { L with assert_liveliness_timer := t }).
  eapply wpl_mono; [apply (wpl_for s (framed L1))|].
  - intros i e L' _ HL'. by apply (assert_automatic_one_ok s c _ e L).
  - apply framed_refl, (lo_world _ Hok).
  - intros [] L2 Hf. apply wpl_bind, wpl_do; [by eexists|]. intros d _. apply wpl_set. clear Hs.
    pose proof (pending_set unit (at_set c) d tt t) as [_ Hp]. subst L1.
    reframe Hok Hf. eexists. by rewrite Hp, decide_True.
Qed.

Lemma check_liveliness_round s : round_ok s loop_ok poll_check_liveliness check_liveliness_fired.
Proof.
  intros c L Hc Hok. unfold wpl at 1, poll_check_liveliness.
  destruct (timer_poll (at_poll c) (check_liveliness_timer L)) as [t o] eqn:Ep.
  pose proof (pending_poll _ (at_poll c) (check_liveliness_timer L)) as Hp. rewrite Ep in Hp. cbn [fst snd] in Hp.
  pose proof (lo_check _ Hok) as Hck. destruct o as [wgs|]; cbn beta iota.
  - destruct Hp as (to0 & Hto0 & Hp). unfold check_ok in Hck.
    destruct (check_liveliness_timer_to L) as [[d to]|] eqn:Eto; last first.
    { destruct Hck as [Hn _]. by rewrite Hn in Hto0. }
    destruct Hck as (wgs' & Hpt & Huniq & Hw).
    assert (to0 = to) as -> by (apply Huniq; eauto). assert (wgs' = wgs) as -> by congruence.
    set (L1 := { L with check_liveliness_timer := t }). unfold check_liveliness_fired. apply wpl_bind.
    eapply wpl_mono; [apply (wpl_for s (framed L1))|].
    + intros i g L' _ Hf. unfold check_local_liveliness. apply wpl_bind.
      apply (wpl_on_writer _ _ _ (λ _ _ _, True) _ _ (world L')); [reflexivity|by eapply framed_wf| |].
      * intros w Hw0 Hwf Hu. destruct (framed_writer_conf L L1 L' _ _ Hok eq_refl Hf Hw0) as [_ [_ Hlease _ _]].
        destruct (writer_check_liveliness (clock_of_writer c (entity_id g)) w) as [[w' evs]|] eqn:E.
        -- split; [|done]. apply check_liveliness_inv in E as [->| ->]; [done|]. auto with umber.
        -- destruct s; [|done]. destruct (Hc eq_refl) as [_ Hcw].
           destruct (writer_check_total (clock_of_writer c (entity_id g)) w Hlease) as [x Hx]; [apply Hcw|congruence].
      * intros L2 Hf2. destruct (writers (world L') !! _); [intros w' x _ _|]; by eapply framed_trans.
    + apply framed_refl, (lo_world _ Hok).
    + intros [] L2 Hf. apply wpl_bind, wpl_get. destruct (framed_confs _ _ Hf) as [Hcw _].
      assert (check_liveliness_timer_to L2 = Some (d, to)) as -> by (destruct Hf as (? & ? & -> & _); exact Eto).
      apply wpl_bind, wpl_do; [by eexists|]. intros d' [= <-]. apply wpl_set.
      destruct (pending_set _ (at_set c) d wgs t) as [Hfresh Hps].
      assert (Hnew : check_ok (wconfs (world L)) (set_timeout (at_set c) d wgs t).1
        (Some (d, (set_timeout (at_set c) d wgs t).2))).
      { exists wgs. split; [by rewrite Hps, decide_True|]. split; [|done]. intros to'. rewrite Hps.
        case_decide as Hd; [done|]. rewrite Hp. case_decide as Hd'; [by intros [? ?]|]. intros Hs'. by apply Huniq in Hs'. }
      clear Hps Hfresh Hcw. subst L1.
      reframe_with Hok Hf ltac:(revert Hnew; destruct (set_timeout _ _ _ t); intros Hnew).
  - assert (Hnew : check_ok (wconfs (world L)) t (check_liveliness_timer_to L)).
    { unfold check_ok in *. destruct (check_liveliness_timer_to L) as [[d to]|].
      - destruct Hck as (wgs & ? & ? & ?). exists wgs. rewrite Hp. split_and!; [done| |done]. intros to'. rewrite Hp. auto.
      - destruct Hck as [? ?]. split; [|done]. intros to. by rewrite Hp. }
    rebuild Hok.
Qed.

(** *** Registration *)

(** What a new writer comes with: a cache that only its DataWriter has
    written to.  [strict] asks for what keeps the registration from aborting. *)
Record writer_ing_ok (L : EventLoop) (wi : WriterIngredients) : Prop := {
  wg_conf : writer_conf_ok (wi_conf wi);
  wg_guid : w_guid (wi_conf wi) = mkGUID (el_guid_prefix L) (entity_id (w_guid (wi_conf wi)));
  wg_new : writers (world L) !! entity_id (w_guid (wi_conf wi)) = None;
  wg_cache : hc_wf (wi_whc wi);
  wg_type : hc_type (wi_whc wi) = HcWriter;
  wg_single : single_writer (w_guid (wi_conf wi)) (wi_whc wi);
  wg_pos : positive_seqs (wi_whc wi);
  wg_locators : has_locator (mkLocators (w_unicast_locator_list (wi_conf wi))
    (w_multicast_locator_list (wi_conf wi)) [] []) = true;
}.

Lemma writer_new_wf cf whc now w wt :
  writer_new cf whc now = Done (w, wt) → hc_wf whc → hc_type whc = HcWriter →
  single_writer (w_guid cf) whc → positive_seqs whc →
  (conf w = cf ∧ writer_wf w ∧ unsent_stored w) ∧ (∀ t, wt = Some t → timer_writer t = entity_id (w_guid cf)).
Proof.
  intros E Hwf Hty Hs Hp. unfold writer_new, add_empty_change in E. cbv zeta in E.
  apply outcome_bind_Done in E as (cache & Hc & E). apply outcome_bind_Done in Hc as (ts & _ & [= <-]).
  apply outcome_bind_Done in E as (t & Ht & [= <- <-]). split_and!; [done| | |].
  - split; simpl; try done; [by apply set_last_added_wf|].
    unfold get_last_added_ts. simpl. rewrite lookup_insert_eq. by eexists.
  - intros g rp s c. simpl. by rewrite lookup_empty.
  - intros t' ->. case_bool_decide; [done|]. by apply outcome_bind_Done in Ht as (c & _ & [= <-]).
Qed.

Lemma writer_new_total cf whc now :
  writer_conf_ok cf → is_Some now → no_panic (writer_new cf whc now).
Proof.
  intros [Hd _ _ _] [ts ->]. unfold writer_new, add_empty_change. cbn [unwrap mbind outcome_bind].
  case_bool_decide; [by eexists|]. destruct (to_core_no_panic _ Hd) as [c ->]. by eexists.
Qed.

(** The state while a writer of configuration [cf] is registered: [hb] and
    [wd] say whether its heartbeat timer is set and its liveliness watched.
    [L0] is the state it began in. *)
Record registering (L0 : EventLoop) (cf : WriterConf) (hb wd : bool) (L : EventLoop) : Prop := {
  rg_frame : el_guid_prefix L = el_guid_prefix L0 ∧ wconfs (world L) = wconfs (world L0) ∧
    rconfs (world L) = rconfs (world L0);
  rg_world : world_wf (world L);
  rg_new : writers (world L) !! entity_id (w_guid cf) = None;
  rg_guid : w_guid cf = mkGUID (el_guid_prefix L) (entity_id (w_guid cf));
  rg_conf : writer_conf_ok cf;
  rg_writers : ∀ e cf, wconfs (world L) !! e = Some cf →
    w_guid cf = mkGUID (el_guid_prefix L) e ∧ writer_conf_ok cf;
  rg_readers : ∀ e cf, rconfs (world L) !! e = Some cf →
    rd_guid cf = mkGUID (el_guid_prefix L) e ∧ reader_conf_ok cf;
  rg_hb : one_each (λ e, reliable_conf <$>
    (if hb then <[entity_id (w_guid cf) := cf]> (wconfs (world L)) else wconfs (world L)) !! e = Some true)
    (writer_hb_timer L);
  rg_reader_deadline : tracks fst (reader_deadline_timeout L) (reader_deadline_timer L);
  rg_reader_deadline_known : timer_all (λ a, is_Some (rconfs (world L) !! a.1.1)) (reader_deadline_timer L);
  rg_lifespan_known : timer_all (λ a, is_Some (rconfs (world L) !! a.1)) (reader_lifespan_timer L);
  rg_writer_deadline : tracks fst (writer_deadline_timeout L) (writer_deadline_timer L);
  rg_writer_deadline_known :
    timer_all (λ a, a.1 = entity_id (w_guid cf) ∨ is_Some (wconfs (world L) !! a.1)) (writer_deadline_timer L);
  rg_wlp : tracks id (wlp_timeouts L) (wlp_timer L);
  rg_wlp_known : timer_all (λ e, is_Some (rconfs (world L) !! e)) (wlp_timer L);
  rg_assert : ∃ to, pending (assert_liveliness_timer L) to = Some tt;
  rg_check : check_ok (if wd then <[entity_id (w_guid cf) := cf]> (wconfs (world L)) else wconfs (world L))
    (check_liveliness_timer L) (check_liveliness_timer_to L);
}.

Lemma registering_start wi L : loop_ok L → writer_ing_ok L wi → registering L (wi_conf wi) false false L.
Proof. intros [] []. split; try done. eapply timer_all_impl; [done|]. auto. Qed.

Lemma registering_end L0 cf w L :
  registering L0 cf true true L → conf w = cf → writer_wf w → unsent_stored w →
  loop_ok ({ L with world := set_writers <[entity_id (w_guid cf) := w]> (world L) }).
Proof.
  intros [] Hcf Hwf Hu. rewrite <-Hcf in *. split; cbn; rewrite ?fmap_insert; try assumption.
  - destruct rg_world0. split; try done. cbn. intros e w' [[_ <-]|[_ ?]]%lookup_insert_Some; [done|by eauto].
  - intros e cf'. rewrite lookup_insert_Some. intros [[<- <-]|[_ ?]]; [done|by apply rg_writers0].
  - eapply timer_all_impl; [done|]. intros a [Ha|Ha]; rewrite lookup_insert.
    + rewrite Ha, decide_True; [by eexists|done].
    + by case_decide.
Qed.

Lemma check_ok_unwatched cf (wc : gmap EntityId WriterConf) t o :
  ¬ watched cf → check_ok wc t o → check_ok (<[entity_id (w_guid cf) := cf]> wc) t o.
Proof.
  intros Hn. unfold check_ok. destruct o as [[d to]|].
  - intros (wgs & H1 & H2 & H3). exists wgs. split_and!; [done..|].
    intros e cf' [[_ <-]|[_ ?]]%lookup_insert_Some; [done|by eapply H3].
  - intros [H1 H2]. split; [done|]. intros e cf' [[_ <-]|[_ ?]]%lookup_insert_Some; [done|by eapply H2].
Qed.

Lemma registering_hb s c L0 cf w L :
  registering L0 cf false false L → conf w = cf →
  wpl s (if is_reliable w then
           d ← ldo (heartbeat_period w);
           lset (λ L, { L with writer_hb_timer :=
             (set_timeout (at_set c) d (entity_id (wguid w)) (writer_hb_timer L)).1 })
         else mret tt) (λ _, registering L0 cf true false) L.
Proof.
  intros Hr <-. set (e := entity_id (w_guid (conf w))). change (entity_id (wguid w)) with e.
  assert (Hnew : wconfs (world L) !! e = None) by (unfold e; by rewrite lookup_fmap, (rg_new _ _ _ _ _ Hr)).
  destruct (is_reliable w) eqn:Hrel.
  - apply wpl_bind, wpl_do; [intros _; apply delay_total, (wc_heartbeat _ (rg_conf _ _ _ _ _ Hr))|].
    intros d _. apply wpl_set.
    pose proof (one_each_set _ (at_set c) d e _ (rg_hb _ _ _ _ _ Hr)) as Hs. cbn beta in Hs.
    assert (Hset : one_each (λ e', reliable_conf <$> <[e := conf w]> (wconfs (world L)) !! e' = Some true)
              (set_timeout (at_set c) d e (writer_hb_timer L)).1).
    { eapply one_each_ext; [|apply Hs; by rewrite Hnew]. intros b. rewrite lookup_insert.
      destruct (decide (e = b)) as [<-|Hne]; [|naive_solver]. split; [|by left].
      intros _. simpl. unfold reliable_conf. unfold is_reliable in Hrel. by rewrite Hrel. }
    clear Hs. destruct L, Hr. cbn in *. unfold constant in *. split; cbn; assumption.
  - apply wpl_ret. destruct Hr. split; try assumption. eapply one_each_ext; [|exact rg_hb0].
    intros b. cbn beta iota. rewrite lookup_insert. fold e. destruct (decide (e = b)) as [<-|Hne]; [|done].
    rewrite Hnew. simpl. unfold reliable_conf, is_reliable in *. by rewrite Hrel.
Qed.

(** One timer for all: it holds the new writer too, and its period does not
    exceed half of the new lease. *)
Lemma check_ok_more wc t to d cf wgs now half d' :
  check_ok wc t (Some (d, to)) → pending t to = Some wgs →
  Dur.to_core (Dur.half (lease_duration (w_liveliness (w_qos cf)).1)) = Done half →
  d' = (if bool_decide (ord_lt half d) then half else d) →
  let t' := set_timeout now d' (wgs ++ [w_guid cf]) (cancel_timeout to t).1 in
  check_ok (<[entity_id (w_guid cf) := cf]> wc) t'.1 (Some (d', t'.2)).
Proof.
  intros (wgs' & H1 & H2 & H3) Hw Hh Hd'. cbv zeta. assert (wgs' = wgs) as -> by congruence.
  destruct (pending_set _ now d' (wgs ++ [w_guid cf]) (cancel_timeout to t).1) as [_ Hp].
  destruct (pending_cancel _ to t) as [_ Hc]. exists (wgs ++ [w_guid cf]). split_and!.
  - by rewrite Hp, decide_True.
  - intros to'. rewrite Hp. destruct (decide _) as [Heq|_]; [intros _; exact Heq|]. rewrite Hc.
    destruct (decide _) as [_|Hne]; [by intros [? ?]|].
    intros Hs. by apply H2 in Hs.
  - intros e cf' [[_ <-]|[_ Hcf]]%lookup_insert_Some Hwa.
    + split; [set_solver|]. rewrite Hh. intros half' [= <-]. subst d'. case_bool_decide; [apply ord_lt_irrefl|done].
    + destruct (H3 e cf' Hcf Hwa) as [Hin Hle]. split; [set_solver|]. intros half' Hh' Hlt. apply (Hle half' Hh').
      subst d'. case_bool_decide; [by eapply ord_lt_trans|done].
Qed.

Lemma check_ok_first (wc : gmap EntityId WriterConf) t cf now half :
  check_ok wc t None → Dur.to_core (Dur.half (lease_duration (w_liveliness (w_qos cf)).1)) = Done half →
  let t' := set_timeout now half [w_guid cf] t in
  check_ok (<[entity_id (w_guid cf) := cf]> wc) t'.1 (Some (half, t'.2)).
Proof.
  intros [H1 H2] Hh. cbv zeta. destruct (pending_set _ now half [w_guid cf] t) as [_ Hp].
  exists [w_guid cf]. split_and!; [by rewrite Hp, decide_True| |].
  - intros to'. rewrite Hp. case_decide as Heq; [intros _; exact Heq|]. rewrite H1. by intros [? ?].
  - intros e cf' [[_ <-]|[_ Hcf]]%lookup_insert_Some Hwa; [|by destruct (H2 e cf' Hcf)].
    split; [set_solver|]. rewrite Hh. intros half' [= <-]. apply ord_lt_irrefl.
Qed.

Lemma registering_watch s c L0 cf w L :
  registering L0 cf true false L → conf w = cf →
  wpl s (watch_manual_liveliness c w) (λ _, registering L0 cf true true) L.
Proof.
  intros Hr <-. assert (Hskip : ¬ watched (conf w) → registering L0 (conf w) true true L).
  { intros Hn. destruct Hr. split; try assumption. by apply check_ok_unwatched. }
  assert (Hw : wpl s (watch_writer c w) (λ _, registering L0 (conf w) true true) L).
  { unfold watch_writer. cbv zeta. apply wpl_bind, wpl_get. pose proof (rg_check _ _ _ _ _ Hr) as Hck. cbn beta iota in Hck.
    destruct (to_core_no_panic _ (half_wf _ (wc_lease _ (rg_conf _ _ _ _ _ Hr)))) as [half Hhalf].
    destruct (check_liveliness_timer_to L) as [[d to]|] eqn:Eto.
    - apply wpl_bind, wpl_get. destruct (pending_cancel _ to (check_liveliness_timer L)) as [-> _].
      assert (∃ wgs, pending (check_liveliness_timer L) to = Some wgs) as [wgs Hp]
        by (destruct Hck as (wgs & ? & _); by exists wgs). rewrite Hp.
      apply wpl_bind, wpl_do; [intros _; by eexists|]. intros h E. assert (h = half) as -> by (unfold wqos in E; congruence).
      set (d' := if bool_decide (ord_lt half d) then half else d).
      pose proof (check_ok_more _ _ to d (conf w) wgs (at_set c) half d' Hck Hp Hhalf eq_refl) as Hnew. cbv zeta in Hnew.
      change (wguid w) with (w_guid (conf w)). destruct (set_timeout _ _ _ _) as [t to']. apply wpl_set.
      destruct L, Hr. cbn in *. unfold constant in *. split; cbn; assumption.
    - apply wpl_bind, wpl_do; [intros _; by eexists|]. intros h E. assert (h = half) as -> by (unfold wqos in E; congruence).
      apply wpl_set. pose proof (check_ok_first _ _ (conf w) (at_set c) half Hck Hhalf) as Hnew. cbv zeta in Hnew.
      change (wguid w) with (w_guid (conf w)). destruct (set_timeout _ _ _ _) as [t to'].
      destruct L, Hr. cbn in *. unfold constant in *. split; cbn; assumption. }
  unfold watch_manual_liveliness. destruct (liveliness_kind _) eqn:Ek; [|case_bool_decide as Hi..].
  - apply wpl_ret, Hskip. intros [Hn _]. by apply Hn.
  - apply wpl_ret, Hskip. intros [_ Hn]. by apply Hn.
  - exact Hw.
  - apply wpl_ret, Hskip. intros [_ Hn]. by apply Hn.
  - exact Hw.
Qed.

Lemma registering_deadline s c L0 cf t hb wd L :
  registering L0 cf hb wd L → timer_writer t = entity_id (w_guid cf) →
  (∃ d, t = TimerDeadline (entity_id (w_guid cf)) d) →
  wpl s (handle_set_writer_timer (λ _, c) [t]) (λ _, registering L0 cf hb wd) L.
Proof.
  intros Hr _ [d ->]. unfold handle_set_writer_timer. cbn [lfor]. apply wpl_bind, wpl_set, wpl_ret.
  set (e := entity_id (w_guid cf)).
  pose proof (reset_timeout_tracks fst (at_set c) d (e, d) _ _ (rg_writer_deadline _ _ _ _ _ Hr)) as Ht.
  pose proof (reset_timeout_all fst (λ a, a.1 = e ∨ is_Some (wconfs (world L) !! a.1)) (at_set c) d (e, d)
    (writer_deadline_timeout L) _ (or_introl eq_refl) (rg_writer_deadline_known _ _ _ _ _ Hr)) as Ha.
  destruct (reset_timeout _ _ _ _ _) as [m t]. destruct L, Hr. cbn in *. unfold constant in *. split; cbn; assumption.
Qed.

Lemma match_spdp_group_ok s w L :
  writer_wf w → unsent_stored w →
  wpl s (match_spdp_group w)
    (λ w' L', L' = L ∧ conf w' = conf w ∧ writer_wf w' ∧ unsent_stored w') L.
Proof.
  intros Hwf Hu. unfold match_spdp_group. destruct (bool_decide _); [|by apply wpl_ret].
  apply wpl_bind, wpl_get, wpl_bind, wpl_do.
  - intros _. unfold matched_reader_add, matched_reader_add_with_default_locator.
    destruct (matched_readers w !! GUID_UNKNOW); [by eexists|].
    destruct (writer_is_compatible _ _); [by eexists|].
    destruct (rp_new_Done (wguid w) GUID_UNKNOW false
      (mkLocators [] [Loc.new_from_ipv4 (spdp_multicast_port (el_domain_id L)) [239; 255; 0; 1]] [] [])
      spdp_reader_qos (writer_cache w) (w_push_mode (conf w)) (ww_cache _ Hwf) (ww_single _ Hwf) eq_refl)
      as (rp & -> & _). by eexists.
  - intros [w' evs] E. apply (matched_reader_add_inv _ _ _ _ _ _ _ Hwf) in E as (Hwf' & _ & Hcf & Hu').
    apply wpl_bind. eapply wpl_mono; [apply (wpl_for s (λ L', L' = L)); [by intros ? ? ? _ ->|done]|].
    intros [] L' ->. apply wpl_ret. auto.
Qed.

(** What a registration adds. *)
Definition registered_writer (cf : WriterConf) (L L' : EventLoop) : Prop :=
  loop_ok L' ∧ el_guid_prefix L' = el_guid_prefix L ∧ rconfs (world L') = rconfs (world L) ∧
  wconfs (world L') = <[entity_id (w_guid cf) := cf]> (wconfs (world L)).

Lemma deadline_of_new cf whc now w t : writer_new cf whc now = Done (w, Some t) →
  ∃ d, t = TimerDeadline (entity_id (w_guid cf)) d.
Proof.
  unfold writer_new. intros (cache & _ & E)%outcome_bind_Done. cbv zeta in E.
  apply outcome_bind_Done in E as (t' & Ht & [= _ ->]). case_bool_decide; [done|].
  apply outcome_bind_Done in Ht as (c & _ & [= <-]). by eexists.
Qed.

Lemma register_writer_ok s c wi L :
  loop_ok L → writer_ing_ok L wi → (s = true → clocks_ok c) →
  wpl s (register_writer c wi) (λ _, registered_writer (wi_conf wi) L) L.
Proof.
  intros Hok Hwi Hc. unfold register_writer. set (cf := wi_conf wi). set (e := entity_id (w_guid cf)).
  apply wpl_bind, wpl_do; [intros Hs; apply writer_new_total; [apply Hwi|by apply Hc]|].
  intros [w wt] Hnew. destruct (writer_new_wf _ _ _ _ _ Hnew) as [(Hcf & Hwf & Hu) Ht]; [apply Hwi..|].
  pose proof (registering_start wi L Hok Hwi) as Hr. fold cf in Hr. apply wpl_bind.
  eapply (wpl_mono _ _ (λ _, registering L cf false false)).
  { destruct wt as [t|]; [|by apply wpl_ret]. apply registering_deadline; [done|by apply Ht|by eapply deadline_of_new]. }
  clear Hr Ht Hnew. intros [] L1 Hr. apply wpl_bind. eapply wpl_mono; [by apply match_spdp_group_ok|].
  intros w' L2 (-> & Hcf' & Hwf' & Hu'). rewrite Hcf in Hcf'. clear w wt Hcf Hwf Hu. cbv zeta.
  assert (He : entity_id (wguid w') = e) by (unfold wguid; by rewrite Hcf').
  apply wpl_bind. eapply wpl_mono; [by apply (registering_hb s c L cf)|]. clear Hr.
  intros [] L3 Hr. apply wpl_bind. eapply wpl_mono; [by apply (registering_watch s c L cf)|]. clear Hr.
  intros [] L4 Hr. apply wpl_bind. eapply (wpl_mono _ _ (λ _ L, L = L4)).
  { destruct (bool_decide _); [by apply wpl_ret|]. apply wpl_bind, wpl_do; [|by intros d _].
    intros _. unfold writer_sedp_data, wp_new. rewrite Hcf'. fold cf in Hwi.
    pose proof (wg_locators _ _ Hwi) as Hl. fold cf in Hl. rewrite Hl. by eexists. }
  intros [] L5 ->. apply wpl_bind, wpl_do.
  { intros Hs. destruct (Hc Hs) as [_ Hcw]. destruct (Hcw (entity_id (wguid w'))) as (_ & [t ->] & _). by eexists. }
  intros now _. apply wpl_bind, wpl_on_db; [apply Hr|intros db; apply write_local_writer_leases|].
  intros L6 Hf Hrd Hwr. apply wpl_set. rewrite He.
  destruct (framed_confs _ _ Hf) as [Hcw Hcr].
  assert (Hr6 : registering L cf true true L6).
  { pose proof (framed_wf _ _ Hf). destruct Hf as (W & q & -> & _). destruct L4, Hr. cbn in *. unfold constant in *.
    split; cbn; rewrite ?Hcw, ?Hcr, ?Hwr; assumption. }
  split; [by apply (registering_end L)|]. destruct (rg_frame _ _ _ _ _ Hr6) as (Hp & Hwc & Hrc). cbn.
  split; [done|]. split; [done|]. by rewrite fmap_insert, Hcf', Hwc.
Qed.

Record reader_ing_ok (L : EventLoop) (ri : ReaderIngredients) : Prop := {
  rdg_conf : reader_conf_ok (ri_conf ri);
  rdg_guid : rd_guid (ri_conf ri) = mkGUID (el_guid_prefix L) (entity_id (rd_guid (ri_conf ri)));
  rdg_new : readers (world L) !! entity_id (rd_guid (ri_conf ri)) = None;
  rdg_cache : hc_wf (ri_rhc ri);
  rdg_type : hc_type (ri_rhc ri) = HcReader;
  rdg_locators : has_locator (mkLocators (rd_unicast_locator_list (ri_conf ri))
    (rd_multicast_locator_list (ri_conf ri)) [] []) = true;
}.

Definition registered_reader (cf : ReaderConf) (L L' : EventLoop) : Prop :=
  loop_ok L' ∧ el_guid_prefix L' = el_guid_prefix L ∧ wconfs (world L') = wconfs (world L) ∧
  rconfs (world L') = <[entity_id (rd_guid cf) := cf]> (rconfs (world L)).

Lemma reader_sedp_total r :
  has_locator (mkLocators (rd_unicast_locator_list (rconf r)) (rd_multicast_locator_list (rconf r)) [] []) = true →
  no_panic (reader_sedp_data r).
Proof.
  intros Hl. assert (Hs : single_writer (rguid r) (hc_new HcDummy)).
  { intros k [c Hc]. simpl in Hc. by rewrite lookup_empty in Hc. }
  destruct (rp_new_Done (rguid r) (rguid r) (rd_expectsinline_qos (rconf r)) _ (rqos r) (hc_new HcDummy) true
    (hc_new_wf _) Hs Hl) as (rp & E & _). unfold reader_sedp_data. rewrite E. by eexists.
Qed.

Lemma register_reader_ok s ri L :
  loop_ok L → reader_ing_ok L ri →
  wpl s (register_reader ri) (λ _, registered_reader (ri_conf ri) L) L.
Proof.
  intros Hok Hri. unfold register_reader. cbv zeta. apply wpl_bind.
  set (r := reader_new (ri_conf ri) (ri_rhc ri)). eapply (wpl_mono _ _ (λ _ L', L' = L)).
  { destruct (bool_decide _); [by apply wpl_ret|]. apply wpl_bind, wpl_do; [|by intros d _].
    intros _. apply reader_sedp_total, Hri. }
  intros [] L' ->. apply wpl_set. change (rguid r) with (rd_guid (ri_conf ri)).
  set (e := entity_id (rd_guid (ri_conf ri))).
  assert (Hext : ∀ e', is_Some (rconfs (world L) !! e') → is_Some (rconf <$> <[e := r]> (readers (world L)) !! e')).
  { intros e'. rewrite lookup_fmap, fmap_is_Some, fmap_is_Some, lookup_insert. by case_decide. }
  assert (Hwf : reader_wf r).
  { destruct Hri as [[Hd _] _ _ Hc Ht _]. split; try done; simpl; intros g wp; by rewrite lookup_empty. }
  split; [|cbn; split_and!; [done..|by rewrite fmap_insert]].
  destruct Hok. split; cbn; try assumption.
  - destruct lo_world0. split; try done. cbn. intros e' r' [[_ <-]|[_ ?]]%lookup_insert_Some; [done|by eauto].
  - intros e' cf. rewrite fmap_insert, lookup_insert_Some.
    intros [[<- <-]|[_ ?]]; [split; apply Hri|by apply lo_readers0].
  - eapply timer_all_impl; [done|]. intros a Ha. rewrite lookup_fmap. by apply Hext.
  - eapply timer_all_impl; [done|]. intros a Ha. rewrite lookup_fmap. by apply Hext.
  - eapply timer_all_impl; [done|]. intros a Ha. rewrite lookup_fmap. by apply Hext.
Qed.

(** *** Lists of registrations *)

Definition ing_key (i : Ingredients) : bool * EntityId :=
  match i with
  | IngWriter wi => (true, entity_id (w_guid (wi_conf wi)))
  | IngReader ri => (false, entity_id (rd_guid (ri_conf ri)))
  end.
Definition ing_ok (L : EventLoop) (i : Ingredients) : Prop :=
  match i with IngWriter wi => writer_ing_ok L wi | IngReader ri => reader_ing_ok L ri end.
Definition ings_ok (L : EventLoop) (l : list Ingredients) : Prop :=
  NoDup (ing_key <$> l) ∧ Forall (ing_ok L) l.

Definition registered (i : Ingredients) (L L' : EventLoop) : Prop :=
  match i with
  | IngWriter wi => registered_writer (wi_conf wi) L L'
  | IngReader ri => registered_reader (ri_conf ri) L L'
  end.

Lemma confs_none {A B} (f : A → B) (m : gmap EntityId A) e : m !! e = None ↔ (f <$> m) !! e = None.
Proof. by rewrite lookup_fmap, fmap_None. Qed.

Lemma ing_ok_after i j L L' : registered i L L' → ing_key i ≠ ing_key j → ing_ok L j → ing_ok L' j.
Proof.
  intros Hi Hne Hj.
  destruct i as [wi|ri]; destruct Hi as (_ & Hp & Hc & Hins); destruct j as [wj|rj]; simpl in *;
    destruct Hj; split; try done; rewrite ?Hp; try done.
  - rewrite (confs_none conf), Hins, lookup_insert_ne by congruence. by rewrite <-confs_none.
  - by rewrite (confs_none rconf), Hc, <-confs_none.
  - by rewrite (confs_none conf), Hc, <-confs_none.
  - rewrite (confs_none rconf), Hins, lookup_insert_ne by congruence. by rewrite <-confs_none.
Qed.

Lemma register_ok s c i L :
  loop_ok L → ing_ok L i → (s = true → clocks_ok c) → wpl s (register c i) (λ _, registered i L) L.
Proof. destruct i; simpl; intros; [by apply register_writer_ok|by apply register_reader_ok]. Qed.

(** The configurations after a list of registrations. *)
Definition add_conf (cs : gmap EntityId WriterConf * gmap EntityId ReaderConf) (i : Ingredients)
    : gmap EntityId WriterConf * gmap EntityId ReaderConf :=
  match i with
  | IngWriter wi => (<[entity_id (w_guid (wi_conf wi)) := wi_conf wi]> cs.1, cs.2)
  | IngReader ri => (cs.1, <[entity_id (rd_guid (ri_conf ri)) := ri_conf ri]> cs.2)
  end.
Definition all_registered (l : list Ingredients) (L L' : EventLoop) : Prop :=
  loop_ok L' ∧ el_guid_prefix L' = el_guid_prefix L ∧
  (wconfs (world L'), rconfs (world L')) = foldl add_conf (wconfs (world L), rconfs (world L)) l.

Lemma register_all_main s c l L :
  loop_ok L → ings_ok L l → (s = true → ∀ i, clocks_ok (c i)) →
  wpl s (register_builtin_endpoints c l) (λ _, all_registered l L) L.
Proof.
  unfold register_builtin_endpoints. intros Hok [Hnd Hall] Hc. revert c L Hok Hall Hc.
  induction l as [|i l IH]; intros c L Hok Hall Hc; [by apply wpl_ret|].
  cbn [fmap list_fmap] in Hnd. apply NoDup_cons in Hnd as [Hni Hnd]. apply Forall_cons in Hall as [Hi Hall].
  cbn [lfor]. apply wpl_bind. eapply wpl_mono; [apply register_ok; by auto|]. intros [] L1 H1.
  eapply wpl_mono.
  - apply (IH Hnd (c ∘ S)); [by destruct i; apply H1| |intros Hs j; by apply Hc].
    apply Forall_forall. intros j Hj. apply (ing_ok_after i j L); [done| |by rewrite Forall_forall in Hall; apply Hall].
    intros He. apply Hni. rewrite He. apply list_elem_of_fmap. by exists j.
  - intros [] L2 (H2 & Hp & Hcf). split; [done|]. rewrite Hp, Hcf. cbn [foldl].
    destruct i; destruct H1 as (_ & -> & -> & ->); done.
Qed.
Lemma register_all_ok s c l L :
  loop_ok L → ings_ok L l → (s = true → ∀ i, clocks_ok (c i)) →
  wpl s (register_builtin_endpoints c l) (λ _, loop_ok) L.
Proof. intros. eapply wpl_mono; [by apply register_all_main|]. by intros [] L' []. Qed.

Lemma lfor_fmap {A B} (f : A → B) (l : list A) (body : nat → B → lp unit) :
  lfor (f <$> l) body = lfor l (λ i x, body i (f x)).
Proof. revert body. induction l as [|x l IH]; intros body; [done|]. cbn. by rewrite IH. Qed.

(** *** Commands of the DataWriters *)

Lemma deadline_timer_writer w t : deadline_timer w = Done (Some t) → timer_writer t = entity_id (wguid w).
Proof.
  unfold deadline_timer. cbv zeta. case_bool_decide; [done|]. by intros (c & _ & [= <-])%outcome_bind_Done.
Qed.

Lemma write_cmd_timer now w w' evs t :
  handle_write_data_cmd now w = Done (w', evs, Some t) → timer_writer t = entity_id (wguid w).
Proof.
  unfold handle_write_data_cmd. cbv zeta. intros ([cache seqs] & _ & E)%outcome_bind_Done.
  destruct (bt_elems seqs) as [|s l]; [done|]. apply outcome_bind_Done in E as (wt & Hwt & E).
  apply outcome_bind_Done in E as ([w1 [td tg]] & _ & E). apply outcome_bind_Done in E as (r1 & _ & E).
  apply outcome_bind_Done in E as (r2 & _ & E). destruct r2 as [w2 evs2]. injection E as _ _ ->.
  rewrite (deadline_timer_writer _ _ Hwt). unfold wguid.
  assert (conf (register_unprocessed (s :: l) (set_writer_cache (λ _, cache) (set_alive true w))) = conf w) as Hcf
    by by rewrite register_unprocessed_alt.
  destruct (is_reliable _); by rewrite ?remove_acked_conf, Hcf.
Qed.

Lemma cmds_loop now e cmds w evs wts :
  writer_wf w → unsent_stored w → Dur.wf (period (w_deadline (wqos w)).1) → entity_id (wguid w) = e →
  Forall (λ t, timer_writer t = e) wts →
  ∃ w' evs' wts', foldM (handle_one_cmd now) (w, evs, wts) cmds = Done (w', evs', wts') ∧
    (conf w' = conf w ∧ writer_wf w' ∧ unsent_stored w') ∧ Forall (λ t, timer_writer t = e) wts'.
Proof.
  revert w evs wts. induction cmds as [|[i cmd] cmds IH]; intros w evs wts Hwf Hu Hd He Ht; [by eauto 10|].
  rewrite foldM_cons. destruct cmd.
  - destruct (handle_write_data_cmd_main (now i) w Hwf Hu Hd) as (w1 & ev1 & wt & E & (Hcf & Hwf1 & Hu1) & _).
    assert (handle_one_cmd now (w, evs, wts) (i, WriteData) = Done (w1, evs ++ ev1,
      wts ++ match wt with Some t => [t] | None => [] end)) as -> by (unfold handle_one_cmd; cbn [fst snd]; by rewrite E).
    cbn [mbind outcome_bind]. destruct (IH w1 (evs ++ ev1) (wts ++ match wt with Some t => [t] | None => [] end))
      as (w' & evs' & wts' & E2 & (Hcf2 & ? & ?) & ?); [done|done|by unfold wqos; rewrite Hcf
      |by unfold wguid; rewrite Hcf| |].
    + apply Forall_app. split; [done|]. destruct wt as [t|]; [|by constructor].
      apply Forall_singleton. rewrite <-He. by eapply write_cmd_timer.
    + eexists _, _, _. split; [exact E2|]. by rewrite Hcf2, Hcf.
  - destruct (send_heart_beat_inv (now i 0 0%nat) true (set_alive true w)) as (Hwf1 & Hcf & Hu1); [auto with umber|].
    destruct (send_heart_beat (now i 0 0%nat) true (set_alive true w)) as [w1 ev1] eqn:E. cbn [fst] in *.
    assert (handle_one_cmd now (w, evs, wts) (i, AssertLiveliness) = Done (w1, evs ++ ev1, wts)) as ->
      by (unfold handle_one_cmd, assert_liveliness_manually; cbn [fst snd]; by rewrite E).
    cbn [mbind outcome_bind].
    destruct (IH w1 (evs ++ ev1) wts) as (w' & evs' & wts' & E2 & (Hcf2 & ? & ?) & ?); [done|by apply Hu1
      |by unfold wqos; rewrite Hcf|by unfold wguid; rewrite Hcf|done|].
    eexists _, _, _. split; [exact E2|]. by rewrite Hcf2, Hcf.
Qed.

Lemma entity_token_ok s c ct now e cmds L :
  loop_ok L → (s = true → clocks_ok c ∧ is_writer e = true) →
  wpl s (handle_entity_token c ct now e cmds) (λ _, loop_ok) L.
Proof.
  intros Hok Hs. unfold handle_entity_token. destruct (is_writer e) eqn:Ee; last first.
  { apply wpl_do; [|done]. intros Ht. by destruct (Hs Ht). }
  apply wpl_bind, wpl_get. destruct (writers (world L) !! e) as [w|] eqn:Hw; [|by apply wpl_ret].
  destruct (writer_entity _ _ _ Hok Hw) as [Hg [Hd _ _ _]].
  apply wpl_bind, wpl_get, wpl_bind, wpl_do.
  { intros Ht. destruct (Hs Ht) as [[[t ->] _] _]. by eexists. }
  intros t _. apply wpl_bind, wpl_on_db; [apply Hok|intros db; apply write_local_writer_leases|].
  intros L1 Hf _ Hw1. rewrite <-Hw1 in Hw. apply wpl_bind.
  apply (wpl_on_writer _ _ _ (λ _ _ o, Forall (λ t, timer_writer t = e) (default [] o)) _ _ (world L1));
    [reflexivity|by eapply framed_wf| |].
  - intros w0 Hw0 Hwf Hu. assert (w0 = w) as -> by congruence. unfold handle_writer_cmd.
    destruct (cmds_loop now e (imap pair cmds) w [] [] Hwf Hu Hd) as (w' & evs & wts & -> & Hi & Ht);
      [by rewrite Hg|by constructor|]. cbn [mbind outcome_bind]. split; [done|]. by destruct (bool_decide _).
  - intros L2 Hf2. rewrite Hw. intros w' o _ Ht. pose proof (framed_trans _ _ _ Hf Hf2) as Hf3.
    cbn [mjoin option_join]. destruct o as [wts|]; [|apply wpl_ret; by eapply loop_ok_framed].
    apply handle_set_writer_timer_ok; [by eapply loop_ok_framed|]. eapply Forall_impl; [exact Ht|].
    intros t' ->. destruct (framed_confs _ _ Hf3) as [-> _]. rewrite confs_lookup_writer, <-Hw1. by exists w.
Qed.

(** *** Lost participants *)

Lemma wpl_for_done s {A} (I : EventLoop → Prop) (D : A → EventLoop → Prop) (l : list A) (body : nat → A → lp unit) L :
  (∀ i x L, x ∈ l → I L → wpl s (body i x) (λ _ L', I L' ∧ D x L' ∧ ∀ y, D y L → D y L') L) → I L →
  wpl s (lfor l body) (λ _ L', I L' ∧ (∀ x, x ∈ l → D x L') ∧ ∀ y, D y L → D y L') L.
Proof.
  revert body L. induction l as [|x l IH]; intros body L Hb HL.
  { apply wpl_ret. split_and!; [done|by intros ? ?%elem_of_nil|done]. }
  apply wpl_bind. eapply wpl_mono; [apply Hb; [left|done]|]. intros [] L1 (H1 & Hx & Hk1).
  eapply wpl_mono; [apply (IH (body ∘ S)); [|exact H1]|].
  - intros i y L2 Hy. apply Hb. by right.
  - intros [] L2 (H2 & Hl & Hk2). split_and!; [done| |by auto]. intros y [->|Hy]%elem_of_cons; auto.
Qed.

(** No endpoint knows an endpoint of the participant [p]. *)
Definition reader_forgets (p : GuidPrefix) (e : EntityId) (L : EventLoop) : Prop :=
  ∀ r g, readers (world L) !! e = Some r → guid_prefix g = p → known g r = None ∧ matched_writers r !! g = None.
Definition writer_forgets (p : GuidPrefix) (e : EntityId) (L : EventLoop) : Prop :=
  ∀ w g, writers (world L) !! e = Some w → guid_prefix g = p → matched_readers w !! g = None.
Definition forgotten (p : GuidPrefix) (L : EventLoop) : Prop :=
  (∀ e, reader_forgets p e L) ∧ (∀ e, writer_forgets p e L).

(** A reader, or a writer, that removes the proxies of [p]. *)
Lemma reader_forgotten p r L L' e :
  readers (world L) !! e = Some r →
  readers (world L') = <[e := (delete_writer_proxy p r).1]> (readers (world L)) →
  reader_forgets p e L' ∧ ∀ q e', reader_forgets q e' L → reader_forgets q e' L'.
Proof.
  intros Hr Hins. assert (Hl : ∀ g, known g (delete_writer_proxy p r).1 =
        (if bool_decide (guid_prefix g = p) then None else known g r) ∧
      matched_writers (delete_writer_proxy p r).1 !! g =
        (if bool_decide (guid_prefix g = p) then None else matched_writers r !! g))
    by (intros g; unfold known; destruct (delete_writer_proxy_lookup p r g) as [-> ->]; by case_bool_decide).
  split.
  - intros r' g. rewrite Hins, lookup_insert_eq. intros [= <-] Hg. destruct (Hl g) as [-> ->].
    by rewrite !bool_decide_true.
  - intros q e' Hq r' g. rewrite Hins, lookup_insert_Some. intros [[<- <-]|[_ ?]] Hg; [|by eapply Hq].
    destruct (Hl g) as [-> ->], (Hq r g Hr Hg) as [-> ->]. by case_bool_decide.
Qed.
Lemma writer_forgotten p w L L' e :
  writers (world L) !! e = Some w →
  writers (world L') = <[e := (delete_reader_proxy p w).1]> (writers (world L)) →
  writer_forgets p e L' ∧ ∀ q e', writer_forgets q e' L → writer_forgets q e' L'.
Proof.
  intros Hw Hins. split.
  - intros w' g. rewrite Hins, lookup_insert_eq. intros [= <-] Hg. by rewrite delete_reader_proxy_lookup, bool_decide_true.
  - intros q e' Hq w' g. rewrite Hins, lookup_insert_Some. intros [[<- <-]|[_ ?]] Hg; [|by eapply Hq].
    rewrite delete_reader_proxy_lookup, (Hq w g Hw Hg). by case_bool_decide.
Qed.

(** The two loops over the endpoints. *)
Lemma readers_forget s p L l :
  world_wf (world L) →
  wpl s (lfor l (λ _ e, _ ← on_reader e (λ r, let '(r, evs) := delete_writer_proxy p r in Done (r, evs, tt)); mret tt))
    (λ _ L', (framed L L' ∧ writers (world L') = writers (world L) ∧
        ∀ q e, reader_forgets q e L → reader_forgets q e L') ∧ ∀ e, e ∈ l → reader_forgets p e L') L.
Proof.
  intros HW. eapply wpl_mono.
  { apply (wpl_for_done s (λ L', framed L L' ∧ writers (world L') = writers (world L) ∧
        ∀ q e, reader_forgets q e L → reader_forgets q e L') (reader_forgets p)); [|split; [by apply framed_refl|done]].
    intros i e L1 _ (Hf & Hw & Hq). apply wpl_bind.
    apply (wpl_on_reader_full _ _ _ (λ r r' _, r' = (delete_writer_proxy p r).1) _ _ (world L1));
      [reflexivity|by eapply framed_wf| |].
    - intros r _ Hwf. pose proof (delete_writer_proxy_wf p r Hwf) as Hd. by destruct (delete_writer_proxy p r).
    - intros L2 Hf2 Hw2. destruct (readers (world L1) !! e) as [r|] eqn:Hr.
      + intros r' _ Hins ->. apply wpl_ret. destruct (reader_forgotten p r L1 L2 e Hr Hins) as [H1 H2].
        split_and!; [by eapply framed_trans|congruence|by auto|done|by auto].
      + intros Hsame. apply wpl_ret. unfold reader_forgets in *. rewrite Hsame, Hw2.
        split_and!; [by eapply framed_trans|done|done|by rewrite Hr|done]. }
  intros [] L1 (HI & Hl & _). by split.
Qed.
Lemma writers_forget s p L l :
  world_wf (world L) →
  wpl s (lfor l (λ _ e, _ ← on_writer e (λ w, let '(w, evs) := delete_reader_proxy p w in Done (w, evs, tt)); mret tt))
    (λ _ L', (framed L L' ∧ readers (world L') = readers (world L) ∧
        ∀ q e, writer_forgets q e L → writer_forgets q e L') ∧ ∀ e, e ∈ l → writer_forgets p e L') L.
Proof.
  intros HW. eapply wpl_mono.
  { apply (wpl_for_done s (λ L', framed L L' ∧ readers (world L') = readers (world L) ∧
        ∀ q e, writer_forgets q e L → writer_forgets q e L') (writer_forgets p)); [|split; [by apply framed_refl|done]].
    intros i e L1 _ (Hf & Hr & Hq). apply wpl_bind.
    apply (wpl_on_writer_full _ _ _ (λ w w' _, w' = (delete_reader_proxy p w).1) _ _ (world L1));
      [reflexivity|by eapply framed_wf| |].
    - intros w _ Hwf Hu. pose proof (delete_reader_proxy_inv p w Hwf) as [H1 H2].
      pose proof (delete_reader_proxy_conf p w). destruct (delete_reader_proxy p w). cbn [fst] in *. auto.
    - intros L2 Hf2 Hr2. destruct (writers (world L1) !! e) as [w|] eqn:Hw.
      + intros w' _ Hins ->. apply wpl_ret. destruct (writer_forgotten p w L1 L2 e Hw Hins) as [H1 H2].
        split_and!; [by eapply framed_trans|congruence|by auto|done|by auto].
      + intros Hsame. apply wpl_ret. unfold writer_forgets in *. rewrite Hsame, Hr2.
        split_and!; [by eapply framed_trans|done|done|by rewrite Hw|done]. }
  intros [] L1 (HI & Hl & _). by split.
Qed.

Lemma remove_participant_main s p L :
  loop_ok L →
  wpl s (remove_discoverd_participant p)
    (λ _ L', loop_ok L' ∧ forgotten p L' ∧ ∀ q, forgotten q L → forgotten q L') L.
Proof.
  intros Hok. unfold remove_discoverd_participant. apply wpl_bind, wpl_get, wpl_bind.
  eapply wpl_mono; [apply readers_forget, Hok|]. intros [] L1 ((Hf & Hw & Hq) & Hl). apply wpl_bind, wpl_get.
  eapply wpl_mono; [by apply writers_forget; eapply framed_wf|]. intros [] L2 ((Hf2 & Hr2 & Hq2) & Hl2).
  pose proof (framed_trans _ _ _ Hf Hf2) as Hf3. destruct (framed_confs _ _ Hf3) as [Hcw Hcr].
  destruct (framed_confs _ _ Hf) as [Hcw1 _]. split; [by eapply loop_ok_framed|].
  assert (Hr : ∀ q e, reader_forgets q e L1 → reader_forgets q e L2) by (unfold reader_forgets; by rewrite Hr2).
  assert (Hw1 : ∀ q e, writer_forgets q e L → writer_forgets q e L1) by (unfold writer_forgets; by rewrite Hw).
  split; [split|intros q [H1 H2]; split; auto].
  - intros e r g He. eapply Hr; [|exact He]. apply Hl, elem_of_bt_keys, confs_lookup_reader.
    rewrite <-Hcr, lookup_fmap, He. by eexists.
  - intros e w g He. eapply Hl2; [|exact He]. apply elem_of_bt_keys, confs_lookup_writer.
    rewrite Hcw1, <-Hcw, lookup_fmap, He. by eexists.
Qed.
End invariant.
