(* ===== verification/Sharing.v ===== *)
(** * What the event loop does to the shared caches

    A writer of the event loop shares its cache with a DataWriter.  Whatever
    the loop handles, no endpoint goes away, no writer changes its
    configuration and nothing is added to the cache of a writer: the loop
    only takes changes out, and only a registration brings new endpoints.
    The property needs no invariant, and every operation of the monads [rcv]
    and [lp] passes it on. *)
From stdpp Require Import base tactics numbers list gmap strings.
From coqutil Require Import Datatypes.RecordSetters.
From S2P Require Import Prelude Ordered Ids Time SeqNum Qos HistoryCache Topic Message Proxy Writer WriterProofs.
From S2P Require Import DiscoveryData DiscoveryDB Reader ReaderProofs Speedy Wire ParameterList Receiver.
From S2P Require Import ReceiverProofs Timer Tokens EventLoop EventLoopProofs.
Import OCamlLikeNotations.

Create HintDb sharing.

(** ** One writer *)

(** [w] is [w0] some time later, with fewer changes in the cache. *)
Definition lessened (w0 w : Writer) : Prop :=
  conf w = conf w0 ∧ changes (writer_cache w) ⊆ changes (writer_cache w0).
#[export] Instance lessened_preorder : PreOrder lessened.
Proof. split; [by intros w|]. intros w1 w2 w3 [E1 H1] [E2 H2]. split; [by rewrite E2|by etrans]. Qed.

Definition lessens {A} (f : Writer → outcome (Writer * list WriterEvent * A)) : Prop :=
  ∀ w w' evs a, f w = Done (w', evs, a) → lessened w w'.

Lemma remove_acked_lessened base w : lessened w (remove_acked_changes base w).
Proof. split; [apply remove_acked_conf|apply remove_acked_subseteq]. Qed.

Lemma send_heart_beat_lessened now liv w : lessened w (send_heart_beat now liv w).1.
Proof.
  unfold send_heart_beat. destruct (negb liv && _); [done|]. cbv zeta.
  set (w0 := if liv then set_alive true w else w). assert (H0 : lessened w w0) by (unfold w0; by destruct liv).
  pose proof (remove_acked_lessened (get_seq_num_max (writer_cache w0)) w0) as H1.
  destruct (bool_decide _ || _ || _); cbn [fst]; by etrans.
Qed.

Lemma forget_lessened s w : lessened w (forget_if_best_effort s w).
Proof. unfold forget_if_best_effort. destruct (is_reliable w); [done|]. split; [done|apply remove_change_subseteq]. Qed.

(** A loop whose body takes changes out. *)
Lemma foldM_lessened {B} (f : Writer * list WriterEvent → B → outcome (Writer * list WriterEvent)) l acc acc' :
  (∀ acc x acc', f acc x = Done acc' → lessened acc.1 acc'.1) → foldM f acc l = Done acc' → lessened acc.1 acc'.1.
Proof.
  intros Hf. revert acc. induction l as [|x l IH]; intros acc; [by intros [= ->]|].
  rewrite foldM_cons. intros (acc1 & H1%Hf & H2)%outcome_bind_Done. etrans; [exact H1|by apply IH].
Qed.

Lemma send_one_data_lessened now q acc s acc' : send_one_data now q acc s = Done acc' → lessened acc.1 acc'.1.
Proof. destruct acc as [w evs]. unfold send_one_data. intros. outcome_simplify. apply forget_lessened. Qed.
Lemma send_one_gap_lessened q acc s acc' : send_one_gap q acc s = Done acc' → lessened acc.1 acc'.1.
Proof. destruct acc as [w evs]. unfold send_one_gap. intros. outcome_simplify. apply forget_lessened. Qed.
Lemma resend_one_lessened now q acc s acc' : resend_one now q acc s = Done acc' → lessened acc.1 acc'.1.
Proof. destruct acc as [w evs]. unfold resend_one. intros. outcome_simplify. by case_match; simplify_eq. Qed.
Lemma resend_gap_lessened q acc s acc' : resend_gap q acc s = Done acc' → lessened acc.1 acc'.1.
Proof. destruct acc as [w evs]. unfold resend_gap. intros. by outcome_simplify. Qed.

Lemma write_data_lessened now w w' evs wt : handle_write_data_cmd now w = Done (w', evs, wt) → lessened w w'.
Proof.
  unfold handle_write_data_cmd. cbv zeta. unfold get_unprocessed. destruct (is_hc_writer _); [|done].
  cbn [mbind outcome_bind]. destruct (bt_elems _) as [|oldest seqs]; [by intros [= <- _ _]|].
  set (w0 := set_writer_cache _ _). assert (H0 : lessened w w0) by by split.
  set (w1 := register_unprocessed _ w0).
  assert (H1 : lessened w w1) by (etrans; [exact H0|]; unfold w1; rewrite register_unprocessed_alt; by split).
  set (w2 := if is_reliable w1 then _ else _).
  assert (H2 : lessened w w2).
  { unfold w2. destruct (is_reliable w1); [|done]. etrans; [exact H1|apply remove_acked_lessened]. }
  intros (wt' & _ & H)%outcome_bind_Done. apply outcome_bind_Done in H as ([w3 [qd qg]] & H3 & H).
  unfold collect_unsent in H3. apply outcome_bind_Done in H3 as (r & _ & [= <- _]).
  apply outcome_bind_Done in H as (r1 & H4%foldM_lessened & H); [|apply send_one_data_lessened].
  apply outcome_bind_Done in H as (r2 & H5%foldM_lessened & H); [|apply send_one_gap_lessened].
  injection H as H _. rewrite H in H5. etrans; [exact H2|]. etrans; [|exact H5]. etrans; [|exact H4]. by split.
Qed.

Lemma one_cmd_lessened now acc cmd acc' : handle_one_cmd now acc cmd = Done acc' → lessened acc.1.1 acc'.1.1.
Proof.
  destruct acc as [[w evs] wts]. unfold handle_one_cmd. destruct cmd.2.
  - intros ([[w1 evs1] wt] & H%write_data_lessened & [= <-])%outcome_bind_Done. exact H.
  - unfold assert_liveliness_manually. pose proof (send_heart_beat_lessened (now cmd.1 0 0%nat) true (set_alive true w)) as H.
    destruct (send_heart_beat _ _ _) as [w1 evs1]. intros [= <-]. etrans; [|exact H]. by split.
Qed.

Lemma writer_cmd_lessens now cmds : lessens (handle_writer_cmd now cmds).
Proof.
  intros w w' evs a. unfold handle_writer_cmd. intros ([[w1 evs1] wts] & H & [= <- _ _])%outcome_bind_Done.
  assert (Hgen : ∀ l acc acc', foldM (handle_one_cmd now) acc l = Done acc' → lessened acc.1.1 acc'.1.1).
  { intros l. induction l as [|x l IH]; intros acc acc'; [by intros [= ->]|].
    rewrite foldM_cons. intros (acc1 & H1%one_cmd_lessened & H2%IH)%outcome_bind_Done. by etrans. }
  by apply Hgen in H.
Qed.

Lemma nack_timeout_lessened now g w w' evs : handle_nack_response_timeout now g w = Done (w', evs) → lessened w w'.
Proof.
  unfold handle_nack_response_timeout. cbv zeta. intros ([w1 [qd qg]] & H1 & H)%outcome_bind_Done.
  assert (lessened w w1) as Hw1.
  { destruct (matched_readers (set_an_state Repairing w) !! g); [|by injection H1 as <- _ _].
    apply outcome_bind_Done in H1 as (x & _ & [= <- _]). by split. }
  apply outcome_bind_Done in H as (r1 & H4%foldM_lessened & H); [|apply resend_one_lessened].
  apply outcome_bind_Done in H as (r2 & H5%foldM_lessened & H); [|apply resend_gap_lessened].
  injection H as <- _. etrans; [exact Hw1|]. etrans; [exact H4|]. etrans; [exact H5|]. by split.
Qed.

Lemma acknack_lessens now a g : lessens (handle_acknack now a g).
Proof.
  intros w w' evs wt. unfold handle_acknack. destruct (matched_readers w !! g) as [rp|]; [|by intros [= <- _ _]].
  cbv zeta. set (w0 := set_matched_readers _ w). assert (Hw0 : lessened w w0) by by split.
  intros ([[w1 evs1] wt1] & H & [= <- _ _])%outcome_bind_Done.
  etrans; [|apply remove_acked_lessened]. etrans; [exact Hw0|].
  destruct (an_state w0); [|done|by injection H as <- _ _].
  case_bool_decide; [by injection H as <- _ _|]. case_bool_decide; [|injection H as <- _ _; by split].
  apply outcome_bind_Done in H as ([w2 evs2] & H%nack_timeout_lessened & [= <- _ _]). exact H.
Qed.

Lemma reader_add_lessened guid inline ls qos w w' evs :
  matched_reader_add_with_default_locator guid inline ls qos w = Done (w', evs) → lessened w w'.
Proof.
  unfold matched_reader_add_with_default_locator. destruct (matched_readers w !! guid); [intros [= <- _]; by split|].
  destruct (writer_is_compatible _ _); [by intros [= <- _]|]. intros. outcome_simplify. by split.
Qed.

Lemma delete_reader_lessened p w : lessened w (delete_reader_proxy p w).1.
Proof.
  unfold delete_reader_proxy. generalize (filter (λ g, guid_prefix g = p) (bt_keys (matched_readers w))) as l.
  intros l. generalize (@nil WriterEvent) as evs. revert w.
  induction l as [|g l IH]; intros w evs; [done|]. cbn [foldl fst snd matched_reader_remove].
  etrans; [|apply IH]. by split.
Qed.

Lemma assert_lessened now w w' evs : assert_liveliness now w = Done (w', evs) → lessened w w'.
Proof.
  unfold assert_liveliness. cbv zeta. case_bool_decide; [intros [= <- _]; by split|]. intros.
  outcome_simplify. case_bool_decide; simplify_eq; by split.
Qed.
Lemma check_lessened now w w' evs : writer_check_liveliness now w = Done (w', evs) → lessened w w'.
Proof.
  unfold writer_check_liveliness. destruct (is_alive w); [|by intros [= <- _]].
  cbv zeta. case_bool_decide; [by intros [= <- _]|]. destruct (get_last_added_ts _ _); [|by intros [= <- _]]. intros.
  outcome_simplify. case_bool_decide; simplify_eq; by split.
Qed.
#[export] Hint Resolve writer_cmd_lessens acknack_lessens : sharing.

(** ** The world

    [later X W W']: no endpoint is gone, the writers are lessened, and a new
    endpoint is made of one of the ingredients in [X]. *)
Definition made_of (wi : WriterIngredients) (w : Writer) : Prop :=
  conf w = wi_conf wi ∧ changes (writer_cache w) ⊆ changes (wi_whc wi).
Lemma made_of_lessened wi w w' : made_of wi w → lessened w w' → made_of wi w'.
Proof. intros [E H] [E' H']. split; [by rewrite E'|by etrans]. Qed.

Record later (X : list Ingredients) (W W' : World) : Prop := {
  lt_writers : ∀ e, is_Some (writers W !! e) → is_Some (writers W' !! e);
  lt_new_writers : ∀ e w', writers W' !! e = Some w' →
    (∃ w, writers W !! e = Some w ∧ lessened w w') ∨
    (∃ wi, IngWriter wi ∈ X ∧ e = entity_id (w_guid (wi_conf wi)) ∧ made_of wi w');
  lt_readers : ∀ e, is_Some (readers W !! e) → is_Some (readers W' !! e);
  lt_new_readers : ∀ e, is_Some (readers W' !! e) → is_Some (readers W !! e) ∨ (false, e) ∈ ing_key <$> X;
}.

Lemma later_same X W W' : writers W' = writers W → readers W' = readers W → later X W W'.
Proof. intros Hw Hr. split; rewrite ?Hw, ?Hr; auto. intros e w ->. left. by exists w. Qed.
#[export] Instance later_preorder X : PreOrder (later X).
Proof.
  split; [by intros W; apply later_same|]. intros W1 W2 W3 [H1 N1 R1 M1] [H2 N2 R2 M2]. split; [by auto| |by auto|].
  - intros e w3 [(w2 & [(w1 & E1 & L1)|(wi & Hin & -> & Hm)]%N1 & L2)|?]%N2; [| |by right].
    + left. exists w1. split; [done|by etrans].
    + right. exists wi. split_and!; [done|done|by eapply made_of_lessened].
  - intros e [?%M1|?]%M2; auto.
Qed.

(** An endpoint that is not among the new ones. *)
Lemma later_writer X W W' e w :
  later X W W' → (true, e) ∉ ing_key <$> X → writers W !! e = Some w →
  ∃ w', writers W' !! e = Some w' ∧ lessened w w'.
Proof.
  intros [H1 H2 _ _] He Hw. destruct (H1 e) as [w' Hw']; [by exists w|]. exists w'. split; [done|].
  destruct (H2 e w' Hw') as [(w2 & Hw2 & ?)|(wi & Hin & -> & _)]; [congruence|].
  destruct He. apply list_elem_of_fmap. by exists (IngWriter wi).
Qed.

Lemma later_insert_writer X W e w w' :
  writers W !! e = Some w → lessened w w' → later X W (set_writers <[e := w']> W).
Proof.
  intros He Hw. split; cbn; [|intros e' w2 [[<- <-]|[_ Hl]]%lookup_insert_Some|auto..].
  - intros e' Hs. apply lookup_insert_is_Some'. by right.
  - left. by exists w.
  - left. by exists w2.
Qed.
Lemma later_insert_reader X W e r r' : readers W !! e = Some r → later X W (set_readers <[e := r']> W).
Proof.
  intros He. split; cbn; [auto|intros e' w Hw; left; by exists w| |].
  - intros e' Hs. apply lookup_insert_is_Some'. by right.
  - intros e' [<-|?]%lookup_insert_is_Some'; left; [by exists r|done].
Qed.

(** ** The receiver *)

Section receiver.
Context `{Speedy} {X : list Ingredients} {W0 : World}.
Notation laters m := (keeps (later X W0) m (λ _, True)).

Lemma laters_modify f : (∀ W, writers (f W) = writers W ∧ readers (f W) = readers W) → laters (modify f).
Proof. intros Hf. apply keeps_modify. intros W HW. etrans; [exact HW|]. by apply later_same; apply Hf. Qed.
Lemma laters_with_reader {A} e (f : Reader → outcome (Reader * list ReaderEvent * A)) : laters (with_reader e f).
Proof.
  intros W W' evs r HW. unfold with_reader. destruct (readers W !! e) as [rd|] eqn:E; [|by intros [= <- _ _]].
  destruct (f rd) as [[[rd' evs'] a]|]; [|done]. intros [= <- _ _]. split; [|done].
  etrans; [exact HW|by eapply later_insert_reader].
Qed.
Lemma laters_with_writer {A} e (f : Writer → outcome (Writer * list WriterEvent * A)) :
  lessens f → laters (with_writer e f).
Proof.
  intros Hf W W' evs r HW. unfold with_writer. destruct (writers W !! e) as [w|] eqn:E; [|by intros [= <- _ _]].
  destruct (f w) as [[[w' evs'] a]|] eqn:Ef; [|done]. intros [= <- _ _]. split; [|done].
  etrans; [exact HW|]. eapply later_insert_writer; [exact E|by eapply Hf].
Qed.
Lemma laters_lift {A} (m : outcome A) : laters (lift_outcome m).
Proof. by apply keeps_lift. Qed.
Lemma laters_emit ev : laters (emit ev).
Proof. apply keeps_emit. Qed.
Lemma laters_catch {A} (m : rcv A) : laters m → laters (catch m).
Proof. intros Hm. by eapply keeps_any, keeps_catch. Qed.
#[local] Hint Resolve laters_with_reader laters_lift laters_emit laters_catch : sharing.

Ltac walk :=
  repeat first
    [ solve [eauto 2 with sharing]
    | progress cbv zeta
    | apply keeps_ret; exact Logic.I
    | apply keeps_raise
    | apply keeps_unless
    | apply keeps_loop; intros
    | apply keeps_loop_while; intros
    | by apply laters_modify
    | match goal with
      | |- keeps _ (if ?b then _ else _) _ => destruct b
      | |- keeps _ (match ?o with _ => _ end) _ => destruct o
      | |- keeps _ (gets _) (λ _, True) => by apply keeps_gets
      | |- keeps _ (_ ≫= _) _ => eapply (keeps_bind _ _ (λ _, True)); [|intros ? _]
      end ].

Lemma laters_interpreter s : laters (handle_interpreter_submessage s).
Proof. destruct s; simpl; unfold reply_locators; walk. Qed.
Lemma laters_acknack clk a : laters (handle_acknack_submsg clk a).
Proof. unfold handle_acknack_submsg. walk. apply laters_with_writer. auto with sharing. Qed.
Lemma laters_deserialize {A} (rd : Endianness → prd A) d : laters (deserialize rd d).
Proof. unfold deserialize. walk. Qed.
Lemma laters_update_liveliness g ts e : laters (update_liveliness g ts e).
Proof. unfold update_liveliness. walk. Qed.
Lemma laters_builtin_add e c : laters (add_to_builtin_reader e c).
Proof. unfold add_to_builtin_reader. walk. Qed.
#[local] Hint Resolve laters_interpreter laters_acknack laters_deserialize laters_update_liveliness
  laters_builtin_add : sharing.

Lemma laters_match_reader d bit remote local qos : laters (match_remote_reader d bit remote local qos).
Proof.
  unfold match_remote_reader. walk. apply laters_with_writer. intros w w' evs b. unfold matched_reader_add.
  intros ([w1 evs1] & Hw%reader_add_lessened & [= <- _])%outcome_bind_Done. exact Hw.
Qed.
Lemma laters_match_writer d bit remote local qos : laters (match_remote_writer d bit remote local qos).
Proof. unfold match_remote_writer. walk. Qed.
#[local] Hint Resolve laters_match_reader laters_match_writer : sharing.
Lemma laters_participant_discovery d : laters (handle_participant_discovery d).
Proof. unfold handle_participant_discovery. walk. Qed.
#[local] Hint Resolve laters_participant_discovery : sharing.
Lemma laters_spdp clk d : laters (handle_spdp_data clk d).
Proof.
  unfold handle_spdp_data. walk. apply laters_with_writer. intros w w' evs b. intros. by outcome_simplify.
Qed.
Lemma laters_announced_writer wp tn ty e : laters (match_announced_writer wp tn ty e).
Proof. unfold match_announced_writer. walk. Qed.
Lemma laters_announced_reader rp tn ty e : laters (match_announced_reader rp tn ty e).
Proof.
  unfold match_announced_reader. walk. apply laters_with_writer. intros w w' evs b.
  destruct (is_reader_match _ _ _); [|by intros [= <- _ _]]. cbv zeta.
  destruct (match topic_kind _ with Some _ => _ | None => _ end); [|by intros [= <- _ _]].
  intros ([w1 evs1] & Hw%reader_add_lessened & [= <- _ _])%outcome_bind_Done. exact Hw.
Qed.
#[local] Hint Resolve laters_spdp laters_announced_writer laters_announced_reader : sharing.
Lemma laters_sedp_w d c ts : laters (handle_sedp_w_data d c ts).
Proof. unfold handle_sedp_w_data. walk. Qed.
Lemma laters_sedp_r d c : laters (handle_sedp_r_data d c).
Proof. unfold handle_sedp_r_data. walk. Qed.
Lemma laters_message d c ts : laters (handle_participant_message d c ts).
Proof. unfold handle_participant_message. walk. Qed.
Lemma laters_deliver g c ts e : laters (deliver g c ts e).
Proof. unfold deliver. walk. Qed.
#[local] Hint Resolve laters_sedp_w laters_sedp_r laters_message laters_deliver : sharing.
Lemma laters_for_readers {A} (body : A → EntityId → rcv A) a :
  (∀ a e, laters (body a e)) → laters (for_readers body a).
Proof. intros Hb. unfold for_readers. walk. Qed.
Lemma laters_knows g e : laters (knows_writer g e).
Proof. by apply keeps_gets. Qed.
#[local] Hint Resolve laters_knows : sharing.
Lemma laters_data clk d f : laters (handle_data_submsg clk d f).
Proof. unfold handle_data_submsg, dispatch_data. walk. apply laters_for_readers. intros. walk. Qed.
Lemma laters_gap g f : laters (handle_gap_submsg g f).
Proof. unfold handle_gap_submsg. walk. apply laters_for_readers. intros. walk. Qed.
Lemma laters_heartbeat_reader g f hb ts e : laters (heartbeat_reader g f hb ts e).
Proof. unfold heartbeat_reader. walk. Qed.
#[local] Hint Resolve laters_data laters_gap laters_heartbeat_reader : sharing.
Lemma laters_heartbeat clk hb f : laters (handle_heartbeat_submsg clk hb f).
Proof. unfold handle_heartbeat_submsg. walk. apply laters_for_readers. intros. walk. Qed.
#[local] Hint Resolve laters_heartbeat : sharing.
Lemma laters_submessage clk b : laters (handle_submessage clk b).
Proof. unfold handle_submessage, handle_entity_submessage. walk. Qed.
#[local] Hint Resolve laters_submessage : sharing.
Lemma laters_submessages clk l rtv : laters (handle_submessages clk l rtv).
Proof. revert clk rtv. induction l as [|m l IH]; intros clk rtv; cbn [handle_submessages]; walk. Qed.
#[local] Hint Resolve laters_submessages : sharing.
Lemma laters_datagram native clk msg : laters (handle_datagram native clk msg).
Proof. unfold handle_datagram, handle_parsed_packet. walk. Qed.
#[local] Hint Resolve laters_datagram : sharing.
Lemma laters_packet native clk l : laters (handle_packet native clk l).
Proof.
  unfold handle_packet. enough (∀ rtv, laters (handle_packets native clk l rtv)) by (walk; auto).
  revert clk. induction l as [|m l IH]; intros clk rtv; cbn [handle_packets]; walk.
Qed.
End receiver.

(** ** The event loop *)

Section loop.
Context {TL : TimerLib} `{Speedy} {X : list Ingredients}.

(** [m] takes no endpoint away, adds at most those in [X], and its result is
    in [Φ]. *)
Definition lates {A} (m : lp A) (Φ : A → Prop) : Prop := ∀ L L' evs a,
  m L = Done (L', evs, a) →
  (later X (world L) (world L') ∧ el_guid_prefix L' = el_guid_prefix L) ∧ Φ a.
Notation lates' m := (lates m (λ _, True)).

Lemma lates_ret {A} (a : A) (Φ : A → Prop) : Φ a → lates (mret a) Φ.
Proof. by intros Ha L L' evs b [= <- _ <-]. Qed.
Lemma lates_bind {A B} (m : lp A) (f : A → lp B) Φ Ψ :
  lates m Φ → (∀ a, Φ a → lates (f a) Ψ) → lates (m ≫= f) Ψ.
Proof.
  intros Hm Hf L L' evs b. unfold mbind, lp_bind. destruct (m L) as [[[L1 ev1] a]|] eqn:E1; [|done].
  destruct (Hm _ _ _ _ E1) as [[H1 P1] Ha].
  destruct (f a L1) as [[[L2 ev2] b']|] eqn:E2; [|done]. intros [= <- _ <-].
  destruct (Hf a Ha _ _ _ _ E2) as [[H2 P2] Hb]. split; [|exact Hb]. split; [by etrans|congruence].
Qed.
Lemma lates_get {A} (f : EventLoop → A) : lates' (lget f).
Proof. by intros L L' evs a [= <- _ _]. Qed.
Lemma lates_set f :
  (∀ L, writers (world (f L)) = writers (world L) ∧ readers (world (f L)) = readers (world L) ∧
        el_guid_prefix (f L) = el_guid_prefix L) → lates' (lset f).
Proof. intros Hf L L' evs a [= <- _ _]. destruct (Hf L) as (? & ? & ?). by split; [split; [apply later_same|]|]. Qed.
Lemma lates_tell ev : lates' (ltell ev).
Proof. by intros L L' evs a [= <- _ _]. Qed.
Lemma lates_do {A} (m : outcome A) : lates (ldo m) (λ a, m = Done a).
Proof. intros L L' evs a. unfold ldo. destruct m; [|done]. by intros [= <- _ <-]. Qed.
Lemma lates_any {A} (m : lp A) Φ : lates m Φ → lates' m.
Proof. intros Hm L L' evs a E. by destruct (Hm _ _ _ _ E). Qed.
Lemma lates_do' {A} (m : outcome A) : lates' (ldo m).
Proof. eapply lates_any, lates_do. Qed.
Lemma lates_for {A} (l : list A) (body : nat → A → lp unit) :
  (∀ i x, x ∈ l → lates' (body i x)) → lates' (lfor l body).
Proof.
  revert body. induction l as [|x l IH]; intros body Hb; [by apply lates_ret|].
  eapply lates_bind; [apply Hb; by left|]. intros _ _. apply (IH (body ∘ S)). intros. apply Hb. by right.
Qed.
Lemma lates_while {A} fuel (poll : Readings → lp (option A)) body c :
  (∀ c, lates' (poll c)) → (∀ c a, lates' (body c a)) → lates' (while_let fuel poll body c).
Proof.
  intros Hp Hb. revert c. induction fuel as [|fuel IH]; intros c; [by apply lates_ret|]. cbn [while_let].
  eapply lates_bind; [apply Hp|]. intros [a|] _; [|by apply lates_ret].
  eapply lates_bind; [apply Hb|]. intros _ _. apply IH.
Qed.
Lemma lates_ended m : lates' m → lates' (ended m).
Proof. intros Hm. eapply lates_bind; [exact Hm|]. intros. by apply lates_ret. Qed.

Lemma lates_in_world {A} (m : rcv A) :
  (∀ W0, keeps (later X W0) m (λ _, True)) → lates' (in_world m).
Proof.
  intros Hm L L' evs a. unfold in_world. destruct (m (world L)) as [[[W ev] r]|] eqn:E; [|done].
  intros [= <- _ _]. split; [|done]. split; [|done]. by destruct (Hm (world L) _ _ _ _ ltac:(reflexivity) E).
Qed.
Lemma lates_on_reader {A} e (f : Reader → outcome (Reader * list ReaderEvent * A)) : lates' (on_reader e f).
Proof.
  eapply lates_bind; [apply lates_in_world; intros; apply laters_with_reader|]. intros. by apply lates_ret.
Qed.
Lemma lates_on_writer {A} e (f : Writer → outcome (Writer * list WriterEvent * A)) :
  lessens f → lates' (on_writer e f).
Proof.
  intros Hf. eapply lates_bind; [apply lates_in_world; intros; by apply laters_with_writer|].
  intros. by apply lates_ret.
Qed.
Lemma lates_on_db f : lates' (on_db f).
Proof. by apply lates_set. Qed.
#[local] Hint Resolve lates_get lates_tell lates_do' lates_on_reader lates_on_db : sharing.

(** A [lset] of timers. *)
Ltac sets := apply lates_set; intros; repeat (case_match; simplify_eq/=); done.
Ltac steps :=
  repeat first
    [ solve [eauto 2 with sharing]
    | progress cbv zeta
    | apply lates_ret; exact Logic.I
    | sets
    | match goal with
      | |- lates (if ?b then _ else _) _ => destruct b
      | |- lates (match ?o with _ => _ end) _ => destruct o
      | |- lates (lfor _ _) _ => apply lates_for; intros
      | |- lates (_ ≫= _) _ => eapply (lates_bind _ _ (λ _, True)); [|intros ? _]
      end ].
(** The poll of a timer. *)
Ltac polls := intros ? L L' evs a E; unfold poll_writer_hb, poll_reader_deadline, poll_reader_lifespan,
  poll_writer_deadline, poll_wlp, poll_check_liveliness, poll_reader_hb, poll_writer_nack, recv_wlp in E;
  repeat (case_match; simplify_eq/=); (split; [split; [by apply later_same|done]|done]).

Lemma lates_set_reader_timer c t : lates' (set_reader_timer c t).
Proof. destruct t; simpl; steps. Qed.
Lemma lates_set_writer_timer c t : lates' (set_writer_timer c t).
Proof. destruct t; simpl; steps. Qed.
#[local] Hint Resolve lates_set_reader_timer lates_set_writer_timer : sharing.
Lemma lates_set_reader_timers c l : lates' (handle_set_reader_timer c l).
Proof. unfold handle_set_reader_timer. steps. Qed.
Lemma lates_set_writer_timers c l : lates' (handle_set_writer_timer c l).
Proof. unfold handle_set_writer_timer. steps. Qed.
#[local] Hint Resolve lates_set_reader_timers lates_set_writer_timers : sharing.
Lemma lates_check_remote c e : lates' (check_remote_liveliness c e).
Proof. unfold check_remote_liveliness. steps. Qed.
#[local] Hint Resolve lates_check_remote : sharing.

Lemma lates_writer_hb fuel c : lates' (while_let fuel poll_writer_hb writer_hb_fired c).
Proof.
  apply lates_while; [polls|]. intros c' e. unfold writer_hb_fired. steps. apply lates_on_writer.
  intros w w' evs a. pose proof (send_heart_beat_lessened (clock c') false w) as Hw.
  destruct (send_heart_beat _ _ _). by intros [= <- _ _].
Qed.
Lemma lates_reader_deadline fuel c : lates' (while_let fuel poll_reader_deadline reader_deadline_fired c).
Proof. apply lates_while; [polls|]. intros c' a. unfold reader_deadline_fired. steps. Qed.
Lemma lates_reader_lifespan fuel c : lates' (while_let fuel poll_reader_lifespan reader_lifespan_fired c).
Proof. apply lates_while; [polls|]. intros c' a. unfold reader_lifespan_fired. steps. Qed.
Lemma lates_writer_deadline fuel c : lates' (while_let fuel poll_writer_deadline writer_deadline_fired c).
Proof.
  apply lates_while; [polls|]. intros c' a. unfold writer_deadline_fired. steps. apply lates_on_writer.
  by intros w w' evs b [= <- _ _].
Qed.
Lemma lates_wlp fuel c : lates' (while_let fuel poll_wlp wlp_fired c).
Proof. apply lates_while; [polls|]. intros c' a. unfold wlp_fired. steps. Qed.
Lemma lates_set_wlp fuel c : lates' (while_let fuel recv_wlp set_wlp_timer c).
Proof. apply lates_while; [polls|]. intros c' a. unfold set_wlp_timer. steps. Qed.
Lemma lates_assert c : lates' (assert_automatic_liveliness c).
Proof.
  unfold assert_automatic_liveliness, assert_automatic_one. steps. apply lates_on_writer. intros w' w1 evs b.
  destruct (assert_liveliness _ w') as [[w2 evs2]|] eqn:E; [|done]. intros [= <- _ _]. by eapply assert_lessened.
Qed.
Lemma lates_check fuel c : lates' (while_let fuel poll_check_liveliness check_liveliness_fired c).
Proof.
  apply lates_while; [polls|]. intros c' a. unfold check_liveliness_fired, check_local_liveliness. steps.
  apply lates_on_writer. intros w' w1 evs b.
  destruct (writer_check_liveliness _ w') as [[w2 evs2]|] eqn:E; [|done]. intros [= <- _ _]. by eapply check_lessened.
Qed.
Lemma lates_reader_hb fuel c : lates' (while_let fuel poll_reader_hb reader_hb_fired c).
Proof. apply lates_while; [polls|]. intros c' a. unfold reader_hb_fired. steps. Qed.
Lemma lates_writer_nack fuel c : lates' (while_let fuel poll_writer_nack writer_nack_fired c).
Proof.
  apply lates_while; [polls|]. intros c' a. unfold writer_nack_fired. steps. apply lates_on_writer.
  intros w w' evs b ([w1 evs1] & Hw%nack_timeout_lessened & [= <- _ _])%outcome_bind_Done. exact Hw.
Qed.

Lemma lates_packets native clk c l : lates' (handle_packets_of_socket native clk c l).
Proof. unfold handle_packets_of_socket. steps. apply lates_in_world. intros. apply laters_packet. Qed.
Lemma lates_commands c ct now e cmds : lates' (handle_entity_token c ct now e cmds).
Proof. unfold handle_entity_token. steps. apply lates_on_writer. auto with sharing. Qed.
Lemma lates_lost l : lates' (handle_participant_discovery_updates l).
Proof.
  unfold handle_participant_discovery_updates, remove_discoverd_participant. steps. apply lates_on_writer.
  intros w w' evs b. pose proof (delete_reader_lessened x w) as Hw. destruct (delete_reader_proxy x w).
  by intros [= <- _ _].
Qed.

(** *** Registration *)

Lemma writer_new_made wi now w wt : writer_new (wi_conf wi) (wi_whc wi) now = Done (w, wt) → made_of wi w.
Proof. unfold writer_new, add_empty_change. cbv zeta. intros. outcome_simplify. by split. Qed.
Lemma lates_spdp_group w : lates (match_spdp_group w) (lessened w).
Proof.
  unfold match_spdp_group. destruct (bool_decide _); [|by apply lates_ret].
  eapply lates_bind; [apply lates_get|]. intros domain _. eapply lates_bind; [apply lates_do|].
  intros [w' evs] Hw%reader_add_lessened. eapply lates_bind; [steps|]. intros _ _. by apply lates_ret.
Qed.
Lemma lates_watch c w : lates' (watch_manual_liveliness c w).
Proof. unfold watch_manual_liveliness, watch_writer. steps. Qed.
#[local] Hint Resolve lates_watch : sharing.

Lemma lates_register_writer c wi : IngWriter wi ∈ X → lates' (register_writer c wi).
Proof.
  intros Hin. unfold register_writer. eapply lates_bind; [apply lates_do|]. intros [w wt] Hw%writer_new_made.
  eapply (lates_bind _ _ (λ _, True)); [steps|]. intros _ _.
  eapply lates_bind; [apply lates_spdp_group|]. intros w' Hw'. pose proof (made_of_lessened _ _ _ Hw Hw') as Hm. cbv zeta.
  do 5 (eapply (lates_bind _ _ (λ _, True)); [steps|]; intros ? _).
  intros L L' evs u [= <- _ _]. split; [|done]. split; [|done].
  split; cbn; [|intros e w2 [[<- <-]|[_ Hl]]%lookup_insert_Some|auto..].
  - intros e Hs. apply lookup_insert_is_Some'. by right.
  - right. exists wi. unfold wguid. by rewrite (proj1 Hm).
  - left. by exists w2.
Qed.
Lemma lates_register_reader ri : IngReader ri ∈ X → lates' (register_reader ri).
Proof.
  intros Hin. unfold register_reader. cbv zeta.
  eapply (lates_bind _ _ (λ _, True)); [steps|]. intros _ _.
  intros L L' evs u [= <- _ _]. split; [|done]. split; [|done].
  split; cbn; [auto|intros e w Hw; left; by exists w| |].
  - intros e Hs. apply lookup_insert_is_Some'. by right.
  - intros e [<-|?]%lookup_insert_is_Some'; [right|by left]. apply list_elem_of_fmap. by exists (IngReader ri).
Qed.
Lemma lates_register_all c l : (∀ i, i ∈ l → i ∈ X) → lates' (register_builtin_endpoints c l).
Proof.
  intros Hl. apply lates_for. intros j [wi|ri] Hi%Hl; [by apply lates_register_writer|by apply lates_register_reader].
Qed.

(** *** One event *)

Definition new_endpoints (d : Delivery) : list Ingredients :=
  match d with
  | NewWriters l => IngWriter <$> l
  | NewReaders l => IngReader <$> l
  | _ => []
  end.

Ltac next_token := match goal with |- lates (if bool_decide ?P then _ else _) _ => destruct (bool_decide P) end.

Lemma lates_event native clk c now fuel token d :
  (∀ x, x ∈ new_endpoints d → x ∈ X) → lates' (handle_event native clk c now fuel token d).
Proof.
  intros HX. unfold handle_event. destruct (token_decode token); [|apply lates_commands].
  next_token; [destruct d; first [apply lates_packets|by apply lates_ret]|].
  next_token.
  { destruct d; try (by apply lates_ret). apply lates_for. intros i wi Hwi. apply lates_register_writer, HX.
    by apply list_elem_of_fmap_2. }
  next_token.
  { destruct d; try (by apply lates_ret). apply lates_for. intros i ri Hri. apply lates_register_reader, HX.
    by apply list_elem_of_fmap_2. }
  next_token; [destruct d; first [apply lates_lost|by apply lates_ret]|].
  next_token; [apply lates_ended, lates_writer_hb|].
  next_token; [apply lates_ended, lates_reader_deadline|].
  next_token; [apply lates_ended, lates_reader_lifespan|].
  next_token; [apply lates_ended, lates_writer_deadline|].
  next_token; [apply lates_ended, lates_wlp|].
  next_token; [apply lates_assert|].
  next_token; [apply lates_ended, lates_check|].
  next_token; [apply lates_ended, lates_reader_hb|].
  next_token; [apply lates_ended, lates_writer_nack|].
  next_token; [apply lates_ended, lates_set_wlp|].
  by apply lates_ret.
Qed.
End loop.

(** Whatever the event: apart from what it registers, no endpoint comes or
    goes, and every writer is as it was, but for changes taken out of its
    cache. *)
Lemma event_later `{TL : TimerLib} `{Speedy} native clk c now fuel token d L L' evs u :
  handle_event native clk c now fuel token d L = Done (L', evs, u) →
  later (new_endpoints d) (world L) (world L') ∧ el_guid_prefix L' = el_guid_prefix L.
Proof. intros E. by destruct (lates_event native clk c now fuel token d (λ _, id) _ _ _ _ E). Qed.

(** A new loop has the writers it is given. *)
Lemma start_later `{TL : TimerLib} `{Speedy} domain p db spdp now c l L evs :
  event_loop_new domain p db spdp now c l = Done (L, evs) →
  ∀ e w, writers (world L) !! e = Some w →
    ∃ wi, IngWriter wi ∈ l ∧ e = entity_id (w_guid (wi_conf wi)) ∧ made_of wi w.
Proof.
  unfold event_loop_new. intros (d & _ & E)%outcome_bind_Done. set (L0 := event_loop_init _ _ _ _ _ _) in *.
  destruct (register_builtin_endpoints c l L0) as [[[L1 evs1] u]|] eqn:ER; [|done]. injection E as <- _.
  destruct (lates_register_all (X := l) c l (λ _, id) _ _ _ _ ER) as [[[_ Hnew _ _] _] _].
  intros e w [(w0 & Hw0 & _)|?]%Hnew; [|done]. unfold L0 in Hw0. cbn in Hw0. by rewrite lookup_empty in Hw0.
Qed.
