(* ===== verification/EventLoopSteps.v ===== *)
(** * The event loop over time

    One event of the loop keeps its invariant ([handle_event_ok]); so do the
    applications that share the caches and the discovery thread that shares
    the database.  Every state that these steps reach satisfies it. *)
From stdpp Require Import base tactics numbers list gmap strings.
From coqutil Require Import Datatypes.RecordSetters.
From S2P Require Import Prelude Ordered Ids Time SeqNum Qos HistoryCache Topic Message Proxy Writer WriterProofs.
From S2P Require Import DiscoveryData DiscoveryDB Reader ReaderProofs Speedy Wire ParameterList Receiver.
From S2P Require Import ReceiverProofs Timer Tokens EventLoop EventLoopProofs.
Import OCamlLikeNotations.

Section events.
Context {TL : TimerLib} `{!TimerLaws TL} `{SpeedyLaws}.

(** ** Packets *)

Lemma timer_known_conf L t :
  loop_ok L → timer_known (world L) t → is_Some (rconfs (world L) !! timer_reader t).
Proof.
  intros Hok (e & r & Hr & ->). destruct (reader_entity _ _ _ Hok Hr) as [-> _].
  apply confs_lookup_reader. by exists r.
Qed.

Lemma packets_ok native clk c packets L :
  loop_ok L → Forall (packet_ok native) packets →
  wpl false (handle_packets_of_socket native clk c packets) (λ _, loop_ok) L.
Proof.
  intros Hok Hp. unfold handle_packets_of_socket. apply wpl_bind.
  eapply (wpl_in_world _ (λ o, Forall (timer_known (world L)) (default [] o)));
    [exact (lo_world _ Hok)|by apply world_packet|].
  intros L' o Hf Ho. assert (Hok' : loop_ok L') by by eapply loop_ok_framed.
  destruct (framed_confs _ _ Hf) as [_ Hcr].
  destruct o as [[rts|]|]; [|by apply wpl_ret..]. cbn [mjoin option_join].
  apply handle_set_reader_timer_ok; [done| |done]. specialize (Ho _ eq_refl). cbn in Ho.
  eapply Forall_impl; [exact Ho|]. intros t Ht. rewrite Hcr. by apply timer_known_conf.
Qed.

(** ** One event *)

(** What is delivered is of the kind of its token, and new. *)
Definition delivery_ok (native : Endianness) (L : EventLoop) (d : Delivery) : Prop :=
  match d with
  | Packets l => Forall (packet_ok native) l
  | NewWriters l => ings_ok L (IngWriter <$> l)
  | NewReaders l => ings_ok L (IngReader <$> l)
  | Lost _ | Commands _ | Nothing => True
  end.

Definition packet_token (token : Z) : bool :=
  bool_decide (token ∈ [Token.DISCOVERY_MULTI; Token.DISCOVERY_UNI; Token.USERTRAFFIC_MULTI; Token.USERTRAFFIC_UNI]).
Definition liveliness_token (token : Z) : bool :=
  bool_decide (token ∈ [Token.WRITER_LIVELINESS_CHECK_TIMER; Token.SET_WLP_TIMER]).

(** What keeps a handler from aborting the process: no packet, the clocks
    after the epoch, the entity tokens those of the DataWriters; the leases of
    remote writers for the timers of their liveliness. *)
Definition event_safe (c : nat → Readings) (token : Z) (L : EventLoop) : Prop :=
  (∀ i, clocks_ok (c i)) ∧
  match token_decode token with
  | ReservedToken token => packet_token token = false ∧
      (liveliness_token token = true → remote_leases L)
  | EntityToken e => is_writer e = true
  end.

Lemma ended_ok s I m L : wpl s m (λ _, I) L → wpl s (ended m) (λ _, I) L.
Proof. intros Hm. apply wpl_bind. eapply wpl_mono; [exact Hm|]. intros b L' HI. by apply wpl_ret. Qed.

Lemma timer_loop_ok s fuel {A} (poll : Readings → lp (option A)) body c L :
  round_ok s loop_ok poll body → (s = true → ∀ i, clocks_ok (c i)) → loop_ok L →
  wpl s (ended (while_let fuel poll body c)) (λ _, loop_ok) L.
Proof. intros. by apply ended_ok, wpl_while. Qed.

Lemma lease_loop_ok s fuel {A} (poll : Readings → lp (option A)) body c L :
  round_ok s (with_leases s) poll body → (s = true → ∀ i, clocks_ok (c i)) → with_leases s L →
  wpl s (ended (while_let fuel poll body c)) (λ _, loop_ok) L.
Proof. intros. apply ended_ok. eapply wpl_mono; [by apply wpl_while|]. by intros b L' []. Qed.

Lemma lost_main s l L :
  loop_ok L →
  wpl s (handle_participant_discovery_updates l) (λ _ L', loop_ok L' ∧ ∀ p, p ∈ l → forgotten p L') L.
Proof.
  intros Hok. eapply wpl_mono; [apply (wpl_for_done s loop_ok forgotten); [|done]|].
  - intros i p L1 _ Hok1. by apply remove_participant_main.
  - by intros [] L2 (? & ? & _).
Qed.
Lemma lost_ok s l L : loop_ok L → wpl s (handle_participant_discovery_updates l) (λ _, loop_ok) L.
Proof. intros Hok. eapply wpl_mono; [by apply lost_main|]. by intros [] L2 []. Qed.

(** The next token of the dispatch. *)
Ltac case_token Et :=
  match goal with |- wpl _ (if bool_decide ?P then _ else _) _ _ =>
    destruct (decide P) as [Et|Et]; [rewrite (bool_decide_true P Et)|rewrite (bool_decide_false P Et)] end.

Lemma handle_event_ok s native clk c now fuel token d L :
  loop_ok L → delivery_ok native L d → (s = true → event_safe c token L) →
  wpl s (handle_event native clk c now fuel token d) (λ _, loop_ok) L.
Proof.
  intros Hok Hd Hs. unfold handle_event. unfold event_safe in Hs.
  assert (Hc : s = true → ∀ i, clocks_ok (c i)) by (intros Ht; by destruct (Hs Ht)).
  revert Hs. destruct (token_decode token) as [t|e]; intros Hs; last first.
  { apply entity_token_ok; [done|]. intros Ht. split; [by apply Hc|by destruct (Hs Ht)]. }
  case_token Et.
  { destruct s.
    - destruct (Hs eq_refl) as (_ & Hn & _). unfold packet_token in Hn. by rewrite bool_decide_true in Hn.
    - destruct d; try (by apply wpl_ret). by apply packets_ok. }
  clear Et. case_token Et.
  { destruct d as [|l| | | |]; try (by apply wpl_ret). pose proof (register_all_ok s c _ L Hok Hd Hc) as Hreg.
    unfold register_builtin_endpoints in Hreg. by rewrite lfor_fmap in Hreg. }
  clear Et. case_token Et.
  { destruct d as [| |l| | |]; try (by apply wpl_ret). pose proof (register_all_ok s c _ L Hok Hd Hc) as Hreg.
    unfold register_builtin_endpoints in Hreg. by rewrite lfor_fmap in Hreg. }
  clear Et. case_token Et; [destruct d; try (by apply wpl_ret); by apply lost_ok|].
  clear Et. case_token Et; [apply timer_loop_ok; [apply writer_hb_round|done..]|].
  clear Et. case_token Et; [apply timer_loop_ok; [apply reader_deadline_round|done..]|].
  clear Et. case_token Et; [apply timer_loop_ok; [apply reader_lifespan_round|done..]|].
  clear Et. case_token Et; [apply timer_loop_ok; [apply writer_deadline_round|done..]|].
  clear Et. case_token Et.
  { apply lease_loop_ok; [apply wlp_round|done|]. split; [done|].
    intros Ht. destruct (Hs Ht) as (_ & _ & Hl). apply Hl. by rewrite Et. }
  clear Et. case_token Et.
  { apply assert_automatic_ok; [done|]. intros Ht. by apply Hc. }
  clear Et. case_token Et; [apply timer_loop_ok; [apply check_liveliness_round|done..]|].
  clear Et. case_token Et; [apply timer_loop_ok; [apply reader_hb_round|done..]|].
  clear Et. case_token Et; [apply timer_loop_ok; [apply writer_nack_round|done..]|].
  clear Et. case_token Et.
  { apply lease_loop_ok; [apply set_wlp_round|done|]. split; [done|].
    intros Ht. destruct (Hs Ht) as (_ & _ & Hl). apply Hl. by rewrite Et. }
  by apply wpl_ret.
Qed.
End events.

(** ** The loop and the other threads *)

Section reachable.
Context {TL : TimerLib} `{!TimerLaws TL} `{SpeedyLaws}.

(** One step: an event of the loop; a DataWriter that adds a change to the
    cache it shares with its writer (a best-effort writer's cache is taken to
    have room); a DataReader on the cache it shares; the discovery thread that
    drops the participants whose lease has run out. *)
Inductive loop_step (native : Endianness) : EventLoop → EventLoop → Prop :=
| ls_event clk c now fuel token d L L' evs u :
    delivery_ok native L d → handle_event native clk c now fuel token d L = Done (L', evs, u) →
    loop_step native L L'
| ls_write e w change limits history hc r L :
    writers (world L) !! e = Some w →
    writer_guid change = wguid w → 0 < sequence_number change < Sn.MAX →
    is_reliable w = true ∨ changes (writer_cache w) ⊆ changes hc →
    add_change change (is_reliable w) limits history (writer_cache w) = Done (hc, r) →
    loop_step native L ({ L with world := set_writers <[e := set_writer_cache (λ _, hc) w]> (world L) })
| ls_read e r hc L :
    readers (world L) !! e = Some r →
    hc_step (reader_is_reliable r) (r_resource_limits (rqos r)).1 (r_history (rqos r)).1 (reader_cache r) hc →
    loop_step native L ({ L with world := set_readers <[e := set_reader_cache (λ _, hc) r]> (world L) })
| ls_discovery ts db next L :
    check_participant_liveliness ts (disc_db (world L)) = Done (db, next) →
    loop_step native L ({ L with world := set_disc_db (λ _, db) (world L) }).

(** The loop starts with the built-in endpoints and an empty database. *)
Inductive loop_reachable (native : Endianness) : EventLoop → Prop :=
| lr_new domain p spdp now c l L evs :
    ings_ok (event_loop_init domain p db_new spdp now (mkCoreDuration ASSERT_LIVELINESS_PERIOD 0)) l →
    event_loop_new domain p db_new spdp now c l = Done (L, evs) → loop_reachable native L
| lr_step L L' : loop_reachable native L → loop_step native L L' → loop_reachable native L'.

Lemma world_new_wf r : world_wf (mkWorld r ∅ ∅ db_new).
Proof. split; try done; cbn; intros ? ?; by rewrite lookup_empty. Qed.

Lemma init_ok domain p spdp now d : loop_ok (event_loop_init domain p db_new spdp now d).
Proof.
  split; cbn; try apply world_new_wf; try apply tracks_default; try apply timer_all_default;
    try (intros e cf; by rewrite fmap_empty, lookup_empty).
  - apply one_each_default. intros e. by rewrite fmap_empty.
  - exists (set_timeout now d tt timer_default).2. destruct (pending_set _ now d tt timer_default) as [_ ->].
    by rewrite decide_True.
  - split; [intros to; apply pending_default|]. intros e cf. by rewrite fmap_empty, lookup_empty.
Qed.

Lemma event_loop_new_ok domain p spdp now c l :
  let L0 := event_loop_init domain p db_new spdp now (mkCoreDuration ASSERT_LIVELINESS_PERIOD 0) in
  ings_ok L0 l →
  match event_loop_new domain p db_new spdp now c l with
  | Done (L, _) => all_registered l L0 L
  | Panic => ¬ ∀ i, clocks_ok (c i)
  end.
Proof.
  intros L0 Hl. unfold event_loop_new. change (core_duration_new ASSERT_LIVELINESS_PERIOD 0) with
    (Done (mkCoreDuration ASSERT_LIVELINESS_PERIOD 0)). cbn [mbind outcome_bind].
  fold L0.
  pose proof (register_all_main false c l L0 (init_ok _ _ _ _ _) Hl) as H1.
  pose proof (register_all_main true c l L0 (init_ok _ _ _ _ _) Hl) as H2. unfold wpl in H1, H2.
  destruct (register_builtin_endpoints c l L0) as [[[L evs] u]|]; [by apply H1|].
  intros Hc. by specialize (H2 (λ _, Hc)).
Qed.

Lemma check_participant_leases ts db db' x :
  check_participant_liveliness ts db = Done (db', x) → leases_wf db → leases_wf db'.
Proof.
  unfold check_participant_liveliness. intros ([next lost] & _ & E)%outcome_bind_Done Hdb.
  assert (∃ lost, db' = set_participant_data (λ m, foldl (λ m l, delete l m) m lost) db) as [l ->].
  { case_bool_decide; [|injection E as <- _; by eexists]. apply outcome_bind_Done in E as (d & _ & [= <- _]). by eexists. }
  clear E. intros p e. cbn. rewrite foldl_delete_lookup. case_bool_decide; [done|apply Hdb].
Qed.

Lemma framed_world L W : world_ok (world L) W → framed L ({ L with world := W }).
Proof. intros HW. exists W, (wlp_queue L). split; [by destruct L|done]. Qed.

Lemma loop_step_ok native L L' : loop_ok L → loop_step native L L' → loop_ok L'.
Proof.
  intros Hok Hstep. pose proof (lo_world _ Hok) as HW.
  destruct Hstep as [clk c now fuel token d L L' evs u Hd E|e w change limits history hc r L Hw Hg Hsn Hroom Hadd
    |e r hc L Hr Hst|ts db next L E].
  - pose proof (handle_event_ok false native clk c now fuel token d L Hok Hd) as Hwp. unfold wpl in Hwp.
    rewrite E in Hwp. by apply Hwp.
  - apply (loop_ok_framed L); [|done]. apply framed_world.
    destruct (wo_writers _ _ HW _ _ Hw) as [Hwf Hu]. eapply world_insert_writer; [done..|by eapply write_wf|].
    destruct Hroom as [Hrel|Hsub]; [by eapply write_unsent|].
    intros g rp s c Hg' Hs Hrel' Hst. destruct (Hu g rp s c Hg' Hs Hrel' Hst) as [c' Hc']. exists c'.
    by eapply lookup_weaken.
  - apply (loop_ok_framed L); [|done]. apply framed_world.
    pose proof (wo_readers _ _ HW _ _ Hr) as Hwf. pose proof (reader_step_inv _ _ Hwf (rs_cache _ _ Hst)) as [? ?].
    by eapply world_insert_reader.
  - apply (loop_ok_framed L); [|done]. apply framed_world.
    destruct HW. split; try done. cbn.
    by eapply check_participant_leases.
Qed.

Lemma loop_reachable_ok native L : loop_reachable native L → loop_ok L.
Proof.
  induction 1 as [domain p spdp now c l L evs Hl E|L L' _ IH Hstep]; [|by eapply loop_step_ok].
  pose proof (event_loop_new_ok domain p spdp now c l Hl) as Hn. rewrite E in Hn. apply Hn.
Qed.
End reachable.

(** ** What holds of the loop at any time *)
Section properties.
Context {TL : TimerLib} `{!TimerLaws TL} `{SpeedyLaws}.

Lemma wpl_Done {A} (m : lp A) (Q : A → EventLoop → Prop) L :
  wpl true m Q L → ∃ L' evs a, m L = Done (L', evs, a) ∧ Q a L'.
Proof. unfold wpl. destruct (m L) as [[[L' evs] a]|]; [by eauto|done]. Qed.

Lemma conf_lookup L e w : writers (world L) !! e = Some w → wconfs (world L) !! e = Some (conf w).
Proof. intros Hw. by rewrite lookup_fmap, Hw. Qed.



(** A negative lease whose fraction makes up for its seconds: the seconds wrap
    to 2^64 and the carry of the fraction overflows them. *)
Lemma negative_lease_panics d :
  Dur.wf d → seconds d < 0 → - seconds d ≤ fraction d / NANOS_PER_SEC →
  core_duration_new (as_u64 (seconds d)) (fraction d) = Panic.
Proof.
  intros [Hs Hf] Hneg Hcarry. unfold in_s, in_u in *. unfold core_duration_new.
  assert (Hw : wrap_u 64 (seconds d) = seconds d + 2 ^ 64) by (symmetry; apply (Z.mod_unique _ _ (-1)); lia).
  by rewrite Hw, bool_decide_false by lia.
Qed.

(** C30. A remote writer can abort the event loop by its lease alone: a lease of
    negative seconds whose fraction, taken as nanoseconds, makes up for them is
    accepted like any other, and when its reader's liveliness timer is to be
    set the duration overflows. *)
Theorem negative_lease_aborts native clk c now fuel L e q r wp :
  wlp_queue L = e :: q → readers (world L) !! e = Some r → bt_values (matched_writers r) = [wp] →
  let d := lease_duration (w_liveliness (wp_qos wp)).1 in
  Dur.wf d → seconds d < 0 → - seconds d ≤ fraction d / NANOS_PER_SEC →
  handle_event native clk c now (S fuel) Token.SET_WLP_TIMER Nothing L = Panic.
Proof.
  intros Hq Hr Hwp d Hd Hneg Hcarry.
  change (handle_event native clk c now (S fuel) Token.SET_WLP_TIMER Nothing L)
    with (ended (while_let (S fuel) recv_wlp set_wlp_timer c) L).
  assert (Hmin : get_min_remote_writer_lease_duration r = Panic).
  { unfold get_min_remote_writer_lease_duration. rewrite Hwp. cbn [foldl]. fold d.
    assert (Hlt : Dur.lt d Dur.INFINITE = true).
    { unfold Dur.lt, Dur.compare, Dur.INFINITE. cbn [seconds fraction]. destruct Hd as [Hs Hf]. unfold in_s, in_u in *.
      destruct (Z.compare_spec (seconds d * 1000000000 + fraction d) (2147483647 * 1000000000 + 4294967295)); [lia|done|lia]. }
    rewrite Hlt, bool_decide_false by (intros E; rewrite E in Hneg; unfold Dur.INFINITE in Hneg; simpl in Hneg; lia).
    by apply negative_lease_panics. }
  unfold ended, mbind, lp_bind at 1. cbn [while_let]. unfold mbind, lp_bind at 1, recv_wlp. rewrite Hq.
  unfold set_wlp_timer, mbind, lp_bind, lget, ldo. destruct L; cbn in *. unfold constant. by rewrite Hr, Hmin.
Qed.

(** C9. A participant whose lease has run out is gone from everywhere: the check
    of the discovery thread drops it from the database and reports it, and
    when the event loop has handled the report no writer has a proxy of one
    of its readers and no reader knows one of its writers. *)
Theorem lapsed_participant_forgotten native L ts p e :
  loop_reachable native L → participant_data (disc_db (world L)) !! p = Some e → lapsed ts e →
  ∃ db next lost L' evs,
    check_participant_liveliness ts (disc_db (world L)) = Done (db, (next, lost)) ∧
    participant_data db !! p = None ∧
    handle_participant_discovery_updates lost ({ L with world := set_disc_db (λ _, db) (world L) }) =
      Done (L', evs, tt) ∧
    forgotten p L'.
Proof.
  intros Hr He Hl. pose proof (loop_reachable_ok _ _ Hr) as Hok.
  destruct (check_participant_liveliness_main ts (disc_db (world L))) as (db & next & lost & E & Hlost & Hdb & _);
    [apply (lo_world _ Hok)|].
  assert (Hp : p ∈ lost) by (apply Hlost; eauto).
  assert (Hok' : loop_ok ({ L with world := set_disc_db (λ _, db) (world L) })).
  { apply (loop_reachable_ok native). eapply lr_step; [exact Hr|by eapply ls_discovery]. }
  destruct (wpl_Done _ _ _ (lost_main true lost _ Hok')) as (L' & evs & [] & E' & _ & Hf).
  exists db, next, lost, L', evs. split_and!; [done| |done|by apply Hf].
  by rewrite Hdb, bool_decide_true.
Qed.

(** *** The loop over a timer comes to its end

    [consumes μ]: each round takes one of the entries that [μ] counts. *)
Definition consumes (I : EventLoop → Prop) (μ : EventLoop → nat) {A} (poll : Readings → lp (option A))
    (body : Readings → A → lp unit) (c : Readings) : Prop :=
  ∀ L, I L → wpl false (poll c) (λ o L1,
    match o with
    | Some a => wpl false (body c a) (λ _ L2, S (μ L2) = μ L) L1
    | None => μ L1 = 0%nat
    end) L.

Lemma wpl_and {A} s (m : lp A) (Q Q' : A → EventLoop → Prop) L :
  wpl s m Q L → wpl false m Q' L → wpl s m (λ a L, Q a L ∧ Q' a L) L.
Proof. unfold wpl. destruct (m L) as [[[L' evs] a]|]; auto. Qed.

Lemma while_ends I μ {A} fuel (poll : Readings → lp (option A)) body c L :
  round_ok true I poll body → (∀ i, clocks_ok (c i) ∧ consumes I μ poll body (c i)) →
  I L → (μ L < fuel)%nat →
  wpl true (while_let fuel poll body c) (λ b L', b = true ∧ I L' ∧ μ L' = 0%nat) L.
Proof.
  intros Hr. revert c L. induction fuel as [|fuel IH]; intros c L Hc HL Hf; [lia|]. cbn [while_let].
  destruct (Hc 0%nat) as [Hc0 Hm]. apply wpl_bind.
  eapply wpl_mono; [apply wpl_and; [by apply Hr|by apply Hm]|]. intros [a|] L1 [H1 H2]; [|by apply wpl_ret].
  apply wpl_bind. eapply wpl_mono; [apply (wpl_and _ _ _ _ _ H1 H2)|]. intros [] L2 [HL2 Hd].
  apply IH; [|done|lia]. intros i. apply (Hc (S i)).
Qed.

(** A handler that leaves the timers alone, up to the one it sets. *)
Lemma due_poll_cases {A} now (t t' : Timer A) o :
  timer_poll now t = (t', o) →
  match o with Some _ => due now t = S (due now t') | None => due now t' = 0%nat end.
Proof. intros E. pose proof (due_poll A now t) as Hd. rewrite E in Hd. cbn in Hd. destruct o; [done|by destruct Hd]. Qed.

Lemma wpl_on_writer_timers {A} e (f : Writer → outcome (Writer * list WriterEvent * A))
    (Q : option A → EventLoop → Prop) L :
  (∀ W q o, Q o ({ L with world := W; wlp_queue := q })) → wpl false (on_writer e f) Q L.
Proof.
  intros HQ. unfold wpl, on_writer, mbind, lp_bind, in_world.
  destruct (with_writer e f (world L)) as [[[W evs] r]|]; [|done]. cbn. apply HQ.
Qed.
Lemma wpl_on_reader_timers {A} e (f : Reader → outcome (Reader * list ReaderEvent * A))
    (Q : option A → EventLoop → Prop) L :
  (∀ W q o, Q o ({ L with world := W; wlp_queue := q })) → wpl false (on_reader e f) Q L.
Proof.
  intros HQ. unfold wpl, on_reader, mbind, lp_bind, in_world.
  destruct (with_reader e f (world L)) as [[[W evs] r]|]; [|done]. cbn. apply HQ.
Qed.

Lemma writer_hb_consumes c now :
  at_poll c = now → at_set c = now → consumes (λ _, True) (λ L, due now (writer_hb_timer L)) poll_writer_hb writer_hb_fired c.
Proof.
  intros Hp Hs L _. unfold wpl at 1, poll_writer_hb.
  destruct (timer_poll (at_poll c) (writer_hb_timer L)) as [t o] eqn:E. rewrite Hp in E.
  apply due_poll_cases in E. destruct o as [e|]; [|exact E]. apply wpl_bind, wpl_on_writer_timers. intros W q [w|].
  - apply wpl_bind, wpl_do; [done|]. intros d _. apply wpl_set. cbn. unfold constant. by rewrite Hs, due_set, E.
  - apply wpl_ret. cbn. by rewrite E.
Qed.
Lemma writer_deadline_consumes c now :
  at_poll c = now → at_set c = now →
  consumes (λ _, True) (λ L, due now (writer_deadline_timer L)) poll_writer_deadline writer_deadline_fired c.
Proof.
  intros Hp Hs L _. unfold wpl at 1, poll_writer_deadline.
  destruct (timer_poll (at_poll c) (writer_deadline_timer L)) as [t o] eqn:E. rewrite Hp in E.
  apply due_poll_cases in E. destruct o as [a|]; [|exact E]. apply wpl_bind, wpl_on_writer_timers. intros W q [w|].
  - apply wpl_set. cbn. unfold constant. pose proof (due_set _ now a.2 a t) as Hd. rewrite Hs, E, <-Hd.
    by destruct (set_timeout now a.2 a t).
  - by apply wpl_do.
Qed.
Lemma reader_deadline_consumes c now :
  at_poll c = now → at_set c = now →
  consumes (λ _, True) (λ L, due now (reader_deadline_timer L)) poll_reader_deadline reader_deadline_fired c.
Proof.
  intros Hp Hs L _. unfold wpl at 1, poll_reader_deadline.
  destruct (timer_poll (at_poll c) (reader_deadline_timer L)) as [t o] eqn:E. rewrite Hp in E.
  apply due_poll_cases in E. destruct o as [a|]; [|exact E]. apply wpl_bind, wpl_on_reader_timers. intros W q [w|].
  - apply wpl_set. cbn. unfold constant. pose proof (due_set _ now a.2 a t) as Hd. rewrite Hs, E, <-Hd.
    by destruct (set_timeout now a.2 a t).
  - by apply wpl_do.
Qed.

Lemma consumes_weaken I μ {A} (poll : Readings → lp (option A)) body c :
  consumes (λ _, True) μ poll body c → consumes I μ poll body c.
Proof. intros Hc L _. by apply Hc. Qed.

End properties.
