(* ===== verification/Entities.v ===== *)
(** * The entities of the API

    src/src/dds/participant.rs, publisher.rs, subscriber.rs: how a participant
    comes to its ports, its keys and its announcement, and what a new
    endpoint is made of.  The participant is a value that the factories pass
    on: what they send over the channels to the event loop is queued in it.
    A Publisher and a Subscriber hold a handle of their participant; here
    their operations take it as an argument.  The host (free ports, network
    interfaces) is a parameter. *)
From stdpp Require Import base tactics numbers list gmap strings.
From coqutil Require Import Datatypes.RecordSetters.
From S2P Require Import Prelude Ordered Ids Time SeqNum Qos HistoryCache Topic Message Proxy Writer.
From S2P Require Import DiscoveryData Reader Speedy Wire ParameterList Receiver Timer Tokens EventLoop.
Import OCamlLikeNotations.

(** ** Configuration *)

Definition DEFAULT_PARTICIPANT_MESSAGE_PERIOD : CoreDuration := mkCoreDuration 3 0.
Definition DEFAULT_LEASE_DURATION : CoreDuration := mkCoreDuration 20 0.
Definition DEFAULT_HEARTBEAT_PERIOD : CoreDuration := mkCoreDuration 2 0.
Definition DEFAULT_NACK_RESPONSE_DELAY : CoreDuration := mkCoreDuration 0 0.
Definition DEFAULT_HEARTBEAT_RESPONSE_DELAY : CoreDuration := mkCoreDuration 0 0.

Record ParticipantConfig := mkParticipantConfig {
  cfg_participant_message_period : CoreDuration;
  cfg_lease_duration : CoreDuration;
  cfg_heartbeat_period : CoreDuration;
  cfg_nack_response_delay : CoreDuration;
  cfg_heartbeat_response_delay : CoreDuration;
}.
Definition ParticipantConfig_default : ParticipantConfig :=
  mkParticipantConfig DEFAULT_PARTICIPANT_MESSAGE_PERIOD DEFAULT_LEASE_DURATION DEFAULT_HEARTBEAT_PERIOD
    DEFAULT_NACK_RESPONSE_DELAY DEFAULT_HEARTBEAT_RESPONSE_DELAY.

Record ParticipantConfigBuilder := mkParticipantConfigBuilder {
  cb_participant_message_period : option CoreDuration;
  cb_lease_duration : option CoreDuration;
  cb_heartbeat_period : option CoreDuration;
  cb_nack_response_delay : option CoreDuration;
  cb_heartbeat_response_delay : option CoreDuration;
}.
Definition ParticipantConfigBuilder_new : ParticipantConfigBuilder :=
  mkParticipantConfigBuilder None None None None None.
Definition participant_period (d : CoreDuration) (b : ParticipantConfigBuilder) : ParticipantConfigBuilder :=
  { b with cb_participant_message_period := Some d }.
Definition config_lease_duration (d : CoreDuration) (b : ParticipantConfigBuilder) : ParticipantConfigBuilder :=
  { b with cb_lease_duration := Some d }.
Definition config_heartbeat_period (d : CoreDuration) (b : ParticipantConfigBuilder) : ParticipantConfigBuilder :=
  { b with cb_heartbeat_period := Some d }.
Definition config_nack_response_delay (d : CoreDuration) (b : ParticipantConfigBuilder) : ParticipantConfigBuilder :=
  { b with cb_nack_response_delay := Some d }.
Definition config_heartbeat_response_delay (d : CoreDuration) (b : ParticipantConfigBuilder)
    : ParticipantConfigBuilder :=
  { b with cb_heartbeat_response_delay := Some d }.
Definition ParticipantConfigBuilder_build (b : ParticipantConfigBuilder) : outcome ParticipantConfig :=
  let participant_message_period :=
    default DEFAULT_PARTICIPANT_MESSAGE_PERIOD (cb_participant_message_period b) in
  let lease_duration := default DEFAULT_LEASE_DURATION (cb_lease_duration b) in
  if negb (bool_decide (ord_lt participant_message_period lease_duration)) then Panic
  else Done (mkParticipantConfig participant_message_period lease_duration
    (default DEFAULT_HEARTBEAT_PERIOD (cb_heartbeat_period b))
    (default DEFAULT_NACK_RESPONSE_DELAY (cb_nack_response_delay b))
    (default DEFAULT_HEARTBEAT_RESPONSE_DELAY (cb_heartbeat_response_delay b))).

(** ** QoS of publishers and subscribers *)

Record EntityFactory := mkEntityFactory { autoenable_created_entites : bool }.
#[export] Instance Presentation_default : HasDefault Presentation := mkPresentation ScopeInstance false false.
#[export] Instance Partition_default : HasDefault Partition := mkPartition [[]].
#[export] Instance GroupData_default : HasDefault GroupData := mkGroupData [].
#[export] Instance EntityFactory_default : HasDefault EntityFactory := mkEntityFactory true.

(** [PublisherQosPolicies] and [SubscriberQosPolicies] have the same fields. *)
Record GroupQosPolicies := mkGroupQosPolicies {
  g_presentation : Presentation;
  g_partition : Partition;
  g_group_data : GroupData;
  g_entity_factory : EntityFactory;
}.
Record GroupQosBuilder := mkGroupQosBuilder {
  gb_presentation : option Presentation;
  gb_partition : option Partition;
  gb_group_data : option GroupData;
  gb_entity_factory : option EntityFactory;
}.
Definition GroupQosBuilder_new : GroupQosBuilder := mkGroupQosBuilder None None None None.
Definition GroupQosBuilder_build (b : GroupQosBuilder) : GroupQosPolicies :=
  mkGroupQosPolicies (unwrap_or_default (gb_presentation b)) (unwrap_or_default (gb_partition b))
    (unwrap_or_default (gb_group_data b)) (unwrap_or_default (gb_entity_factory b)).

(** [PublisherQos], [SubscriberQos], [TopicQos], [DataWriterQos] and
    [DataReaderQos]: the default of the factory, or policies. *)
Inductive QosOf (A : Type) := QosDefault | QosPolicies (q : A).
Arguments QosDefault {A}.
Arguments QosPolicies {A} q.
Definition or_default {A} (d : A) (q : QosOf A) : A := match q with QosDefault => d | QosPolicies q => q end.

(** ** The participant *)

Record DomainParticipant := mkDomainParticipant {
  dp_domain_id : Z;
  dp_participant_id : Z;
  my_guid : GUID;
  create_writer_queue : list WriterIngredients;
  create_reader_queue : list ReaderIngredients;
  entity_key_generator : Z;
  default_publisher_qos : GroupQosPolicies;
  default_subscriber_qos : GroupQosPolicies;
  default_topic_qos : TopicQosPolicies;
  participant_config : ParticipantConfig;
  network_interfaces : list (list Z);
  participant_data_sent : SPDPdiscoveredParticipantData;
  serialized_spdp_data : SerializedPayload;
}.

(** What the operating system answers: whether a multicast group can be
    joined and a unicast port be bound; the IPv4 interfaces it lists.  The
    sockets for sending are taken to open. *)
Record Host := mkHost {
  joins : Z → bool;
  binds : Z → bool;
  local_ipv4_nics : list (list Z);
}.

Definition PARTICIPANT_LIMIT : Z := 120.

(** The search for a free [participant_id]; [PARTICIPANT_LIMIT] is its fuel
    too, the id grows with every round. *)
Fixpoint find_participant_id (h : Host) (domain_id participant_id : Z) (fuel : nat) : option Z :=
  match fuel with
  | O => None
  | S fuel =>
      if bool_decide (participant_id < PARTICIPANT_LIMIT) then
        if binds h (spdp_unicast_port domain_id participant_id) then Some participant_id
        else find_participant_id h domain_id (participant_id + 1) fuel
      else None
  end.

Definition AVAILABLE_BUILTIN_ENDPOINT : Z :=
  Z.lor 0x1 (Z.lor 0x2 (Z.lor PUBLICATIONS_ANNOUNCER (Z.lor PUBLICATIONS_DETECTOR
    (Z.lor SUBSCRIPTIONS_ANNOUNCER (Z.lor SUBSCRIPTIONS_DETECTOR
      (Z.lor PARTICIPANT_MESSAGE_DATA_WRITER PARTICIPANT_MESSAGE_DATA_READER)))))).

Definition multicast_group : list Z := [239; 255; 0; 1].

Definition participant_spdp_data (domain_id participant_id : Z) (guid : GUID) (nics : list (list Z))
    (config : ParticipantConfig) : outcome SPDPdiscoveredParticipantData :=
  metatraffic ← Loc.new_list_from_multi_ipv4 (spdp_unicast_port domain_id participant_id) nics;
  usertraffic ← Loc.new_list_from_multi_ipv4 (usertraffic_unicast_port domain_id participant_id) nics;
  Done (mkSPDPdiscoveredParticipantData domain_id "todo" PROTOCOLVERSION guid VENDORID_THIS_IMPLEMENTATION
    false AVAILABLE_BUILTIN_ENDPOINT
    metatraffic [Loc.new_from_ipv4 (spdp_multicast_port domain_id) multicast_group]
    [Loc.new_from_ipv4 (usertraffic_multicast_port domain_id) multicast_group] usertraffic
    (Some 0) (Dur.of_core (cfg_lease_duration config))).

Section entities.
Context `{Speedy}.

(** [DomainParticipantInner::new]; [bytes] are the random octets of the prefix. *)
Definition participant_inner_new (h : Host) (domain_id : Z) (nics : list (list Z)) (config : ParticipantConfig)
    (bytes : list Z) : outcome DomainParticipant :=
  if negb (joins h (spdp_multicast_port domain_id)) then Panic
  else if negb (joins h (usertraffic_multicast_port domain_id)) then Panic
  else
    participant_id ← unwrap (find_participant_id h domain_id 0 (Z.to_nat (PARTICIPANT_LIMIT + 1)));
    if negb (binds h (usertraffic_unicast_port domain_id participant_id)) then Panic
    else
      let my_guid := new_participant_guid bytes in
      spdp_data ← participant_spdp_data domain_id participant_id my_guid nics config;
      Done (mkDomainParticipant domain_id participant_id my_guid [] [] FIRST_ENTITY_KEY
        (GroupQosBuilder_build GroupQosBuilder_new) (GroupQosBuilder_build GroupQosBuilder_new)
        (TopicQosBuilder_build TopicQosBuilder_new) config nics spdp_data
        (mkSerializedPayload PL_CDR_LE [0; 0] (write_spdp LittleEndian spdp_data))).

(** [DomainParticipant::new] up to the threads. *)
Definition participant_new (h : Host) (domain_id : Z) (nics : list (list Z)) (config : option ParticipantConfig)
    (bytes : list Z) : outcome DomainParticipant :=
  nics ← (match nics with
          | [] => n ← unwrap (head (local_ipv4_nics h)); Done [n]
          | _ => Done nics
          end);
  participant_inner_new h domain_id nics (default ParticipantConfig_default config) bytes.
End entities.

(** ** Factories *)

Definition dp_gen_entity_key (dp : DomainParticipant) : DomainParticipant * (Z * Z * Z) :=
  let '(n, key) := gen_entity_key (entity_key_generator dp) in
  ({ dp with entity_key_generator := n }, key).
Definition dp_guid_prefix (dp : DomainParticipant) : GuidPrefix := guid_prefix (my_guid dp).

Record Publisher := mkPublisher {
  pub_guid : GUID;
  pub_qos : GroupQosPolicies;
  default_dw_qos : DataWriterQosPolicies;
}.
Record Subscriber := mkSubscriber {
  sub_guid : GUID;
  sub_qos : GroupQosPolicies;
  default_dr_qos : DataReaderQosPolicies;
}.

Definition create_publisher (qos : QosOf GroupQosPolicies) (dp : DomainParticipant)
    : DomainParticipant * Publisher :=
  let '(dp, key) := dp_gen_entity_key dp in
  (dp, mkPublisher (mkGUID (dp_guid_prefix dp) (mkEntityId key Kind.PUBLISHER))
         (or_default (default_publisher_qos dp) qos) (DataWriterQosBuilder_build DataWriterQosBuilder_new)).
Definition create_subscriber (qos : QosOf GroupQosPolicies) (dp : DomainParticipant)
    : DomainParticipant * Subscriber :=
  let '(dp, key) := dp_gen_entity_key dp in
  (dp, mkSubscriber (mkGUID (dp_guid_prefix dp) (mkEntityId key Kind.SUBSCRIBER))
         (or_default (default_subscriber_qos dp) qos) (DataReaderQosBuilder_build DataReaderQosBuilder_new)).
Definition create_topic (name type_desc : string) (is_with_key : bool) (qos : QosOf TopicQosPolicies)
    (dp : DomainParticipant) : Topic :=
  topic_new name type_desc is_with_key (or_default (default_topic_qos dp) qos).
Definition create_builtin_topic (name type_desc : string) (kind : TopicKind) (qos : QosOf TopicQosPolicies)
    (dp : DomainParticipant) : Topic :=
  mkTopic name type_desc (or_default (default_topic_qos dp) qos) kind.

Definition set_default_publisher_qos (q : GroupQosPolicies) (dp : DomainParticipant) : DomainParticipant :=
  { dp with default_publisher_qos := q }.
Definition set_default_subscriber_qos (q : GroupQosPolicies) (dp : DomainParticipant) : DomainParticipant :=
  { dp with default_subscriber_qos := q }.
Definition set_default_topic_qos (q : TopicQosPolicies) (dp : DomainParticipant) : DomainParticipant :=
  { dp with default_topic_qos := q }.
Definition set_default_datawriter_qos (q : DataWriterQosPolicies) (p : Publisher) : Publisher :=
  { p with default_dw_qos := q }.
Definition set_default_datareader_qos (q : DataReaderQosPolicies) (s : Subscriber) : Subscriber :=
  { s with default_dr_qos := q }.

Definition publisher_set_qos (q : GroupQosPolicies) (p : Publisher) : Publisher := { p with pub_qos := q }.
Definition subscriber_set_qos (q : GroupQosPolicies) (s : Subscriber) : Subscriber := { s with sub_qos := q }.

(** ** DataWriters and DataReaders *)

Record DataWriter := mkDataWriter {
  dw_guid : GUID;
  dw_qos : DataWriterQosPolicies;
  dw_topic : Topic;
  last_change_sequence_number : Z;
}.
Record DataReader := mkDataReader {
  dr_guid : GUID;
  dr_qos : DataReaderQosPolicies;
  dr_topic : Topic;
}.

(** [set_qos] changes the handle's copy only. *)
Definition datawriter_set_qos (q : DataWriterQosPolicies) (dw : DataWriter) : DataWriter := { dw with dw_qos := q }.
Definition datareader_set_qos (q : DataReaderQosPolicies) (dr : DataReader) : DataReader := { dr with dr_qos := q }.

Definition datawriter_qos (qos : QosOf DataWriterQosPolicies) (topic : Topic) (p : Publisher)
    : DataWriterQosPolicies :=
  match qos with
  | QosDefault => default_dw_qos p
  | QosPolicies q =>
      writer_combine (writer_combine (to_datawriter_qos (my_qos_policies topic)) (default_dw_qos p)) q
  end.
Definition datareader_qos (qos : QosOf DataReaderQosPolicies) (topic : Topic) (s : Subscriber)
    : DataReaderQosPolicies :=
  match qos with
  | QosDefault => default_dr_qos s
  | QosPolicies q =>
      reader_combine (reader_combine (to_datareader_qos (my_qos_policies topic)) (default_dr_qos s)) q
  end.

Definition usertraffic_multicast_locators (dp : DomainParticipant) : list Locator :=
  [Loc.new_from_ipv4 (usertraffic_multicast_port (dp_domain_id dp)) multicast_group].

Definition create_datawriter_with_entityid (qos : QosOf DataWriterQosPolicies) (topic : Topic)
    (entity_id : EntityId) (p : Publisher) (dp : DomainParticipant) : outcome (DataWriter * WriterIngredients) :=
  let dw_qos := datawriter_qos qos topic p in
  let reliability_level := reliability_kind (w_reliability dw_qos).1 in
  let heartbeat_period :=
    match reliability_level with
    | Reliable => Dur.of_core (cfg_heartbeat_period (participant_config dp))
    | BestEffort => Dur.ZERO
    end in
  unicast_locator_list ← Loc.new_list_from_multi_ipv4
    (usertraffic_unicast_port (dp_domain_id dp) (dp_participant_id dp)) (network_interfaces dp);
  let guid := mkGUID (dp_guid_prefix dp) entity_id in
  Done (mkDataWriter guid dw_qos topic 0,
    mkWriterIngredients
      (mkWriterConf guid (topic_kind_of topic) reliability_level unicast_locator_list
         (usertraffic_multicast_locators dp) true heartbeat_period
         (Dur.of_core (cfg_nack_response_delay (participant_config dp))) 0 topic dw_qos LittleEndian)
      (hc_new HcWriter)).

Definition create_datareader_with_entityid (qos : QosOf DataReaderQosPolicies) (topic : Topic)
    (entity_id : EntityId) (s : Subscriber) (dp : DomainParticipant) : outcome (DataReader * ReaderIngredients) :=
  let dr_qos := datareader_qos qos topic s in
  let reliability_level := reliability_kind (r_reliability dr_qos).1 in
  unicast_locator_list ← Loc.new_list_from_multi_ipv4
    (usertraffic_unicast_port (dp_domain_id dp) (dp_participant_id dp)) (network_interfaces dp);
  let guid := mkGUID (dp_guid_prefix dp) entity_id in
  Done (mkDataReader guid dr_qos topic,
    mkReaderIngredients
      (mkReaderConf guid (topic_kind_of topic) reliability_level unicast_locator_list
         (usertraffic_multicast_locators dp) false
         (Dur.of_core (cfg_heartbeat_response_delay (participant_config dp))) topic dr_qos LittleEndian)
      (hc_new HcReader)).

Definition create_datawriter (qos : QosOf DataWriterQosPolicies) (topic : Topic) (p : Publisher)
    (dp : DomainParticipant) : outcome (DomainParticipant * DataWriter) :=
  let entity_kind :=
    match topic_kind_of topic with
    | WithKey => Kind.WRITER_WITH_KEY_USER_DEFIND
    | NoKey => Kind.WRITER_NO_KEY_USER_DEFIND
    end in
  let '(dp, key) := dp_gen_entity_key dp in
  '(dw, w_ing) ← create_datawriter_with_entityid qos topic (mkEntityId key entity_kind) p dp;
  Done ({ dp with create_writer_queue := create_writer_queue dp ++ [w_ing] }, dw).

Definition create_datareader (qos : QosOf DataReaderQosPolicies) (topic : Topic) (s : Subscriber)
    (dp : DomainParticipant) : outcome (DomainParticipant * DataReader) :=
  let entity_kind :=
    match topic_kind_of topic with
    | WithKey => Kind.READER_WITH_KEY_USER_DEFIND
    | NoKey => Kind.READER_NO_KEY_USER_DEFIND
    end in
  let '(dp, key) := dp_gen_entity_key dp in
  '(dr, r_ing) ← create_datareader_with_entityid qos topic (mkEntityId key entity_kind) s dp;
  Done ({ dp with create_reader_queue := create_reader_queue dp ++ [r_ing] }, dr).

(** ** Built-in endpoints *)

Record BuiltinEndpoints := mkBuiltinEndpoints {
  be_publisher : Publisher;
  be_subscriber : Subscriber;
  spdp_builtin_participant_writer : DataWriter;
  sedp_builtin_pub_writer : DataWriter;
  sedp_builtin_pub_reader : DataReader;
  sedp_builtin_sub_writer : DataWriter;
  sedp_builtin_sub_reader : DataReader;
  p2p_builtin_participant_msg_writer : DataWriter;
  p2p_builtin_participant_msg_reader : DataReader;
}.

Definition spdp_writer_qos : DataWriterQosPolicies :=
  DataWriterQosBuilder_build { DataWriterQosBuilder_new with wb_reliability := Some default_besteffort }.
Definition sedp_writer_qos : DataWriterQosPolicies :=
  DataWriterQosBuilder_build { DataWriterQosBuilder_new with
    wb_reliability := Some default_reliable; wb_history := Some (mkHistory KeepAll 0) }.
Definition sedp_reader_qos : DataReaderQosPolicies :=
  DataReaderQosBuilder_build { DataReaderQosBuilder_new with rb_reliability := Some default_reliable }.
Definition sedp_topic_qos : TopicQosPolicies :=
  TopicQosBuilder_build { TopicQosBuilder_new with
    tb_reliability := Some default_reliable; tb_durability := Some TransientLocal }.
Definition p2p_topic_qos : TopicQosPolicies :=
  TopicQosBuilder_build { TopicQosBuilder_new with
    tb_reliability := Some default_reliable; tb_durability := Some TransientLocal;
    tb_history := Some (mkHistory KeepLast 1) }.

(** [create_builtin_endpoints]; the ingredients in the order in which
    [register_builtin_endpoints] takes them. *)
Definition create_builtin_endpoints (dp : DomainParticipant)
    : outcome (DomainParticipant * BuiltinEndpoints * list Ingredients) :=
  let '(dp, publisher) := create_publisher QosDefault dp in
  let '(dp, subscriber) := create_subscriber QosDefault dp in
  let spdp_topic :=
    create_builtin_topic "DCPSParticipant" "SPDPDiscoveredParticipantData" WithKey QosDefault dp in
  '(spdp_w, spdp_w_ing) ← create_datawriter_with_entityid (QosPolicies spdp_writer_qos) spdp_topic
    Eid.SPDP_BUILTIN_PARTICIPANT_ANNOUNCER publisher dp;
  let pub_topic :=
    create_builtin_topic "DCPSPublication" "PublicationBuiltinTopicData" WithKey (QosPolicies sedp_topic_qos) dp in
  '(pub_w, pub_w_ing) ← create_datawriter_with_entityid (QosPolicies sedp_writer_qos) pub_topic
    Eid.SEDP_BUILTIN_PUBLICATIONS_ANNOUNCER publisher dp;
  '(pub_r, pub_r_ing) ← create_datareader_with_entityid (QosPolicies sedp_reader_qos) pub_topic
    Eid.SEDP_BUILTIN_PUBLICATIONS_DETECTOR subscriber dp;
  let sub_topic :=
    create_builtin_topic "DCPSSucscription" "SubscriptionBuiltinTopicData" WithKey (QosPolicies sedp_topic_qos) dp in
  '(sub_w, sub_w_ing) ← create_datawriter_with_entityid (QosPolicies sedp_writer_qos) sub_topic
    Eid.SEDP_BUILTIN_SUBSCRIPTIONS_ANNOUNCER publisher dp;
  '(sub_r, sub_r_ing) ← create_datareader_with_entityid (QosPolicies sedp_reader_qos) sub_topic
    Eid.SEDP_BUILTIN_SUBSCRIPTIONS_DETECTOR subscriber dp;
  let p2p_topic :=
    create_builtin_topic "DCPSParticipantMessage" "ParticipantMessageData" WithKey (QosPolicies p2p_topic_qos) dp in
  '(p2p_w, p2p_w_ing) ← create_datawriter_with_entityid (QosPolicies (default_dw_qos publisher)) p2p_topic
    Eid.P2P_BUILTIN_PARTICIPANT_MESSAGE_WRITER publisher dp;
  '(p2p_r, p2p_r_ing) ← create_datareader_with_entityid (QosPolicies (default_dr_qos subscriber)) p2p_topic
    Eid.P2P_BUILTIN_PARTICIPANT_MESSAGE_READER subscriber dp;
  Done (dp, mkBuiltinEndpoints publisher subscriber spdp_w pub_w pub_r sub_w sub_r p2p_w p2p_r,
    [IngWriter spdp_w_ing; IngWriter pub_w_ing; IngReader pub_r_ing; IngWriter sub_w_ing; IngReader sub_r_ing;
     IngWriter p2p_w_ing; IngReader p2p_r_ing]).
