(* ===== verification/EntitiesProofs.v ===== *)
(** * Correctness of the API entities

    The participant id and the configuration; what the factories hand to the
    event loop is what its registration asks for, so that the start of a
    participant and the creation of endpoints run to their end; the QoS of
    the built-in endpoints agrees with what the peers take it to be. *)
From stdpp Require Import base tactics numbers list gmap strings.
From coqutil Require Import Datatypes.RecordSetters.
From S2P Require Import Prelude Ordered Ids Time SeqNum Qos HistoryCache Topic Message Proxy Writer WriterProofs.
From S2P Require Import DiscoveryData DiscoveryDB Reader ReaderProofs Speedy Wire ParameterList Receiver.
From S2P Require Import ReceiverProofs Timer Tokens EventLoop EventLoopProofs EventLoopSteps Entities.
Import OCamlLikeNotations.

(** ** The participant id *)

Lemma find_participant_id_from h d p (fuel : nat) :
  PARTICIPANT_LIMIT < p + fuel →
  match find_participant_id h d p fuel with
  | Some i => p ≤ i < PARTICIPANT_LIMIT ∧ binds h (spdp_unicast_port d i) = true ∧
      ∀ j, p ≤ j < i → binds h (spdp_unicast_port d j) = false
  | None => ∀ j, p ≤ j < PARTICIPANT_LIMIT → binds h (spdp_unicast_port d j) = false
  end.
Proof.
  revert p. induction fuel as [|fuel IH]; intros p Hp; simpl; [intros j; lia|].
  destruct (bool_decide_case (p < PARTICIPANT_LIMIT)) as [[-> Hlt]|[-> Hge]]; [|intros j; lia].
  destruct (binds h (spdp_unicast_port d p)) eqn:E; [split_and!; [lia|lia|done|intros j; lia]|].
  specialize (IH (p + 1)). destruct (find_participant_id h d (p + 1) fuel) as [i|].
  - destruct IH as (? & ? & Hno); [lia|]. split_and!; [lia|lia|done|]. intros j Hj.
    destruct (decide (j = p)) as [->|]; [done|apply Hno; lia].
  - intros j Hj. destruct (decide (j = p)) as [->|]; [done|apply IH; lia].
Qed.

(** The search for a participant id ends with the least id below 120 whose
    port is free; it fails only if all the 120 ports are taken.  The fuel, one
    more than the ids, never runs out. *)
Theorem participant_id_is_least_free h d :
  match find_participant_id h d 0 (Z.to_nat (PARTICIPANT_LIMIT + 1)) with
  | Some i => 0 ≤ i < PARTICIPANT_LIMIT ∧ binds h (spdp_unicast_port d i) = true ∧
      ∀ j, 0 ≤ j < i → binds h (spdp_unicast_port d j) = false
  | None => ∀ j, 0 ≤ j < PARTICIPANT_LIMIT → binds h (spdp_unicast_port d j) = false
  end.
Proof. apply find_participant_id_from. unfold PARTICIPANT_LIMIT. lia. Qed.

(** ** Configuration *)

(** The builder rejects a configuration exactly if the lease does not exceed
    the period of the announcements; otherwise every value is the one given,
    or its default. *)
Theorem config_build_spec b :
  let period := default DEFAULT_PARTICIPANT_MESSAGE_PERIOD (cb_participant_message_period b) in
  let lease := default DEFAULT_LEASE_DURATION (cb_lease_duration b) in
  (ParticipantConfigBuilder_build b = Panic ↔ ¬ ord_lt period lease) ∧
  ∀ c, ParticipantConfigBuilder_build b = Done c →
    ord_lt (cfg_participant_message_period c) (cfg_lease_duration c) ∧
    cfg_participant_message_period c = period ∧ cfg_lease_duration c = lease ∧
    cfg_heartbeat_period c = default DEFAULT_HEARTBEAT_PERIOD (cb_heartbeat_period b) ∧
    cfg_nack_response_delay c = default DEFAULT_NACK_RESPONSE_DELAY (cb_nack_response_delay b) ∧
    cfg_heartbeat_response_delay c = default DEFAULT_HEARTBEAT_RESPONSE_DELAY (cb_heartbeat_response_delay b).
Proof.
  intros period lease. unfold ParticipantConfigBuilder_build. fold period lease.
  destruct (bool_decide_case (ord_lt period lease)) as [[-> Hlt]|[-> Hn]]; simpl.
  - split; [by split|]. by intros c [= <-].
  - by split.
Qed.

(** A delay that fits the signed 32 bits of the seconds. *)
Definition core_small (d : CoreDuration) : Prop := 0 ≤ secs d < 2 ^ 31.

Lemma of_core_delay d : core_small d → delay_ok (Dur.of_core d).
Proof.
  intros Hd. unfold core_small in Hd.
  assert (Hs : as_i32 (secs d) = secs d) by (apply (wrap_s_small 32); unfold in_s; lia).
  unfold delay_ok, Dur.wf, Dur.of_core, in_s, in_u. cbn [seconds fraction]. rewrite Hs.
  pose proof (as_u32_sat_range (F64.mul (F64.div (F64.of_Z (nanos d)) (F64.of_Z NANOS_PER_SEC)) (F64.of_Z (2 ^ 32)))) as Hf.
  unfold in_u in Hf. lia.
Qed.

Record config_ok (c : ParticipantConfig) : Prop := {
  co_heartbeat : core_small (cfg_heartbeat_period c);
  co_nack : core_small (cfg_nack_response_delay c);
  co_response : core_small (cfg_heartbeat_response_delay c);
}.
Lemma default_config_ok : config_ok ParticipantConfig_default.
Proof. split; unfold core_small; simpl; lia. Qed.

(** ** QoS *)

(** The durations of a QoS are those of their fields' widths. *)
Definition writer_qos_wf (q : DataWriterQosPolicies) : Prop :=
  Dur.wf (period (w_deadline q).1) ∧ Dur.wf (lease_duration (w_liveliness q).1).
Definition reader_qos_wf (q : DataReaderQosPolicies) : Prop := Dur.wf (period (r_deadline q).1).
Definition topic_qos_wf (q : TopicQosPolicies) : Prop :=
  Dur.wf (period (t_deadline q).1) ∧ Dur.wf (lease_duration (t_liveliness q).1).

Lemma combine_policy_either {A} `{EqDecision A} (P : A → Prop) (x y : A * bool) :
  P x.1 → P y.1 → P (combine_policy x y).1.
Proof. unfold combine_policy. intros. case_bool_decide; [done|by destruct y.2]. Qed.

Lemma writer_combine_wf q q' : writer_qos_wf q → writer_qos_wf q' → writer_qos_wf (writer_combine q q').
Proof.
  intros [H1 H2] [H3 H4]. split; [apply (combine_policy_either (λ d, Dur.wf (period d)))|
    apply (combine_policy_either (λ l, Dur.wf (lease_duration l)))]; done.
Qed.
Lemma reader_combine_wf q q' : reader_qos_wf q → reader_qos_wf q' → reader_qos_wf (reader_combine q q').
Proof. intros H1 H2. by apply (combine_policy_either (λ d, Dur.wf (period d))). Qed.
Lemma datawriter_qos_wf qos t p :
  writer_qos_wf (default_dw_qos p) → topic_qos_wf (my_qos_policies t) →
  (∀ q, qos = QosPolicies q → writer_qos_wf q) → writer_qos_wf (datawriter_qos qos t p).
Proof.
  intros Hp Ht Hq. unfold datawriter_qos. destruct qos as [|q]; [done|].
  apply writer_combine_wf; [apply writer_combine_wf; [exact Ht|done]|by apply Hq].
Qed.
Lemma datareader_qos_wf qos t s :
  reader_qos_wf (default_dr_qos s) → topic_qos_wf (my_qos_policies t) →
  (∀ q, qos = QosPolicies q → reader_qos_wf q) → reader_qos_wf (datareader_qos qos t s).
Proof.
  intros Hs [Ht _] Hq. unfold datareader_qos. destruct qos as [|q]; [done|].
  apply reader_combine_wf; [apply reader_combine_wf; [exact Ht|done]|by apply Hq].
Qed.

(** ** New endpoints *)

Section creation.
Context {TL : TimerLib} `{!TimerLaws TL}.

(** A participant with its event loop: it can make locators, and no endpoint
    of the loop has a key that is still to be handed out. *)
Definition entity_number (e : EntityId) : Z := key_number (entity_key e).
Record fresh (dp : DomainParticipant) (L : EventLoop) : Prop := {
  fr_prefix : el_guid_prefix L = dp_guid_prefix dp;
  fr_config : config_ok (participant_config dp);
  fr_nics : [0; 0; 0; 0] ∉ network_interfaces dp;
  fr_gen : 0 ≤ entity_key_generator dp;
  fr_writers : ∀ e, is_Some (writers (world L) !! e) → entity_number e < entity_key_generator dp;
  fr_readers : ∀ e, is_Some (readers (world L) !! e) → entity_number e < entity_key_generator dp;
}.

Lemma multi_ipv4_total port l :
  [0; 0; 0; 0] ∉ l → Loc.new_list_from_multi_ipv4 port l =
    Done ((λ a, mkLocator Loc.KIND_UDPV4 port (replicate 12 0 ++ a)) <$> l).
Proof.
  induction l as [|a l IH]; intros Hl; [done|]. simpl. rewrite bool_decide_false by set_solver.
  rewrite IH by set_solver. done.
Qed.

Lemma has_locator_multicast u l ls du dm : has_locator (mkLocators u (l :: ls) du dm) = true.
Proof. unfold has_locator. apply bool_decide_eq_true. simpl. lia. Qed.

Lemma create_datawriter_with_entityid_ok qos t e p dp L :
  el_guid_prefix L = dp_guid_prefix dp → config_ok (participant_config dp) → [0; 0; 0; 0] ∉ network_interfaces dp →
  writer_qos_wf (datawriter_qos qos t p) → writers (world L) !! e = None →
  ∃ dw wi, create_datawriter_with_entityid qos t e p dp = Done (dw, wi) ∧ writer_ing_ok L wi ∧
    dw = mkDataWriter (mkGUID (dp_guid_prefix dp) e) (datawriter_qos qos t p) t 0 ∧
    w_guid (wi_conf wi) = dw_guid dw ∧ w_qos (wi_conf wi) = dw_qos dw ∧ w_topic (wi_conf wi) = t ∧
    wi_whc wi = hc_new HcWriter.
Proof.
  intros Hp Hc Hn [Hd Hl] He. unfold create_datawriter_with_entityid. rewrite multi_ipv4_total by done.
  cbn [mbind outcome_bind]. eexists _, _. split; [reflexivity|]. split_and!; try done.
  split; try done; cbn.
  - split; cbn; [done|done| |by apply of_core_delay, Hc].
    destruct (reliability_kind _); [by apply of_core_delay, Hc|]. split; [split|]; unfold in_s, in_u; simpl; lia.
  - by rewrite Hp.
  - apply hc_new_wf.
  - intros k [c Hk]. simpl in Hk. by rewrite lookup_empty in Hk.
  - intros k [c Hk]. simpl in Hk. by rewrite lookup_empty in Hk.
  - apply has_locator_multicast.
Qed.

Lemma create_datareader_with_entityid_ok qos t e s dp L :
  el_guid_prefix L = dp_guid_prefix dp → config_ok (participant_config dp) → [0; 0; 0; 0] ∉ network_interfaces dp →
  reader_qos_wf (datareader_qos qos t s) → readers (world L) !! e = None →
  ∃ dr ri, create_datareader_with_entityid qos t e s dp = Done (dr, ri) ∧ reader_ing_ok L ri ∧
    dr = mkDataReader (mkGUID (dp_guid_prefix dp) e) (datareader_qos qos t s) t ∧
    rd_guid (ri_conf ri) = dr_guid dr ∧ rd_qos (ri_conf ri) = dr_qos dr ∧ rd_topic (ri_conf ri) = t ∧
    ri_rhc ri = hc_new HcReader.
Proof.
  intros Hp Hc Hn Hd He. unfold create_datareader_with_entityid. rewrite multi_ipv4_total by done.
  cbn [mbind outcome_bind]. eexists _, _. split; [reflexivity|]. split_and!; try done.
  split; try done; cbn.
  - split; cbn; [done|]. by apply of_core_delay, Hc.
  - by rewrite Hp.
  - apply hc_new_wf.
  - apply has_locator_multicast.
Qed.

(** The key that is next. *)
Lemma next_key dp :
  0 ≤ entity_key_generator dp < 2 ^ 24 →
  dp_gen_entity_key dp =
    ({ dp with entity_key_generator := entity_key_generator dp + 1 }, key_octets (entity_key_generator dp)) ∧
  key_number (key_octets (entity_key_generator dp)) = entity_key_generator dp.
Proof.
  intros Hg. unfold dp_gen_entity_key, gen_entity_key. rewrite (wrap_u_small 32) by (unfold in_u; lia).
  split; [done|]. rewrite key_octets_number by lia. by rewrite Z.mod_small.
Qed.

Lemma not_registered {A} (m : gmap EntityId A) n e :
  (∀ e, is_Some (m !! e) → entity_number e < n) → entity_number e = n → m !! e = None.
Proof. intros Hm He. apply eq_None_not_Some. intros Hs%Hm. lia. Qed.

Lemma registered_one {A} (m : gmap EntityId A) k (x : A) n :
  (∀ e, is_Some (m !! e) → entity_number e < n) → entity_number k = n →
  ∀ e, is_Some (<[k := x]> m !! e) → entity_number e < n + 1.
Proof.
  intros Hm Hk e. rewrite lookup_insert. case_decide as He; [rewrite <-He; lia|]. intros Hs. apply Hm in Hs. lia.
Qed.

Context `{SpeedyLaws}.

Lemma registration_safe c token L :
  (∀ i, clocks_ok (c i)) → token ∈ [Token.ADD_WRITER; Token.ADD_READER] → event_safe c token L.
Proof.
  intros Hc Ht. split; [done|].
  apply elem_of_cons in Ht as [-> | ->%list_elem_of_singleton]; by split.
Qed.

(** C11. Every DataWriter that the application creates is registered: the factory
    does not panic, what it queues is accepted by the event loop without
    aborting it, and afterwards there is one more writer, with a new entity
    id, the GUID and the QoS of the DataWriter; the participant can go on
    creating endpoints. *)
Theorem created_writer_registers native L dp p qos topic c clk now fuel :
  loop_reachable native L → fresh dp L → entity_key_generator dp < 2 ^ 24 →
  writer_qos_wf (default_dw_qos p) → topic_qos_wf (my_qos_policies topic) →
  (∀ q, qos = QosPolicies q → writer_qos_wf q) → (∀ i, clocks_ok (c i)) →
  ∃ dp' dw wi L' evs,
    create_datawriter qos topic p dp = Done (dp', dw) ∧
    create_writer_queue dp' = create_writer_queue dp ++ [wi] ∧
    handle_event native clk c now fuel Token.ADD_WRITER (NewWriters [wi]) L = Done (L', evs, tt) ∧
    loop_reachable native L' ∧ fresh dp' L' ∧
    writers (world L) !! entity_id (dw_guid dw) = None ∧
    ∃ w, writers (world L') !! entity_id (dw_guid dw) = Some w ∧ wguid w = dw_guid dw ∧ wqos w = dw_qos dw.
Proof.
  intros Hr [Hp Hcf Hn Hg Hw Hrd] Hlt Hdq Htq Hq Hc. pose proof (loop_reachable_ok _ _ Hr) as Hok.
  destruct (next_key dp (conj Hg Hlt)) as [Hkey Hnum]. unfold create_datawriter. rewrite Hkey.
  set (dp1 := { dp with entity_key_generator := _ }). set (k := match topic_kind_of topic with WithKey => _ | NoKey => _ end).
  set (e := mkEntityId (key_octets (entity_key_generator dp)) k).
  assert (He : writers (world L) !! e = None) by (eapply not_registered; [done|exact Hnum]).
  destruct (create_datawriter_with_entityid_ok qos topic e p dp1 L Hp Hcf Hn) as
    (dw & wi & -> & Hwi & -> & Hg1 & Hq1 & Ht1 & Hh1); [by apply datawriter_qos_wf|done|]. cbn [mbind outcome_bind].
  assert (Hreg : wpl true (handle_event native clk c now fuel Token.ADD_WRITER (NewWriters [wi]))
    (λ _, all_registered [IngWriter wi] L) L).
  { change (wpl true (register_builtin_endpoints c [IngWriter wi]) (λ _, all_registered [IngWriter wi] L) L).
    apply register_all_main; [done| |by intros _]. split; [apply NoDup_singleton|by apply Forall_singleton]. }
  apply wpl_Done in Hreg as (L' & evs & [] & E & Hok' & Hp' & Hcfs). cbn in Hcfs. injection Hcfs as Hws Hrs.
  rewrite Hg1 in Hws. cbn in Hws.
  eexists _, _, wi, L', evs. split; [reflexivity|]. split; [done|]. split; [exact E|]. split_and!.
  - eapply lr_step; [exact Hr|]. eapply ls_event; [|exact E]. split; [apply NoDup_singleton|by apply Forall_singleton].
  - split; cbn; unfold constant; [by rewrite Hp'|done|done|lia| |].
    + intros e' He'. apply confs_lookup_writer in He'. rewrite Hws in He'.
      apply (registered_one _ e _ _) with (3 := He'); [|exact Hnum]. intros e2. rewrite confs_lookup_writer. apply Hw.
    + intros e' He'. apply confs_lookup_reader in He'. rewrite Hrs in He'. apply confs_lookup_reader, Hrd in He'. lia.
  - exact He.
  - cbn. assert (Hl : wconfs (world L') !! e = Some (wi_conf wi)) by by rewrite Hws, lookup_insert_eq.
    apply lookup_fmap_Some in Hl as (w & Hcw & Hlw). exists w. unfold wguid, wqos. by rewrite Hcw, Hg1, Hq1.
Qed.

(** Every DataReader that the application creates is registered, in the same
    sense. *)
Theorem created_reader_registers native L dp s qos topic c clk now fuel :
  loop_reachable native L → fresh dp L → entity_key_generator dp < 2 ^ 24 →
  reader_qos_wf (default_dr_qos s) → topic_qos_wf (my_qos_policies topic) →
  (∀ q, qos = QosPolicies q → reader_qos_wf q) → (∀ i, clocks_ok (c i)) →
  ∃ dp' dr ri L' evs,
    create_datareader qos topic s dp = Done (dp', dr) ∧
    create_reader_queue dp' = create_reader_queue dp ++ [ri] ∧
    handle_event native clk c now fuel Token.ADD_READER (NewReaders [ri]) L = Done (L', evs, tt) ∧
    loop_reachable native L' ∧ fresh dp' L' ∧
    readers (world L) !! entity_id (dr_guid dr) = None ∧
    ∃ r, readers (world L') !! entity_id (dr_guid dr) = Some r ∧ rguid r = dr_guid dr ∧ rqos r = dr_qos dr.
Proof.
  intros Hr [Hp Hcf Hn Hg Hw Hrd] Hlt Hdq Htq Hq Hc. pose proof (loop_reachable_ok _ _ Hr) as Hok.
  destruct (next_key dp (conj Hg Hlt)) as [Hkey Hnum]. unfold create_datareader. rewrite Hkey.
  set (dp1 := { dp with entity_key_generator := _ }). set (k := match topic_kind_of topic with WithKey => _ | NoKey => _ end).
  set (e := mkEntityId (key_octets (entity_key_generator dp)) k).
  assert (He : readers (world L) !! e = None) by (eapply not_registered; [done|exact Hnum]).
  destruct (create_datareader_with_entityid_ok qos topic e s dp1 L Hp Hcf Hn) as
    (dr & ri & -> & Hri & -> & Hg1 & Hq1 & Ht1 & Hh1); [by apply datareader_qos_wf|done|]. cbn [mbind outcome_bind].
  assert (Hreg : wpl true (handle_event native clk c now fuel Token.ADD_READER (NewReaders [ri]))
    (λ _, all_registered [IngReader ri] L) L).
  { change (wpl true (register_builtin_endpoints c [IngReader ri]) (λ _, all_registered [IngReader ri] L) L).
    apply register_all_main; [done| |by intros _]. split; [apply NoDup_singleton|by apply Forall_singleton]. }
  apply wpl_Done in Hreg as (L' & evs & [] & E & Hok' & Hp' & Hcfs). cbn in Hcfs. injection Hcfs as Hws Hrs.
  rewrite Hg1 in Hrs. cbn in Hrs.
  eexists _, _, ri, L', evs. split; [reflexivity|]. split; [done|]. split; [exact E|]. split_and!.
  - eapply lr_step; [exact Hr|]. eapply ls_event; [|exact E]. split; [apply NoDup_singleton|by apply Forall_singleton].
  - split; cbn; unfold constant; [by rewrite Hp'|done|done|lia| |].
    + intros e' He'. apply confs_lookup_writer in He'. rewrite Hws in He'. apply confs_lookup_writer, Hw in He'. lia.
    + intros e' He'. apply confs_lookup_reader in He'. rewrite Hrs in He'.
      apply (registered_one _ e _ _) with (3 := He'); [|exact Hnum]. intros e2. rewrite confs_lookup_reader. apply Hrd.
  - exact He.
  - cbn. assert (Hl : rconfs (world L') !! e = Some (ri_conf ri)) by by rewrite Hrs, lookup_insert_eq.
    apply lookup_fmap_Some in Hl as (r & Hcr & Hlr). exists r. unfold rguid, rqos. by rewrite Hcr, Hg1, Hq1.
Qed.
End creation.

(** ** Built-in endpoints *)

(** The QoS and the topics that they are created with. *)
Lemma builtin_endpoints_qos : ∀ dp dp' be l, create_builtin_endpoints dp = Done (dp', be, l) →
    let q := TopicQosBuilder_build TopicQosBuilder_new in
    let p := mkPublisher GUID_UNKNOW (GroupQosBuilder_build GroupQosBuilder_new)
               (DataWriterQosBuilder_build DataWriterQosBuilder_new) in
    let s := mkSubscriber GUID_UNKNOW (GroupQosBuilder_build GroupQosBuilder_new)
               (DataReaderQosBuilder_build DataReaderQosBuilder_new) in
    let pub := mkTopic "DCPSPublication" "PublicationBuiltinTopicData" sedp_topic_qos WithKey in
    let sub := mkTopic "DCPSSucscription" "SubscriptionBuiltinTopicData" sedp_topic_qos WithKey in
    let p2p := mkTopic "DCPSParticipantMessage" "ParticipantMessageData" p2p_topic_qos WithKey in
    (dw_qos (sedp_builtin_pub_writer be), dw_topic (sedp_builtin_pub_writer be),
     dr_qos (sedp_builtin_pub_reader be), dr_topic (sedp_builtin_pub_reader be)) =
      (datawriter_qos (QosPolicies sedp_writer_qos) pub p, pub, datareader_qos (QosPolicies sedp_reader_qos) pub s, pub) ∧
    (dw_qos (sedp_builtin_sub_writer be), dw_topic (sedp_builtin_sub_writer be),
     dr_qos (sedp_builtin_sub_reader be), dr_topic (sedp_builtin_sub_reader be)) =
      (datawriter_qos (QosPolicies sedp_writer_qos) sub p, sub, datareader_qos (QosPolicies sedp_reader_qos) sub s, sub) ∧
    (dw_qos (p2p_builtin_participant_msg_writer be), dw_topic (p2p_builtin_participant_msg_writer be),
     dr_qos (p2p_builtin_participant_msg_reader be), dr_topic (p2p_builtin_participant_msg_reader be)) =
      (datawriter_qos (QosPolicies (default_dw_qos p)) p2p p, p2p,
       datareader_qos (QosPolicies (default_dr_qos s)) p2p s, p2p).
Proof.
  intros dp dp' be l. unfold create_builtin_endpoints.
  destruct (create_publisher QosDefault dp) as [dp1 p] eqn:Ep. destruct (create_subscriber QosDefault dp1) as [dp2 s] eqn:Es.
  unfold create_publisher in Ep. destruct (dp_gen_entity_key dp) as [dp3 k]. injection Ep as _ <-.
  unfold create_subscriber in Es. destruct (dp_gen_entity_key dp1) as [dp4 k']. injection Es as _ <-.
  unfold create_datawriter_with_entityid, create_datareader_with_entityid.
  destruct (Loc.new_list_from_multi_ipv4 _ _) as [ll|]; [|discriminate].
  cbn [mbind outcome_bind]. intros E.
  apply (f_equal (λ o, match o with Done x => x.1.2 | Panic => be end)) in E. cbn [fst snd] in E. rewrite <-E.
  split_and!; reflexivity.
Qed.

(** C32. The built-in endpoints of two participants of this implementation agree:
    for publications, subscriptions and participant messages the writer's QoS
    is compatible with the reader's, and with the QoS that the receiver gives
    to the endpoint of a remote participant, in both directions; topic names
    and types are equal; all six are transient-local. *)
Theorem builtin_endpoints_compatible dp dq dp' dq' be be' l l' :
  create_builtin_endpoints dp = Done (dp', be, l) → create_builtin_endpoints dq = Done (dq', be', l') →
  let agree w r assumed_reader assumed_writer :=
    writer_is_compatible (dw_qos w) (dr_qos r) = inr tt ∧ reader_is_compatible (dr_qos r) (dw_qos w) = inr tt ∧
    writer_is_compatible (dw_qos w) assumed_reader = inr tt ∧
    reader_is_compatible (dr_qos r) assumed_writer = inr tt ∧
    topic_name (dw_topic w) = topic_name (dr_topic r) ∧ topic_type_desc (dw_topic w) = topic_type_desc (dr_topic r) ∧
    (w_durability (dw_qos w)).1 = TransientLocal ∧ (r_durability (dr_qos r)).1 = TransientLocal in
  agree (sedp_builtin_pub_writer be) (sedp_builtin_pub_reader be')
    (remote_reader_qos default_besteffort None) (remote_writer_qos default_reliable None) ∧
  agree (sedp_builtin_sub_writer be) (sedp_builtin_sub_reader be')
    (remote_reader_qos default_reliable None) (remote_writer_qos default_reliable None) ∧
  agree (p2p_builtin_participant_msg_writer be) (p2p_builtin_participant_msg_reader be')
    (remote_reader_qos default_reliable (Some (mkHistory KeepLast 1)))
    (remote_writer_qos default_reliable (Some (mkHistory KeepLast 1))).
Proof.
  intros H H'. cbv zeta.
  destruct (builtin_endpoints_qos _ _ _ _ H) as (H1 & H2 & H3), (builtin_endpoints_qos _ _ _ _ H') as (H1' & H2' & H3').
  injection H1 as -> -> _ _. injection H2 as -> -> _ _. injection H3 as -> -> _ _.
  injection H1' as _ _ -> ->. injection H2' as _ _ -> ->. injection H3' as _ _ -> ->.
  split_and!; vm_compute; reflexivity.
Qed.

(** ** The start of a participant *)

Section start.
Context {TL : TimerLib} `{!TimerLaws TL} `{SpeedyLaws}.

Lemma multi_ipv4_Done port l ls : Loc.new_list_from_multi_ipv4 port l = Done ls → [0; 0; 0; 0] ∉ l.
Proof.
  revert ls. induction l as [|a l IH]; intros ls; simpl; [intros _ ?%elem_of_nil; done|].
  case_bool_decide; [done|]. intros (ls' & E & _)%outcome_bind_Done. apply not_elem_of_cons. split; [done|by eapply IH].
Qed.

Lemma participant_new_inv h domain nics config bytes dp :
  participant_new h domain nics config bytes = Done dp →
  ∃ pid nics' spdp, dp = mkDomainParticipant domain pid (new_participant_guid bytes) [] [] FIRST_ENTITY_KEY
    (GroupQosBuilder_build GroupQosBuilder_new) (GroupQosBuilder_build GroupQosBuilder_new)
    (TopicQosBuilder_build TopicQosBuilder_new) (default ParticipantConfig_default config) nics' spdp
    (mkSerializedPayload PL_CDR_LE [0; 0] (write_spdp LittleEndian spdp)) ∧
    [0; 0; 0; 0] ∉ nics' ∧
    participant_spdp_data domain pid (new_participant_guid bytes) nics' (default ParticipantConfig_default config)
      = Done spdp.
Proof.
  unfold participant_new, participant_inner_new. intros (nics' & _ & E)%outcome_bind_Done.
  destruct (negb _); [done|]. destruct (negb _); [done|]. apply outcome_bind_Done in E as (pid & _ & E).
  destruct (negb _); [done|]. apply outcome_bind_Done in E as (spdp & Hs & E). injection E as <-.
  exists pid, nics', spdp. split_and!; [done| |done].
  unfold participant_spdp_data in Hs. apply outcome_bind_Done in Hs as (ls & Hl & _). by eapply multi_ipv4_Done.
Qed.

(** The next built-in endpoint is created by [H]. *)
Ltac next_endpoint H := edestruct H as (? & ? & -> & ? & ?);
  [first [assumption|vm_compute; intuition congruence]|vm_compute; intuition congruence|cbn [mbind outcome_bind]].

(** The endpoints that [create_builtin_endpoints] makes, for a loop that has
    none of them. *)
Lemma builtin_endpoints_ok dp L :
  el_guid_prefix L = dp_guid_prefix dp → config_ok (participant_config dp) →
  [0; 0; 0; 0] ∉ network_interfaces dp → topic_qos_wf (default_topic_qos dp) →
  0 ≤ entity_key_generator dp → entity_key_generator dp + 2 < 2 ^ 24 →
  writers (world L) = ∅ → readers (world L) = ∅ →
  ∃ dp' be l, create_builtin_endpoints dp = Done (dp', be, l) ∧
    dp' = { dp with entity_key_generator := entity_key_generator dp + 2 } ∧ Forall (ing_ok L) l ∧
    ing_key <$> l = [(true, Eid.SPDP_BUILTIN_PARTICIPANT_ANNOUNCER); (true, Eid.SEDP_BUILTIN_PUBLICATIONS_ANNOUNCER);
      (false, Eid.SEDP_BUILTIN_PUBLICATIONS_DETECTOR); (true, Eid.SEDP_BUILTIN_SUBSCRIPTIONS_ANNOUNCER);
      (false, Eid.SEDP_BUILTIN_SUBSCRIPTIONS_DETECTOR); (true, Eid.P2P_BUILTIN_PARTICIPANT_MESSAGE_WRITER);
      (false, Eid.P2P_BUILTIN_PARTICIPANT_MESSAGE_READER)].
Proof.
  intros Hp Hc Hn Ht Hg1 Hg2 HW HR. unfold create_builtin_endpoints, create_publisher, create_subscriber.
  destruct (next_key dp) as [-> _]; [lia|]. set (dp1 := { dp with entity_key_generator := _ }).
  destruct (next_key dp1) as [-> _]; [change (entity_key_generator dp1) with (entity_key_generator dp + 1); lia|].
  assert (Hdp2 : { dp1 with entity_key_generator := entity_key_generator dp1 + 1 } =
    { dp with entity_key_generator := entity_key_generator dp + 2 }).
  { unfold dp1. destruct dp; cbn; unfold constant. f_equal. lia. }
  rewrite Hdp2. clear Hdp2. set (dp2 := { dp with entity_key_generator := entity_key_generator dp + 2 }).
  set (p := mkPublisher _ _ _). set (s := mkSubscriber _ _ _).
  assert (HWe : ∀ e, writers (world L) !! e = None) by (intros; by rewrite HW).
  assert (HRe : ∀ e, readers (world L) !! e = None) by (intros; by rewrite HR).
  assert (Hw : ∀ e t q, topic_qos_wf (my_qos_policies t) → writer_qos_wf q →
    ∃ dw wi, create_datawriter_with_entityid (QosPolicies q) t e p dp2 = Done (dw, wi) ∧ ing_ok L (IngWriter wi) ∧
      ing_key (IngWriter wi) = (true, e)).
  { intros e t q Htq Hq. destruct (create_datawriter_with_entityid_ok (QosPolicies q) t e p dp2 L) as
      (dw & wi & E & Hi & -> & Hg & _); [done|done|done| |done|].
    - apply datawriter_qos_wf; [vm_compute; intuition congruence|done|by intros ? [= <-]].
    - exists (mkDataWriter (mkGUID (dp_guid_prefix dp2) e) (datawriter_qos (QosPolicies q) t p) t 0), wi.
      split; [exact E|]. split; [exact Hi|]. unfold ing_key. by rewrite Hg. }
  assert (Hr : ∀ e t q, topic_qos_wf (my_qos_policies t) → reader_qos_wf q →
    ∃ dr ri, create_datareader_with_entityid (QosPolicies q) t e s dp2 = Done (dr, ri) ∧ ing_ok L (IngReader ri) ∧
      ing_key (IngReader ri) = (false, e)).
  { intros e t q Htq Hq. destruct (create_datareader_with_entityid_ok (QosPolicies q) t e s dp2 L) as
      (dr & ri & E & Hi & -> & Hg & _); [done|done|done| |done|].
    - apply datareader_qos_wf; [vm_compute; intuition congruence|done|by intros ? [= <-]].
    - exists (mkDataReader (mkGUID (dp_guid_prefix dp2) e) (datareader_qos (QosPolicies q) t s) t), ri.
      split; [exact E|]. split; [exact Hi|]. unfold ing_key. by rewrite Hg. }
  next_endpoint Hw. next_endpoint Hw. next_endpoint Hr. next_endpoint Hw. next_endpoint Hr. next_endpoint Hw. next_endpoint Hr.
  eexists _, _, _. split; [reflexivity|]. split; [done|]. split; [by repeat (apply Forall_cons_2; [assumption|])|].
  cbn [fmap list_fmap]. congruence.
Qed.

Lemma confs_after l cs :
  (∀ e, is_Some ((foldl add_conf cs l).1 !! e) ↔ is_Some (cs.1 !! e) ∨ (true, e) ∈ ing_key <$> l) ∧
  (∀ e, is_Some ((foldl add_conf cs l).2 !! e) ↔ is_Some (cs.2 !! e) ∨ (false, e) ∈ ing_key <$> l).
Proof.
  revert cs. induction l as [|i l IH]; intros cs; cbn [foldl fmap list_fmap].
  - split; intros e; set_solver.
  - assert (Hins : ∀ A (m : gmap EntityId A) k x e (P : Prop),
      is_Some (<[k := x]> m !! e) ∨ P ↔ is_Some (m !! e) ∨ e = k ∨ P).
    { intros A m k x e P. rewrite lookup_insert_is_Some. destruct (decide (k = e)) as [->|]; [tauto|].
      split; [intros [[?|[_ ?]]|?]; auto|intros [?|[?|?]]; by auto]. }
    destruct (IH (add_conf cs i)) as [IH1 IH2]. split; intros e; rewrite ?IH1, ?IH2, elem_of_cons;
      destruct i as [wi|ri]; cbn [add_conf ing_key fst snd]; rewrite ?Hins;
      (split; [intros [?|?]|intros [?|[?|?]]]); destruct_or?; simplify_eq; auto 4.
Qed.

Lemma participant_starts_main native h domain nics config bytes dp now c :
  participant_new h domain nics config bytes = Done dp →
  config_ok (default ParticipantConfig_default config) → (∀ i, clocks_ok (c i)) →
  ∃ dp' be l L evs,
    create_builtin_endpoints dp = Done (dp', be, l) ∧
    event_loop_new domain (dp_guid_prefix dp) db_new (serialized_spdp_data dp) now c l = Done (L, evs) ∧
    loop_reachable native L ∧ fresh dp' L ∧ entity_key_generator dp' = FIRST_ENTITY_KEY + 2 ∧
    (∀ e, is_Some (writers (world L) !! e) ↔ e ∈ builtin_writers) ∧
    (∀ e, is_Some (readers (world L) !! e) ↔
       e ∈ [Eid.SEDP_BUILTIN_PUBLICATIONS_DETECTOR; Eid.SEDP_BUILTIN_SUBSCRIPTIONS_DETECTOR;
            Eid.P2P_BUILTIN_PARTICIPANT_MESSAGE_READER]).
Proof.
  intros Hdp Hc Hcl. destruct (participant_new_inv _ _ _ _ _ _ Hdp) as (pid & nics' & spdp & Edp & Hn & _).
  set (L0 := event_loop_init domain (dp_guid_prefix dp) db_new (serialized_spdp_data dp) now
    (mkCoreDuration ASSERT_LIVELINESS_PERIOD 0)).
  destruct (builtin_endpoints_ok dp L0) as (dp' & be & l & E & Hdp' & Hall & Hkeys);
    [done|by rewrite Edp|by rewrite Edp|by rewrite Edp; vm_compute; intuition congruence
    |by rewrite Edp|by rewrite Edp|done|done|].
  assert (Hings : ings_ok L0 l) by (split; [rewrite Hkeys; by apply (bool_decide_unpack _); vm_compute|done]).
  pose proof (event_loop_new_ok domain (dp_guid_prefix dp) (serialized_spdp_data dp) now c l Hings) as Hnew.
  destruct (event_loop_new domain _ _ _ now c l) as [[L evs]|] eqn:EL; [|by destruct Hnew].
  destruct Hnew as (Hok & Hp & Hconfs). destruct (confs_after l (wconfs (world L0), rconfs (world L0))) as [HW HR].
  fold L0 in Hconfs. rewrite <-Hconfs, Hkeys in HW, HR. cbn in HW, HR.
  assert (HW' : ∀ e, is_Some (writers (world L) !! e) ↔ e ∈ builtin_writers).
  { intros e. rewrite <-confs_lookup_writer, HW, fmap_empty, lookup_empty. unfold builtin_writers. set_solver. }
  assert (HR' : ∀ e, is_Some (readers (world L) !! e) ↔
       e ∈ [Eid.SEDP_BUILTIN_PUBLICATIONS_DETECTOR; Eid.SEDP_BUILTIN_SUBSCRIPTIONS_DETECTOR;
            Eid.P2P_BUILTIN_PARTICIPANT_MESSAGE_READER]).
  { intros e. rewrite <-confs_lookup_reader, HR, fmap_empty, lookup_empty. set_solver. }
  exists dp', be, l, L, evs. split; [exact E|]. split; [exact EL|]. split; [by eapply lr_new|].
  split; [|split; [by rewrite Hdp', Edp|done]]. assert (Hlow : ∀ e, e ∈ builtin_writers ++ [Eid.SEDP_BUILTIN_PUBLICATIONS_DETECTOR;
      Eid.SEDP_BUILTIN_SUBSCRIPTIONS_DETECTOR; Eid.P2P_BUILTIN_PARTICIPANT_MESSAGE_READER] →
      entity_number e < entity_key_generator dp').
  { apply Forall_forall. rewrite Hdp', Edp. by apply (bool_decide_unpack _); vm_compute. }
  split; [by rewrite Hp, Hdp'|by rewrite Hdp', Edp|by rewrite Hdp', Edp|by rewrite Hdp', Edp| |].
  - intros e He%HW'. apply Hlow, elem_of_app. by left.
  - intros e He%HR'. apply Hlow, elem_of_app. by right.
Qed.

(** C10. A participant that finds its ports starts: its built-in endpoints are
    created and registered without a panic, the event loop comes up in a state
    of the invariant, with the four built-in writers and three built-in
    readers and nothing else, and the keys of later endpoints do not meet
    theirs. *)
Theorem participant_starts native h domain nics config bytes dp now c :
  participant_new h domain nics config bytes = Done dp →
  config_ok (default ParticipantConfig_default config) → (∀ i, clocks_ok (c i)) →
  ∃ dp' be l L evs,
    create_builtin_endpoints dp = Done (dp', be, l) ∧
    event_loop_new domain (dp_guid_prefix dp) db_new (serialized_spdp_data dp) now c l = Done (L, evs) ∧
    loop_reachable native L ∧ fresh dp' L ∧ entity_key_generator dp' = FIRST_ENTITY_KEY + 2 ∧
    (∀ e, is_Some (writers (world L) !! e) ↔ e ∈ builtin_writers) ∧
    (∀ e, is_Some (readers (world L) !! e) ↔
       e ∈ [Eid.SEDP_BUILTIN_PUBLICATIONS_DETECTOR; Eid.SEDP_BUILTIN_SUBSCRIPTIONS_DETECTOR;
            Eid.P2P_BUILTIN_PARTICIPANT_MESSAGE_READER]).
Proof. apply participant_starts_main. Qed.
End start.
