(* ===== verification/Endpoints.v ===== *)
(** * DataWriter and DataReader

    src/src/dds/datawriter.rs and datareader.rs.  An endpoint of the
    application shares its history cache with the RTPS endpoint of the event
    loop: its operations take the cache and return it.  A [write] that finds
    the cache of a reliable writer full sleeps and tries again; what the
    event loop does to the cache meanwhile is a parameter, and the loop has
    fuel for the attempts.  How the bytes of a sample are read and written is
    that of the application's type. *)
From stdpp Require Import base tactics numbers list gmap strings sorting.
From coqutil Require Import Datatypes.RecordSetters.
From S2P Require Import Prelude Ordered Ids Time SeqNum Qos HistoryCache Topic Message Proxy Writer WriterProofs.
From S2P Require Import DiscoveryData DiscoveryDB Reader ReaderProofs Speedy Wire ParameterList Receiver.
From S2P Require Import ReceiverProofs Timer Tokens EventLoop EventLoopProofs EventLoopSteps Entities.
Import OCamlLikeNotations.

(** ** DataWriter *)

Definition dw_is_reliable (dw : DataWriter) : bool :=
  match reliability_kind (w_reliability (dw_qos dw)).1 with Reliable => true | BestEffort => false end.

(** The next sequence number, and the change that carries it. *)
Definition next_change (ts : Timestamp) (payload : SerializedPayload) (inc_seq_num : bool) (dw : DataWriter)
    : DataWriter * CacheChange :=
  let last :=
    if inc_seq_num then Sn.add (last_change_sequence_number dw) 1
    else if bool_decide (last_change_sequence_number dw = 0) then 1 else last_change_sequence_number dw in
  ({ dw with last_change_sequence_number := last }, mkCacheChange Alive (dw_guid dw) last ts (Some payload)).

(** One round of the loop: the command for the writer, or none yet. *)
Definition try_write (change : CacheChange) (dw : DataWriter) (hc : HistoryCache)
    : outcome (HistoryCache * option WriterCmd) :=
  '(hc, r) ← add_change change (dw_is_reliable dw) (w_resource_limits (dw_qos dw)).1 (w_history (dw_qos dw)).1 hc;
  match r with
  | inr _ => Done (hc, Some WriteData)
  | inl WouldBlock => Done (hc, None)
  end.

(** [env i]: what happens to the cache during the i-th sleep. *)
Fixpoint write_loop (fuel : nat) (env : nat → HistoryCache → HistoryCache) (change : CacheChange) (dw : DataWriter)
    (hc : HistoryCache) : outcome (option (HistoryCache * WriterCmd)) :=
  match fuel with
  | O => Done None
  | S fuel =>
      '(hc, cmd) ← try_write change dw hc;
      match cmd with
      | Some cmd => Done (Some (hc, cmd))
      | None => write_loop fuel (env ∘ S) change dw (env 0%nat hc)
      end
  end.

Definition writer_data_to_hc (fuel : nat) (env : nat → HistoryCache → HistoryCache) (ts : Timestamp)
    (payload : SerializedPayload) (inc_seq_num : bool) (dw : DataWriter) (hc : HistoryCache)
    : outcome (DataWriter * option (HistoryCache * WriterCmd)) :=
  let '(dw, a_change) := next_change ts payload inc_seq_num dw in
  r ← write_loop fuel env a_change dw hc;
  Done (dw, r).

(** [write], [write_builtin_data] and [write_serialized_builtin_data]:
    [clock] is [Timestamp::now()], the first two serialize first. *)
Definition cdr_payload (octets : Endianness → list Z) : SerializedPayload :=
  mkSerializedPayload CDR_LE [0; 0] (octets LittleEndian).
Definition pl_cdr_payload (octets : Endianness → list Z) : SerializedPayload :=
  mkSerializedPayload PL_CDR_LE [0; 0] (octets LittleEndian).
Definition write_serialized (fuel : nat) env (clock : option Timestamp) (payload : SerializedPayload)
    (inc_seq_num : bool) (dw : DataWriter) (hc : HistoryCache)
    : outcome (DataWriter * option (HistoryCache * WriterCmd)) :=
  ts ← unwrap clock; writer_data_to_hc fuel env ts payload inc_seq_num dw hc.
Definition dw_write (fuel : nat) env (clock : option Timestamp) (octets : Endianness → list Z)
    (dw : DataWriter) (hc : HistoryCache) : outcome (DataWriter * option (HistoryCache * WriterCmd)) :=
  write_serialized fuel env clock (cdr_payload octets) true dw hc.
Definition write_builtin_data (fuel : nat) env (clock : option Timestamp) (octets : Endianness → list Z)
    (inc_seq_num : bool) (dw : DataWriter) (hc : HistoryCache)
    : outcome (DataWriter * option (HistoryCache * WriterCmd)) :=
  write_serialized fuel env clock (pl_cdr_payload octets) inc_seq_num dw hc.

(** [DataWriter::assert_liveliness]: the commands sent. *)
Definition dw_assert_liveliness (dw : DataWriter) : list WriterCmd :=
  match liveliness_kind (w_liveliness (dw_qos dw)).1 with
  | Automatic => []
  | ManualByTopic | ManualByParticipant => [AssertLiveliness]
  end.

(** ** DataReader *)

Section datareader.
Context {R : Type} (read_sample : Endianness → list Z → outcome (ReadError + R)).

Definition encapsulation (received_bytes : list Z) : outcome Endianness :=
  let encapsulation_kind := take 2 received_bytes in
  if bool_decide (encapsulation_kind = CDR_LE) then Done LittleEndian
  else if bool_decide (encapsulation_kind = CDR_BE) then Done BigEndian
  else Panic.

(** One change: a sample that does not parse is skipped. *)
Definition get_sample (v : list (R * Timestamp)) (change : CacheChange) : outcome (list (R * Timestamp)) :=
  match data_value change with
  | None => Done v
  | Some d =>
      let received_bytes := payload_to_bytes d in
      endianness ← encapsulation received_bytes;
      r ← read_sample endianness (drop 4 received_bytes);
      match r with
      | inr data => Done (v ++ [(data, timestamp change)])
      | inl _ => Done v
      end
  end.

(** [DataReader::take]. *)
Definition get_data (hc : HistoryCache) : outcome (HistoryCache * list (R * Timestamp)) :=
  '(keys, changes) ← get_ready_changes hc;
  v ← foldM get_sample [] changes;
  Done (foldl (λ hc key, remove_change key true hc) hc keys, v).
End datareader.

(** ** Writing *)

(** The DataWriter and the cache it shares: its own changes have numbers up
    to the last one it has given. *)
Record dw_ok (dw : DataWriter) (hc : HistoryCache) : Prop := {
  dwo_cache : hc_wf hc;
  dwo_type : hc_type hc = HcWriter;
  dwo_last : 0 ≤ last_change_sequence_number dw;
  dwo_keys : ∀ k, is_Some (changes hc !! k) → hk_guid k = dw_guid dw → hk_seq_num k ≤ last_change_sequence_number dw;
}.

(** What the event loop may do to the cache of a writer: take changes out. *)
Definition shrinks (f : HistoryCache → HistoryCache) : Prop :=
  ∀ hc, hc_wf hc → hc_wf (f hc) ∧ hc_type (f hc) = hc_type hc ∧ changes (f hc) ⊆ changes hc.

Definition limits (dw : DataWriter) : ResourceLimits := (w_resource_limits (dw_qos dw)).1.

(** The cache before the n-th attempt. *)
Fixpoint after_sleeps (env : nat → HistoryCache → HistoryCache) (n : nat) (hc : HistoryCache) : HistoryCache :=
  match n with O => hc | S n => after_sleeps (env ∘ S) n (env 0%nat hc) end.

Lemma insert_change_own change history hc :
  hc_type hc = HcWriter →
  changes (insert_change change history hc) = <[change_key change := change]> (changes hc) ∧
  sequence_number change ∈ unprocessed_seqnum (insert_change change history hc).
Proof.
  intros Hty. rewrite insert_change_pushed. cbv zeta. unfold is_hc_reader.
  change (hc_type (pushed change hc)) with (hc_type hc). rewrite (bool_decide_false (hc_type hc = HcReader)) by congruence.
  cbn [andb]. unfold is_hc_writer. change (hc_type (pushed change hc)) with (hc_type hc).
  rewrite bool_decide_true by done. simpl. split; [done|set_solver].
Qed.

(** An attempt of a reliable DataWriter with a new number. *)
Lemma try_write_reliable change dw hc :
  hc_wf hc → hc_type hc = HcWriter → dw_is_reliable dw = true → changes hc !! change_key change = None →
  if decide (full (limits dw) hc) then try_write change dw hc = Done (hc, None)
  else ∃ hc', try_write change dw hc = Done (hc', Some WriteData) ∧ hc_wf hc' ∧
    changes hc' = <[change_key change := change]> (changes hc) ∧ sequence_number change ∈ unprocessed_seqnum hc'.
Proof.
  intros Hwf Hty Hrel Hnew. unfold try_write, add_change. rewrite Hnew, Hrel, make_room_alt, Hty. fold (limits dw).
  destruct (decide (full (limits dw) hc)); cbn [mbind outcome_bind]; [by rewrite decide_True|].
  eexists. split; [reflexivity|]. split; [by apply insert_change_wf|by apply insert_change_own].
Qed.

Lemma shrinks_dw_ok f dw hc : shrinks f → dw_ok dw hc → dw_ok dw (f hc).
Proof.
  intros Hf [Hwf Hty Hl Hk]. destruct (Hf hc Hwf) as (Hwf' & Hty' & Hsub). split; [done|congruence|done|].
  intros k [c Hc]. apply Hk. exists c. by eapply lookup_weaken.
Qed.

(** The loop on a number above all of the cache's. *)
Lemma write_loop_blocked fuel env change dw hc :
  (∀ i, shrinks (env i)) → dw_ok dw hc → dw_is_reliable dw = true →
  writer_guid change = dw_guid dw → last_change_sequence_number dw < sequence_number change →
  (∀ i, (i < fuel)%nat → full (limits dw) (after_sleeps env i hc)) →
  write_loop fuel env change dw hc = Done None.
Proof.
  revert env hc. induction fuel as [|fuel IH]; intros env hc Henv Hok Hrel Hg Hsn Hfull; [done|]. cbn [write_loop].
  assert (Hnew : changes hc !! change_key change = None).
  { apply eq_None_not_Some. intros Hs. pose proof (dwo_keys _ _ Hok _ Hs Hg). unfold change_key in *. simpl in *. lia. }
  pose proof (try_write_reliable change dw hc (dwo_cache _ _ Hok) (dwo_type _ _ Hok) Hrel Hnew) as Ht.
  rewrite decide_True in Ht by apply (Hfull 0%nat ltac:(lia)). rewrite Ht. cbn [mbind outcome_bind].
  apply (IH (env ∘ S)); try done; [intros i; apply Henv|by apply shrinks_dw_ok|].
  intros i Hi. apply (Hfull (S i)). lia.
Qed.

Lemma write_loop_ends n fuel env change dw hc :
  (∀ i, shrinks (env i)) → dw_ok dw hc → dw_is_reliable dw = true →
  writer_guid change = dw_guid dw → last_change_sequence_number dw < sequence_number change →
  (∀ i, (i < n)%nat → full (limits dw) (after_sleeps env i hc)) → ¬ full (limits dw) (after_sleeps env n hc) →
  (n < fuel)%nat →
  ∃ hc', write_loop fuel env change dw hc = Done (Some (hc', WriteData)) ∧ hc_wf hc' ∧
    changes hc' = <[change_key change := change]> (changes (after_sleeps env n hc)) ∧
    sequence_number change ∈ unprocessed_seqnum hc' ∧ hc_type hc' = HcWriter.
Proof.
  revert fuel env hc. induction n as [|n IH]; intros fuel env hc Henv Hok Hrel Hg Hsn Hfull Hroom Hf;
    (destruct fuel as [|fuel]; [lia|]); cbn [write_loop].
  all: assert (Hnew : changes hc !! change_key change = None) by
    (apply eq_None_not_Some; intros Hs; pose proof (dwo_keys _ _ Hok _ Hs Hg); unfold change_key in *; simpl in *; lia).
  all: pose proof (try_write_reliable change dw hc (dwo_cache _ _ Hok) (dwo_type _ _ Hok) Hrel Hnew) as Ht.
  - rewrite decide_False in Ht by done. destruct Ht as (hc' & E & Hwf & Hch & Hu). rewrite E. cbn [mbind outcome_bind].
    exists hc'. split_and!; try done. unfold try_write in E. apply outcome_bind_Done in E as ([hc2 r] & Ha & E).
    assert (hc2 = hc') as -> by (destruct r as [[]|]; by injection E). rewrite <-(dwo_type _ _ Hok).
    eapply hc_step_type; [apply Hok|by eapply step_add_change].
  - rewrite decide_True in Ht by apply (Hfull 0%nat ltac:(lia)). rewrite Ht. cbn [mbind outcome_bind].
    apply (IH fuel (env ∘ S)); try done; [intros i; apply Henv|by apply shrinks_dw_ok| |lia].
    intros i Hi. apply (Hfull (S i)). lia.
Qed.

Lemma after_sleeps_dw_ok n env dw hc : (∀ i, shrinks (env i)) → dw_ok dw hc → dw_ok dw (after_sleeps env n hc).
Proof.
  revert env hc. induction n as [|n IH]; intros env hc Henv Hok; [done|]. apply (IH (env ∘ S)); [intros i; apply Henv|].
  by apply shrinks_dw_ok.
Qed.

(** The number already given plays no part in the loop. *)
Definition renumber (sn : Z) (dw : DataWriter) : DataWriter := { dw with last_change_sequence_number := sn }.
Lemma write_loop_renumber fuel env change sn dw hc :
  write_loop fuel env change (renumber sn dw) hc = write_loop fuel env change dw hc.
Proof.
  revert env hc. induction fuel as [|fuel IH]; intros env hc; [done|]. cbn [write_loop].
  change (try_write change (renumber sn dw) hc) with (try_write change dw hc).
  destruct (try_write change dw hc) as [[hc1 [cmd|]]|]; try done. cbn [mbind outcome_bind]. apply IH.
Qed.

(** C23. A write of a reliable DataWriter: it takes the next sequence number, it
    waits exactly while the shared cache is full (whatever the event loop
    takes out of the cache in the meantime), and at the first attempt that
    finds room the change is stored under that number, marked for the writer
    to send, and the command is sent; nothing else in the cache changes and
    no attempt panics. *)
Theorem write_waits_for_room n fuel env ts octets dw hc :
  (∀ i, shrinks (env i)) → dw_ok dw hc → dw_is_reliable dw = true → last_change_sequence_number dw + 1 < 2 ^ 63 →
  let sn := last_change_sequence_number dw + 1 in
  let change := mkCacheChange Alive (dw_guid dw) sn ts (Some (cdr_payload octets)) in
  let dw' := { dw with last_change_sequence_number := sn } in
  ((∀ i, (i < fuel)%nat → full (limits dw) (after_sleeps env i hc)) →
     dw_write fuel env (Some ts) octets dw hc = Done (dw', None)) ∧
  ((∀ i, (i < n)%nat → full (limits dw) (after_sleeps env i hc)) → ¬ full (limits dw) (after_sleeps env n hc) →
   (n < fuel)%nat →
     ∃ hc', dw_write fuel env (Some ts) octets dw hc = Done (dw', Some (hc', WriteData)) ∧
       changes hc' = <[mkHCKey (dw_guid dw) sn := change]> (changes (after_sleeps env n hc)) ∧
       sn ∈ unprocessed_seqnum hc' ∧ dw_ok dw' hc').
Proof.
  intros Henv Hok Hrel Hsn sn change dw'.
  assert (Hnext : next_change ts (cdr_payload octets) true dw = (dw', change)).
  { unfold next_change, Sn.add. pose proof (dwo_last _ _ Hok). by rewrite (wrap_s_small 64) by (unfold in_s; lia). }
  unfold dw_write, write_serialized, writer_data_to_hc. cbn [unwrap mbind outcome_bind]. rewrite Hnext.
  change (write_loop fuel env change dw' hc) with (write_loop fuel env change (renumber sn dw) hc).
  rewrite write_loop_renumber. split.
  - intros Hfull. by rewrite (write_loop_blocked fuel env change dw hc) by (done || simpl; lia).
  - intros Hfull Hroom Hf.
    destruct (write_loop_ends n fuel env change dw hc) as (hc' & -> & Hwf & Hch & Hu & Hty); [done|done|done|done|simpl; lia|done|done|done|].
    cbn [mbind outcome_bind]. exists hc'. split_and!; try done.
    pose proof (after_sleeps_dw_ok n env dw hc Henv Hok) as Hok'. pose proof (dwo_last _ _ Hok) as Hl.
    split; [done|done|cbn; unfold constant; lia|]. intros k. rewrite Hch, lookup_insert_is_Some. simpl. unfold constant.
    intros [<-|[_ Hk]] Hg; [simpl; lia|]. pose proof (dwo_keys _ _ Hok' _ Hk Hg). lia.
Qed.

(** ** Taking *)

Definition take_keys (keys : list HCKey) (hc : HistoryCache) : HistoryCache :=
  foldl (λ hc key, remove_change key true hc) hc keys.

Lemma take_keys_spec keys hc :
  hc_wf hc → hc_type hc = HcReader →
  hc_wf (take_keys keys hc) ∧ hc_type (take_keys keys hc) = HcReader ∧
  (∀ k, changes (take_keys keys hc) !! k = if bool_decide (k ∈ keys) then None else changes hc !! k) ∧
  (∀ k, k ∈ ready_key (take_keys keys hc) ↔ k ∈ ready_key hc ∧ k ∉ keys) ∧
  (∀ k, k ∈ taken_key hc ∨ k ∈ keys ∧ is_Some (changes hc !! k) → k ∈ taken_key (take_keys keys hc)).
Proof.
  unfold take_keys. revert hc. induction keys as [|k0 keys IH]; intros hc Hwf Hty; cbn [foldl].
  { split_and!; try done; [intros k; set_solver|intros k [?|[?%elem_of_nil _]]; done]. }
  assert (Hr : removable k0 hc) by (unfold removable; rewrite (wf_not_writer _ Hwf) by congruence; set_solver).
  destruct (IH (remove_change k0 true hc)) as (H1 & H2 & H3 & H4 & H5);
    [by apply remove_change_wf|by rewrite hc_type_remove_change|]. split_and!; [done|done| | |].
  - intros k. rewrite H3, changes_remove_change, lookup_delete by done.
    destruct (decide (k ∈ keys)); [rewrite !bool_decide_true by (done || by right); done|].
    rewrite (bool_decide_false (k ∈ keys)) by done. destruct (decide (k0 = k)) as [->|].
    + by rewrite bool_decide_true by by left.
    + rewrite bool_decide_false; [done|]. intros [?|?]%elem_of_cons; congruence.
  - intros k. rewrite H4, ready_remove_change by done. rewrite not_elem_of_cons. tauto.
  - intros k Hk. apply H5. rewrite taken_remove_change, changes_remove_change, lookup_delete by done.
    unfold is_hc_reader. rewrite bool_decide_true by done. cbn [andb].
    destruct (decide (k0 = k)) as [->|Hne].
    + left. destruct Hk as [Hk|[_ Hk]]; [case_bool_decide; set_solver|].
      rewrite bool_decide_true by done. set_solver.
    + destruct Hk as [Hk|[[?|Hk]%elem_of_cons Hs]]; [left; case_bool_decide; set_solver|congruence|by right].
Qed.

Section take.
Context {R : Type} (read_sample : Endianness → list Z → outcome (ReadError + R)).

(** What the application gets of a change: its payload read in the byte
    order of its encapsulation. *)
Definition byte_order (d : SerializedPayload) : Endianness :=
  if bool_decide (representation_identifier d = CDR_LE) then LittleEndian else BigEndian.
Definition sample_of (c : CacheChange) : option (R * Timestamp) :=
  d ← data_value c;
  match read_sample (byte_order d) (sp_value d) with
  | Done (inr data) => Some (data, timestamp c)
  | _ => None
  end.
Definition payload_octets (d : SerializedPayload) : Prop :=
  length (representation_identifier d) = 2%nat ∧ length (representation_options d) = 2%nat.
Definition is_cdr (d : SerializedPayload) : bool :=
  bool_decide (representation_identifier d = CDR_LE) || bool_decide (representation_identifier d = CDR_BE).

(** The samples that are ready: stored, of kind [Alive], made available. *)
Definition ready_change (hc : HistoryCache) (k : HCKey) (c : CacheChange) : Prop :=
  k ∈ ready_key hc ∧ changes hc !! k = Some c ∧ change_kind c = Alive.

(** A payload that the application can be given: CDR, and its reader returns. *)
Definition bad_payload (d : SerializedPayload) : Prop :=
  is_cdr d = false ∨ read_sample (byte_order d) (sp_value d) = Panic.
Definition readable (c : CacheChange) : bool :=
  match data_value c with
  | Some d => is_cdr d && match read_sample (byte_order d) (sp_value d) with Panic => false | _ => true end
  | None => true
  end.
Lemma readable_false c : readable c = false ↔ ∃ d, data_value c = Some d ∧ bad_payload d.
Proof.
  unfold readable, bad_payload. destruct (data_value c) as [d|]; [|split; [done|by intros (? & ? & _)]].
  split; [intros E; exists d; split; [done|]|intros (? & [= <-] & [->| ->]); [done|by rewrite andb_false_r]].
  destruct (is_cdr d); [right|by left]. by destruct (read_sample _ _).
Qed.

Lemma get_sample_alt v c :
  (∀ d, data_value c = Some d → payload_octets d) →
  get_sample read_sample v c =
    if readable c then Done (match sample_of c with Some x => v ++ [x] | None => v end) else Panic.
Proof.
  intros Hp. unfold get_sample, sample_of, readable. destruct (data_value c) as [d|]; [|done].
  destruct (Hp d eq_refl) as [H1 H2]. unfold payload_to_bytes, encapsulation, is_cdr, byte_order. cbn [mbind option_bind].
  rewrite take_app_le, take_ge by lia.
  assert (drop 4 (representation_identifier d ++ representation_options d ++ sp_value d) = sp_value d) as ->.
  { by rewrite drop_app_ge, drop_app_ge, H1, H2 by (rewrite ?H1, ?H2; lia). }
  destruct (bool_decide_case (representation_identifier d = CDR_LE)) as [[-> _]|[-> _]]; cbn [orb mbind outcome_bind].
  - by destruct (read_sample _ _) as [[]|].
  - case_bool_decide; [|done]. cbn [andb mbind outcome_bind]. by destruct (read_sample _ _) as [[]|].
Qed.

Lemma get_samples_alt v cs :
  Forall (λ c, ∀ d, data_value c = Some d → payload_octets d) cs →
  foldM (get_sample read_sample) v cs = if forallb readable cs then Done (v ++ omap sample_of cs) else Panic.
Proof.
  intros Hc. revert v. induction Hc as [|c cs Hc Hcs IH]; intros v; [simpl; by rewrite app_nil_r|].
  rewrite foldM_cons, get_sample_alt by done. cbn [forallb omap list_omap].
  destruct (readable c); [|done]. cbn [andb mbind outcome_bind]. rewrite IH.
  destruct (forallb _ cs); [|done]. f_equal. destruct (sample_of c); [|done]. by rewrite <-(assoc_L (++)).
Qed.

Lemma take_main hc :
  hc_wf hc → hc_type hc = HcReader →
  (∀ k c d, ready_change hc k c → data_value c = Some d → payload_octets d) →
  (get_data read_sample hc = Panic ↔
     ∃ k c d, ready_change hc k c ∧ data_value c = Some d ∧ bad_payload d) ∧
  ∀ hc' v, get_data read_sample hc = Done (hc', v) →
    ∃ keys cs, v = omap sample_of cs ∧ StronglySorted ord_lt keys ∧
      Forall2 (ready_change hc) keys cs ∧ (∀ k c, ready_change hc k c → k ∈ keys) ∧
      (∀ k, changes hc' !! k = if bool_decide (k ∈ keys) then None else changes hc !! k) ∧
      (∀ k, k ∈ keys → k ∈ taken_key hc') ∧ hc_wf hc' ∧
      get_data read_sample hc' = Done (hc', []).
Proof.
  intros Hwf Hty Hoct. unfold get_data. destruct (get_ready_changes_spec hc Hwf) as (keys & cs & -> & Hs & Hkeys & Hcs).
  assert (Hready : Forall2 (ready_change hc) keys cs).
  { apply Forall2_same_length_lookup_2; [by eapply Forall2_length|]. intros i k c Hk Hc.
    pose proof (Forall2_lookup_lr _ _ _ _ _ _ Hcs Hk Hc) as Hl. apply list_elem_of_lookup_2, Hkeys in Hk as (? & c' & ? & ?).
    split; [done|]. split; [done|]. congruence. }
  assert (Hall : ∀ k c, ready_change hc k c → k ∈ keys) by (intros k c (? & ? & ?); apply Hkeys; eauto).
  assert (Hin : ∀ c, c ∈ cs → ∃ k, ready_change hc k c).
  { intros c [i Hc]%list_elem_of_lookup_1. destruct (Forall2_lookup_r _ _ _ _ _ Hready Hc) as (k & _ & ?). by exists k. }
  assert (Hout : ∀ k c, ready_change hc k c → c ∈ cs).
  { intros k c Hr. destruct (list_elem_of_lookup_1 _ _ (Hall _ _ Hr)) as [i Hi].
    destruct (Forall2_lookup_l _ _ _ _ _ Hcs Hi) as (c' & Hc' & Hl). destruct Hr as (_ & Hl' & _).
    assert (c' = c) as -> by congruence. by eapply list_elem_of_lookup_2. }
  cbn [mbind outcome_bind]. rewrite get_samples_alt; [|apply Forall_forall; intros c [k Hk]%Hin d; by eapply Hoct].
  destruct (forallb readable cs) eqn:E; cbn [mbind outcome_bind].
  - split.
    { split; [done|]. intros (k & c & d & Hr & Hd & Hn). rewrite forallb_forall in E. specialize (E c).
      rewrite (proj2 (readable_false c)) in E by eauto. assert (false = true); [|done].
      apply E, list_elem_of_In. by eapply Hout. }
    intros hc' v [= <- <-]. exists keys, cs. destruct (take_keys_spec keys hc Hwf Hty) as (H1 & H2 & H3 & H4 & H5).
    split_and!; try done.
    + intros k Hk. apply H5. right. split; [done|]. apply Hkeys in Hk as (_ & c & -> & _). by eexists.
    + fold (take_keys keys hc).
      destruct (get_ready_changes_spec (take_keys keys hc) H1) as (keys' & cs' & -> & _ & Hk' & Hc').
      assert (keys' = []) as ->.
      { apply elem_of_nil_inv. intros k. rewrite Hk', H4, H3. intros ([Hr Hn] & c & Hc & Ha). apply Hn, Hkeys.
        rewrite bool_decide_false in Hc by done. eauto. }
      by inversion Hc'.
  - split; [|done]. split; [intros _|done].
    assert (∃ c, c ∈ cs ∧ readable c = false) as (c & Hc & Hn).
    { clear -E. induction cs as [|c cs IH]; [done|]. cbn in E. destruct (readable c) eqn:Ec.
      - destruct IH as (c' & ? & ?); [done|]. exists c'. split; [by right|done].
      - exists c. split; [by left|done]. }
    destruct (Hin c Hc) as [k Hk]. apply readable_false in Hn as (d & Hd & Hb). by exists k, c, d.
Qed.

End take.
