(* ===== verification/Derive.v ===== *)
(** * The derive macros

    src/ddsdata_derive/src/lib.rs and src/src/dds/key.rs: what [DdsData],
    [DdsSerialize] and [DdsDeserialize] generate for a structure.  The syntax
    of a structure is data here ([DeriveInput], [Ty]); the generated code is
    its meaning: [gen_write] and [gen_read] of a type thread the offset
    [__cdr_offset] through the octets of a sample, [gen_key] makes the hash of
    the key fields.  A Rust value has the type [val]; types that the macros do
    not know, the layout of types, the order in which a [HashMap] iterates and
    the crate [md5] are parameters. *)
From stdpp Require Import base tactics numbers list strings pretty.
From S2P Require Import Prelude Ordered Message Speedy ParameterList.

(** ** Types, as the macros see them *)

(** The length of an array: a literal, or any other expression. *)
Inductive ArrayLen := LenLit (n : nat) | LenExpr (tokens : string).

(** [syn::Type]: a path with its last segment and the generic arguments of
    that, types or not; an array; anything else. *)
Inductive Ty :=
| TyPath (lead : list string) (ident : string) (args : list (Ty + string))
| TyArray (elem : Ty) (len : ArrayLen)
| TyOther (tokens : string).

(** [quote!(#ty).to_string().replace(" ", "")]. *)
Definition len_tokens (n : ArrayLen) : string :=
  match n with LenLit n => pretty n | LenExpr s => s end.
Fixpoint type_string (t : Ty) : string :=
  match t with
  | TyPath lead ident args =>
      let args := (λ a, match a with inl u => type_string u | inr s => s end) <$> args in
      let generics := match args with [] => "" | _ => "<" +:+ String.concat "," args +:+ ">" end in
      String.concat "::" (lead ++ [ident +:+ generics])
  | TyArray elem len => "[" +:+ type_string elem +:+ ";" +:+ len_tokens len +:+ "]"
  | TyOther s => s
  end%string.

Definition get_vec_inner_type (t : Ty) : option Ty :=
  match t with
  | TyPath _ ident (inl a :: _) => if bool_decide (ident = "Vec"%string) then Some a else None
  | _ => None
  end.
Definition get_array_info (t : Ty) : option (Ty * nat) :=
  match t with TyArray elem (LenLit n) => Some (elem, n) | _ => None end.

Inductive MapKind := HashMap | BTreeMap.
Definition map_kind (ident : string) : option MapKind :=
  if bool_decide (ident = "HashMap"%string) then Some HashMap
  else if bool_decide (ident = "BTreeMap"%string) then Some BTreeMap else None.
Definition type_arg (a : Ty + string) : option Ty := match a with inl t => Some t | inr _ => None end.
Definition get_map_info (t : Ty) : option (MapKind * Ty * Ty) :=
  match t with
  | TyPath _ ident args =>
      match map_kind ident, omap type_arg args with
      | Some m, k :: v :: _ => Some (m, k, v)
      | _, _ => None
      end
  | _ => None
  end.

(** The primitive types, with their alignment and size. *)
Inductive Prim := PU8 | PI8 | PBool | PChar | PU16 | PI16 | PU32 | PI32 | PF32 | PU64 | PI64 | PF64.
Definition prim_of (s : string) : option Prim :=
  match s with
  | "u8" => Some PU8 | "i8" => Some PI8 | "bool" => Some PBool | "char" => Some PChar
  | "u16" => Some PU16 | "i16" => Some PI16
  | "u32" => Some PU32 | "i32" => Some PI32 | "f32" => Some PF32
  | "u64" => Some PU64 | "i64" => Some PI64 | "f64" => Some PF64
  | _ => None
  end%string.
Definition align_and_size (p : Prim) : Z * Z :=
  match p with
  | PU8 | PI8 | PBool | PChar => (1, 1)
  | PU16 | PI16 => (2, 2)
  | PU32 | PI32 | PF32 => (4, 4)
  | PU64 | PI64 | PF64 => (8, 8)
  end.

(** The case that [gen_read_expr] and [gen_write_stmt] choose for a type and
    the types in it: they test for the same forms in the same order
    ([shape_of_eq]). *)
Inductive Shape :=
| SVec (s : Shape)
| SArray (s : Shape) (n : nat)
| SMap (m : MapKind) (k v : Shape)
| SString
| SPrim (p : Prim)
| SNested (t : Ty).

Definition leaf_shape (t : Ty) : Shape :=
  if bool_decide (type_string t = "String"%string) then SString
  else match prim_of (type_string t) with Some p => SPrim p | None => SNested t end.
Fixpoint shape_of (t : Ty) : Shape :=
  match t with
  | TyPath _ ident args =>
      let shapes := (λ a, match a with inl u => Some (shape_of u) | inr _ => None end) <$> args in
      match bool_decide (ident = "Vec"%string), shapes with
      | true, Some s :: _ => SVec s
      | _, _ =>
          match map_kind ident, omap id shapes with
          | Some m, k :: v :: _ => SMap m k v
          | _, _ => leaf_shape t
          end
      end
  | TyArray elem (LenLit n) => SArray (shape_of elem) n
  | _ => leaf_shape t
  end.

(** ** Values *)

(** What the macros do not know: the types of their own (with their reader,
    writer and [Ord]), the layout of types, the iteration of a [HashMap], the
    MD5 digest. *)
Class DeriveEnv := {
  nested_val : Ty → Type;
  nested_ord :: ∀ t, RustOrd (nested_val t);
  nested_read : ∀ t, Endianness → prd (nested_val t);
  nested_write : ∀ t, Endianness → nested_val t → option (list Z);
  size_of : Shape → Z;
  hash_iter : ∀ A, list A → list A;
  md5 : list Z → list Z;
}.

(** An [f32] or [f64] is its bits; a string is its octets.  A map is the list
    of its entries in ascending order of the keys: the order in which a
    [BTreeMap] iterates. *)
Definition pval (p : Prim) : Type := match p with PBool => bool | _ => Z end.
#[export] Instance bool_ord : RustOrd bool := λ x y, Z.compare (Z.b2z x) (Z.b2z y).
#[export] Instance pval_ord p : RustOrd (pval p) :=
  match p with PBool => bool_ord | _ => Z_ord end.

Section values.
Context `{DeriveEnv}.

Fixpoint val (s : Shape) : Type :=
  match s with
  | SVec s | SArray s _ => list (val s)
  | SMap _ k v => list (val k * val v)
  | SString => list Z
  | SPrim p => pval p
  | SNested t => nested_val t
  end.

#[export] Instance val_ord : ∀ s, RustOrd (val s) :=
  fix go s := match s with
  | SVec s | SArray s _ => @list_ord _ (go s)
  | SMap _ k v => @list_ord _ (@pair_ord _ _ (go k) (go v))
  | SString => @list_ord _ Z_ord
  | SPrim p => pval_ord p
  | SNested t => nested_ord t
  end.

(** The fields of a structure. *)
Fixpoint fields_val (ss : list Shape) : Type :=
  match ss with [] => unit | s :: ss => val s * fields_val ss end.
#[export] Instance fields_ord : ∀ ss, RustOrd (fields_val ss) :=
  fix go ss := match ss with
  | [] => λ _ _, Eq
  | s :: ss => @pair_ord _ _ (val_ord s) (go ss)
  end.
End values.

(** [map.insert(k, v)]. *)
Fixpoint map_insert {K V} `{RustOrd K} (k : K) (v : V) (l : list (K * V)) : list (K * V) :=
  match l with
  | [] => [(k, v)]
  | (k', v') :: l' =>
      match cmp k k' with
      | Lt => (k, v) :: l
      | Eq => (k', v) :: l'
      | Gt => (k', v') :: map_insert k v l'
      end
  end.
(** [for (k, v) in &map]. *)
Definition map_iter `{DeriveEnv} {A} (m : MapKind) (l : list A) : list A :=
  match m with HashMap => hash_iter A l | BTreeMap => l end.

(** ** Readers and writers with the offset [__cdr_offset] *)

Definition cdr (A : Type) : Type := Z → prd (A * Z).
#[export] Instance cdr_ret : MRet cdr := λ A a o, mret (a, o).
#[export] Instance cdr_bind : MBind cdr := λ A B f r o, '(a, o') ← r o; f a o'.
Definition of_reader {A} (r : rd A) : cdr A := λ o, a ← lift r; mret (a, o).
Definition advance (n : Z) : cdr unit := λ o, mret (tt, as_usize (o + n)).

Definition padding (align o : Z) : Z := (align - o mod align) mod align.
Definition skip_padding `{Speedy} (align : Z) : cdr unit := λ o,
  let pad := padding align o in
  if bool_decide (pad > 0) then (_ ← of_reader (skip pad); advance pad) o else mret (tt, o).

(** [Vec::with_capacity] panics when the size is beyond [isize::MAX]. *)
Definition with_capacity (cap size : Z) : cdr unit := λ o,
  if bool_decide (cap * size ≤ i64_MAX) then mret (tt, o) else prd_panic.

(** [for _ in 0..n { vec.push(..) }] and [for _ in 0..n { map.insert(..) }]. *)
Fixpoint push_times {A} (n : nat) (r : cdr A) (vec : list A) : cdr (list A) :=
  match n with
  | O => mret vec
  | S n => a ← r; push_times n r (vec ++ [a])
  end.
Fixpoint insert_times {K V} `{RustOrd K} (n : nat) (rk : cdr K) (rv : cdr V) (map : list (K * V))
    : cdr (list (K * V)) :=
  match n with
  | O => mret map
  | S n => k ← rk; v ← rv; insert_times n rk rv (map_insert k v map)
  end.

(** A writer: the octets and the offset after them, [None] for an error. *)
Definition cdrw : Type := Z → option (list Z * Z).
Definition put (bs : list Z) (n : Z) : cdrw := λ o, Some (bs, as_usize (o + n)).
Definition put_padding (align : Z) : cdrw := λ o,
  let pad := padding align o in put (zeros pad) pad o.
Definition wthen (w1 w2 : cdrw) : cdrw := λ o,
  '(bs1, o1) ← w1 o; '(bs2, o2) ← w2 o1; Some (bs1 ++ bs2, o2).
Definition wall (ws : list cdrw) : cdrw := foldr wthen (λ o, Some ([], o)) ws.

(** ** The generated code *)

Section generated.
Context `{Speedy, DeriveEnv}.

Definition read_prim (p : Prim) (e : Endianness) : rd (pval p) :=
  match p with
  | PU8 => read_u8 e
  | PI8 => z ← read_u8 e; mret (wrap_s 8 z)
  | PBool => z ← read_u8 e; mret (negb (bool_decide (z = 0)))
  | PChar => read_u8 e
  | PU16 => read_u16 e
  | PI16 => read_i16 e
  | PU32 => read_u32 e
  | PI32 => read_i32 e
  | PF32 => read_u32 e
  | PU64 => get_uint 8 e
  | PI64 => z ← get_uint 8 e; mret (as_i64 z)
  | PF64 => get_uint 8 e
  end.
Definition write_prim (p : Prim) (e : Endianness) : pval p → list Z :=
  match p with
  | PU8 => λ v, write_u8 e v
  | PI8 => λ v, write_u8 e (as_u8 v)
  | PBool => λ v, write_u8 e (if v then 1 else 0)
  | PChar => λ v, write_u8 e (as_u8 v)
  | PU16 => λ v, write_u16 e v
  | PI16 => λ v, write_i16 e v
  | PU32 => λ v, write_u32 e v
  | PI32 => λ v, write_i32 e v
  | PF32 => λ v, write_u32 e v
  | PU64 => λ v, put_uint 8 e v
  | PI64 => λ v, put_uint 8 e (as_u64 v)
  | PF64 => λ v, put_uint 8 e v
  end.

(** An [i32] length on its boundary of four octets. *)
Definition read_len (e : Endianness) : cdr Z :=
  _ ← skip_padding 4; n ← of_reader (read_i32 e); _ ← advance 4; mret n.
Definition write_len (e : Endianness) (n : Z) : cdrw :=
  wthen (put_padding 4) (put (write_i32 e (as_i32 n)) 4).

Fixpoint gen_read (s : Shape) (e : Endianness) : cdr (val s) :=
  match s with
  | SVec s =>
      vec_len ← read_len e;
      _ ← with_capacity (as_usize vec_len) (size_of s);
      push_times (Z.to_nat vec_len) (gen_read s e) []
  | SArray s len =>
      _ ← with_capacity len (size_of s);
      push_times len (gen_read s e) []
  | SMap _ k v =>
      map_len ← read_len e;
      insert_times (Z.to_nat map_len) (gen_read k e) (gen_read v e) []
  | SString =>
      cdr_name_len ← read_len e;
      c ← of_reader (get_string (as_usize (as_i32 (cdr_name_len - 1))));
      _ ← of_reader (read_u8 e);
      _ ← advance (as_usize cdr_name_len);
      mret c
  | SPrim p =>
      _ ← skip_padding (align_and_size p).1;
      v ← of_reader (read_prim p e);
      _ ← advance (align_and_size p).2;
      mret v
  | SNested t => λ o, v ← nested_read t e; mret (v, o)
  end.

Fixpoint gen_write (s : Shape) (e : Endianness) : val s → cdrw :=
  match s with
  | SVec s => λ v, wthen (write_len e (length v)) (wall (gen_write s e <$> v))
  | SArray s _ => λ v, wall (gen_write s e <$> v)
  | SMap m k v => λ l,
      wthen (write_len e (length l))
        (wall ((λ x, wthen (gen_write k e x.1) (gen_write v e x.2)) <$> map_iter m l))
  | SString => λ v,
      let cdr_name_len := as_usize (length v + 1) in
      wthen (write_len e cdr_name_len) (put (v ++ write_u8 e 0) cdr_name_len)
  | SPrim p => λ v, wthen (put_padding (align_and_size p).1) (put (write_prim p e v) (align_and_size p).2)
  | SNested t => λ v o, bs ← nested_write t e v; Some (bs, o)
  end.

(** [Readable::read_from] and [Writable::write_to] of the structure. *)
Fixpoint read_fields (ss : list Shape) (e : Endianness) : cdr (fields_val ss) :=
  match ss with
  | [] => mret tt
  | s :: ss => v ← gen_read s e; vs ← read_fields ss e; mret (v, vs)
  end.
Fixpoint write_fields (ss : list Shape) (e : Endianness) : fields_val ss → cdrw :=
  match ss with
  | [] => λ _, wall []
  | s :: ss => λ v, wthen (gen_write s e v.1) (write_fields ss e v.2)
  end.
Definition derived_read (ss : list Shape) (e : Endianness) : prd (fields_val ss) :=
  '(v, _) ← read_fields ss e 0; mret v.
Definition derived_write (ss : list Shape) (e : Endianness) (v : fields_val ss) : option (list Z) :=
  fst <$> write_fields ss e v 0.
End generated.

(** ** The structure that a macro is applied to *)

(** An argument of an attribute: a path, and what is behind its [=]. *)
Inductive MetaValue := NoValue | StrValue (s : string) | OtherValue (tokens : string).
Record Meta := mkMeta { meta_path : string; meta_value : MetaValue }.
Record Attribute := mkAttribute { attr_path : string; attr_nested : list Meta }.
Record Field := mkField { field_ident : string; field_ty : Ty; field_attrs : list Attribute }.
Inductive Data := NamedStruct (fields : list Field) | OtherStruct | Enum | Union.
Record DeriveInput := mkDeriveInput { di_ident : string; di_attrs : list Attribute; di_data : Data }.

(** [parse_nested_meta] ends at the first argument that is not understood;
    what was found before it remains. *)
Fixpoint nested_type_name (metas : list Meta) (user_type_name : option string) : option string :=
  match metas with
  | [] => user_type_name
  | mkMeta path v :: metas =>
      if bool_decide (path = "type_name"%string) then
        match v with StrValue s => nested_type_name metas (Some s) | _ => user_type_name end
      else match v with NoValue => nested_type_name metas user_type_name | _ => user_type_name end
  end.
Definition user_type_name (d : DeriveInput) : option string :=
  foldl (λ name a, if bool_decide (attr_path a = "dds_data"%string) then nested_type_name (attr_nested a) name
                   else name) None (di_attrs d).
Definition type_name (d : DeriveInput) : string := default (di_ident d) (user_type_name d).

Definition named_fields (d : DeriveInput) : list Field :=
  match di_data d with NamedStruct fs => fs | _ => [] end.
Definition has_key (f : Field) : bool :=
  existsb (λ a, bool_decide (attr_path a = "key"%string)) (field_attrs f).
(** A field with two [#[key]] would be two fields of the wrapper, which does
    not compile. *)
Fixpoint keys (fs : list Field) : list Field :=
  match fs with [] => [] | f :: fs => if has_key f then f :: keys fs else keys fs end.
Definition is_with_key (d : DeriveInput) : bool :=
  negb (bool_decide (length (keys (named_fields d)) = 0%nat)).

Definition shapes (fs : list Field) : list Shape := (λ f, shape_of (field_ty f)) <$> fs.

(** [DdsSerialize] and [DdsDeserialize] are for structures with named fields:
    the macro itself panics otherwise. *)
Definition serialized_fields (d : DeriveInput) : outcome (list Shape) :=
  match di_data d with NamedStruct fs => Done (shapes fs) | _ => Panic end.

(** ** Key hashes *)

(** [KeyHash::new]: [copy_from_slice] asks for 16 octets. *)
Definition KeyHash_new (bytes : list Z) : outcome (list Z) :=
  if bool_decide (length bytes = 16%nat) then Done bytes else Panic.

Section keys.
Context `{Speedy, DeriveEnv}.

(** The fields of the wrapper. *)
Fixpoint wrapper_init (fs : list Field) : fields_val (shapes fs) → fields_val (shapes (keys fs)) :=
  match fs with
  | [] => λ v, v
  | f :: fs => λ v,
      match has_key f as b return fields_val (shapes (if b then f :: keys fs else keys fs)) with
      | true => (v.1, wrapper_init fs v.2)
      | false => wrapper_init fs v.2
      end
  end.

Definition key_hash (result : list Z) : outcome (list Z) :=
  if bool_decide (length result ≤ 16)%nat
  then KeyHash_new (take 16 (result ++ replicate (16 - length result) 0))
  else KeyHash_new (md5 result).

Definition gen_key (fs : list Field) (v : fields_val (shapes fs)) : outcome (option (list Z)) :=
  if bool_decide (length (keys fs) = 0%nat) then Done None
  else
    result ← unwrap (derived_write (shapes (keys fs)) BigEndian (wrapper_init fs v));
    h ← key_hash result;
    Done (Some h).
End keys.
