(* ===== verification/DeriveProofs.v ===== *)
(** * Correctness of the derive macros

    The dispatch of the macros; what [DdsSerialize] writes is the CDR layout
    and is read back by [DdsDeserialize]; the key hash; the samples of an
    application through a DataWriter and a DataReader; nested structures. *)
From stdpp Require Import base tactics numbers list gmap sets strings sorting.
From S2P Require Import Prelude Ordered Ids Time Qos HistoryCache Message DiscoveryData Receiver Speedy ParameterList Entities Endpoints Derive.

(** ** The dispatch *)

(** [shape_of] is the ladder of [gen_read_expr] and [gen_write_stmt]. *)
Lemma shape_of_eq t :
  shape_of t =
    match get_vec_inner_type t with
    | Some a => SVec (shape_of a)
    | None =>
        match get_array_info t with
        | Some (a, n) => SArray (shape_of a) n
        | None =>
            match get_map_info t with
            | Some (m, k, v) => SMap m (shape_of k) (shape_of v)
            | None => leaf_shape t
            end
        end
    end.
Proof.
  destruct t as [lead ident args|elem [n|s]|s]; [|done..].
  set (t := TyPath lead ident args).
  assert (Ho : omap id ((λ a : Ty + string, match a with inl u => Some (shape_of u) | inr _ => None end) <$> args)
               = shape_of <$> omap type_arg args).
  { induction args as [|[u|u] args IH]; csimpl; [done| |done]. by rewrite IH. }
  assert (Hm : match map_kind ident, omap id ((λ a : Ty + string, match a with inl u => Some (shape_of u) | inr _ => None end) <$> args) with
               | Some m, k :: v :: _ => SMap m k v | _, _ => leaf_shape t end
             = match get_map_info t with Some (m, k, v) => SMap m (shape_of k) (shape_of v) | None => leaf_shape t end).
  { rewrite Ho. unfold t, get_map_info. destruct (map_kind ident); [|done].
    by destruct (omap type_arg args) as [|k [|v l]]. }
  unfold t in *. cbn [shape_of get_vec_inner_type get_array_info] in *.
  destruct (bool_decide (ident = "Vec"%string)), args as [|[u|u] args]; cbn [fmap list_fmap] in *; done.
Qed.

(** ** Values *)

#[export] Instance bool_ord_laws : RustOrdLaws bool.
Proof. apply (inj_ord_laws Z.b2z); [|done]. by intros [] []. Qed.
#[export] Instance pval_ord_laws p : RustOrdLaws (pval p).
Proof. destruct p; apply _. Qed.

(** What the macros rely on: a type of its own is read back as it was written,
    a [HashMap] iterates over all its entries, a digest has 16 octets. *)
Class DeriveLaws `{Speedy, DeriveEnv} := {
  nested_ord_laws :: ∀ t, RustOrdLaws (nested_val t);
  nested_valid : ∀ t, nested_val t → Prop;
  nested_roundtrip : ∀ t e x, nested_valid t x →
    ∃ bs, nested_write t e x = Some bs ∧ ∀ rest, nested_read t e (bs ++ rest) = Done (rest, inr x);
  hash_iter_perm : ∀ A (l : list A), hash_iter A l ≡ₚ l;
  md5_length : ∀ l, length (md5 l) = 16%nat;
}.

(** [str::from_utf8]. *)
Definition in_range (lo hi z : Z) : bool := Z.leb lo z && Z.leb z hi.
Fixpoint valid_utf8 (l : list Z) : bool :=
  match l with
  | [] => true
  | b0 :: l =>
      if in_range 0 0x7f b0 then valid_utf8 l
      else match l with
      | [] => false
      | b1 :: l =>
          if in_range 0xc2 0xdf b0 && in_range 0x80 0xbf b1 then valid_utf8 l
          else match l with
          | [] => false
          | b2 :: l =>
              let lo := if Z.eqb b0 0xe0 then 0xa0 else 0x80 in
              let hi := if Z.eqb b0 0xed then 0x9f else 0xbf in
              if in_range 0xe0 0xef b0 && in_range lo hi b1 && in_range 0x80 0xbf b2 then valid_utf8 l
              else match l with
              | [] => false
              | b3 :: l =>
                  let lo := if Z.eqb b0 0xf0 then 0x90 else 0x80 in
                  let hi := if Z.eqb b0 0xf4 then 0x8f else 0xbf in
                  in_range 0xf0 0xf4 b0 && in_range lo hi b1 && in_range 0x80 0xbf b2 && in_range 0x80 0xbf b3
                  && valid_utf8 l
              end
          end
      end
  end.

(** [get_string] accepts what is UTF-8. *)
Class SpeedyStrings `{Speedy} :=
  get_string_utf8 (l rest : list Z) : valid_utf8 l = true → get_string (length l) (l ++ rest) = (rest, inr l).

(** The values of a type: the ranges of its integers, lengths that an [i32]
    holds, sizes that fit the address space.  A [char] is one octet on the
    wire. *)
Definition prim_ok (p : Prim) : pval p → Prop :=
  match p with
  | PU8 | PChar => in_u 8
  | PI8 => in_s 8
  | PBool => λ _, True
  | PU16 => in_u 16
  | PI16 => in_s 16
  | PU32 | PF32 => in_u 32
  | PI32 => in_s 32
  | PU64 | PF64 => in_u 64
  | PI64 => in_s 64
  end.

Section values.
Context `{HL : DeriveLaws}.

#[export] Instance val_ord_laws s : RustOrdLaws (val s).
Proof.
  induction s as [s IH|s IH n|m k IHk v IHv| |p|t]; [..|apply nested_ord_laws]; simpl; apply _.
Qed.
#[export] Instance fields_ord_laws ss : RustOrdLaws (fields_val ss).
Proof.
  induction ss as [|s ss IH]; simpl; [|apply _].
  split; [by intros [] []|by intros [] []|by intros [] [] []].
Qed.

Fixpoint val_ok (s : Shape) : val s → Prop :=
  match s with
  | SVec s => λ v, length v < 2 ^ 31 ∧ length v * size_of s ≤ i64_MAX ∧ Forall (val_ok s) v
  | SArray s n => λ v, length v = n ∧ n * size_of s ≤ i64_MAX ∧ Forall (val_ok s) v
  | SMap _ k v => λ l, length l < 2 ^ 31 ∧ StronglySorted ord_lt l.*1 ∧
      Forall (λ x, val_ok k x.1 ∧ val_ok v x.2) l
  | SString => λ v, length v + 1 < 2 ^ 31 ∧ valid_utf8 v = true
  | SPrim p => prim_ok p
  | SNested t => nested_valid t
  end.
Fixpoint fields_ok (ss : list Shape) : fields_val ss → Prop :=
  match ss with
  | [] => λ _, True
  | s :: ss => λ v, val_ok s v.1 ∧ fields_ok ss v.2
  end.
End values.

(** ** Maps as ascending lists *)
Section maps.
Context {K V : Type} `{RustOrdLaws K}.
Implicit Types l : list (K * V).

Lemma map_insert_keys (k : K) (v : V) l x : x ∈ (map_insert k v l).*1 → x = k ∨ x ∈ l.*1.
Proof.
  induction l as [|[k' v'] l IH]; csimpl; [set_solver|].
  destruct (cmp k k'); csimpl; set_solver.
Qed.
Lemma map_insert_sorted k v l : StronglySorted ord_lt l.*1 → StronglySorted ord_lt (map_insert k v l).*1.
Proof.
  induction l as [|[k' v'] l IH]; csimpl; [by repeat constructor|].
  intros Hl. apply StronglySorted_cons in Hl as Hs. destruct Hs as [Hk Hs].
  destruct (cmp k k') eqn:E; csimpl; [done| |].
  - constructor; [done|]. constructor; [exact E|].
    eapply Forall_impl; [exact Hk|]. intros y. apply ord_lt_trans. exact E.
  - constructor; [by apply IH|]. rewrite Forall_forall in Hk |- *.
    intros y [->|Hy]%map_insert_keys; [|by apply Hk]. unfold ord_lt. by rewrite cmp_antisym, E.
Qed.
Lemma map_insert_perm k v l : k ∉ l.*1 → map_insert k v l ≡ₚ (k, v) :: l.
Proof.
  induction l as [|[k' v'] l IH]; csimpl; [done|]. intros [Hk Hl]%not_elem_of_cons.
  destruct (cmp k k') eqn:E; [by apply cmp_eq in E|done|]. rewrite IH by done. apply Permutation_swap.
Qed.
Lemma sorted_entries_unique l l' :
  l ≡ₚ l' → StronglySorted ord_lt l.*1 → StronglySorted ord_lt l'.*1 → l = l'.
Proof.
  revert l'. induction l as [|x l IH]; intros l' Hp Hl Hl'; [by apply Permutation_nil_l in Hp|].
  destruct l' as [|y l']; [by apply Permutation_nil_r in Hp|]. csimpl in *.
  apply StronglySorted_cons in Hl as [Hx Hl], Hl' as [Hy Hl'].
  assert (x = y) as ->.
  { assert (Hxin : x ∈ y :: l') by (rewrite <-Hp; by left).
    assert (Hyin : y ∈ x :: l) by (rewrite Hp; by left).
    apply elem_of_cons in Hxin as [?|Hxin]; [done|]. apply elem_of_cons in Hyin as [?|Hyin]; [done|].
    rewrite Forall_forall in Hx, Hy. exfalso. apply (ord_lt_irrefl x.1).
    eapply ord_lt_trans; [apply Hx|apply Hy]; by apply (list_elem_of_fmap_2 fst). }
  f_equal. apply IH; [|done..]. by apply Permutation_cons_inv in Hp.
Qed.
Lemma insert_all_spec l acc :
  NoDup (acc.*1 ++ l.*1) → StronglySorted ord_lt acc.*1 →
  let r := foldl (λ m x, map_insert x.1 x.2 m) acc l in r ≡ₚ acc ++ l ∧ StronglySorted ord_lt r.*1.
Proof.
  revert acc. induction l as [|[k v] l IH]; intros acc Hnd Hs; csimpl in *; [by rewrite app_nil_r|].
  assert (Hk : k ∉ acc.*1) by (apply NoDup_app in Hnd as (_ & Hd & _); set_solver).
  pose proof (map_insert_perm k v acc Hk) as Hp.
  destruct (IH (map_insert k v acc)) as [Hr Hrs].
  - rewrite Hp. csimpl. by rewrite Permutation_middle.
  - by apply map_insert_sorted.
  - split; [|done]. rewrite Hr, Hp. apply Permutation_middle.
Qed.
(** Inserting the entries of a map in any order gives the map. *)
Lemma insert_all_entries l l' :
  l' ≡ₚ l → StronglySorted ord_lt l.*1 → foldl (λ m x, map_insert x.1 x.2 m) [] l' = l.
Proof.
  intros Hp Hl. destruct (insert_all_spec l' []) as [Hr Hs]; csimpl.
  - rewrite Hp. by apply sorted_lt_NoDup.
  - constructor.
  - apply sorted_entries_unique; [by rewrite Hr|done|done].
Qed.
End maps.

(** ** What a generated reader does on what the generated writer wrote *)

Definition cparses {A} (r : cdr A) (w : cdrw) (a : A) : Prop :=
  ∀ o, in_u 64 o → ∃ bs o', w o = Some (bs, o') ∧ in_u 64 o' ∧
    ∀ rest, r o (bs ++ rest) = Done (rest, inr (a, o')).

Section cparses.
Context `{SpeedyLaws}.

Lemma cparses_ret {A} (a : A) : cparses (mret a) (wall []) a.
Proof. intros o Ho. by exists [], o. Qed.
Lemma cparses_bind {A B} (r : cdr A) (f : A → cdr B) w1 w2 a b :
  cparses r w1 a → cparses (f a) w2 b → cparses (r ≫= f) (wthen w1 w2) b.
Proof.
  intros Hr Hf o Ho. destruct (Hr o Ho) as (bs1 & o1 & E1 & Ho1 & R1).
  destruct (Hf o1 Ho1) as (bs2 & o2 & E2 & Ho2 & R2).
  exists (bs1 ++ bs2), o2. split; [unfold wthen; rewrite E1; cbn; by rewrite E2|]. split; [done|].
  intros rest. rewrite <-app_assoc. unfold mbind, cdr_bind, mbind, prd_bind. by rewrite R1.
Qed.
Lemma cparses_bind_last {A B} (r : cdr A) (f : A → cdr B) w a b :
  cparses r w a → cparses (f a) (wall []) b → cparses (r ≫= f) w b.
Proof.
  intros Hr Hf o Ho. destruct (cparses_bind _ _ _ _ _ _ Hr Hf o Ho) as (bs & o' & E & Ho' & R).
  unfold wthen in E. destruct (w o) as [[bs1 o1]|]; [|done]. simpl in E. injection E as <- <-.
  exists bs1, o1. split_and!; [done|done|]. by rewrite app_nil_r in R.
Qed.
(** A reader that consumes nothing. *)
Lemma cparses_silent {A B} (r : cdr A) (f : A → cdr B) w a b :
  (∀ o buf, r o buf = Done (buf, inr (a, o))) → cparses (f a) w b → cparses (r ≫= f) w b.
Proof.
  intros Hr Hf o Ho. destruct (Hf o Ho) as (bs & o' & E & Ho' & R). exists bs, o'. split_and!; [done..|].
  intros rest. unfold mbind, cdr_bind, mbind, prd_bind. by rewrite Hr.
Qed.

Lemma cparses_item {A} (r : rd A) bs n a :
  parses r bs a → cparses (v ← of_reader r; _ ← advance n; mret v) (put bs n) a.
Proof.
  intros Hr o Ho. exists bs, (as_usize (o + n)). split; [done|]. split; [by apply wrap_u_range|].
  intros rest. unfold mbind, cdr_bind, of_reader, lift, mbind, prd_bind. by rewrite Hr.
Qed.
Lemma padding_range align o : 0 < align → 0 ≤ padding align o < align.
Proof. intros. unfold padding. apply Z.mod_pos_bound. lia. Qed.
Lemma length_zeros n : 0 ≤ n → Z.of_nat (length (zeros n)) = n.
Proof. intros. unfold zeros. rewrite length_replicate. lia. Qed.
Lemma cparses_padding align : 0 < align → cparses (skip_padding align) (put_padding align) tt.
Proof.
  intros Ha o Ho. pose proof (padding_range align o Ha) as Hp. eexists _, _. split; [done|].
  split; [by apply wrap_u_range|]. intros rest. unfold skip_padding.
  case_bool_decide.
  - unfold mbind, cdr_bind, mbind, prd_bind, of_reader, lift, skip, mbind, rd_bind, prd_bind.
    by rewrite (parses_octets (zeros (padding align o))) by by rewrite length_zeros by lia.
  - replace (padding align o) with 0 by lia. rewrite Z.add_0_r, wrap_u_small by done. done.
Qed.
Lemma cparses_len e n : in_s 32 n → cparses (read_len e) (write_len e n) n.
Proof.
  intros Hn. eapply cparses_bind; [by apply cparses_padding|].
  apply cparses_item. rewrite wrap_s_small by done. by apply parses_i32.
Qed.

Lemma push_times_parses {A} (r : cdr A) (w : A → cdrw) l acc :
  Forall (λ a, cparses r (w a) a) l → cparses (push_times (length l) r acc) (wall (w <$> l)) (acc ++ l).
Proof.
  intros Hl. revert acc. induction Hl as [|a l Ha Hl IH]; intros acc; csimpl.
  - rewrite app_nil_r. apply cparses_ret.
  - eapply cparses_bind; [exact Ha|]. 
    replace (acc ++ a :: l) with ((acc ++ [a]) ++ l) by by rewrite <-app_assoc. apply IH.
Qed.
Lemma insert_times_parses {K V} `{RustOrd K} (rk : cdr K) (rv : cdr V) (wk : K → cdrw) (wv : V → cdrw) l acc :
  Forall (λ x, cparses rk (wk x.1) x.1 ∧ cparses rv (wv x.2) x.2) l →
  cparses (insert_times (length l) rk rv acc) (wall ((λ x, wthen (wk x.1) (wv x.2)) <$> l))
    (foldl (λ m x, map_insert x.1 x.2 m) acc l).
Proof.
  intros Hl. revert acc. induction Hl as [|[k v] l [Hk Hv] Hl IH]; intros acc; csimpl in *; [apply cparses_ret|].
  intros o Ho. destruct (Hk o Ho) as (b1 & o1 & E1 & Ho1 & R1). destruct (Hv o1 Ho1) as (b2 & o2 & E2 & Ho2 & R2).
  destruct (IH (map_insert k v acc) o2 Ho2) as (b3 & o3 & E3 & Ho3 & R3).
  exists ((b1 ++ b2) ++ b3), o3. unfold wthen at 1 2. rewrite E1. cbn. rewrite E2. cbn. rewrite E3.
  split_and!; [done..|]. intros rest. rewrite <-!app_assoc.
  unfold mbind, cdr_bind, mbind, prd_bind. rewrite R1, R2. apply R3.
Qed.
(** An array has as many elements as its type says: its conversion never
    fails. *)
Lemma push_times_length {A} (r : cdr A) n acc o buf rest l o' :
  push_times n r acc o buf = Done (rest, inr (l, o')) → length l = (length acc + n)%nat.
Proof.
  revert acc o buf. induction n as [|n IH]; intros acc o buf; cbn [push_times].
  - intros [= <- <- <-]. lia.
  - unfold mbind, cdr_bind, mbind, prd_bind. destruct (r o buf) as [[buf' [?|[a o1]]]|]; [done| |done].
    intros Hl%IH. rewrite length_app in Hl. simpl in Hl. lia.
Qed.
End cparses.

(** ** The round trip *)
Section roundtrip.
Context `{HS : !Speedy, !SpeedyLaws, !SpeedyStrings, HD : !DeriveEnv, HL : !DeriveLaws}.

Lemma parses_prim p e v : prim_ok p v → parses (read_prim p e) (write_prim p e v) v.
Proof.
  destruct p; simpl; intros Hv; rewrite ?(wrap_u_small 8) by done;
    try first [by eauto using parses_u8, parses_u16, parses_u32, parses_i16, parses_i32
              |exact (parses_uint 8 e v Hv)].
  - eapply parses_bind_last; [apply parses_u8, wrap_u_range; lia|].
    rewrite wrap_s_as_u, wrap_s_small by (done || lia). apply parses_ret.
  - eapply parses_bind_last; [apply parses_u8; by destruct v|]. destruct v; apply parses_ret.
  - eapply parses_bind_last; [apply (parses_uint 8), (wrap_u_range 64); lia|].
    rewrite wrap_s_as_u, wrap_s_small by (done || lia). apply parses_ret.
Qed.

Lemma with_capacity_ok {B} cap size (f : unit → cdr B) w b :
  cap * size ≤ i64_MAX → cparses (f tt) w b → cparses (with_capacity cap size ≫= f) w b.
Proof.
  intros Hc. apply cparses_silent. intros o buf. unfold with_capacity. by rewrite bool_decide_true by done.
Qed.

Lemma parses_string e v :
  length v + 1 < 2 ^ 31 → valid_utf8 v = true → cparses (gen_read SString e) (gen_write SString e v) v.
Proof.
  intros Hl Hv. set (n := as_usize (length v + 1)).
  assert (Hn : n = length v + 1) by (apply wrap_u_small; unfold in_u; lia).
  assert (parses (c ← get_string (length v); _ ← read_u8 e; mret c) (v ++ write_u8 e 0) v) as Hp.
  { eapply parses_bind; [intros rest; by apply get_string_utf8|].
    eapply parses_bind_last; [by apply parses_u8|apply parses_ret]. }
  assert (Hi : in_s 32 n) by (unfold in_s; lia).
  cbn [gen_read gen_write]. fold n. eapply cparses_bind; [by apply cparses_len|]. rewrite Hn.
  rewrite wrap_s_small by (unfold in_s; lia). rewrite Z.add_simpl_r. clear Hi Hn n.
  rewrite (wrap_u_small 64 (length v)), (wrap_u_small 64 (length v + 1)) by (unfold in_u; lia).
  intros o Ho. destruct (cparses_item _ _ (length v + 1) _ Hp o Ho) as (bs & o' & E & Ho' & R).
  exists bs, o'. split_and!; [done..|]. intros rest. specialize (R rest).
  cbv [mbind mret cdr_bind cdr_ret prd_bind prd_ret rd_bind rd_ret of_reader lift advance] in R |- *.
  destruct (get_string _ _) as [b1 [?|c]]; [done|]. by destruct (read_u8 e b1) as [b2 [?|?]].
Qed.

Lemma gen_roundtrip s e v : val_ok s v → cparses (gen_read s e) (gen_write s e v) v.
Proof.
  induction s as [s IH|s IH n|m k IHk x IHx| |p|t]; cbn [val_ok val gen_read gen_write].
  - intros (Hl & Hs & Hv). eapply cparses_bind; [apply cparses_len; unfold in_s; lia|].
    rewrite wrap_u_small by (unfold in_u; lia). apply with_capacity_ok; [done|].
    rewrite Nat2Z.id. apply (push_times_parses _ _ v []). eapply Forall_impl; [exact Hv|]. apply IH.
  - intros (Hn & Hs & Hv). apply with_capacity_ok; [done|]. rewrite <-Hn.
    apply (push_times_parses _ _ v []). eapply Forall_impl; [exact Hv|]. apply IH.
  - intros (Hl & Hs & Hv). eapply cparses_bind; [apply cparses_len; unfold in_s; lia|]. rewrite Nat2Z.id.
    assert (Hp : map_iter m v ≡ₚ v) by (destruct m; [apply hash_iter_perm|done]).
    rewrite <-(insert_all_entries v (map_iter m v)) at 3 by done. rewrite <-Hp at 1.
    apply insert_times_parses. rewrite Hp. eapply Forall_impl; [exact Hv|].
    intros [] [? ?]. split; [by apply IHk|by apply IHx].
  - intros [? ?]. by apply parses_string.
  - intros Hv. eapply cparses_bind; [apply cparses_padding; by destruct p|].
    by apply cparses_item, parses_prim.
  - intros Hv o Ho. destruct (nested_roundtrip t e v Hv) as (bs & E & R). exists bs, o.
    rewrite E. split_and!; [done..|]. intros rest. unfold mbind, prd_bind. by rewrite R.
Qed.

Lemma fields_roundtrip ss e v : fields_ok ss v → cparses (read_fields ss e) (write_fields ss e v) v.
Proof.
  induction ss as [|s ss IH]; cbn [fields_ok fields_val read_fields write_fields].
  - destruct v. intros _. apply cparses_ret.
  - destruct v as [v vs]. intros [Hv Hvs]. eapply cparses_bind; [by apply gen_roundtrip|].
    eapply cparses_bind_last; [by apply IH|]. apply cparses_ret.
Qed.

Lemma derived_roundtrip_main ss e v :
  fields_ok ss v →
  ∃ bs, derived_write ss e v = Some bs ∧ ∀ rest, derived_read ss e (bs ++ rest) = Done (rest, inr v).
Proof.
  intros Hv. destruct (fields_roundtrip ss e v Hv 0 ltac:(unfold in_u; lia)) as (bs & o & E & _ & R).
  exists bs. unfold derived_write, derived_read. rewrite E. split; [done|].
  intros rest. unfold mbind, prd_bind. by rewrite R.
Qed.
End roundtrip.

(** ** The layout that CDR prescribes

    A reference encoder: it appends to the stream and aligns each primitive to
    a multiple of its size from the start of the stream, whatever the
    structure of the data. *)
Definition align_to (n : Z) (stream : list Z) : list Z := stream ++ zeros ((- length stream) mod n).

Section layout.
Context `{Speedy, DeriveEnv}.

Definition xcdr_u32 (e : Endianness) (n : Z) (stream : list Z) : list Z :=
  align_to 4 stream ++ put_uint 4 e (as_u32 n).
Fixpoint xcdr (s : Shape) (e : Endianness) : val s → list Z → list Z :=
  match s with
  | SVec s => λ v stream, foldl (λ st x, xcdr s e x st) (xcdr_u32 e (length v) stream) v
  | SArray s _ => λ v stream, foldl (λ st x, xcdr s e x st) stream v
  | SMap m k v => λ l stream,
      foldl (λ st x, xcdr v e x.2 (xcdr k e x.1 st)) (xcdr_u32 e (length l) stream) (map_iter m l)
  | SString => λ v stream, xcdr_u32 e (length v + 1) stream ++ v ++ write_u8 e 0
  | SPrim p => λ v stream, align_to (align_and_size p).2 stream ++ write_prim p e v
  | SNested t => λ _ stream, stream
  end.
Fixpoint xcdr_fields (ss : list Shape) (e : Endianness) : fields_val ss → list Z → list Z :=
  match ss with
  | [] => λ _ stream, stream
  | s :: ss => λ v stream, xcdr_fields ss e v.2 (xcdr s e v.1 stream)
  end.

(** No types that the macros do not know. *)
Fixpoint plain (s : Shape) : bool :=
  match s with
  | SVec s | SArray s _ => plain s
  | SMap _ k v => plain k && plain v
  | SString | SPrim _ => true
  | SNested _ => false
  end.

(** The writer [w] does to a stream what [f] does, and [__cdr_offset] is the
    length of the stream. *)
Definition writes (w : cdrw) (f : list Z → list Z) : Prop :=
  ∀ stream, ∃ bs, f stream = stream ++ bs ∧
    w (as_usize (length stream)) = Some (bs, as_usize (length (stream ++ bs))).

Lemma writes_nil : writes (wall []) id.
Proof. intros stream. exists []. by rewrite app_nil_r. Qed.
Lemma writes_then w1 w2 f1 f2 : writes w1 f1 → writes w2 f2 → writes (wthen w1 w2) (f2 ∘ f1).
Proof.
  intros H1 H2 stream. destruct (H1 stream) as (b1 & E1 & W1).
  destruct (H2 (stream ++ b1)) as (b2 & E2 & W2). exists (b1 ++ b2). cbn. rewrite E1, E2, <-app_assoc.
  split; [done|]. unfold wthen. rewrite W1. cbn. rewrite W2. cbn. by rewrite <-app_assoc.
Qed.
Lemma writes_ext w f g : (∀ st, f st = g st) → writes w f → writes w g.
Proof. intros Hfg Hw stream. rewrite <-Hfg. apply Hw. Qed.
Lemma writes_all {A} (w : A → cdrw) (f : A → list Z → list Z) l :
  (∀ a, writes (w a) (f a)) → writes (wall (w <$> l)) (λ st, foldl (λ st x, f x st) st l).
Proof.
  intros Hw. induction l as [|a l IH]; csimpl; [apply writes_nil|].
  apply (writes_then _ _ (f a) _ (Hw a) IH).
Qed.
Lemma usize_add a b : as_usize (as_usize a + b) = as_usize (a + b).
Proof. unfold wrap_u. apply Z.add_mod_idemp_l. lia. Qed.
Lemma usize_add_r a b : as_usize (a + as_usize b) = as_usize (a + b).
Proof. rewrite Z.add_comm, usize_add. by rewrite Z.add_comm. Qed.
Lemma writes_put bs n : n = Z.of_nat (length bs) → writes (put bs n) (λ st, st ++ bs).
Proof.
  intros -> stream. exists bs. split; [done|]. unfold put. f_equal. f_equal.
  by rewrite usize_add, length_app, Nat2Z.inj_add.
Qed.
Lemma padding_stream k n : 0 ≤ k ≤ 64 → padding (2 ^ k) (as_usize n) = (- n) mod 2 ^ k.
Proof.
  intros Hk. unfold padding, wrap_u. rewrite Zminus_mod_idemp_r.
  assert (Hm : (n mod 2 ^ 64) mod 2 ^ k = n mod 2 ^ k).
  { replace 64 with (k + (64 - k)) by lia. rewrite Z.pow_add_r by lia.
    rewrite Z.rem_mul_r by (try apply Z.pow_nonzero; try apply Z.pow_pos_nonneg; lia).
    rewrite Z.mul_comm, Z.mod_add, Z.mod_mod by (apply Z.pow_nonzero; lia). done. }
  rewrite <-Zminus_mod_idemp_r, Hm, Zminus_mod_idemp_r.
  rewrite <-(Z.mod_add (- n) 1) by (apply Z.pow_nonzero; lia). f_equal. lia.
Qed.
Lemma writes_padding k : 0 ≤ k ≤ 64 → writes (put_padding (2 ^ k)) (align_to (2 ^ k)).
Proof.
  intros Hk stream. unfold put_padding. rewrite padding_stream by done.
  pose proof (Z.mod_pos_bound (- length stream) (2 ^ k) ltac:(apply Z.pow_pos_nonneg; lia)).
  apply (writes_put (zeros _)). by rewrite length_zeros by lia.
Qed.
End layout.

Section layout_proofs.
Context `{HS : !Speedy, !SpeedyLaws, HD : !DeriveEnv}.

Lemma writes_len e n : writes (write_len e n) (xcdr_u32 e n).
Proof.
  eapply writes_ext; [|apply writes_then; [apply (writes_padding 2); lia|apply writes_put]].
  - intros st. cbn. unfold xcdr_u32, write_i32. by rewrite wrap_u_as_s by lia.
  - unfold write_i32. by rewrite length_put_uint.
Qed.
Lemma length_write_prim p e v : Z.of_nat (length (write_prim p e v)) = (align_and_size p).2.
Proof. destruct p; cbn [write_prim]; unfold write_u8, write_u16, write_i16, write_u32, write_i32;
    by rewrite length_put_uint. Qed.
Lemma writes_prim p e v : writes (gen_write (SPrim p) e v) (xcdr (SPrim p) e v).
Proof.
  cbn [gen_write xcdr]. apply (writes_then _ _ (align_to (align_and_size p).2) (λ st, st ++ write_prim p e v)).
  - destruct p; cbn [align_and_size fst snd]; first
      [ apply (writes_padding 0); lia | apply (writes_padding 1); lia
      | apply (writes_padding 2); lia | apply (writes_padding 3); lia ].
  - apply writes_put. by rewrite length_write_prim.
Qed.
Lemma writes_string e v : writes (gen_write SString e v) (xcdr SString e v).
Proof.
  assert (Hn : as_u32 (as_i32 (as_usize (length v + 1))) = as_u32 (length v + 1)).
  { rewrite wrap_u_as_s by lia. unfold wrap_u. change (2 ^ 64) with (2 ^ 32 * 2 ^ 32).
    rewrite Z.rem_mul_r by lia. by rewrite Z.mul_comm, Z.mod_add, Z.mod_mod by lia. }
  intros stream. destruct (writes_len e (as_usize (length v + 1)) stream) as (b1 & E1 & W1).
  assert (E1' : xcdr_u32 e (length v + 1) stream = stream ++ b1).
  { rewrite <-E1. unfold xcdr_u32. f_equal. f_equal. rewrite <-Hn. by rewrite wrap_u_as_s by lia. }
  exists (b1 ++ v ++ write_u8 e 0). cbn [gen_write xcdr]. rewrite E1', <-app_assoc. split; [done|].
  unfold wthen. rewrite W1. cbn. f_equal. f_equal. rewrite usize_add, usize_add_r.
  f_equal. rewrite !length_app. unfold write_u8. rewrite length_put_uint. lia.
Qed.
Lemma gen_writes_cdr s e v : plain s = true → writes (gen_write s e v) (xcdr s e v).
Proof.
  induction s as [s IH|s IH n|m k IHk x IHx| |p|t]; cbn [plain val]; intros Hp.
  - apply (writes_then _ _ _ (λ st, foldl (λ st x, xcdr s e x st) st v) (writes_len e (length v))).
    apply writes_all. intros a. by apply IH.
  - cbn [gen_write xcdr]. apply writes_all. intros a. by apply IH.
  - apply andb_prop in Hp as [Hk Hx].
    apply (writes_then _ _ _ (λ st, foldl (λ st y, xcdr x e y.2 (xcdr k e y.1 st)) st (map_iter m v))
      (writes_len e (length v))).
    apply (writes_all _ (λ y st, xcdr x e y.2 (xcdr k e y.1 st))). intros y.
    by apply (writes_then _ _ (xcdr k e y.1) (xcdr x e y.2)); [apply IHk|apply IHx].
  - apply writes_string.
  - apply writes_prim.
  - done.
Qed.
Lemma fields_write_cdr ss e v : Forall (λ s, plain s = true) ss → writes (write_fields ss e v) (xcdr_fields ss e v).
Proof.
  intros Hss. induction Hss as [|s ss Hs Hss IH]; cbn [write_fields xcdr_fields]; [apply writes_nil|].
  apply (writes_then _ _ (xcdr s e v.1) (xcdr_fields ss e v.2)); [by apply gen_writes_cdr|apply IH].
Qed.

(** C26. [DdsSerialize] writes the layout that CDR prescribes: for every
    structure whose fields are primitives, strings, vectors, arrays and maps of
    such, in any nesting, the octets are those of the reference encoder, which
    aligns every primitive from the start of the stream. *)
Theorem derived_write_is_cdr ss e v :
  Forall (λ s, plain s = true) ss → derived_write ss e v = Some (xcdr_fields ss e v []).
Proof.
  intros Hss. destruct (fields_write_cdr ss e v Hss []) as (bs & E & W).
  unfold derived_write. change (write_fields ss e v 0) with (write_fields ss e v (as_usize (length (@nil Z)))).
  rewrite W, E. done.
Qed.
End layout_proofs.

(** ** Keys *)
Section keys.
Context `{HS : !Speedy, !SpeedyLaws, !SpeedyStrings, HD : !DeriveEnv, HL : !DeriveLaws}.

Lemma key_hash_total result :
  ∃ h, key_hash result = Done h ∧ length h = 16%nat ∧
    ((length result ≤ 16)%nat → h = result ++ replicate (16 - length result) 0).
Proof.
  unfold key_hash, KeyHash_new. destruct (bool_decide_case (length result ≤ 16)%nat) as [[-> Hl]|[-> Hl]].
  - assert (Hp : length (result ++ replicate (16 - length result) 0) = 16%nat)
      by (rewrite length_app, length_replicate; lia).
    rewrite take_ge by lia. rewrite bool_decide_true by done. by eexists.
  - rewrite md5_length, bool_decide_true by done. eexists. split; [done|]. split; [apply md5_length|lia].
Qed.

End keys.

(** ** Samples of an application *)

(** [R::read_from_buffer_with_ctx] of a derived type. *)
Definition read_app `{Speedy, DeriveEnv} (ss : list Shape) (e : Endianness) (buf : list Z)
    : outcome (ReadError + fields_val ss) :=
  '(_, r) ← derived_read ss e buf; Done r.

Section samples.
Context `{HS : !Speedy, !SpeedyLaws, !SpeedyStrings, HD : !DeriveEnv, HL : !DeriveLaws}.

(** C25. What a DataWriter writes of a sample, a DataReader takes: for every
    structure with valid field values, the derived writer gives octets in both
    byte orders, the derived reader gives the value back and leaves what
    follows, and a change with the payload of the DataWriter is handed to the
    application as the value with the time of the change.  A [HashMap] may be
    written in any order of its entries. *)
Theorem sample_roundtrip ss v :
  fields_ok ss v →
  ∃ octets : Endianness → list Z,
    (∀ e, derived_write ss e v = Some (octets e)) ∧
    (∀ e rest, derived_read ss e (octets e ++ rest) = Done (rest, inr v)) ∧
    ∀ ts dw acc, let change := (next_change ts (cdr_payload octets) true dw).2 in
      get_sample (read_app ss) acc change = Done (acc ++ [(v, ts)]).
Proof.
  intros Hv. exists (λ e, default [] (derived_write ss e v)).
  assert (Hrt : ∀ e, ∃ bs, derived_write ss e v = Some bs ∧ ∀ rest, derived_read ss e (bs ++ rest) = Done (rest, inr v))
    by (intros e; by apply derived_roundtrip_main).
  split_and!.
  - intros e. by destruct (Hrt e) as (bs & -> & _).
  - intros e. by destruct (Hrt e) as (bs & -> & R).
  - intros ts dw acc. destruct (Hrt LittleEndian) as (bs & E & R). specialize (R []). rewrite app_nil_r in R.
    unfold get_sample, next_change, cdr_payload. cbn -[read_app derived_write]. rewrite E.
    cbn -[read_app encapsulation].
    change (encapsulation (0 :: 1 :: 0 :: 0 :: bs)) with (Done LittleEndian). rewrite drop_0.
    unfold read_app. cbn [mbind outcome_bind]. by rewrite R.
Qed.

Lemma negative_length_read s ss e z rest :
  0 < size_of s → - 2 ^ 31 ≤ z < 0 → derived_read (SVec s :: ss) e (write_i32 e z ++ rest) = Panic.
Proof.
  intros Hs Hz.
  assert (Hp := parses_i32 e z ltac:(unfold in_s; lia) rest).
  assert (Hc : with_capacity (as_usize z) (size_of s) 4 rest = Panic).
  { unfold with_capacity. rewrite bool_decide_false; [done|].
    assert (Hu : as_usize z = z + 2 ^ 64); [|rewrite Hu; unfold i64_MAX; nia].
    unfold wrap_u. rewrite <-(Z.mod_add z 1) by lia. rewrite Z.mod_small; lia. }
  unfold derived_read. cbn [read_fields gen_read]. unfold read_len, skip_padding, padding.
  cbv [mbind mret cdr_bind cdr_ret prd_bind prd_ret of_reader lift advance].
  change (bool_decide ((4 - 0 mod 4) mod 4 > 0)) with false. cbv iota beta.
  rewrite Hp. change (as_usize (0 + 4)) with 4. by rewrite Hc.
Qed.

(** C28. A remote writer aborts the application: a sample whose first field is
    a vector with a negative length makes [DataReader::take] panic in
    [Vec::with_capacity], whatever its other octets are and whichever other
    samples are ready. *)
Theorem negative_length_aborts_take s ss hc k c d z rest :
  hc_wf hc → hc_type hc = HcReader →
  (∀ k c d, ready_change hc k c → data_value c = Some d → payload_octets d) →
  0 < size_of s → - 2 ^ 31 ≤ z < 0 →
  ready_change hc k c → data_value c = Some d → sp_value d = write_i32 (byte_order d) z ++ rest →
  get_data (read_app (SVec s :: ss)) hc = Panic.
Proof.
  intros Hwf Hty Hoct Hs Hz Hr Hd Hsp. apply take_main; [done..|].
  exists k, c, d. split_and!; [done..|]. right. unfold read_app. rewrite Hsp.
  by rewrite negative_length_read.
Qed.
End samples.

(** ** Nested structures *)

(** The types that the macros do not know may themselves be derived: their
    readers and writers are the derived ones. *)
Definition with_structs `{Speedy} (D : DeriveEnv) (fields : Ty → list Shape) : DeriveEnv := {|
  nested_val t := @fields_val D (fields t);
  nested_ord t := @fields_ord D (fields t);
  nested_read t := @derived_read _ D (fields t);
  nested_write t := @derived_write _ D (fields t);
  size_of := @size_of D;
  hash_iter := @hash_iter D;
  md5 := @md5 D;
|}.
#[export] Instance with_structs_laws `{!Speedy, !SpeedyLaws, !SpeedyStrings} (D : DeriveEnv) (fields : Ty → list Shape) :
  @DeriveLaws _ D → @DeriveLaws _ (with_structs D fields).
Proof.
  intros HL.
  apply (@Build_DeriveLaws _ (with_structs D fields) (λ t, @fields_ord_laws _ D HL (fields t))
    (λ t, @fields_ok _ D HL (fields t))); simpl.
  - intros t e x Hx. by apply derived_roundtrip_main.
  - apply hash_iter_perm.
  - apply md5_length.
Defined.

(** ** Concrete structures *)

Import Concrete.

#[export] Instance concrete_strings : SpeedyStrings.
Proof.
  intros l rest Hl. unfold get_string, Concrete.speedy. rewrite length_app.
  destruct (Z.leb_spec (length l) (length l + length rest)%nat), (Z.leb_spec 0 (length l)); try lia.
  cbn [andb]. by rewrite Nat2Z.id, drop_app_length, take_app_length.
Qed.

(** No types beyond those of the macros; a [HashMap] iterates backwards. *)
Module DeriveSample.
Fixpoint size (s : Shape) : Z :=
  match s with
  | SVec _ | SMap _ _ _ | SString => 24
  | SArray s n => n * size s
  | SPrim PChar => 4
  | SPrim p => (align_and_size p).2
  | SNested _ => 0
  end.
Definition base : DeriveEnv := {|
  nested_val _ := Empty_set;
  nested_ord _ := λ _ _, Eq;
  nested_read _ _ := lift (rd_fail Invalid);
  nested_write _ _ _ := None;
  size_of := size;
  hash_iter _ l := rev l;
  md5 l := take 16 (l ++ replicate 16 0);
|}.
Lemma base_laws : @DeriveLaws _ base.
Proof.
  apply (@Build_DeriveLaws _ base ltac:(intros t; split; intros []) (λ _ _, False)); simpl.
  - done.
  - intros A l. symmetry. apply Permutation_rev.
  - intros l. change (length (take 16 (l ++ replicate 16 0)) = 16%nat).
    rewrite length_take, length_app, length_replicate. lia.
Defined.

Definition ty (s : string) : Ty := TyPath [] s [].
Definition generic (s : string) (args : list Ty) : Ty := TyPath [] s (inl <$> args).
Definition field (s : string) (t : Ty) : Field := mkField s t [].

(** [Shape] of src/src/dds/key.rs. *)
Definition ShapeStruct : DeriveInput :=
  mkDeriveInput "Shape" [mkAttribute "dds_data" [mkMeta "type_name" (StrValue "ShapeType")]]
    (NamedStruct [mkField "color" (ty "String") [mkAttribute "key" []];
                  field "x" (ty "i32"); field "y" (ty "i32"); field "shapesize" (ty "i32")]).
Definition shape_fields : list Field := named_fields ShapeStruct.

Example shape_type : type_name ShapeStruct = "ShapeType"%string ∧ is_with_key ShapeStruct = true.
Proof. by vm_compute. Qed.

(** A structure with a nested one, [Point { x : u32, y : u8 }]. *)
Definition point (t : Ty) : list Shape := [SPrim PU32; SPrim PU8].
#[export] Instance env : DeriveEnv := with_structs base point.
#[export] Instance env_laws : DeriveLaws := with_structs_laws base point base_laws.

Definition red : fields_val (shapes shape_fields) := ([82; 69; 68], (10, (20, (-30, tt)))).
Definition blue : fields_val (shapes shape_fields) := ([66; 76; 85; 69], (10, (20, (-30, tt)))).

(** The key hash that the test of src/src/dds/key.rs expects. *)
Example red_key : gen_key shape_fields red = Done (Some [0; 0; 0; 4; 82; 69; 68; 0; 0; 0; 0; 0; 0; 0; 0; 0]).
Proof. by vm_compute. Qed.

Definition mixed : list Field :=
  [field "tag" (ty "u8"); field "p" (ty "Point"); field "v" (generic "Vec" [generic "Option" []; ty "u8"]);
   field "m" (TyPath ["std"; "collections"] "HashMap" [inl (ty "u16"); inl (ty "String")]);
   field "a" (TyArray (ty "f64") (LenLit 2)); field "c" (generic "Vec" [ty "char"])].
Definition mixed_shapes : list Shape :=
  [SPrim PU8; SNested (ty "Point"); SVec (SNested (ty "Option")); SMap HashMap (SPrim PU16) SString;
   SArray (SPrim PF64) 2; SVec (SPrim PChar)].
Example mixed_dispatch : serialized_fields (mkDeriveInput "Mixed" [] (NamedStruct mixed)) = Done mixed_shapes.
Proof. by vm_compute. Qed.
Definition mixed_value : fields_val mixed_shapes :=
  (7, ((1, (2, tt)), ([(3, (4, tt))], ([(1, [65]); (258, [])], ([5; 6], ([97; 98], tt)))))).
Lemma mixed_ok : fields_ok mixed_shapes mixed_value.
Proof.
  repeat match goal with
  | |- _ ∧ _ => split
  | |- Forall _ (_ :: _) => apply Forall_cons
  | |- Forall _ [] => apply Forall_nil
  | |- _ => progress cbn
  | |- _ => done
  end.
  all: unfold i64_MAX; try (unfold in_u; lia); try (repeat split; cbn; unfold in_u; lia).
  repeat constructor.
Qed.

(** The octets of a nested structure are not aligned in the outer one, whose
    offset they do not advance either: the [u32] of the point is at octet 1,
    and the length behind the point is at octet 9. *)
Example nested_not_aligned :
  derived_write [SPrim PU8; SNested (ty "Point"); SPrim PU32] LittleEndian (7, ((1, (2, tt)), (3, tt)))
    = Some [7; 1; 0; 0; 0; 2; 0; 0; 0; 3; 0; 0; 0].
Proof. by vm_compute. Qed.

(** A qualified [String] is not the [String] of the macros, a qualified [Vec]
    is their [Vec]. *)
Example qualified_string :
  shape_of (TyPath ["std"; "string"] "String" []) = SNested (TyPath ["std"; "string"] "String" []) ∧
  shape_of (TyPath ["std"; "vec"] "Vec" [inl (ty "String")]) = SVec SString.
Proof. by vm_compute. Qed.

(** With a [HashMap] as a key field, the hash of equal keys depends on the
    order in which the map iterates. *)
Example hash_map_key :
  let fs := [mkField "m" (generic "HashMap" [ty "u8"; ty "u8"]) [mkAttribute "key" []]] in
  @gen_key _ env fs ([(1, 2); (3, 4)], tt) = Done (Some [0; 0; 0; 2; 3; 4; 1; 2; 0; 0; 0; 0; 0; 0; 0; 0]).
Proof. by vm_compute. Qed.

(** A sample of [struct { v: Vec<u8> }] with length -1 in the cache of a reader. *)
Definition bad_change : CacheChange :=
  mkCacheChange Alive (sample_writer 1) 1 (mkTimestamp 1 0)
    (Some (mkSerializedPayload CDR_LE [0; 0] [255; 255; 255; 255])).
Definition bad_run : outcome HistoryCache :=
  '(hc, _) ← add_change bad_change false (limit (-1)) keep_all (hc_new HcReader);
  '(hc, _) ← flush hc; Done hc.
Definition bad_cache : HistoryCache := match bad_run with Done hc => hc | Panic => hc_new HcReader end.
Lemma bad_cache_wf : hc_wf bad_cache.
Proof.
  unfold bad_cache. destruct bad_run as [hc|] eqn:E; [|apply hc_new_wf].
  apply outcome_bind_Done in E as ([hc1 r] & E1 & E). apply outcome_bind_Done in E as ([hc2 b] & E2 & [= <-]).
  eapply reachable_wf, (reach_step false (limit (-1)) keep_all HcReader); [|by eapply step_flush].
  eapply reach_step; [apply reach_new|]. by eapply step_add_change.
Qed.
End DeriveSample.

Section derive_witnesses.
Import DeriveSample.

(** A structure with a nested one, a vector of such, a [HashMap], an array. *)
Lemma sample_roundtrip_witness :
  ∃ octets : Endianness → list Z,
    derived_write mixed_shapes BigEndian mixed_value = Some (octets BigEndian) ∧
    derived_read mixed_shapes BigEndian (octets BigEndian ++ [1]) = Done ([1], inr mixed_value).
Proof.
  destruct (sample_roundtrip mixed_shapes mixed_value mixed_ok) as (octets & Hw & Hr & _).
  exists octets. split; [apply Hw|apply Hr].
Defined.

Lemma derived_write_is_cdr_witness :
  derived_write (shapes shape_fields) LittleEndian red =
    Some ([4; 0; 0; 0; 82; 69; 68; 0] ++ [10; 0; 0; 0] ++ [20; 0; 0; 0] ++ [226; 255; 255; 255]).
Proof.
  rewrite (derived_write_is_cdr (shapes shape_fields) LittleEndian red); [by vm_compute|].
  by repeat constructor.
Defined.


Lemma negative_length_aborts_take_witness :
  get_data (read_app [SVec (SPrim PU8)]) bad_cache = Panic.
Proof.
  apply (negative_length_aborts_take (SPrim PU8) [] bad_cache (change_key bad_change) bad_change
    (mkSerializedPayload CDR_LE [0; 0] [255; 255; 255; 255]) (-1) []).
  - apply bad_cache_wf.
  - by vm_compute.
  - intros k c d (_ & Hc & _) Hd.
    assert (Hall : map_Forall (λ _ c, match data_value c with Some d => payload_octets d | None => True end)
      (changes bad_cache)).
    { apply map_Forall_to_list. vm_compute. repeat (apply Forall_cons; split; [split; reflexivity|]). by apply Forall_nil. }
    specialize (Hall k c Hc). cbn beta in Hall. by rewrite Hd in Hall.
  - by vm_compute.
  - lia.
  - split; [concrete|]. split; [by vm_compute|done].
  - done.
  - by vm_compute.
Defined.
End derive_witnesses.
