(* ===== verification/DiscoveryThread.v ===== *)
(** * The discovery thread

    src/src/discovery.rs: [Discovery::new] and [discovery_loop].  The thread
    owns the DataWriters of the built-in topics; each shares its history cache
    with the RTPS writer of the event loop, and the discovery database is
    shared too, so that both are kept in the state here.  A handler is a
    function from the state to a panic or a new state, the messages sent in
    order and a result, or none while a write still waits for room; the fuel
    of a write is as in Endpoints.  What a channel delivers is an argument. *)
From stdpp Require Import base tactics numbers list gmap strings.
From coqutil Require Import Datatypes.RecordSetters.
From S2P Require Import Prelude Ordered Ids Time SeqNum Qos HistoryCache Topic Message Proxy Writer WriterProofs.
From S2P Require Import DiscoveryData DiscoveryDB Reader ReaderProofs Speedy Wire ParameterList ParameterListProofs Receiver.
From S2P Require Import ReceiverProofs Timer Tokens EventLoop EventLoopProofs EventLoopSteps Entities EntitiesProofs Endpoints.
Import OCamlLikeNotations.

(** What goes to the command channel of a writer and to the event loop. *)
Inductive DiscoveryEvent :=
| Command (e : EntityId) (cmd : WriterCmd)
| DeleteParticipant (p : GuidPrefix).

(** What the event loop sends ([DiscoveredWriterData], [DiscoveredReaderData],
    [ParticipantMessageCmd::SendData]). *)
Notation LocalWriter := (EntityId * (WriterProxy * PublicationBuiltinTopicData))%type.
Notation LocalReader := (EntityId * (ReaderProxy * SubscriptionBuiltinTopicData))%type.
Inductive DiscoveryDelivery :=
| SendData (l : list ParticipantMessageData)
| AddWriters (l : list LocalWriter)
| AddReaders (l : list LocalReader)
| NoDelivery.

Section discovery.
Context {TL : TimerLib} `{Speedy}.

Record Discovery := mkDiscovery {
  disc_dp : DomainParticipant;
  discovery_db : DiscoveryDB;
  self_spdp_data : SerializedPayload;
  spdp_w : DataWriter * HistoryCache;
  sedp_pub_w : DataWriter * HistoryCache;
  sedp_sub_w : DataWriter * HistoryCache;
  p2p_w : DataWriter * HistoryCache;
  spdp_send_timer : Timer unit;
  participant_liveliness_timer : Timer unit;
  local_writers_data : gmap EntityId (WriterProxy * PublicationBuiltinTopicData);
  local_readers_data : gmap EntityId (ReaderProxy * SubscriptionBuiltinTopicData);
}.

(** The readings of the clocks for one message or event; what the event loop
    does to a cache during the sleeps of a write. *)
Record DiscoveryReadings := mkDiscoveryReadings {
  disc_set : Instant;
  disc_clock : option Timestamp;
  disc_env : nat → HistoryCache → HistoryCache;
}.

Definition SPDP_FIRST : CoreDuration := mkCoreDuration 3 0.
Definition LIVELINESS_FIRST : CoreDuration := mkCoreDuration 5 0.

(** [Discovery::new]; the caches are those made with the DataWriters. *)
Definition discovery_new (now : Instant) (dp : DomainParticipant) (be : BuiltinEndpoints) (db : DiscoveryDB)
    (spdp : SerializedPayload) : Discovery :=
  mkDiscovery dp db spdp
    (spdp_builtin_participant_writer be, hc_new HcWriter) (sedp_builtin_pub_writer be, hc_new HcWriter)
    (sedp_builtin_sub_writer be, hc_new HcWriter) (p2p_builtin_participant_msg_writer be, hc_new HcWriter)
    (set_timeout now SPDP_FIRST tt timer_default).1 (set_timeout now LIVELINESS_FIRST tt timer_default).1 ∅ ∅.

(** ** The monad *)

Definition dm (A : Type) : Type := Discovery → outcome (Discovery * list DiscoveryEvent * option A).
#[global] Instance dm_ret : MRet dm := λ A a D, Done (D, [], Some a).
#[global] Instance dm_bind : MBind dm := λ A B f m D,
  match m D with
  | Done (D1, evs, Some a) =>
      match f a D1 with
      | Done (D2, evs', b) => Done (D2, evs ++ evs', b)
      | Panic => Panic
      end
  | Done (D1, evs, None) => Done (D1, evs, None)
  | Panic => Panic
  end.
Definition dset (f : Discovery → Discovery) : dm unit := λ D, Done (f D, [], Some tt).
Definition dtell (ev : DiscoveryEvent) : dm unit := λ D, Done (D, [ev], Some tt).
Fixpoint dfor {A} (l : list A) (body : nat → A → dm unit) : dm unit :=
  match l with
  | [] => mret tt
  | x :: l => _ ← body 0%nat x; dfor l (body ∘ S)
  end.

(** A write through one of the DataWriters. *)
Definition through (get : Discovery → DataWriter * HistoryCache)
    (put : DataWriter * HistoryCache → Discovery → Discovery)
    (m : DataWriter → HistoryCache → outcome (DataWriter * option (HistoryCache * WriterCmd))) : dm unit := λ D,
  match m (get D).1 (get D).2 with
  | Done (dw, Some (hc, cmd)) => Done (put (dw, hc) D, [Command (entity_id (dw_guid dw)) cmd], Some tt)
  | Done (dw, None) => Done (put (dw, (get D).2) D, [], None)
  | Panic => Panic
  end.
Definition put_spdp x (D : Discovery) : Discovery := { D with spdp_w := x }.
Definition put_pub x (D : Discovery) : Discovery := { D with sedp_pub_w := x }.
Definition put_sub x (D : Discovery) : Discovery := { D with sedp_sub_w := x }.
Definition put_p2p x (D : Discovery) : Discovery := { D with p2p_w := x }.

(** ** The handlers *)

(** SPDP_SEND_TIMER *)
Definition spdp_send (fuel : nat) (c : DiscoveryReadings) : dm unit :=
  _ ← (λ D, through spdp_w put_spdp (write_serialized fuel (disc_env c) (disc_clock c) (self_spdp_data D) false) D);
  dset (λ D, { D with spdp_send_timer :=
    (set_timeout (disc_set c) (cfg_participant_message_period (participant_config (disc_dp D))) tt
       (spdp_send_timer D)).1 }).

(** PARTICIPANT_MESSAGE_CMD_RECEIVER, one command. *)
Definition send_participant_message (fuel : nat) (c : DiscoveryReadings) (d : ParticipantMessageData) : dm unit :=
  through p2p_w put_p2p (dw_write fuel (disc_env c) (disc_clock c) (λ e, write_ParticipantMessageData e d)).

(** PARTICIPANT_LIVELINESS_TIMER *)
Definition check_participants (c : DiscoveryReadings) : dm unit := λ D,
  match check_participant_liveliness (default Ts.TIME_INVALID (disc_clock c)) (discovery_db D) with
  | Done (db, (next, lost)) =>
      Done ({ D with discovery_db := db;
                     participant_liveliness_timer :=
                       (set_timeout (disc_set c) next tt (participant_liveliness_timer D)).1 },
            DeleteParticipant <$> lost, Some tt)
  | Panic => Panic
  end.

(** DISC_WRITER_ADD and DISC_READER_ADD, one endpoint. *)
Definition add_local_writer (fuel : nat) (c : DiscoveryReadings) (w : LocalWriter) : dm unit :=
  _ ← through sedp_pub_w put_pub
        (write_builtin_data fuel (disc_env c) (disc_clock c) (λ e, write_DiscoveredWriterData e w.2.1 w.2.2) true);
  dset (λ D, { D with local_writers_data := <[w.1 := w.2]> (local_writers_data D) }).
Definition add_local_reader (fuel : nat) (c : DiscoveryReadings) (r : LocalReader) : dm unit :=
  _ ← through sedp_sub_w put_sub
        (write_builtin_data fuel (disc_env c) (disc_clock c) (λ e, write_DiscoveredReaderData e r.2.1 r.2.2) true);
  dset (λ D, { D with local_readers_data := <[r.1 := r.2]> (local_readers_data D) }).

(** One event of [discovery_loop]. *)
Definition discovery_event (fuel : nat) (c : nat → DiscoveryReadings) (token : Z) (d : DiscoveryDelivery) : dm unit :=
  match token_decode token with
  | ReservedToken token =>
      if bool_decide (token = Token.SPDP_SEND_TIMER) then spdp_send fuel (c 0%nat)
      else if bool_decide (token = Token.PARTICIPANT_MESSAGE_CMD_RECEIVER) then
        match d with SendData l => dfor l (λ i, send_participant_message fuel (c i)) | _ => mret tt end
      else if bool_decide (token = Token.PARTICIPANT_MESSAGE_READER) then mret tt
      else if bool_decide (token = Token.PARTICIPANT_LIVELINESS_TIMER) then check_participants (c 0%nat)
      else if bool_decide (token = Token.DISC_WRITER_ADD) then
        match d with AddWriters l => dfor l (λ i, add_local_writer fuel (c i)) | _ => mret tt end
      else if bool_decide (token = Token.DISC_READER_ADD) then
        match d with AddReaders l => dfor l (λ i, add_local_reader fuel (c i)) | _ => mret tt end
      else λ _, Panic
  | EntityToken e => λ _, Panic
  end.
End discovery.

(** ** Writing without limits *)

Definition unlimited (dw : DataWriter) : Prop := max_samples (limits dw) = LENGTH_UNLIMITED.
Record sender_ok (x : DataWriter * HistoryCache) : Prop := {
  so_dw : dw_ok x.1 x.2;
  so_unlimited : unlimited x.1;
}.

(** One write has gone through: the change is in the cache, marked for the
    writer, and nothing else has changed there. *)
Record written (change : CacheChange) (x x' : DataWriter * HistoryCache) : Prop := {
  wr_dw : x'.1 = renumber (sequence_number change) x.1;
  wr_writer : writer_guid change = dw_guid x.1;
  wr_add : add_change change (dw_is_reliable x.1) (limits x.1) (w_history (dw_qos x.1)).1 x.2 = Done (x'.2, inr tt);
  wr_changes : ∃ c, data_value c = data_value change ∧
    changes x'.2 = <[change_key change := c]> (changes x.2);
  wr_sub : changes x.2 ⊆ changes x'.2;
  wr_marked : unprocessed_seqnum x'.2 = {[sequence_number change]} ∪ unprocessed_seqnum x.2;
  wr_ok : sender_ok x';
}.

(** The number that the next change gets; the cache takes it if it does not
    hold other data under that number. *)
Definition next_number (inc : bool) (dw : DataWriter) : Z :=
  if inc then last_change_sequence_number dw + 1 else Z.max 1 (last_change_sequence_number dw).
Definition acceptable (inc : bool) (payload : SerializedPayload) (x : DataWriter * HistoryCache) : Prop :=
  inc = true ∨ ∀ c, changes x.2 !! mkHCKey (dw_guid x.1) (next_number inc x.1) = Some c → data_value c = Some payload.

Lemma next_change_number ts payload inc dw :
  0 ≤ last_change_sequence_number dw → next_number inc dw < Sn.MAX →
  next_change ts payload inc dw =
    (renumber (next_number inc dw) dw, mkCacheChange Alive (dw_guid dw) (next_number inc dw) ts (Some payload)).
Proof.
  intros H0 Hn. unfold next_change, next_number, renumber, Sn.add in *. destruct inc.
  - unfold Sn.MAX, i64_MAX in Hn. by rewrite (wrap_s_small 64) by (unfold in_s; lia).
  - destruct (bool_decide_case (last_change_sequence_number dw = 0)) as [[-> Hz]|[-> Hz]].
    + by rewrite Hz.
    + by rewrite Z.max_r by lia.
Qed.

Lemma insert_change_marks change history hc :
  hc_type hc = HcWriter →
  unprocessed_seqnum (insert_change change history hc) = {[sequence_number change]} ∪ unprocessed_seqnum hc.
Proof.
  intros Hty. rewrite insert_change_pushed. cbv zeta. unfold is_hc_reader, is_hc_writer.
  rewrite (bool_decide_false (hc_type hc = HcReader)) by congruence. cbn [andb].
  change (hc_type (pushed change hc)) with (hc_type hc). by rewrite bool_decide_true.
Qed.

Lemma add_unlimited change x :
  sender_ok x → writer_guid change = dw_guid x.1 → last_change_sequence_number x.1 ≤ sequence_number change →
  (∀ c, changes x.2 !! change_key change = Some c → data_value c = data_value change) →
  ∃ hc', written change x (renumber (sequence_number change) x.1, hc').
Proof.
  intros [[Hwf Hty Hl Hk] Hun] Hg Hle Hsame. unfold unlimited in Hun.
  set (history := (w_history (dw_qos x.1)).1).
  assert (Hadd : ∃ hc', add_change change (dw_is_reliable x.1) (limits x.1) history x.2 = Done (hc', inr tt) ∧
    unprocessed_seqnum hc' = {[sequence_number change]} ∪ unprocessed_seqnum x.2 ∧
    ∃ c, data_value c = data_value change ∧ changes hc' = <[change_key change := c]> (changes x.2) ∧
      changes x.2 ⊆ changes hc').
  { unfold add_change. destruct (changes x.2 !! change_key change) as [c|] eqn:E.
    - rewrite bool_decide_true by by apply Hsame. rewrite Hty. eexists. split; [reflexivity|].
      split; [done|]. exists c. split; [by apply Hsame|]. simpl. by rewrite insert_id.
    - rewrite make_room_alt, decide_False by (intros [? _]; done). cbn [mbind outcome_bind].
      eexists. split; [reflexivity|]. destruct (insert_change_own change history x.2 Hty) as [Hc _].
      split; [by apply insert_change_marks|]. exists change. split; [done|]. split; [done|]. rewrite Hc. by apply insert_subseteq. }
  destruct Hadd as (hc' & Hadd & Hu & c & Hd & Hch & Hsub). exists hc'.
  split; try done; [by exists c|]. split; [|exact Hun].
  assert (Hty' : hc_type hc' = HcWriter) by (rewrite <-Hty; eapply hc_step_type; [done|by eapply step_add_change]).
  split; [by eapply add_change_wf|done|cbn; unfold constant; lia|].
  intros k. cbn [fst snd]. rewrite Hch, lookup_insert_is_Some. cbn. unfold constant. intros [<-|[_ Hs]] Hkg.
  - simpl. lia.
  - pose proof (Hk k Hs Hkg). lia.
Qed.

Lemma write_sends fuel env ts payload inc x :
  (0 < fuel)%nat → sender_ok x → next_number inc x.1 < Sn.MAX → acceptable inc payload x →
  let change := mkCacheChange Alive (dw_guid x.1) (next_number inc x.1) ts (Some payload) in
  ∃ x', write_serialized fuel env (Some ts) payload inc x.1 x.2 = Done (x'.1, Some (x'.2, WriteData)) ∧
    written change x x'.
Proof.
  intros Hf Hx Hn Ha change. pose proof (dwo_last _ _ (so_dw _ Hx)) as Hl.
  destruct (add_unlimited change x Hx) as (hc' & Hw).
  - done.
  - simpl. unfold next_number. destruct inc; lia.
  - intros c Hc. destruct Ha as [->|Ha]; [|by apply Ha]. exfalso.
    assert (Hs : is_Some (changes x.2 !! change_key change)) by by exists c.
    pose proof (dwo_keys _ _ (so_dw _ Hx) _ Hs eq_refl) as Hle. simpl in Hle. lia.
  - exists (renumber (sequence_number change) x.1, hc'). split; [|exact Hw].
    unfold write_serialized, writer_data_to_hc. cbn [unwrap mbind outcome_bind].
    rewrite next_change_number by done. fold change. destruct fuel as [|fuel]; [lia|]. cbn [write_loop].
    change (try_write change (renumber (next_number inc x.1) x.1) x.2) with (try_write change x.1 x.2).
    unfold try_write. pose proof (wr_add _ _ _ Hw) as Hadd. unfold limits in Hadd. rewrite Hadd. done.
Qed.

(** ** What the handlers do *)

Section effects.
Context {TL : TimerLib} `{Speedy}.

Definition senders (D : Discovery) : list (DataWriter * HistoryCache) := [spdp_w D; sedp_pub_w D; sedp_sub_w D; p2p_w D].

(** What the thread does to the memory it shares: a write through one of the
    DataWriters, or the removal of the participants that are gone. *)
Inductive effect (D D' : Discovery) : Prop :=
| eff_write i x x' change :
    senders D !! i = Some x → written change x x' → 0 < sequence_number change < Sn.MAX →
    senders D' = <[i := x']> (senders D) → discovery_db D' = discovery_db D → effect D D'
| eff_db ts next :
    check_participant_liveliness ts (discovery_db D) = Done (discovery_db D', next) → senders D' = senders D →
    effect D D'
| eff_own : senders D' = senders D → discovery_db D' = discovery_db D → effect D D'.

(** The announcer of SPDP has at most the one change, with the announcement. *)
Record disc_ok (D : Discovery) : Prop := {
  do_spdp : sender_ok (spdp_w D);
  do_spdp_one : last_change_sequence_number (spdp_w D).1 ≤ 1;
  do_spdp_data : ∀ c, changes (spdp_w D).2 !! mkHCKey (dw_guid (spdp_w D).1) 1 = Some c →
    data_value c = Some (self_spdp_data D);
  do_pub : sender_ok (sedp_pub_w D);
  do_sub : sender_ok (sedp_sub_w D);
  do_p2p : sender_ok (p2p_w D);
  do_db : leases_wf (discovery_db D);
}.

(** [m] comes to its end in a state of [Q]. *)
Definition dwp {A} (m : dm A) (Q : A → Discovery → list DiscoveryEvent → Prop) (D : Discovery) : Prop :=
  match m D with Done (D', evs, Some a) => Q a D' evs | _ => False end.

Lemma dwp_ret {A} (a : A) Q D : Q a D [] → dwp (mret a) Q D.
Proof. done. Qed.
Lemma dwp_bind {A B} (m : dm A) (f : A → dm B) Q D :
  dwp m (λ a D1 evs, dwp (f a) (λ b D2 evs', Q b D2 (evs ++ evs')) D1) D → dwp (m ≫= f) Q D.
Proof.
  unfold dwp, mbind, dm_bind. destruct (m D) as [[[D1 evs] [a|]]|]; try done.
  by destruct (f a D1) as [[[D2 evs'] [b|]]|].
Qed.
Lemma dwp_mono {A} (m : dm A) (Q Q' : A → Discovery → list DiscoveryEvent → Prop) D :
  dwp m Q D → (∀ a D' evs, Q a D' evs → Q' a D' evs) → dwp m Q' D.
Proof. unfold dwp. destruct (m D) as [[[D1 evs] [a|]]|]; auto. Qed.
Lemma dwp_set f Q D : Q tt (f D) [] → dwp (dset f) Q D.
Proof. done. Qed.
Lemma dwp_through get put m x' Q D :
  m (get D).1 (get D).2 = Done (x'.1, Some (x'.2, WriteData)) →
  Q tt (put x' D) [Command (entity_id (dw_guid x'.1)) WriteData] → dwp (through get put m) Q D.
Proof. intros E HQ. unfold dwp, through. rewrite E. by destruct x'. Qed.
Lemma dwp_Done {A} (m : dm A) Q D : dwp m Q D → ∃ D' evs a, m D = Done (D', evs, Some a) ∧ Q a D' evs.
Proof. unfold dwp. destruct (m D) as [[[D' evs] [a|]]|]; [|done..]. eauto. Qed.

Lemma written_guid change x x' : written change x x' → dw_guid x'.1 = dw_guid x.1.
Proof. intros Hw. by rewrite (wr_dw _ _ _ Hw). Qed.
Lemma written_last change x x' : written change x x' → last_change_sequence_number x'.1 = sequence_number change.
Proof. intros Hw. by rewrite (wr_dw _ _ _ Hw). Qed.

(** The announcement of the participant: it is in the cache under number 1,
    marked for sending; the timer has one more entry. *)
Lemma spdp_send_ok fuel c D :
  disc_ok D → (0 < fuel)%nat → is_Some (disc_clock c) →
  dwp (spdp_send fuel c) (λ _ D' evs, disc_ok D' ∧ rtc effect D D' ∧
    evs = [Command (entity_id (dw_guid (spdp_w D).1)) WriteData] ∧
    ∃ change, written change (spdp_w D) (spdp_w D') ∧ sequence_number change = 1 ∧
      data_value change = Some (self_spdp_data D) ∧
      spdp_send_timer D' = (set_timeout (disc_set c) (cfg_participant_message_period (participant_config (disc_dp D)))
        tt (spdp_send_timer D)).1) D.
Proof.
  intros HD Hf [ts Hts]. unfold spdp_send. apply dwp_bind. cbn [dwp].
  assert (Hone : next_number false (spdp_w D).1 = 1).
  { unfold next_number. pose proof (do_spdp_one _ HD). lia. }
  destruct (write_sends fuel (disc_env c) ts (self_spdp_data D) false (spdp_w D)) as (x' & E & Hw);
    [done|apply HD|by rewrite Hone|right; rewrite Hone; apply HD|]. rewrite Hone in Hw.
  unfold dwp at 1. rewrite Hts. fold (dwp (A:=unit)). unfold through. rewrite E.
  apply dwp_set. set (change := mkCacheChange _ _ _ _ _) in *.
  assert (Hsn : last_change_sequence_number x'.1 = 1) by by rewrite (written_last _ _ _ Hw).
  replace (x'.1, x'.2) with x' by by destruct x'. split_and!.
  - destruct HD. split; try done; cbn; unfold constant.
    + apply Hw.
    + by rewrite Hsn.
    + destruct (wr_changes _ _ _ Hw) as (c0 & Hc0 & Hch). intros c1. rewrite (written_guid _ _ _ Hw), Hch.
      change (mkHCKey (dw_guid (spdp_w D).1) 1) with (change_key change). rewrite lookup_insert_eq.
      intros [= <-]. exact Hc0.
  - apply rtc_once. by eapply (eff_write _ _ 0 (spdp_w D) x' change).
  - by rewrite (written_guid _ _ _ Hw).
  - by exists change.
Qed.

(** Several writes, each under the next number. *)
Fixpoint written_all (ps : list SerializedPayload) (x x' : DataWriter * HistoryCache) : Prop :=
  match ps with
  | [] => x' = x
  | p :: ps => ∃ x1 ts,
      written (mkCacheChange Alive (dw_guid x.1) (last_change_sequence_number x.1 + 1) ts (Some p)) x x1 ∧
      written_all ps x1 x'
  end.

(** The change under a number, on its way to the readers. *)
Definition published (x : DataWriter * HistoryCache) (sn : Z) (p : SerializedPayload) : Prop :=
  sn ∈ unprocessed_seqnum x.2 ∧ ∃ c, changes x.2 !! mkHCKey (dw_guid x.1) sn = Some c ∧ data_value c = Some p.

Lemma written_all_spec ps x x' :
  written_all ps x x' →
  dw_guid x'.1 = dw_guid x.1 ∧
  last_change_sequence_number x'.1 = last_change_sequence_number x.1 + Z.of_nat (length ps) ∧
  (∀ sn p, published x sn p → published x' sn p) ∧
  ∀ i p, ps !! i = Some p → published x' (last_change_sequence_number x.1 + 1 + Z.of_nat i) p.
Proof.
  revert x. induction ps as [|p0 ps IH]; intros x; cbn [written_all].
  { intros ->. split_and!; [done|simpl; lia|done|done]. }
  intros (x1 & ts & Hw & Hall). destruct (IH x1 Hall) as (Hg & Hl & Hkeep & Hps).
  set (change := mkCacheChange _ _ _ _ _) in *. rewrite (written_guid _ _ _ Hw), (written_last _ _ _ Hw) in *.
  change (sequence_number change) with (last_change_sequence_number x.1 + 1) in *.
  assert (Hk1 : ∀ sn p, published x sn p → published x1 sn p).
  { intros sn p (Hu & c & Hc & Hd). split; [rewrite (wr_marked _ _ _ Hw); set_solver|]. exists c. split; [|done].
    rewrite (written_guid _ _ _ Hw). eapply lookup_weaken; [exact Hc|apply Hw]. }
  assert (H1 : published x1 (last_change_sequence_number x.1 + 1) p0).
  { split; [rewrite (wr_marked _ _ _ Hw); set_solver|]. destruct (wr_changes _ _ _ Hw) as (c & Hd & Hc). exists c.
    rewrite (written_guid _ _ _ Hw), Hc. split; [|exact Hd]. apply (lookup_insert_eq (changes x.2) (change_key change)). }
  split_and!; [done|cbn [length]; lia|by auto|].
  intros [|i] p Hp; cbn in Hp.
  - injection Hp as <-. replace (_ + Z.of_nat 0) with (last_change_sequence_number x.1 + 1) by lia. by apply Hkeep.
  - replace (_ + Z.of_nat (S i)) with (last_change_sequence_number x.1 + 1 + 1 + Z.of_nat i) by lia. by apply Hps.
Qed.

(** The three writers that count on. *)
Definition counting (get : Discovery → DataWriter * HistoryCache)
    (put : DataWriter * HistoryCache → Discovery → Discovery) (i : nat) : Prop :=
  ∀ D, senders D !! i = Some (get D) ∧ (disc_ok D → sender_ok (get D)) ∧
    ∀ x, get (put x D) = x ∧ senders (put x D) = <[i := x]> (senders D) ∧ discovery_db (put x D) = discovery_db D ∧
      (disc_ok D → sender_ok x → disc_ok (put x D)).
Lemma counting_pub : counting sedp_pub_w put_pub 1.
Proof. intros D. split; [done|]. split; [apply do_pub|]. intros x. split_and!; try done. intros [] ?. by split. Qed.
Lemma counting_sub : counting sedp_sub_w put_sub 2.
Proof. intros D. split; [done|]. split; [apply do_sub|]. intros x. split_and!; try done. intros [] ?. by split. Qed.
Lemma counting_p2p : counting p2p_w put_p2p 3.
Proof. intros D. split; [done|]. split; [apply do_p2p|]. intros x. split_and!; try done. intros [] ?. by split. Qed.

(** Other parts of the state, which the others do not look at. *)
Definition beside (f : Discovery → Discovery) : Prop :=
  ∀ D, senders (f D) = senders D ∧ discovery_db (f D) = discovery_db D ∧ (disc_ok D → disc_ok (f D)).

(** One write that counts on. *)
Definition count_spec (get : Discovery → DataWriter * HistoryCache) (payload : SerializedPayload) (m : dm unit) : Prop :=
  ∀ D, disc_ok D → last_change_sequence_number (get D).1 + 1 < Sn.MAX →
    dwp m (λ _ D' evs, disc_ok D' ∧ rtc effect D D' ∧ written_all [payload] (get D) (get D') ∧
       evs = [Command (entity_id (dw_guid (get D).1)) WriteData]) D.

Lemma count_write_ok get put i fuel c payload :
  counting get put i → (0 < fuel)%nat → is_Some (disc_clock c) →
  count_spec get payload (through get put (write_serialized fuel (disc_env c) (disc_clock c) payload true)).
Proof.
  intros Hget Hfuel [ts Hts] D HD Hroom. destruct (Hget D) as (Hi & Hok & Hput). rewrite Hts.
  destruct (write_sends fuel (disc_env c) ts payload true (get D)) as (x' & E & Hw); [done|by apply Hok|done|by left|].
  change (next_number true (get D).1) with (last_change_sequence_number (get D).1 + 1) in Hw.
  eapply dwp_through; [exact E|]. destruct (Hput x') as (Hgx & Hsx & Hdx & Hox). split_and!.
  - apply Hox; [done|apply Hw].
  - apply rtc_once. eapply (eff_write _ _ i (get D) x'); [done|exact Hw| |done|done].
    pose proof (dwo_last _ _ (so_dw _ (Hok HD))). simpl. lia.
  - cbn [written_all]. by exists x', ts.
  - by rewrite (written_guid _ _ _ Hw).
Qed.

Lemma count_beside get payload m f :
  count_spec get payload m → beside f → (∀ D, get (f D) = get D) → count_spec get payload (_ ← m; dset f).
Proof.
  intros Hm Hf Hfg D HD Hroom. apply dwp_bind. eapply dwp_mono; [by apply Hm|].
  intros [] D1 evs (HD1 & Heff & Hall & ->). apply dwp_set. destruct (Hf D1) as (Hsf & Hdf & Hof). split_and!.
  - by apply Hof.
  - eapply rtc_r; [exact Heff|by apply eff_own].
  - by rewrite Hfg.
  - done.
Qed.

Lemma count_for_ok get {A} (payload : A → SerializedPayload) (body : nat → A → dm unit) l D :
  (∀ i a, count_spec get (payload a) (body i a)) → disc_ok D →
  last_change_sequence_number (get D).1 + Z.of_nat (length l) < Sn.MAX →
  dwp (dfor l body) (λ _ D' evs, disc_ok D' ∧ rtc effect D D' ∧ written_all (payload <$> l) (get D) (get D') ∧
       evs = replicate (length l) (Command (entity_id (dw_guid (get D).1)) WriteData)) D.
Proof.
  revert body D. induction l as [|a l IH]; intros body D Hbody HD Hroom; [by apply dwp_ret|].
  cbn [dfor length fmap list_fmap written_all replicate] in *. apply dwp_bind.
  eapply dwp_mono; [apply Hbody; [done|lia]|].
  intros [] D1 evs (HD1 & Heff & (x1 & ts & Hw & <-) & ->). pose proof (written_last _ _ _ Hw) as Hl. simpl in Hl.
  eapply dwp_mono; [apply (IH (body ∘ S) D1); [intros j b; apply Hbody|done|lia]|].
  intros [] D2 evs (HD2 & Heff2 & Hall & ->). split_and!; [done|by etrans|by exists (get D1), ts|].
  by rewrite (written_guid _ _ _ Hw).
Qed.

Lemma check_participants_ok c D :
  disc_ok D → dwp (check_participants c) (λ _ D' evs, disc_ok D' ∧ rtc effect D D' ∧
    ∃ next lost, check_participant_liveliness (default Ts.TIME_INVALID (disc_clock c)) (discovery_db D) =
      Done (discovery_db D', (next, lost)) ∧ evs = DeleteParticipant <$> lost) D.
Proof.
  intros HD. unfold dwp, check_participants.
  destruct (check_participant_liveliness_main (default Ts.TIME_INVALID (disc_clock c)) (discovery_db D) (do_db _ HD))
    as (db' & next & lost & E & _). rewrite E. split_and!.
  - pose proof (check_participant_leases _ _ _ _ E (do_db _ HD)). destruct HD. by split.
  - apply rtc_once. by eapply eff_db.
  - by exists next, lost.
Qed.

(** ** One event *)

Definition handled (token : Z) : Prop :=
  token ∈ [Token.SPDP_SEND_TIMER; Token.PARTICIPANT_MESSAGE_CMD_RECEIVER; Token.PARTICIPANT_MESSAGE_READER;
           Token.PARTICIPANT_LIVELINESS_TIMER; Token.DISC_WRITER_ADD; Token.DISC_READER_ADD].
Definition room (x : DataWriter * HistoryCache) (n : nat) : Prop :=
  last_change_sequence_number x.1 + Z.of_nat n < Sn.MAX.
Record disc_event_ok (fuel : nat) (c : nat → DiscoveryReadings) (token : Z) (d : DiscoveryDelivery) (D : Discovery)
    : Prop := {
  deo_fuel : (0 < fuel)%nat;
  deo_clock : ∀ i, is_Some (disc_clock (c i));
  deo_token : handled token;
  deo_room : match d with
             | SendData l => room (p2p_w D) (length l)
             | AddWriters l => room (sedp_pub_w D) (length l)
             | AddReaders l => room (sedp_sub_w D) (length l)
             | NoDelivery => True
             end;
}.

Lemma local_writers_beside (w : LocalWriter) :
  beside (λ D, { D with local_writers_data := <[w.1 := w.2]> (local_writers_data D) }).
Proof. intros D. split_and!; try done. intros []. by split. Qed.
Lemma local_readers_beside (r : LocalReader) :
  beside (λ D, { D with local_readers_data := <[r.1 := r.2]> (local_readers_data D) }).
Proof. intros D. split_and!; try done. intros []. by split. Qed.

Definition writer_payload (w : LocalWriter) : SerializedPayload :=
  pl_cdr_payload (λ e, write_DiscoveredWriterData e w.2.1 w.2.2).
Definition reader_payload (r : LocalReader) : SerializedPayload :=
  pl_cdr_payload (λ e, write_DiscoveredReaderData e r.2.1 r.2.2).

Definition message_payload (d : ParticipantMessageData) : SerializedPayload :=
  cdr_payload (λ e, write_ParticipantMessageData e d).

Lemma add_writer_spec fuel c w :
  (0 < fuel)%nat → is_Some (disc_clock c) → count_spec sedp_pub_w (writer_payload w) (add_local_writer fuel c w).
Proof.
  intros. apply count_beside; [by apply (count_write_ok sedp_pub_w put_pub 1 fuel c (writer_payload w) counting_pub)
    |apply local_writers_beside|done].
Qed.
Lemma add_reader_spec fuel c r :
  (0 < fuel)%nat → is_Some (disc_clock c) → count_spec sedp_sub_w (reader_payload r) (add_local_reader fuel c r).
Proof.
  intros. apply count_beside; [by apply (count_write_ok sedp_sub_w put_sub 2 fuel c (reader_payload r) counting_sub)
    |apply local_readers_beside|done].
Qed.
Lemma send_message_spec fuel c d :
  (0 < fuel)%nat → is_Some (disc_clock c) → count_spec p2p_w (message_payload d) (send_participant_message fuel c d).
Proof. intros. by apply (count_write_ok p2p_w put_p2p 3 fuel c (message_payload d) counting_p2p). Qed.

(** What the thread sends: commands for the writers that it writes through,
    and participants that are gone. *)
Definition thread_message (D : Discovery) (ev : DiscoveryEvent) : Prop :=
  match ev with
  | Command e cmd => e ∈ (λ x, entity_id (dw_guid x.1)) <$> senders D ∧ cmd = WriteData
  | DeleteParticipant _ => True
  end.
Lemma write_messages D i x n :
  senders D !! i = Some x →
  Forall (thread_message D) (replicate n (Command (entity_id (dw_guid x.1)) WriteData)).
Proof.
  intros Hx. apply Forall_replicate. split; [|done]. apply list_elem_of_fmap. exists x.
  split; [done|by eapply list_elem_of_lookup_2].
Qed.

(** New writers to announce. *)
Lemma add_writers_main fuel c l D :
  disc_ok D → disc_event_ok fuel c Token.DISC_WRITER_ADD (AddWriters l) D →
  dwp (discovery_event fuel c Token.DISC_WRITER_ADD (AddWriters l)) (λ _ D' evs, disc_ok D' ∧ rtc effect D D' ∧
    written_all (writer_payload <$> l) (sedp_pub_w D) (sedp_pub_w D') ∧
    evs = replicate (length l) (Command (entity_id (dw_guid (sedp_pub_w D).1)) WriteData)) D.
Proof.
  intros HD [Hf Hc _ Hroom]. change (discovery_event _ _ _ _) with (dfor l (λ i, add_local_writer fuel (c i))).
  apply (count_for_ok sedp_pub_w writer_payload); [intros; by apply add_writer_spec|done|done].
Qed.

Lemma discovery_event_main fuel c token d D :
  disc_ok D → disc_event_ok fuel c token d D →
  dwp (discovery_event fuel c token d)
    (λ _ D' evs, disc_ok D' ∧ rtc effect D D' ∧ Forall (thread_message D) evs) D.
Proof.
  intros HD [Hf Hc Ht Hroom]. unfold handled in Ht. rewrite !elem_of_cons, elem_of_nil in Ht.
  assert (Hrefl : dwp (mret tt) (λ (_ : unit) D' evs, disc_ok D' ∧ rtc effect D D' ∧ Forall (thread_message D) evs) D)
    by (apply dwp_ret; by split).
  destruct Ht as [->|[->|[->|[->|[->|[->|[]]]]]]].
  - change (discovery_event _ _ _ _) with (spdp_send fuel (c 0%nat)).
    eapply dwp_mono; [by apply spdp_send_ok|]. intros [] D' evs (? & ? & -> & _). split_and!; [done..|].
    by apply (write_messages D 0 (spdp_w D) 1).
  - destruct d; try exact Hrefl. eapply dwp_mono; [apply (count_for_ok p2p_w message_payload); [intros; by apply send_message_spec|done..]|].
    intros [] D' evs (? & ? & _ & ->). split_and!; [done..|]. by eapply (write_messages D 3).
  - exact Hrefl.
  - change (discovery_event _ _ _ _) with (check_participants (c 0%nat)).
    eapply dwp_mono; [by apply check_participants_ok|]. intros [] D' evs (? & ? & next & lost & _ & ->).
    split_and!; [done..|]. apply Forall_fmap, Forall_true. done.
  - destruct d; try exact Hrefl. eapply dwp_mono; [apply (count_for_ok sedp_pub_w writer_payload); [intros; by apply add_writer_spec|done..]|].
    intros [] D' evs (? & ? & _ & ->). split_and!; [done..|]. by eapply (write_messages D 1).
  - destruct d; try exact Hrefl. eapply dwp_mono; [apply (count_for_ok sedp_sub_w reader_payload); [intros; by apply add_reader_spec|done..]|].
    intros [] D' evs (? & ? & _ & ->). split_and!; [done..|]. by eapply (write_messages D 2).
Qed.
End effects.

(** ** The thread over time *)

(** The DataWriters of the built-in topics, as they are created. *)
Lemma builtin_datawriters dp dp' be l :
  create_builtin_endpoints dp = Done (dp', be, l) →
  default_topic_qos dp = TopicQosBuilder_build TopicQosBuilder_new →
  let dws := [spdp_builtin_participant_writer be; sedp_builtin_pub_writer be; sedp_builtin_sub_writer be;
              p2p_builtin_participant_msg_writer be] in
  Forall (λ dw, unlimited dw ∧ last_change_sequence_number dw = 0) dws ∧
  dw_guid <$> dws = mkGUID (dp_guid_prefix dp) <$> builtin_writers.
Proof.
  unfold create_builtin_endpoints.
  destruct (create_publisher QosDefault dp) as [dp1 p] eqn:Ep. destruct (create_subscriber QosDefault dp1) as [dp2 s] eqn:Es.
  unfold create_publisher in Ep. destruct (dp_gen_entity_key dp) as [dp3 k] eqn:Ek. injection Ep as <- <-.
  unfold create_subscriber in Es. destruct (dp_gen_entity_key dp3) as [dp4 k'] eqn:Ek'. injection Es as <- <-.
  unfold create_datawriter_with_entityid, create_datareader_with_entityid.
  destruct (Loc.new_list_from_multi_ipv4 _ _) as [ll|]; [|discriminate].
  cbn [mbind outcome_bind]. intros E Ht.
  apply (f_equal (λ o, match o with Done x => x.1.2 | Panic => be end)) in E. cbn [fst snd] in E. rewrite <-E.
  assert (Hp : dp_guid_prefix dp4 = dp_guid_prefix dp ∧ default_topic_qos dp4 = default_topic_qos dp).
  { unfold dp_gen_entity_key in Ek, Ek'. destruct (gen_entity_key (entity_key_generator dp)).
    destruct (gen_entity_key (entity_key_generator dp3)). injection Ek as <- _. injection Ek' as <- _. done. }
  destruct Hp as [Hp Hq]. rewrite Ht in Hq. cbn zeta. unfold create_builtin_topic. cbn [or_default]. rewrite Hq, Hp.
  split; [|done]. repeat (apply Forall_cons; split; [split; vm_compute; reflexivity|]). by apply Forall_nil.
Qed.

(** A new cache under a DataWriter without limits. *)
Lemma new_sender_ok dw :
  unlimited dw → last_change_sequence_number dw = 0 → sender_ok (dw, hc_new HcWriter).
Proof.
  intros Hu Hl. split; [|exact Hu]. split; [apply hc_new_wf|done|cbn; lia|]. intros k [c Hc]. cbn in Hc.
  by rewrite lookup_empty in Hc.
Qed.

Section reachable.
Context {TL : TimerLib} `{Speedy}.

(** Meanwhile the event loop takes changes out of the caches and updates the
    database. *)
Definition other_threads (f : nat → HistoryCache → HistoryCache) (db : DiscoveryDB) (D : Discovery) : Discovery :=
  { D with spdp_w := ((spdp_w D).1, f 0%nat (spdp_w D).2); sedp_pub_w := ((sedp_pub_w D).1, f 1%nat (sedp_pub_w D).2);
           sedp_sub_w := ((sedp_sub_w D).1, f 2%nat (sedp_sub_w D).2); p2p_w := ((p2p_w D).1, f 3%nat (p2p_w D).2);
           discovery_db := db }.

Inductive disc_reachable : Discovery → Prop :=
| dr_new now dp dp' be l db spdp :
    default_topic_qos dp = TopicQosBuilder_build TopicQosBuilder_new →
    create_builtin_endpoints dp = Done (dp', be, l) → leases_wf db →
    disc_reachable (discovery_new now dp' be db spdp)
| dr_event fuel c token d D D' evs r :
    disc_reachable D → disc_event_ok fuel c token d D →
    discovery_event fuel c token d D = Done (D', evs, r) → disc_reachable D'
| dr_others f db D : disc_reachable D → (∀ i, shrinks (f i)) → leases_wf db → disc_reachable (other_threads f db D).

Lemma shrink_sender_ok f x : shrinks f → sender_ok x → sender_ok (x.1, f x.2).
Proof. intros Hf [Hdw Hu]. split; [by apply shrinks_dw_ok|exact Hu]. Qed.

Lemma disc_reachable_ok D : disc_reachable D → disc_ok D.
Proof.
  induction 1 as [now dp dp' be l db spdp Ht E Hdb|fuel c token d D D' evs r _ IH Hd E|f db D _ IH Hf Hdb].
  - destruct (builtin_datawriters dp dp' be l E Ht) as [Hall _].
    repeat (apply Forall_cons in Hall as [[? ?] Hall]). unfold discovery_new.
    split; try (by apply new_sender_ok); try done; cbn; lia.
  - pose proof (discovery_event_main fuel c token d D IH Hd) as Hm. unfold dwp in Hm. rewrite E in Hm.
    destruct r; [apply Hm|done].
  - destruct IH as [H1 H2 H3 H4 H5 H6 H7]. split; cbn; unfold constant; try (by apply shrink_sender_ok); try done.
    intros c Hc. apply H3. destruct (Hf 0%nat (spdp_w D).2) as (_ & _ & Hsub); [apply H1|]. by eapply lookup_weaken.
Qed.


(** C14. What a participant announces about its own writers: each writer that the
    event loop reports gets the next number of the publications writer, in
    order, marked for sending, with one command each; and the payload is read
    by a peer as the announcement of that writer. *)
Theorem new_writers_announced `{!SpeedyLaws} fuel c l D :
  disc_reachable D → disc_event_ok fuel c Token.DISC_WRITER_ADD (AddWriters l) D →
  let n := last_change_sequence_number (sedp_pub_w D).1 in
  ∃ D', discovery_event fuel c Token.DISC_WRITER_ADD (AddWriters l) D =
      Done (D', replicate (length l) (Command (entity_id (dw_guid (sedp_pub_w D).1)) WriteData), Some tt) ∧
    (∀ sn p, published (sedp_pub_w D) sn p → published (sedp_pub_w D') sn p) ∧
    ∀ i e p t, l !! i = Some (e, (p, t)) →
      published (sedp_pub_w D') (n + 1 + Z.of_nat i) (writer_payload (e, (p, t))) ∧
      (writer_announcement_wf p t → ∃ d,
         read_SDPBuiltinData LittleEndian (sp_value (writer_payload (e, (p, t)))) = Done ([], inr d) ∧
         gen_writerproxy [] [] d = Some <$> wp_new (remote_writer_guid p)
           (mkLocators (unicast_locator_list (wp_locators p)) (multicast_locator_list (wp_locators p)) [] [])
           (data_max_size_serialized p) (writer_qos_received (wp_qos p)) ∧
         topic_info d = (n ← pub_topic_name t; ty ← pub_type_name t; Some (n, ty))).
Proof.
  intros HD Hev n. pose proof (add_writers_main fuel c l D (disc_reachable_ok _ HD) Hev) as Hm.
  apply dwp_Done in Hm as (D' & evs & [] & E & _ & _ & Hall & ->). exists D'. split; [exact E|].
  apply written_all_spec in Hall as (_ & _ & Hkeep & Hps). split; [exact Hkeep|]. intros i e p t Hi. split.
  - apply Hps. by rewrite list_lookup_fmap, Hi.
  - intros Hwf. by apply writer_announcement_main.
Qed.

(** Every time the announcement timer fires, the one change of the SPDP
    writer is stored (again) under number 1 with the participant's
    announcement and marked for sending; and since the timer is set but never
    polled, its entries are never taken out: there is one more each time. *)
Theorem participant_announced `{!TimerLaws TL} fuel c d D :
  disc_reachable D → disc_event_ok fuel c Token.SPDP_SEND_TIMER d D →
  ∃ D' to, discovery_event fuel c Token.SPDP_SEND_TIMER d D =
      Done (D', [Command (entity_id (dw_guid (spdp_w D).1)) WriteData], Some tt) ∧
    published (spdp_w D') 1 (self_spdp_data D) ∧
    (∀ k, k ≠ mkHCKey (dw_guid (spdp_w D).1) 1 → changes (spdp_w D').2 !! k = changes (spdp_w D).2 !! k) ∧
    pending (spdp_send_timer D) to = None ∧
    ∀ to', pending (spdp_send_timer D') to' = if decide (to' = to) then Some tt else pending (spdp_send_timer D) to'.
Proof.
  intros HD [Hf Hc _ _]. pose proof (disc_reachable_ok _ HD) as Hok.
  pose proof (spdp_send_ok fuel (c 0%nat) D Hok Hf (Hc 0%nat)) as Hm.
  apply dwp_Done in Hm as (D' & evs & [] & E & _ & _ & -> & change & Hw & Hsn & Hd & Ht).
  set (period := cfg_participant_message_period _) in *.
  exists D', (set_timeout (disc_set (c 0%nat)) period tt (spdp_send_timer D)).2. split; [exact E|].
  destruct (wr_changes _ _ _ Hw) as (c0 & Hc0 & Hch).
  assert (Hkey : change_key change = mkHCKey (dw_guid (spdp_w D).1) 1).
  { unfold change_key. by rewrite Hsn, (wr_writer _ _ _ Hw). }
  rewrite Hkey in Hch. split_and!.
  - split; [rewrite (wr_marked _ _ _ Hw), Hsn; set_solver|]. exists c0.
    rewrite (written_guid _ _ _ Hw), Hch, lookup_insert_eq, Hc0. by split.
  - intros k Hk. by rewrite Hch, lookup_insert_ne.
  - apply pending_set.
  - rewrite Ht. apply pending_set.
Qed.
End reachable.

(** ** The memory shared with the event loop *)

Notation sender_ids D := ((λ x, entity_id (dw_guid x.1)) <$> senders D).

Section shared.
Context {TL : TimerLib} `{!TimerLaws TL} `{SpeedyLaws}.

(** The RTPS writer of the event loop that has the same cache. *)
Definition shared (x : DataWriter * HistoryCache) (L : EventLoop) : Prop :=
  ∃ w, writers (world L) !! entity_id (dw_guid x.1) = Some w ∧ wguid w = dw_guid x.1 ∧
    is_reliable w = dw_is_reliable x.1 ∧ writer_cache w = x.2.
Record shares (D : Discovery) (L : EventLoop) : Prop := {
  sh_writers : Forall (λ x, shared x L) (senders D);
  sh_distinct : NoDup ((λ x, entity_id (dw_guid x.1)) <$> senders D);
  sh_db : disc_db (world L) = discovery_db D;
}.

(** [L'] is [L] but for the database and the caches of the writers [ids]. *)
Definition only_caches (ids : list EntityId) (L L' : EventLoop) : Prop :=
  ∃ W, L' = ({ L with world := W }) ∧ receiver W = receiver (world L) ∧ readers W = readers (world L) ∧
    ∀ e, option_Forall2 (λ w w', w' = set_writer_cache (λ _, writer_cache w') w ∧ (e ∉ ids → w' = w))
      (writers (world L) !! e) (writers W !! e).
#[export] Instance only_caches_preorder ids : PreOrder (only_caches ids).
Proof.
  split.
  - intros L. exists (world L). split; [by destruct L|]. split_and!; [done..|]. intros e.
    destruct (writers _ !! e) as [[]|]; by constructor.
  - intros L1 L2 L3 (W2 & -> & Hm2 & Hr2 & H2) (W3 & -> & Hm3 & Hr3 & H3). exists W3. split; [by destruct L1|].
    split_and!; [by rewrite Hm3|by rewrite Hr3|]. intros e. specialize (H2 e). specialize (H3 e). cbn in H3.
    unfold constant in H3. destruct H2 as [w1 w2 [E1 N1]|]; inversion H3 as [? w3 [E3 N3]|]; subst; constructor.
    split; [|intros He; by rewrite N3, N1]. rewrite E3. rewrite E1. done.
Qed.

Lemma written_shared native change x x' L ids :
  written change x x' → 0 < sequence_number change < Sn.MAX → shared x L → entity_id (dw_guid x.1) ∈ ids →
  ∃ L', (loop_step native L L' ∧ only_caches ids L L') ∧ shared x' L' ∧ disc_db (world L') = disc_db (world L) ∧
    ∀ y, entity_id (dw_guid y.1) ≠ entity_id (dw_guid x.1) → shared y L → shared y L'.
Proof.
  intros Hw Hsn (w & Hl & Hg & Hrel & Hc) Hin. set (e := entity_id (dw_guid x.1)) in *.
  exists ({ L with world := set_writers <[e := set_writer_cache (λ _, x'.2) w]> (world L) }). split_and!.
  - eapply (ls_write _ e w change (limits x.1) (w_history (dw_qos x.1)).1 x'.2); [done| |done| |].
    + by rewrite Hg, (wr_writer _ _ _ Hw).
    + right. rewrite Hc. apply Hw.
    + rewrite Hrel, Hc. apply Hw.
  - eexists. split_and!; [done..|]. intros e'. cbn. destruct (decide (e = e')) as [<-|Hne].
    + rewrite Hl, lookup_insert_eq. constructor. split; [done|]. by intros [].
    + rewrite lookup_insert_ne by done. destruct (writers _ !! e') as [[]|]; by constructor.
  - exists (set_writer_cache (λ _, x'.2) w). rewrite (written_guid _ _ _ Hw). cbn. unfold constant. fold e.
    split; [by rewrite lookup_insert_eq|]. split; [exact Hg|]. split; [|done]. rewrite (wr_dw _ _ _ Hw). exact Hrel.
  - done.
  - intros y Hy (wy & Hly & Hrest). exists wy. split; [|exact Hrest]. cbn. unfold constant. by rewrite lookup_insert_ne.
Qed.

Lemma effect_simulated native D D' L :
  effect D D' → shares D L →
  ∃ L', rtc (loop_step native) L L' ∧ only_caches (sender_ids D) L L' ∧ shares D' L' ∧ sender_ids D' = sender_ids D.
Proof.
  intros Heff [Hsh Hnd Hdb].
  destruct Heff as [i x x' change Hi Hw Hsn Hs' Hdb'|ts next E Hs'|Hs' Hdb'].
  - pose proof Hsh as Hsh0. rewrite Forall_lookup in Hsh0. pose proof (Hsh0 i x Hi) as Hx.
    destruct (written_shared native change x x' L (sender_ids D) Hw Hsn Hx) as (L' & [Hstep Honly] & Hx' & Hdb2 & Hothers).
    { apply list_elem_of_fmap. exists x. split; [done|by eapply list_elem_of_lookup_2]. }
    assert (Hg : (λ x, entity_id (dw_guid x.1)) <$> senders D' = (λ x, entity_id (dw_guid x.1)) <$> senders D).
    { rewrite Hs', list_fmap_insert. apply list_insert_id. rewrite list_lookup_fmap, Hi. cbn.
      by rewrite (written_guid _ _ _ Hw). }
    exists L'. split; [by apply rtc_once|]. split; [exact Honly|]. split; [|exact Hg].
    split; [|by rewrite Hg|by rewrite Hdb2, Hdb, Hdb'].
    rewrite Hs'. apply Forall_lookup. intros j y Hj. destruct (decide (i = j)) as [<-|Hne].
    + rewrite list_lookup_insert_eq in Hj by by eapply lookup_lt_Some. by injection Hj as <-.
    + rewrite list_lookup_insert_ne in Hj by done. apply Hothers; [|by eapply Hsh0].
      intros He. apply Hne. eapply NoDup_lookup; [exact Hnd| |].
      * rewrite list_lookup_fmap, Hi. done.
      * rewrite list_lookup_fmap, Hj. cbn. by rewrite He.
  - exists ({ L with world := set_disc_db (λ _, discovery_db D') (world L) }). split.
    + apply rtc_once. eapply ls_discovery. rewrite Hdb. exact E.
    + split; [|split; [|by rewrite Hs']].
      * eexists. split_and!; [done..|]. intros e. cbn. destruct (writers _ !! e) as [[]|]; by constructor.
      * split; [|by rewrite Hs'|done]. rewrite Hs'. exact Hsh.
  - exists L. split; [done|]. split; [done|]. split; [|by rewrite Hs'].
    split; [by rewrite Hs'|by rewrite Hs'|by rewrite Hdb'].
Qed.

Lemma effects_simulated native D D' L :
  rtc effect D D' → shares D L →
  ∃ L', rtc (loop_step native) L L' ∧ only_caches (sender_ids D) L L' ∧ shares D' L' ∧ sender_ids D' = sender_ids D.
Proof.
  intros Heff. revert L. induction Heff as [D|D D1 D' H1 _ IH]; intros L Hsh; [by exists L|].
  destruct (effect_simulated native D D1 L H1 Hsh) as (L1 & HL1 & Ho1 & Hsh1 & E1).
  destruct (IH L1 Hsh1) as (L2 & HL2 & Ho2 & Hsh2 & E2).
  rewrite E1 in Ho2, E2. exists L2. split; [by etrans|]. split; [by etrans|]. by split.
Qed.

Lemma loop_reachable_rtc native L L' : loop_reachable native L → rtc (loop_step native) L L' → loop_reachable native L'.
Proof. intros HL Hs. induction Hs as [L|L L1 L' H1 _ IH]; [done|]. apply IH. by eapply lr_step. Qed.

(** C12. The discovery thread refines the steps that the event loop reckons with:
    whatever an event of it does to the memory the two share (the caches of
    the four built-in writers and the discovery database), the event loop
    sees as steps of its own environment; it stays in a reachable state, to
    which all that is proved of the loop applies. *)
Theorem discovery_refines_loop native fuel c token d D L :
  disc_reachable D → disc_event_ok fuel c token d D → loop_reachable native L → shares D L →
  ∃ D' evs L', discovery_event fuel c token d D = Done (D', evs, Some tt) ∧
    rtc (loop_step native) L L' ∧ loop_reachable native L' ∧ shares D' L'.
Proof.
  intros HD Hd HL Hsh. pose proof (discovery_event_main fuel c token d D (disc_reachable_ok _ HD) Hd) as Hm.
  apply dwp_Done in Hm as (D' & evs & [] & E & _ & Heff & _).
  destruct (effects_simulated native D D' L Heff Hsh) as (L' & Hs & _ & Hsh' & _).
  exists D', evs, L'. split; [exact E|]. split; [exact Hs|]. split; [by eapply loop_reachable_rtc|exact Hsh'].
Qed.
End shared.
