(* ===== verification/PeerDiscovery.v ===== *)
(** * The announcement of a writer at another participant

    The octets of the DATA message that announces a DataWriter, from the
    datagram to the readers of the participant that receives it: the message
    receiver parses the parameter list, builds the proxy of the writer and
    matches it with every reader of its topic that accepts its QoS. *)
From stdpp Require Import base tactics numbers list gmap strings.
From coqutil Require Import Datatypes.RecordSetters.
From S2P Require Import Prelude Ordered Ids Time SeqNum Qos HistoryCache Topic Message Proxy Writer.
From S2P Require Import WriterProofs DiscoveryData DiscoveryDB Reader ReaderProofs Speedy Wire WireProofs.
From S2P Require Import ParameterList ParameterListProofs Receiver ReceiverProofs Protocol Endpoints DiscoveryThread.
Import OCamlLikeNotations.

Section matching.
Context `{Speedy}.

(** A reader takes an announced writer without a panic. *)
Lemma matched_writer_add_total g ls dmax q r :
  has_locator ls = true → Dur.wf (period (r_deadline (rqos r)).1) →
  ∃ r' evs rt, matched_writer_add_with_default_locator g ls dmax q r = Done (r', evs, rt).
Proof.
  intros Hls Hd. unfold matched_writer_add_with_default_locator.
  destruct (matched_writers r !! g); [by do 3 eexists|]. destruct (reader_is_compatible _ _); [by do 3 eexists|].
  unfold wp_new. rewrite Hls. cbn [negb mbind outcome_bind]. cbv zeta. case_bool_decide; [by do 3 eexists|].
  destruct (to_core_no_panic _ Hd) as [d Hc].
  match goal with |- context [Dur.to_core ?x] => change (Dur.to_core x) with (Dur.to_core (period (r_deadline (rqos r)).1)) end.
  rewrite Hc. by do 3 eexists.
Qed.

(** The loop over the readers, when none has the other topic kind. *)
Definition can_meet (wp : WriterProxy) (tn ty : string) (r : Reader) : Prop :=
  Dur.wf (period (r_deadline (rqos r)).1) ∧
  (is_writer_match tn ty r = true → ¬ kind_mismatch (remote_writer_guid wp) r).

Lemma match_announced_writer_runs wp tn ty e W :
  has_locator (wp_locators wp) = true → (∀ r, readers W !! e = Some r → can_meet wp tn ty r) →
  ∃ W' evs, runs_to (match_announced_writer wp tn ty e) W W' evs true.
Proof.
  intros Hls Hr. unfold match_announced_writer. destruct (readers W !! e) as [r|] eqn:E; last first.
  { do 2 eexists. eapply runs_to_bind; [unfold runs_to, with_reader; by rewrite E|]. apply runs_to_ret. }
  destruct (Hr r eq_refl) as [Hd Hk]. destruct (is_writer_match tn ty r) eqn:Em; last first.
  { do 2 eexists. eapply runs_to_bind; [eapply runs_to_with_reader; [exact E|by rewrite Em]|apply runs_to_ret]. }
  destruct (matched_writer_add_total (remote_writer_guid wp) (wp_locators wp) (data_max_size_serialized wp) (wp_qos wp) r)
    as (r' & evs & rt & Hadd); [done..|].
  assert (Ht : match topic_kind (entity_id (remote_writer_guid wp)) with
    Some tk => bool_decide (rd_topic_kind (rconf r) = tk) | None => true end = true).
  { destruct (topic_kind _) as [tk|] eqn:Et; [|done]. apply bool_decide_eq_true. destruct (decide (rd_topic_kind (rconf r) = tk)); [done|].
    destruct (Hk eq_refl). by exists tk. }
  do 2 eexists. eapply runs_to_bind; [eapply runs_to_with_reader; [exact E|]|].
  { rewrite Em. cbv zeta. rewrite Ht, Hadd. reflexivity. }
  cbn [mjoin option_join]. eapply runs_to_bind; [done|]. apply runs_to_ret.
Qed.

Lemma loop_while_runs wp tn ty l W :
  has_locator (wp_locators wp) = true → NoDup l → (∀ e r, e ∈ l → readers W !! e = Some r → can_meet wp tn ty r) →
  ∃ W' evs, runs_to (loop_while (match_announced_writer wp tn ty) l) W W' evs true.
Proof.
  intros Hls Hnd. revert W. induction Hnd as [|e l He Hnd IH]; intros W HP; [do 2 eexists; apply runs_to_ret|].
  destruct (match_announced_writer_runs wp tn ty e W Hls) as (W1 & ev1 & H1); [intros r; apply HP; by left|].
  destruct (match_announced_writer_inv _ _ _ _ _ _ _ _ H1) as (_ & _ & Ho & _).
  destruct (IH W1) as (W2 & ev2 & H2).
  { intros e' r He'. rewrite Ho by (by intros ->). apply HP. by right. }
  do 2 eexists. cbn [loop_while]. eapply runs_to_bind; [exact H1|exact H2].
Qed.

(** The reader of the announcements takes one. *)
Lemma add_to_builtin_reader_runs e g c r W :
  readers W !! e = Some r → source_guid_prefix (receiver W) = guid_prefix g → ReaderProofs.sample_of g c → ready_for g c r →
  ∃ W' evs, runs_to (add_to_builtin_reader e c) W W' evs tt.
Proof.
  intros Hr Hs Hof [Hwf Hready]. unfold add_to_builtin_reader.
  assert (Hadd : ∃ r' evs rt, reader_add_change (guid_prefix g) c r = Done (r', evs, rt)).
  { destruct (is_contain_writer g r) eqn:Ec.
    - destruct (Hready eq_refl) as [Hrel Hag]. destruct (contains_known g r Ec) as [wp Hk].
      pose proof (reliable_add_main g c r wp Hwf Hrel Hof Hag Hk) as Hm. destruct (reorder_state _ _).
      destruct Hm as (r' & evs & rt & Hm & _). eauto.
    - unfold reader_add_change. rewrite (sample_of_guid g c Hof). unfold is_contain_writer in Ec.
      apply orb_false_iff in Ec as [E1%bool_decide_eq_false E2%bool_decide_eq_false].
      apply eq_None_not_Some in E1, E2. unfold rematch. rewrite E2, E1. eauto. }
  destruct Hadd as (r' & evs & rt & Hadd). do 2 eexists. apply runs_to_gets_bind. rewrite Hs.
  eapply runs_to_bind; [by eapply runs_to_with_reader|apply runs_to_ret].
Qed.

Lemma deserialize_runs {A} (rd : Endianness → prd A) d sp e W a :
  data_serialized_payload d = Some sp → Receiver.encapsulation sp = Done e → rd e (sp_value sp) = Done ([], inr a) →
  runs_to (deserialize rd d) W W [] a.
Proof.
  intros Hp He Hr. unfold deserialize. rewrite Hp. eapply runs_to_lift_bind; [exact He|].
  eapply runs_to_lift_bind; [exact Hr|]. apply runs_to_ret.
Qed.
End matching.

Section announcement.
Context `{SpeedyLaws}.

(** The participant is ready for the announcement [c] of the writer [wp] by
    the writer [g] of its participant. *)
Record ready_for_writer (g : GUID) (c : CacheChange) (wp : WriterProxy) (tn ty : string) (W : World) : Prop := {
  rfw_readers : ∀ e r, readers W !! e = Some r → can_meet wp tn ty r;
  rfw_detector : ∃ r, readers W !! Eid.SEDP_BUILTIN_PUBLICATIONS_DETECTOR = Some r ∧
    is_writer_match tn ty r = false ∧ ready_for g c r;
}.

(** The whole of [handle_sedp_w_data] runs to its end. *)
Lemma sedp_w_runs d c ts sp sdp part g wp tn ty W :
  data_serialized_payload d = Some sp → Receiver.encapsulation sp = Done LittleEndian →
  read_SDPBuiltinData LittleEndian (sp_value sp) = Done ([], inr sdp) →
  read_participant_data (source_guid_prefix (receiver W)) (disc_db W) = Some part →
  gen_writerproxy (spdp_default_unicast_locator_list part) (spdp_default_multicast_locator_list part) sdp
    = Done (Some wp) →
  topic_info sdp = Some (tn, ty) → has_locator (wp_locators wp) = true →
  source_guid_prefix (receiver W) = guid_prefix g → ReaderProofs.sample_of g c → ready_for_writer g c wp tn ty W →
  ∃ W' evs, runs_to (handle_sedp_w_data d c ts) W W' evs tt.
Proof.
  intros Hp Henc Hrd Hpart Hgen Htop Hls Hsrc Hof [Hrs (r & Hr & Hnm & Hready)]. set (W1 := set_disc_db
    (write_remote_writer (remote_writer_guid wp) ts (liveliness_kind (w_liveliness (wp_qos wp)).1)) W).
  destruct (loop_while_runs wp tn ty (bt_keys (readers W1)) W1 Hls (NoDup_bt_keys _)) as (W2 & ev2 & Hl).
  { intros e r0 _. apply Hrs. }
  pose proof Hl as Hl'. apply (loop_while_touches (meets_writer wp tn ty)
    (λ r, is_writer_match tn ty r = true ∧ kind_mismatch (remote_writer_guid wp) r)) in Hl' as
    [(? & _)|(_ & Hrec & Ho & Hm)]; [done| |intros; by eapply match_announced_writer_inv|apply NoDup_bt_keys].
  assert (Hr2 : readers W2 !! Eid.SEDP_BUILTIN_PUBLICATIONS_DETECTOR = Some r).
  { specialize (Hm Eid.SEDP_BUILTIN_PUBLICATIONS_DETECTOR). change (readers W1) with (readers W) in Hm. rewrite Hr in Hm.
    assert (Hin : Eid.SEDP_BUILTIN_PUBLICATIONS_DETECTOR ∈ bt_keys (readers W)) by (apply elem_of_bt_keys; by exists r).
    specialize (Hm Hin). inversion Hm as [? r' Hmeet|]; subst. unfold meets_writer in Hmeet. rewrite Hnm in Hmeet. by subst. }
  destruct (add_to_builtin_reader_runs _ g c r W2 Hr2) as (W3 & ev3 & Hadd); [by rewrite Hrec|done..|].
  do 2 eexists. unfold handle_sedp_w_data. eapply runs_to_bind; [by eapply deserialize_runs|]. apply runs_to_gets_bind.
  rewrite Hpart. eapply runs_to_lift_bind; [exact Hgen|]. rewrite Htop. apply runs_to_modify_bind. fold W1.
  apply runs_to_gets_bind. eapply runs_to_bind; [exact Hl|exact Hadd].
Qed.

End announcement.

(** The writer of [ReceiverSample.announced], announced to the participant of
    [ReceiverSample]. *)
Module PeerSample.
Import ReceiverSample ReaderSample Concrete.

Definition publications : Writer :=
  let cf := Sample.reliable_conf in
  Sample.the (Sample.start { cf with w_guid := mkGUID (guid_prefix (writer 1)) Eid.SEDP_BUILTIN_PUBLICATIONS_ANNOUNCER }).
Definition change : CacheChange :=
  mkCacheChange Alive (wguid publications) 1 (mkTimestamp 2 0)
    (Some (writer_payload (entity_id (remote_writer_guid announced), (announced, pub_builtin_topic_data topic)))).
Definition here : World := world GUIDPREFIX_UNKNOW.

Lemma here_ready wp :
  remote_writer_guid wp = remote_writer_guid announced →
  ready_for_writer (wguid publications)
    (mkCacheChange Alive (wguid publications) 1 (mkTimestamp 2 0) (data_value change)) wp "Square" "ShapeType" here.
Proof.
  intros Hwp. split.
  - simpl. intros eid r. intros [[_ <-]|[_ [_ <-]%lookup_singleton_Some]]%lookup_insert_Some.
    + split; [vm_compute; split; split; congruence|]. intros _ (tk & Htk & Hne). rewrite Hwp in Htk. vm_compute in Htk.
      injection Htk as <-. by apply Hne.
    + split; [vm_compute; split; split; congruence|]. vm_compute. discriminate.
  - exists detector. split; [reflexivity|]. split; [vm_compute; reflexivity|]. split.
    + apply (wo_readers _ _ (world_sample_wf GUIDPREFIX_UNKNOW) Eid.SEDP_BUILTIN_PUBLICATIONS_DETECTOR). reflexivity.
    + intros _. split; [vm_compute; reflexivity|]. intros c' Hc'. vm_compute in Hc'. discriminate Hc'.
Qed.
End PeerSample.

Section peer_witness.
Import PeerSample ReceiverSample ReaderSample Concrete.

End peer_witness.
