(* ===== verification/System.v ===== *)
(** * A participant with its threads

    [DomainParticipant::new] of src/src/dds/participant.rs and the channels
    between its parts: the event loop and the discovery thread, which share
    the caches of the built-in writers and the discovery database, and the
    application, which makes endpoints and uses their caches.  The state holds
    what is in the channels; one step is one event of one thread, with all
    that waits for it in its channel (every receiver drains its channel with
    [while let Ok(..) = try_recv()]).  That a bounded channel makes its sender
    wait is the matter of Channels; here a channel takes every message, so
    that the steps are those that the bounded channels allow, and more. *)
From stdpp Require Import base tactics numbers list gmap strings.
From coqutil Require Import Datatypes.RecordSetters.
From S2P Require Import Prelude Ordered Ids Time SeqNum Qos HistoryCache Topic Message Proxy Writer.
From S2P Require Import DiscoveryData DiscoveryDB Reader Speedy Wire ParameterList Receiver Timer Tokens EventLoop.
From S2P Require Import ReaderProofs ReceiverProofs EventLoopProofs EventLoopSteps Entities EntitiesProofs Endpoints.
From S2P Require Import DiscoveryThread.
Import OCamlLikeNotations.

Section system.
Context {TL : TimerLib} `{Speedy}.

(** The participant (with the channels for new endpoints), the two threads,
    and the channels: the commands for each writer, the participants that are
    gone, the new endpoints to announce, the liveliness messages to send. *)
Record System := mkSystem {
  participant : DomainParticipant;
  sys_loop : EventLoop;
  sys_thread : Discovery;
  writer_commands : gmap EntityId (list WriterCmd);
  discdb_updates : list GuidPrefix;
  new_writers : list LocalWriter;
  new_readers : list LocalReader;
  participant_msg_cmds : list ParticipantMessageData;
}.

(** ** The channels *)

Definition send_command (e : EntityId) (cmd : WriterCmd) (Σ : System) : System :=
  { Σ with writer_commands := <[e := default [] (writer_commands Σ !! e) ++ [cmd]]> (writer_commands Σ) }.

(** What the event loop sends to the discovery thread; datagrams and the
    notifications for the application leave the system. *)
Definition loop_sends (Σ : System) (ev : LoopEvent) : System :=
  match ev with
  | NotifyNewWriter e d => { Σ with new_writers := new_writers Σ ++ [(e, d)] }
  | NotifyNewReader e d => { Σ with new_readers := new_readers Σ ++ [(e, d)] }
  | OfWorld (OfWriter _ (SendParticipantMessage d)) =>
      { Σ with participant_msg_cmds := participant_msg_cmds Σ ++ [d] }
  | OfWorld _ => Σ
  end.
Definition thread_sends (Σ : System) (ev : DiscoveryEvent) : System :=
  match ev with
  | Command e cmd => send_command e cmd Σ
  | DeleteParticipant p => { Σ with discdb_updates := discdb_updates Σ ++ [p] }
  end.

(** What an event of the loop takes from the channels; the datagrams of a
    socket come from outside.  The channel of a writer is polled once the
    writer is registered. *)
Definition loop_takes (token : Z) (packets : list (list Z)) (Σ : System) : Delivery * System :=
  match token_decode token with
  | ReservedToken t =>
      if packet_token t then (Packets packets, Σ)
      else if bool_decide (t = Token.ADD_WRITER) then
        (NewWriters (create_writer_queue (participant Σ)),
         { Σ with participant := { (participant Σ) with create_writer_queue := [] } })
      else if bool_decide (t = Token.ADD_READER) then
        (NewReaders (create_reader_queue (participant Σ)),
         { Σ with participant := { (participant Σ) with create_reader_queue := [] } })
      else if bool_decide (t = Token.DISCOVERY_DB_UPDATE) then
        (Lost (discdb_updates Σ), { Σ with discdb_updates := [] })
      else (Nothing, Σ)
  | EntityToken e =>
      match writers (world (sys_loop Σ)) !! e with
      | Some _ => (Commands (default [] (writer_commands Σ !! e)), { Σ with writer_commands := delete e (writer_commands Σ) })
      | None => (Nothing, Σ)
      end
  end.
Definition thread_takes (token : Z) (Σ : System) : DiscoveryDelivery * System :=
  if bool_decide (token = Token.PARTICIPANT_MESSAGE_CMD_RECEIVER) then
    (SendData (participant_msg_cmds Σ), { Σ with participant_msg_cmds := [] })
  else if bool_decide (token = Token.DISC_WRITER_ADD) then (AddWriters (new_writers Σ), { Σ with new_writers := [] })
  else if bool_decide (token = Token.DISC_READER_ADD) then (AddReaders (new_readers Σ), { Σ with new_readers := [] })
  else (NoDelivery, Σ).

(** ** The shared memory

    Each cache of a built-in writer and the database are one object that both
    threads hold; the state has a copy in each, which a step of the one
    carries over to the other. *)
Definition cache_in (L : EventLoop) (x : DataWriter * HistoryCache) : DataWriter * HistoryCache :=
  (x.1, match writers (world L) !! entity_id (dw_guid x.1) with Some w => writer_cache w | None => x.2 end).
Definition seen_by_thread (L : EventLoop) (D : Discovery) : Discovery :=
  { D with spdp_w := cache_in L (spdp_w D); sedp_pub_w := cache_in L (sedp_pub_w D);
           sedp_sub_w := cache_in L (sedp_sub_w D); p2p_w := cache_in L (p2p_w D);
           discovery_db := disc_db (world L) }.

Definition sender_of (D : Discovery) (e : EntityId) : option (DataWriter * HistoryCache) :=
  head (filter (λ x, entity_id (dw_guid x.1) = e) (senders D)).
Definition overwritten (D : Discovery) (e : EntityId) (w : Writer) : Writer :=
  match sender_of D e with Some x => set_writer_cache (λ _, x.2) w | None => w end.
Definition seen_by_loop (D : Discovery) (L : EventLoop) : EventLoop :=
  { L with world := set_disc_db (λ _, discovery_db D)
             (set_writers (map_imap (λ e w, Some (overwritten D e w))) (world L)) }.

(** ** Events of the threads *)

Definition loop_event (native : Endianness) (clk : nat → nat → Clock) (c : nat → Readings)
    (now : nat → Z → nat → option Timestamp) (fuel : nat) (token : Z) (packets : list (list Z)) (Σ : System)
    : outcome (System * list LoopEvent) :=
  let '(d, Σ) := loop_takes token packets Σ in
  match handle_event native clk c now fuel token d (sys_loop Σ) with
  | Done (L, evs, _) =>
      Done (foldl loop_sends ({ Σ with sys_loop := L; sys_thread := seen_by_thread L (sys_thread Σ) }) evs, evs)
  | Panic => Panic
  end.

(** No result: a write of the thread waits for room. *)
Definition thread_event (fuel : nat) (c : nat → DiscoveryReadings) (token : Z) (Σ : System)
    : outcome (System * option unit) :=
  let '(d, Σ) := thread_takes token Σ in
  match discovery_event fuel c token d (sys_thread Σ) with
  | Done (D, evs, r) =>
      Done (foldl thread_sends ({ Σ with sys_thread := D; sys_loop := seen_by_loop D (sys_loop Σ) }) evs, r)
  | Panic => Panic
  end.

(** ** The application *)

Definition app_create_writer (qos : QosOf DataWriterQosPolicies) (topic : Topic) (p : Publisher) (Σ : System)
    : outcome (System * DataWriter) :=
  '(dp, dw) ← create_datawriter qos topic p (participant Σ); Done ({ Σ with participant := dp }, dw).
Definition app_create_reader (qos : QosOf DataReaderQosPolicies) (topic : Topic) (s : Subscriber) (Σ : System)
    : outcome (System * DataReader) :=
  '(dp, dr) ← create_datareader qos topic s (participant Σ); Done ({ Σ with participant := dp }, dr).
Definition app_create_publisher (qos : QosOf GroupQosPolicies) (Σ : System) : System * Publisher :=
  let '(dp, p) := create_publisher qos (participant Σ) in ({ Σ with participant := dp }, p).
Definition app_create_subscriber (qos : QosOf GroupQosPolicies) (Σ : System) : System * Subscriber :=
  let '(dp, s) := create_subscriber qos (participant Σ) in ({ Σ with participant := dp }, s).

(** One attempt of a write (the loop of [write] makes one after the other):
    the cache is that of the writer in the event loop, or still that of the
    ingredients in the channel. *)
Definition same_endpoint (e : EntityId) (wi : WriterIngredients) : bool :=
  bool_decide (entity_id (w_guid (wi_conf wi)) = e).
Definition app_try_write (change : CacheChange) (dw : DataWriter) (Σ : System) : outcome System :=
  let e := entity_id (dw_guid dw) in
  let sent cmd Σ := match cmd with Some cmd => send_command e cmd Σ | None => Σ end in
  match writers (world (sys_loop Σ)) !! e with
  | Some w =>
      '(hc, cmd) ← try_write change dw (writer_cache w);
      Done (sent cmd ({ Σ with sys_loop := { (sys_loop Σ) with world :=
        set_writers <[e := set_writer_cache (λ _, hc) w]> (world (sys_loop Σ)) } }))
  | None =>
      match list_find (same_endpoint e) (create_writer_queue (participant Σ)) with
      | Some (i, wi) =>
          '(hc, cmd) ← try_write change dw (wi_whc wi);
          Done (sent cmd ({ Σ with participant := { (participant Σ) with create_writer_queue :=
            <[i := mkWriterIngredients (wi_conf wi) hc]> (create_writer_queue (participant Σ)) } }))
      | None => Done Σ
      end
  end.
(** [DataWriter::assert_liveliness]. *)
Definition app_assert_liveliness (dw : DataWriter) (Σ : System) : System :=
  foldl (λ Σ cmd, send_command (entity_id (dw_guid dw)) cmd Σ) Σ (dw_assert_liveliness dw).

(** ** The start

    [DomainParticipant::new]: the event loop registers the built-in endpoints
    in its own thread; the discovery thread, whose first timer fires after
    three seconds, is taken to find them there. *)
Definition system_new (h : Host) (domain_id : Z) (nics : list (list Z)) (config : option ParticipantConfig)
    (bytes : list Z) (now : Instant) (c : nat → Readings) : outcome System :=
  dp ← participant_new h domain_id nics config bytes;
  '(dp', be, be_ing) ← create_builtin_endpoints dp;
  '(L, evs) ← event_loop_new domain_id (dp_guid_prefix dp) db_new (serialized_spdp_data dp) now c be_ing;
  let D := discovery_new now dp' be db_new (serialized_spdp_data dp) in
  Done (foldl loop_sends (mkSystem dp' L (seen_by_thread L D) ∅ [] [] [] []) evs).

(** ** Steps

    One event of a thread, or one call of the application, which holds the
    handles [dw], [p] and [s].  A DataWriter has the QoS of its writer, and
    the cache of a best-effort writer is taken to have room. *)
Record handle_of (dw : DataWriter) (Σ : System) : Prop := {
  ho_user : entity_id (dw_guid dw) ∉ builtin_writers;
  ho_writer : is_writer (entity_id (dw_guid dw)) = true;
  ho_registered : ∀ w, writers (world (sys_loop Σ)) !! entity_id (dw_guid dw) = Some w →
    wguid w = dw_guid dw ∧ is_reliable w = dw_is_reliable dw;
  ho_queued : ∀ wi, wi ∈ create_writer_queue (participant Σ) →
    entity_id (w_guid (wi_conf wi)) = entity_id (dw_guid dw) → w_guid (wi_conf wi) = dw_guid dw;
}.
Definition keys_left (Σ : System) : Prop := entity_key_generator (participant Σ) < 2 ^ 24.

Inductive sys_step (native : Endianness) : System → System → Prop :=
| ss_loop clk c now fuel token packets Σ Σ' evs :
    Forall (packet_ok native) packets → loop_event native clk c now fuel token packets Σ = Done (Σ', evs) →
    sys_step native Σ Σ'
| ss_thread fuel c token Σ Σ' r :
    disc_event_ok fuel c token (thread_takes token Σ).1 (sys_thread Σ) →
    thread_event fuel c token Σ = Done (Σ', r) → sys_step native Σ Σ'
| ss_create_writer qos topic p Σ Σ' dw :
    keys_left Σ → writer_qos_wf (default_dw_qos p) → topic_qos_wf (my_qos_policies topic) →
    (∀ q, qos = QosPolicies q → writer_qos_wf q) →
    app_create_writer qos topic p Σ = Done (Σ', dw) → sys_step native Σ Σ'
| ss_create_reader qos topic s Σ Σ' dr :
    keys_left Σ → reader_qos_wf (default_dr_qos s) → topic_qos_wf (my_qos_policies topic) →
    (∀ q, qos = QosPolicies q → reader_qos_wf q) →
    app_create_reader qos topic s Σ = Done (Σ', dr) → sys_step native Σ Σ'
| ss_create_publisher qos Σ : keys_left Σ → sys_step native Σ (app_create_publisher qos Σ).1
| ss_create_subscriber qos Σ : keys_left Σ → sys_step native Σ (app_create_subscriber qos Σ).1
| ss_write change dw Σ Σ' :
    handle_of dw Σ → writer_guid change = dw_guid dw → 0 < sequence_number change < Sn.MAX →
    (∀ w hc cmd, writers (world (sys_loop Σ)) !! entity_id (dw_guid dw) = Some w → is_reliable w = false →
       try_write change dw (writer_cache w) = Done (hc, cmd) → changes (writer_cache w) ⊆ changes hc) →
    app_try_write change dw Σ = Done Σ' → sys_step native Σ Σ'
| ss_assert dw Σ : handle_of dw Σ → sys_step native Σ (app_assert_liveliness dw Σ)
| ss_read e r hc Σ :
    readers (world (sys_loop Σ)) !! e = Some r →
    hc_step (reader_is_reliable r) (r_resource_limits (rqos r)).1 (r_history (rqos r)).1 (reader_cache r) hc →
    sys_step native Σ ({ Σ with sys_loop := { (sys_loop Σ) with world :=
      set_readers <[e := set_reader_cache (λ _, hc) r]> (world (sys_loop Σ)) } }).

Inductive sys_reachable (native : Endianness) : System → Prop :=
| sr_new h domain nics config bytes now c Σ :
    config_ok (default ParticipantConfig_default config) → (∀ i, clocks_ok (c i)) →
    system_new h domain nics config bytes now c = Done Σ → sys_reachable native Σ
| sr_step Σ Σ' : sys_reachable native Σ → sys_step native Σ Σ' → sys_reachable native Σ'.
End system.
