(* ===== verification/SystemProofs.v ===== *)
(** * The participant over time

    The invariant of the composed participant: the event loop is in a state
    that its own steps reach, the discovery thread satisfies its invariant,
    both have the same caches and database, and what is in the channels is
    what the receivers expect. *)
From stdpp Require Import base tactics numbers list gmap strings.
From coqutil Require Import Datatypes.RecordSetters.
From S2P Require Import Prelude Ordered Ids SeqNum Qos HistoryCache Topic Message Proxy Writer WriterProofs.
From S2P Require Import DiscoveryData DiscoveryDB Reader ReaderProofs Speedy Wire ParameterList ParameterListProofs Receiver.
From S2P Require Import ReceiverProofs Timer Tokens EventLoop EventLoopProofs EventLoopSteps Entities EntitiesProofs.
From S2P Require Import Endpoints Sharing DiscoveryThread System.
Import OCamlLikeNotations.

Section shared_memory.
Context {TL : TimerLib} `{!TimerLaws TL} `{SpeedyLaws}.

(** ** The caches that the loop leaves *)

Definition untouched (ids : list EntityId) (X : list Ingredients) : Prop :=
  ∀ e, e ∈ ids → (true, e) ∉ ing_key <$> X.

Lemma sender_registered D L x : shares D L → x ∈ senders D → shared x L.
Proof. intros [Hs _ _] Hx. by rewrite Forall_forall in Hs; apply Hs. Qed.

(** One of the shared writers after an event of the loop. *)
Lemma shared_later X x L L' :
  shared x L → later X (world L) (world L') → loop_ok L' → (true, entity_id (dw_guid x.1)) ∉ ing_key <$> X →
  shared (cache_in L' x) L' ∧ (sender_ok x → sender_ok (cache_in L' x)) ∧ changes (cache_in L' x).2 ⊆ changes x.2.
Proof.
  intros (w & Hw & Hg & Hrel & Hc) Hl Hok HX. destruct (later_writer _ _ _ _ _ Hl HX Hw) as (w' & Hw' & Hcf & Hsub).
  unfold cache_in. rewrite Hw'. cbn. rewrite Hc in Hsub. split_and!; [| |exact Hsub].
  - exists w'. cbn. unfold wguid, is_reliable in *. by rewrite Hcf.
  - intros [[Hwf Hty Hlast Hk] Hu]. split; [|exact Hu].
    destruct (wo_writers _ _ (lo_world _ Hok) _ _ Hw') as [Hwf' _].
    split; [apply (ww_cache _ Hwf')|apply (ww_type _ Hwf')|exact Hlast|]. cbn. intros k [c Hk1] Hk2. apply Hk; [|exact Hk2].
    exists c. by eapply lookup_weaken.
Qed.

Lemma senders_seen L D : senders (seen_by_thread L D) = cache_in L <$> senders D.
Proof. done. Qed.
Lemma sender_ids_seen L D : sender_ids (seen_by_thread L D) = sender_ids D.
Proof. done. Qed.

Lemma thread_sees X D L L' :
  disc_ok D → shares D L → later X (world L) (world L') → loop_ok L' → untouched (sender_ids D) X →
  disc_ok (seen_by_thread L' D) ∧ shares (seen_by_thread L' D) L'.
Proof.
  intros HD Hsh Hl Hok HX.
  assert (Hx : ∀ x, x ∈ senders D → shared (cache_in L' x) L' ∧ (sender_ok x → sender_ok (cache_in L' x)) ∧
      changes (cache_in L' x).2 ⊆ changes x.2).
  { intros x Hx. eapply shared_later; [by eapply sender_registered|done..|]. apply HX.
    apply list_elem_of_fmap. by exists x. }
  assert (Hall : spdp_w D ∈ senders D ∧ sedp_pub_w D ∈ senders D ∧ sedp_sub_w D ∈ senders D ∧ p2p_w D ∈ senders D)
    by (unfold senders; set_solver). destruct Hall as (I0 & I1 & I2 & I3). split.
  - destruct HD as [S1 S2 S3 S4 S5 S6 S7].
    split; cbn; unfold constant; try (by apply (Hx _ I0)); try (by apply (Hx _ I1)); try (by apply (Hx _ I2));
      try (by apply (Hx _ I3)); try done.
    + intros c Hc. apply S3. destruct (Hx _ I0) as (_ & _ & Hsub). by eapply lookup_weaken.
    + apply (lo_world _ Hok).
  - split.
    + rewrite senders_seen. apply Forall_fmap, Forall_forall. intros x Hin. by apply Hx.
    + rewrite sender_ids_seen. apply Hsh.
    + done.
Qed.

(** ** The caches that the thread leaves *)

Lemma sender_of_Some D x : NoDup (sender_ids D) → x ∈ senders D → sender_of D (entity_id (dw_guid x.1)) = Some x.
Proof.
  intros Hnd Hx. unfold sender_of. apply list_elem_of_lookup in Hx as [i Hi]. set (e := entity_id (dw_guid x.1)).
  assert (Hall : ∀ y, y ∈ filter (λ y, entity_id (dw_guid y.1) = e) (senders D) → y = x).
  { intros y [Hy Hin]%list_elem_of_filter. apply list_elem_of_lookup in Hin as [j Hj].
    assert (i = j) as <-; [|congruence]. eapply NoDup_lookup; [exact Hnd| |].
    - by rewrite list_lookup_fmap, Hi.
    - rewrite list_lookup_fmap, Hj. cbn. by rewrite Hy. }
  assert (Hin : x ∈ filter (λ y, entity_id (dw_guid y.1) = e) (senders D)).
  { apply list_elem_of_filter. split; [done|by eapply list_elem_of_lookup_2]. }
  destruct (filter _ (senders D)) as [|y l]; [by apply elem_of_nil in Hin|]. cbn. f_equal. apply Hall. by left.
Qed.
Lemma sender_of_None D e : e ∉ sender_ids D → sender_of D e = None.
Proof.
  intros He. unfold sender_of. destruct (filter _ (senders D)) as [|y l] eqn:E; [done|]. exfalso. apply He.
  assert (Hy : y ∈ filter (λ y, entity_id (dw_guid y.1) = e) (senders D)) by (rewrite E; by left).
  apply list_elem_of_filter in Hy as [<- Hy]. apply list_elem_of_fmap. by exists y.
Qed.

(** A state of the loop that differs from [L] in the shared memory only is
    the one with the memory of the thread. *)
Lemma only_caches_seen D L L' :
  only_caches (sender_ids D) L L' → shares D L' → seen_by_loop D L = L'.
Proof.
  intros (W & -> & Hm & Hr & Hw) [Hsh Hnd Hdb]. unfold seen_by_loop. cbn in Hdb, Hsh.
  destruct L as [dom p W0 ? ? ? ? ? ? ? ? ? ? ? ? ? ?]. cbn in *. unfold constant in *. f_equal.
  destruct W as [m ws rs db], W0 as [m0 ws0 rs0 db0]. unfold set_disc_db, set_writers in *. cbn in *.
  rewrite Hm, Hr, <-Hdb. f_equal. apply map_eq. intros e. rewrite map_lookup_imap. specialize (Hw e).
  destruct (ws0 !! e) as [w|]; [|by inversion Hw]. inversion Hw as [? w' [Hw' Hn] Ea Eb|]. subst. cbn. f_equal.
  unfold overwritten. destruct (decide (e ∈ sender_ids D)) as [He|He]; [|by rewrite sender_of_None, Hn].
  apply list_elem_of_fmap in He as (x & -> & Hx). rewrite sender_of_Some by done.
  rewrite Forall_forall in Hsh. destruct (Hsh x Hx) as (w2 & Hw2 & _ & _ & Hc). cbn in Hw2.
  assert (w2 = w') as -> by congruence. by rewrite Hc in Hw'.
Qed.
End shared_memory.

(** ** The invariant *)

Section invariant.
Context {TL : TimerLib} `{!TimerLaws TL} `{SpeedyLaws}.

(** The endpoints on their way to the event loop. *)
Definition queued (dp : DomainParticipant) : list Ingredients :=
  (IngWriter <$> create_writer_queue dp) ++ (IngReader <$> create_reader_queue dp).

(** The writers of SEDP keep everything and push it. *)
Definition announcer (w : Writer) : Prop :=
  w_push_mode (conf w) = true ∧ history_kind (w_history (wqos w)).1 = KeepAll.
Definition sedp_writers : list EntityId :=
  [Eid.SEDP_BUILTIN_PUBLICATIONS_ANNOUNCER; Eid.SEDP_BUILTIN_SUBSCRIPTIONS_ANNOUNCER].

Lemma sedp_builtin e : e ∈ sedp_writers → e ∈ builtin_writers.
Proof. unfold sedp_writers, builtin_writers. set_solver. Qed.

(** The commands in the channels are for writers; the discovery thread sends
    only [WriteData]. *)
Definition commands_ok (m : gmap EntityId (list WriterCmd)) : Prop := ∀ e cmds,
  m !! e = Some cmds → is_writer e = true ∧ (e ∈ builtin_writers → Forall (eq WriteData) cmds).

Record sys_ok (native : Endianness) (Σ : System) : Prop := {
  so_loop : loop_reachable native (sys_loop Σ);
  so_thread : disc_ok (sys_thread Σ);
  so_shares : shares (sys_thread Σ) (sys_loop Σ);
  so_ids : sender_ids (sys_thread Σ) = builtin_writers;
  so_fresh : fresh (participant Σ) (sys_loop Σ);
  so_queued : ings_ok (sys_loop Σ) (queued (participant Σ));
  so_numbers : Forall (λ i, entity_number (ing_key i).2 < entity_key_generator (participant Σ)) (queued (participant Σ));
  so_commands : commands_ok (writer_commands Σ);
  so_sedp : ∀ e w, e ∈ sedp_writers → writers (world (sys_loop Σ)) !! e = Some w → announcer w;
}.

Lemma ings_ok_perm L l l' : l ≡ₚ l' → ings_ok L l → ings_ok L l'.
Proof. intros Hp [H1 H2]. split; [by rewrite <-Hp|by rewrite <-Hp]. Qed.
Lemma ings_ok_app L l l' :
  ings_ok L (l ++ l') → ings_ok L l ∧ ings_ok L l' ∧ ∀ i, i ∈ l' → ing_key i ∉ ing_key <$> l.
Proof.
  intros [Hnd Hall]. rewrite fmap_app in Hnd. apply NoDup_app in Hnd as (N1 & Hd & N2).
  apply Forall_app in Hall as [A1 A2]. split; [by split|]. split; [by split|].
  intros i Hi Hin. apply (Hd _ Hin), list_elem_of_fmap. by exists i.
Qed.

Lemma ings_ok_later X l L L' :
  later X (world L) (world L') → el_guid_prefix L' = el_guid_prefix L → (∀ i, i ∈ l → ing_key i ∉ ing_key <$> X) →
  ings_ok L l → ings_ok L' l.
Proof.
  intros [_ HW _ HR] Hp HX [Hnd Hall]. split; [done|]. rewrite !Forall_forall in *. intros i Hi.
  specialize (Hall i Hi). specialize (HX i Hi). destruct i as [wi|ri]; cbn in *; destruct Hall; split; rewrite ?Hp; try done.
  - apply eq_None_not_Some. intros [w [(w0 & Hw0 & _)|(wj & Hj & E & _)]%HW]; [congruence|].
    apply HX. rewrite E. apply list_elem_of_fmap. by exists (IngWriter wj).
  - apply eq_None_not_Some. intros [[r Hr]|Hin]%HR; [congruence|done].
Qed.

(** The built-in writers are not on their way. *)
Lemma builtin_registered native Σ e :
  sys_ok native Σ → e ∈ builtin_writers → is_Some (writers (world (sys_loop Σ)) !! e).
Proof.
  intros HΣ He. rewrite <-(so_ids _ _ HΣ) in He. apply list_elem_of_fmap in He as (x & -> & Hx).
  destruct (sender_registered _ _ _ (so_shares _ _ HΣ) Hx) as (w & Hw & _). by exists w.
Qed.
Lemma new_untouched native Σ X :
  sys_ok native Σ → ings_ok (sys_loop Σ) X → untouched (sender_ids (sys_thread Σ)) X.
Proof.
  intros HΣ [_ Hall] e He Hin. rewrite (so_ids _ _ HΣ) in He. destruct (builtin_registered _ _ _ HΣ He) as [w Hw].
  apply list_elem_of_fmap in Hin as ([wi|ri] & E & Hi); [|discriminate E]. injection E as ->.
  rewrite Forall_forall in Hall. pose proof (wg_new _ _ (Hall _ Hi)). congruence.
Qed.

(** Other endpoints on their way, with the same keys to come. *)
Lemma fresh_same dp dp' L :
  my_guid dp' = my_guid dp → participant_config dp' = participant_config dp →
  network_interfaces dp' = network_interfaces dp → entity_key_generator dp' = entity_key_generator dp →
  fresh dp L → fresh dp' L.
Proof. intros E1 E2 E3 E4 []. unfold dp_guid_prefix in *. split; unfold dp_guid_prefix; rewrite ?E1, ?E2, ?E3, ?E4; done. Qed.

Lemma fresh_later X dp L L' :
  later X (world L) (world L') → el_guid_prefix L' = el_guid_prefix L →
  Forall (λ i, entity_number (ing_key i).2 < entity_key_generator dp) X → fresh dp L → fresh dp L'.
Proof.
  intros [_ HW _ HR] Hp HX [F1 F2 F3 F4 FW FR]. rewrite Forall_forall in HX. split; rewrite ?Hp; try done.
  - intros e [w [(w0 & Hw0 & _)|(wi & Hi & -> & _)]%HW]; [apply FW; by exists w0|exact (HX _ Hi)].
  - intros e [?|Hi]%HR; [by apply FR|]. apply list_elem_of_fmap in Hi as ([wi|ri] & E & Hi); [discriminate E|].
    injection E as ->. exact (HX _ Hi).
Qed.

(** ** Events of the loop *)

(** The messages that the event loop sends. *)
Definition notified_writer (ev : LoopEvent) : option LocalWriter :=
  match ev with NotifyNewWriter e d => Some (e, d) | _ => None end.
Definition notified_reader (ev : LoopEvent) : option LocalReader :=
  match ev with NotifyNewReader e d => Some (e, d) | _ => None end.
Definition sent_message (ev : LoopEvent) : option ParticipantMessageData :=
  match ev with OfWorld (OfWriter _ (SendParticipantMessage d)) => Some d | _ => None end.
Lemma loop_sends_all evs Σ :
  foldl loop_sends Σ evs =
    mkSystem (participant Σ) (sys_loop Σ) (sys_thread Σ) (writer_commands Σ) (discdb_updates Σ)
      (new_writers Σ ++ omap notified_writer evs) (new_readers Σ ++ omap notified_reader evs)
      (participant_msg_cmds Σ ++ omap sent_message evs).
Proof.
  revert Σ. induction evs as [|ev evs IH]; intros Σ; [by destruct Σ; cbn; rewrite !app_nil_r|].
  cbn [foldl]. rewrite IH. destruct ev as [ev|e d|e d]; [destruct ev as [e []|e ev|e]|..]; destruct Σ; cbn;
    unfold constant; rewrite <-?(assoc_L app); done.
Qed.

Lemma loop_takes_spec token packets Σ d Σ1 :
  loop_takes token packets Σ = (d, Σ1) →
  sys_loop Σ1 = sys_loop Σ ∧ sys_thread Σ1 = sys_thread Σ ∧ writer_commands Σ1 ⊆ writer_commands Σ ∧
  (my_guid (participant Σ1) = my_guid (participant Σ) ∧
   participant_config (participant Σ1) = participant_config (participant Σ) ∧
   network_interfaces (participant Σ1) = network_interfaces (participant Σ) ∧
   entity_key_generator (participant Σ1) = entity_key_generator (participant Σ)) ∧
  queued (participant Σ) ≡ₚ new_endpoints d ++ queued (participant Σ1) ∧
  (∀ native, Forall (packet_ok native) packets → ings_ok (sys_loop Σ) (queued (participant Σ)) →
     delivery_ok native (sys_loop Σ) d).
Proof.
  unfold loop_takes, queued. destruct (token_decode token) as [t|e].
  - destruct (packet_token t); [by intros [= <- <-]|].
    case_bool_decide; [intros [= <- <-]|].
    { split_and!; try done. intros native _ Hq. by apply ings_ok_app in Hq as [? _]. }
    case_bool_decide; [intros [= <- <-]|].
    { split_and!; try done; cbn; unfold constant; rewrite ?app_nil_r; [apply Permutation_app_comm|].
      intros native _ Hq. by apply ings_ok_app in Hq as (_ & ? & _). }
    case_bool_decide; by intros [= <- <-].
  - destruct (writers _ !! e); intros [= <- <-]; [|done]. split_and!; try done. apply delete_subseteq.
Qed.

Lemma sys_loop_event native clk c now fuel token packets Σ Σ' evs :
  sys_ok native Σ → Forall (packet_ok native) packets →
  loop_event native clk c now fuel token packets Σ = Done (Σ', evs) → sys_ok native Σ'.
Proof.
  intros HΣ Hpk. unfold loop_event. destruct (loop_takes token packets Σ) as [d Σ1] eqn:Et.
  destruct (loop_takes_spec _ _ _ _ _ Et) as (EL & ED & Hcmd & (P1 & P2 & P3 & P4) & Hq & Hdel).
  rewrite EL, ED. destruct (handle_event native clk c now fuel token d (sys_loop Σ)) as [[[L' evs'] u]|] eqn:E; [|done].
  intros [= <- <-]. rewrite loop_sends_all. destruct (event_later _ _ _ _ _ _ _ _ _ _ _ E) as [Hl Hp].
  pose proof (so_queued _ _ HΣ) as Hqo. pose proof (Hdel native Hpk Hqo) as Hd.
  apply (ings_ok_perm _ _ _ Hq) in Hqo. apply ings_ok_app in Hqo as (HX & Hrest & Hdis).
  pose proof (so_numbers _ _ HΣ) as Hnum. rewrite Hq in Hnum. apply Forall_app in Hnum as [HnX Hnrest].
  pose proof (new_untouched _ _ _ HΣ HX) as HXu.
  assert (Hr' : loop_reachable native L') by (eapply lr_step; [apply (so_loop _ _ HΣ)|by eapply ls_event]).
  destruct (thread_sees (new_endpoints d) (sys_thread Σ) (sys_loop Σ) L') as [HD' Hsh'];
    [apply HΣ|apply HΣ|done|by eapply loop_reachable_ok|done|].
  match goal with |- sys_ok _ (mkSystem _ _ _ _ _ ?nw ?nr ?pm) => change (sys_ok native (mkSystem (participant Σ1) L'
    (seen_by_thread L' (sys_thread Σ)) (writer_commands Σ1) (discdb_updates Σ1) nw nr pm)) end.
  split; cbn [participant sys_loop sys_thread writer_commands]; rewrite ?P4; try done.
  - apply (so_ids _ _ HΣ).
  - apply (fresh_same (participant Σ)); [done..|]. eapply fresh_later; [done|done|exact HnX|apply HΣ].
  - by eapply ings_ok_later.
  - intros e cmds He. eapply (so_commands _ _ HΣ), lookup_weaken; done.
  - intros e w' He Hw'. pose proof (sedp_builtin e He) as Hb. destruct (builtin_registered _ _ e HΣ) as [w Hw]; [done|].
    destruct (later_writer (new_endpoints d) _ _ e w Hl) as (w2 & Hw2 & Hcf & _);
      [apply HXu; by rewrite (so_ids _ _ HΣ)|done|]. simplify_eq.
    pose proof (so_sedp _ _ HΣ e w He Hw) as Ha. unfold announcer, wqos in *. by rewrite Hcf.
Qed.

(** ** Events of the discovery thread *)

Definition deleted_participant (ev : DiscoveryEvent) : option GuidPrefix :=
  match ev with DeleteParticipant p => Some p | _ => None end.
Definition command_for (e : EntityId) (ev : DiscoveryEvent) : option WriterCmd :=
  match ev with Command e' cmd => if bool_decide (e' = e) then Some cmd else None | _ => None end.
Definition add_command (m : gmap EntityId (list WriterCmd)) (ev : DiscoveryEvent) : gmap EntityId (list WriterCmd) :=
  match ev with Command e cmd => <[e := default [] (m !! e) ++ [cmd]]> m | _ => m end.
Lemma thread_sends_all evs Σ :
  foldl thread_sends Σ evs =
    mkSystem (participant Σ) (sys_loop Σ) (sys_thread Σ) (foldl add_command (writer_commands Σ) evs)
      (discdb_updates Σ ++ omap deleted_participant evs) (new_writers Σ) (new_readers Σ) (participant_msg_cmds Σ).
Proof.
  revert Σ. induction evs as [|ev evs IH]; intros Σ; [by destruct Σ; cbn; rewrite !app_nil_r|].
  cbn [foldl]. rewrite IH. destruct ev as [e cmd|p]; destruct Σ; cbn; unfold constant; rewrite <-?(assoc_L app); done.
Qed.

Lemma add_commands_lookup m evs e :
  default [] (foldl add_command m evs !! e) = default [] (m !! e) ++ omap (command_for e) evs.
Proof.
  revert m. induction evs as [|ev evs IH]; intros m; [by cbn; rewrite app_nil_r|]. cbn [foldl]. rewrite IH.
  destruct ev as [e' cmd|p]; [|done]. cbn [add_command omap list_omap command_for]. rewrite lookup_insert. case_bool_decide as He.
  - rewrite decide_True by done. cbn. by rewrite <-(assoc_L app), He.
  - by rewrite decide_False by done.
Qed.

Lemma send_commands_ok m e cmd :
  is_writer e = true → (e ∈ builtin_writers → cmd = WriteData) → commands_ok m →
  commands_ok (<[e := default [] (m !! e) ++ [cmd]]> m).
Proof.
  intros He Hc Hm e' cmds. rewrite lookup_insert_Some. intros [[<- <-]|[_ Hl]]; [|by apply Hm].
  split; [done|]. intros Hb. apply Forall_app. split; [|apply Forall_singleton; by rewrite Hc].
  destruct (m !! e) as [l|] eqn:E; [by apply (Hm e l)|by apply Forall_nil].
Qed.
Lemma builtin_is_writer e : e ∈ builtin_writers → is_writer e = true.
Proof. revert e. apply Forall_forall. repeat (apply Forall_cons; split; [reflexivity|]). by apply Forall_nil. Qed.
Lemma add_commands_ok D m evs :
  sender_ids D = builtin_writers → Forall (thread_message D) evs → commands_ok m → commands_ok (foldl add_command m evs).
Proof.
  intros Hids Hevs. revert m. induction Hevs as [|ev evs Hev _ IH]; intros m Hm; [done|]. cbn [foldl]. apply IH.
  destruct ev as [e cmd|p]; [|done]. destruct Hev as [He ->]. rewrite Hids in He.
  apply send_commands_ok; [by apply builtin_is_writer|done..].
Qed.

Lemma thread_takes_spec token Σ d Σ1 :
  thread_takes token Σ = (d, Σ1) →
  sys_loop Σ1 = sys_loop Σ ∧ sys_thread Σ1 = sys_thread Σ ∧ participant Σ1 = participant Σ ∧
  writer_commands Σ1 = writer_commands Σ.
Proof. unfold thread_takes. repeat case_bool_decide; by intros [= <- <-]. Qed.

(** The loop, when nothing but the shared memory has changed. *)
Lemma only_caches_later ids L L' :
  only_caches ids L L' → el_guid_prefix L' = el_guid_prefix L ∧
  (∀ e, is_Some (writers (world L') !! e) ↔ is_Some (writers (world L) !! e)) ∧
  readers (world L') = readers (world L) ∧
  ∀ e w', writers (world L') !! e = Some w' → ∃ w, writers (world L) !! e = Some w ∧ conf w' = conf w.
Proof.
  intros (W & -> & _ & Hr & Hw). split_and!; [done| |done|].
  - intros e. specialize (Hw e). cbn. unfold constant. destruct Hw; [|done]. split; intros _; by eexists.
  - intros e w' Hw'. specialize (Hw e). cbn in Hw'. unfold constant in Hw'. rewrite Hw' in Hw.
    inversion Hw as [w ? [E _] Ea Eb|]. subst. exists w. split; [done|]. by rewrite E.
Qed.

(** Same endpoints, so that those on their way are still new. *)
Lemma ings_ok_same l L L' :
  el_guid_prefix L' = el_guid_prefix L →
  (∀ e, is_Some (writers (world L') !! e) ↔ is_Some (writers (world L) !! e)) →
  (∀ e, is_Some (readers (world L') !! e) ↔ is_Some (readers (world L) !! e)) → ings_ok L l → ings_ok L' l.
Proof.
  intros Hp HW HR [Hnd Hall]. split; [done|]. eapply Forall_impl; [exact Hall|].
  intros [wi|ri] Hi; cbn in *; destruct Hi; split; rewrite ?Hp; try done;
    apply eq_None_not_Some; rewrite ?HW, ?HR; by apply eq_None_not_Some.
Qed.
Lemma fresh_same_loop dp L L' :
  el_guid_prefix L' = el_guid_prefix L →
  (∀ e, is_Some (writers (world L') !! e) ↔ is_Some (writers (world L) !! e)) →
  (∀ e, is_Some (readers (world L') !! e) ↔ is_Some (readers (world L) !! e)) → fresh dp L → fresh dp L'.
Proof.
  intros Hp HW HR [F1 F2 F3 F4 FW FR]. split; rewrite ?Hp; try done; intros e; rewrite ?HW, ?HR; [apply FW|apply FR].
Qed.

Lemma sys_thread_event native fuel c token Σ :
  sys_ok native Σ → disc_event_ok fuel c token (thread_takes token Σ).1 (sys_thread Σ) →
  ∃ D' evs, discovery_event fuel c token (thread_takes token Σ).1 (sys_thread Σ) = Done (D', evs, Some tt) ∧
    thread_event fuel c token Σ = Done (foldl thread_sends ({ (thread_takes token Σ).2 with
      sys_thread := D'; sys_loop := seen_by_loop D' (sys_loop Σ) }) evs, Some tt) ∧
    only_caches builtin_writers (sys_loop Σ) (seen_by_loop D' (sys_loop Σ)) ∧
    sys_ok native (foldl thread_sends ({ (thread_takes token Σ).2 with
      sys_thread := D'; sys_loop := seen_by_loop D' (sys_loop Σ) }) evs).
Proof.
  intros HΣ Hev. destruct (thread_takes token Σ) as [d Σ1] eqn:Et. cbn [fst snd] in *.
  destruct (thread_takes_spec _ _ _ _ Et) as (EL & ED & EP & EC).
  pose proof (discovery_event_main fuel c token d _ (so_thread _ _ HΣ) Hev) as Hm.
  apply dwp_Done in Hm as (D' & evs & [] & E & HD' & Heff & Hmsg). exists D', evs. split; [exact E|].
  destruct (effects_simulated native _ _ _ Heff (so_shares _ _ HΣ)) as (L' & Hs & Ho & Hsh' & Eids).
  assert (EL' : seen_by_loop D' (sys_loop Σ) = L') by (apply only_caches_seen; [by rewrite Eids|done]).
  rewrite EL'. split; [|split].
  - unfold thread_event. by rewrite Et, EL, ED, E, EL'.
  - by rewrite <-(so_ids _ _ HΣ).
  - rewrite thread_sends_all. match goal with |- sys_ok _ (mkSystem _ _ _ _ ?du ?nw ?nr ?pm) =>
      change (sys_ok native (mkSystem (participant Σ1) L' D' (foldl add_command (writer_commands Σ1) evs) du nw nr pm)) end.
    rewrite EP, EC. destruct (only_caches_later _ _ _ Ho) as (Hp & HW & HR & Hcf).
    split; cbn [participant sys_loop sys_thread writer_commands]; try done.
    + eapply loop_reachable_rtc; [apply (so_loop _ _ HΣ)|exact Hs].
    + by rewrite Eids, (so_ids _ _ HΣ).
    + eapply fresh_same_loop; [exact Hp|exact HW|by rewrite HR|apply HΣ].
    + eapply ings_ok_same; [exact Hp|exact HW|by rewrite HR|apply HΣ].
    + apply HΣ.
    + eapply add_commands_ok; [apply (so_ids _ _ HΣ)|done|apply HΣ].
    + intros e w' He Hw'. destruct (Hcf e w' Hw') as (w & Hw & Hc). pose proof (so_sedp _ _ HΣ e w He Hw) as Ha.
      unfold announcer, wqos in *. by rewrite Hc.
Qed.

(** ** Calls of the application *)

(** The loop after the application has used a cache. *)
Lemma sys_ok_access native Σ Σ' :
  sys_ok native Σ → loop_step native (sys_loop Σ) (sys_loop Σ') →
  el_guid_prefix (sys_loop Σ') = el_guid_prefix (sys_loop Σ) →
  disc_db (world (sys_loop Σ')) = disc_db (world (sys_loop Σ)) →
  (∀ e, e ∈ builtin_writers → writers (world (sys_loop Σ')) !! e = writers (world (sys_loop Σ)) !! e) →
  (∀ e, is_Some (writers (world (sys_loop Σ')) !! e) ↔ is_Some (writers (world (sys_loop Σ)) !! e)) →
  (∀ e, is_Some (readers (world (sys_loop Σ')) !! e) ↔ is_Some (readers (world (sys_loop Σ)) !! e)) →
  sys_thread Σ' = sys_thread Σ → participant Σ' = participant Σ → commands_ok (writer_commands Σ') → sys_ok native Σ'.
Proof.
  intros HΣ Hst Hp Hdb Hb HW HR ED EP Hc. pose proof (so_shares _ _ HΣ) as [Hs1 Hs2 Hs3].
  split; rewrite ?ED, ?EP; try done; try apply HΣ.
  - eapply lr_step; [apply HΣ|done].
  - split; [|done|by rewrite Hdb]. rewrite Forall_forall in *. intros x Hx. destruct (Hs1 x Hx) as (w & Hw & Hrest).
    exists w. rewrite Hb; [by split|]. rewrite <-(so_ids _ _ HΣ). apply list_elem_of_fmap. by exists x.
  - eapply fresh_same_loop; [done..|apply HΣ].
  - eapply ings_ok_same; [done..|apply HΣ].
  - intros e w He Hw. eapply (so_sedp _ _ HΣ e w He). rewrite <-Hb; [done|by apply sedp_builtin].
Qed.

(** The participant after it has given out a key, to an endpoint on its way
    or to none. *)
Record key_given (dp dp' : DomainParticipant) (l : list Ingredients) : Prop := {
  kg_guid : my_guid dp' = my_guid dp;
  kg_config : participant_config dp' = participant_config dp;
  kg_nics : network_interfaces dp' = network_interfaces dp;
  kg_gen : entity_key_generator dp' = entity_key_generator dp + 1;
  kg_queued : queued dp' ≡ₚ queued dp ++ l;
  kg_one : NoDup (ing_key <$> l);
  kg_numbers : Forall (λ i, entity_number (ing_key i).2 = entity_key_generator dp) l;
}.
Lemma sys_ok_key native Σ dp' l :
  sys_ok native Σ → key_given (participant Σ) dp' l → Forall (ing_ok (sys_loop Σ)) l →
  sys_ok native ({ Σ with participant := dp' }).
Proof.
  intros HΣ [E1 E2 E3 E4 Hq Hl Hn] Hok. pose proof (so_fresh _ _ HΣ) as [F1 F2 F3 F4 FW FR].
  pose proof (so_queued _ _ HΣ) as [Q1 Q2]. pose proof (so_numbers _ _ HΣ) as Hnum.
  split; try apply HΣ; cbn [participant sys_loop].
  - change (fresh dp' (sys_loop Σ)). unfold dp_guid_prefix in *. split; unfold dp_guid_prefix; rewrite ?E1, ?E2, ?E3, ?E4; try done; [lia| |];
      intros e He; [apply FW in He|apply FR in He]; lia.
  - change (ings_ok (sys_loop Σ) (queued dp')). apply (ings_ok_perm _ (queued (participant Σ) ++ l)); [done|].
    split; [|by apply Forall_app]. rewrite fmap_app. apply NoDup_app. split_and!; [done| |done].
    intros k (j & -> & Hj)%list_elem_of_fmap (i & E & Hi)%list_elem_of_fmap. rewrite Forall_forall in Hnum, Hn.
    specialize (Hnum j Hj). specialize (Hn i Hi). cbn in Hnum, Hn. rewrite E in Hnum. lia.
  - change (Forall (λ i, entity_number (ing_key i).2 < entity_key_generator dp') (queued dp')). rewrite Hq, E4.
    apply Forall_app. split; eapply Forall_impl; [exact Hnum| |exact Hn|]; intros i Hi; cbn beta in *; lia.
Qed.
Lemma key_gen_ok native Σ : sys_ok native Σ → keys_left Σ → 0 ≤ entity_key_generator (participant Σ) < 2 ^ 24.
Proof. intros HΣ Hk. split; [apply (so_fresh _ _ HΣ)|exact Hk]. Qed.

Lemma sys_create_writer native qos topic p Σ :
  sys_ok native Σ → keys_left Σ → writer_qos_wf (default_dw_qos p) → topic_qos_wf (my_qos_policies topic) →
  (∀ q, qos = QosPolicies q → writer_qos_wf q) →
  ∃ dp' dw wi, app_create_writer qos topic p Σ = Done ({ Σ with participant := dp' }, dw) ∧
    sys_ok native ({ Σ with participant := dp' }) ∧
    create_writer_queue dp' = create_writer_queue (participant Σ) ++ [wi] ∧
    w_guid (wi_conf wi) = dw_guid dw ∧ w_qos (wi_conf wi) = dw_qos dw ∧ w_topic (wi_conf wi) = topic ∧
    entity_id (dw_guid dw) ∉ builtin_writers.
Proof.
  intros HΣ Hk Hdq Htq Hq. pose proof (key_gen_ok _ _ HΣ Hk) as Hg. pose proof (so_fresh _ _ HΣ) as Hf.
  destruct (next_key _ Hg) as [Hkey Hnum]. unfold app_create_writer, create_datawriter. rewrite Hkey.
  set (dp := participant Σ) in *. set (dp1 := { dp with entity_key_generator := _ }).
  set (k := match topic_kind_of topic with WithKey => _ | NoKey => _ end).
  set (e := mkEntityId (key_octets (entity_key_generator dp)) k).
  assert (He : writers (world (sys_loop Σ)) !! e = None).
  { eapply not_registered; [apply (fr_writers _ _ Hf)|exact Hnum]. }
  destruct (create_datawriter_with_entityid_ok qos topic e p dp1 (sys_loop Σ)) as
    (dw & wi & -> & Hwi & Hdw & Hg1 & Hq1 & Ht1 & Hh1); [apply Hf..|by apply datawriter_qos_wf|done|].
  cbn [mbind outcome_bind]. assert (Hids : entity_id (dw_guid dw) = e) by by rewrite Hdw.
  eexists _, dw, wi. split; [reflexivity|]. split_and!; try done.
  - apply (sys_ok_key _ _ _ [IngWriter wi]); [done| |by apply Forall_singleton]. fold dp. split; try done.
    + unfold queued. cbn. unfold constant. rewrite fmap_app, <-!(assoc_L app). apply Permutation_app_head, Permutation_app_comm.
    + apply NoDup_singleton.
    + apply Forall_singleton. cbn. by rewrite Hg1, Hids.
  - rewrite Hids. intros Hb. destruct (builtin_registered _ _ _ HΣ Hb) as [w Hw]. congruence.
Qed.

Lemma sys_create_reader native qos topic s Σ :
  sys_ok native Σ → keys_left Σ → reader_qos_wf (default_dr_qos s) → topic_qos_wf (my_qos_policies topic) →
  (∀ q, qos = QosPolicies q → reader_qos_wf q) →
  ∃ dp' dr ri, app_create_reader qos topic s Σ = Done ({ Σ with participant := dp' }, dr) ∧
    sys_ok native ({ Σ with participant := dp' }) ∧
    create_reader_queue dp' = create_reader_queue (participant Σ) ++ [ri] ∧ rd_guid (ri_conf ri) = dr_guid dr.
Proof.
  intros HΣ Hk Hdq Htq Hq. pose proof (key_gen_ok _ _ HΣ Hk) as Hg. pose proof (so_fresh _ _ HΣ) as Hf.
  destruct (next_key _ Hg) as [Hkey Hnum]. unfold app_create_reader, create_datareader. rewrite Hkey.
  set (dp := participant Σ) in *. set (dp1 := { dp with entity_key_generator := _ }).
  set (k := match topic_kind_of topic with WithKey => _ | NoKey => _ end).
  set (e := mkEntityId (key_octets (entity_key_generator dp)) k).
  assert (He : readers (world (sys_loop Σ)) !! e = None).
  { eapply not_registered; [apply (fr_readers _ _ Hf)|exact Hnum]. }
  destruct (create_datareader_with_entityid_ok qos topic e s dp1 (sys_loop Σ)) as
    (dr & ri & -> & Hri & Hdr & Hg1 & _); [apply Hf..|by apply datareader_qos_wf|done|].
  cbn [mbind outcome_bind]. eexists _, dr, ri. split; [reflexivity|]. split_and!; try done.
  apply (sys_ok_key _ _ _ [IngReader ri]); [done| |by apply Forall_singleton]. fold dp. split; try done.
  - unfold queued. cbn. unfold constant. by rewrite fmap_app, <-!(assoc_L app).
  - apply NoDup_singleton.
  - apply Forall_singleton. cbn. by rewrite Hg1, Hdr.
Qed.

Lemma sys_group_key native Σ dp' k :
  sys_ok native Σ → keys_left Σ → dp_gen_entity_key (participant Σ) = (dp', k) →
  sys_ok native ({ Σ with participant := dp' }).
Proof.
  intros HΣ Hk E. destruct (next_key _ (key_gen_ok _ _ HΣ Hk)) as [Hkey _]. rewrite Hkey in E. injection E as <- _.
  apply (sys_ok_key _ _ _ []); [done| |by apply Forall_nil]. split; try done.
  - by rewrite app_nil_r.
  - apply NoDup_nil_2.
Qed.

(** A command of a DataWriter of the application. *)
Lemma sys_ok_command native Σ dw cmd :
  sys_ok native Σ → entity_id (dw_guid dw) ∉ builtin_writers → is_writer (entity_id (dw_guid dw)) = true →
  sys_ok native (send_command (entity_id (dw_guid dw)) cmd Σ).
Proof.
  intros HΣ Hu Hw. split; try apply HΣ. apply send_commands_ok; [done|by intros ?%Hu|apply HΣ].
Qed.
Lemma sys_ok_sent native Σ dw cmd :
  sys_ok native Σ → entity_id (dw_guid dw) ∉ builtin_writers → is_writer (entity_id (dw_guid dw)) = true →
  sys_ok native (match cmd with Some cmd => send_command (entity_id (dw_guid dw)) cmd Σ | None => Σ end).
Proof. destruct cmd; [apply sys_ok_command|done]. Qed.

Lemma try_write_add change dw hc hc' cmd :
  try_write change dw hc = Done (hc', cmd) →
  ∃ r, add_change change (dw_is_reliable dw) (limits dw) (w_history (dw_qos dw)).1 hc = Done (hc', r).
Proof.
  unfold try_write, limits. intros ([hc1 r] & H1 & H2)%outcome_bind_Done. exists r. rewrite H1.
  destruct r as [[]|]; by injection H2 as <- _.
Qed.

(** A cache on its way takes a change. *)
Lemma ing_ok_written L change rel limits history wi hc r :
  writer_ing_ok L wi → writer_guid change = w_guid (wi_conf wi) → 0 < sequence_number change < Sn.MAX →
  add_change change rel limits history (wi_whc wi) = Done (hc, r) →
  writer_ing_ok L (mkWriterIngredients (wi_conf wi) hc).
Proof.
  intros [G1 G2 G3 Hc Hty Hs Hp G8] Hg Hsn Hadd. pose proof (λ k, add_change_dom _ _ _ _ _ _ _ k Hadd) as Hdom.
  split; cbn; try done.
  - by eapply add_change_wf.
  - rewrite <-Hty. eapply hc_step_type; [exact Hc|]. by eapply step_add_change.
  - intros k [?| ->]%Hdom; [by apply Hs|exact Hg].
  - intros k [?| ->]%Hdom; [by apply Hp|exact Hsn].
Qed.

Lemma sys_write native change dw Σ Σ' :
  sys_ok native Σ → handle_of dw Σ → writer_guid change = dw_guid dw → 0 < sequence_number change < Sn.MAX →
  (∀ w hc cmd, writers (world (sys_loop Σ)) !! entity_id (dw_guid dw) = Some w → is_reliable w = false →
     try_write change dw (writer_cache w) = Done (hc, cmd) → changes (writer_cache w) ⊆ changes hc) →
  app_try_write change dw Σ = Done Σ' → sys_ok native Σ'.
Proof.
  intros HΣ [Hu Hwr Hreg Hqu] Hg Hsn Hroom. unfold app_try_write. cbv zeta.
  destruct (writers (world (sys_loop Σ)) !! entity_id (dw_guid dw)) as [w|] eqn:Ew.
  - intros ([hc cmd] & Ht & [= <-])%outcome_bind_Done. apply sys_ok_sent; [|done..].
    destruct (try_write_add _ _ _ _ _ Ht) as [r Hadd]. destruct (Hreg w eq_refl) as [Hgw Hrel].
    match goal with |- sys_ok _ ?S => apply (sys_ok_access native Σ S HΣ) end; try done.
    + apply (ls_write _ _ w change (limits dw) (w_history (dw_qos dw)).1 hc r); [done|by rewrite Hg|done| |by rewrite Hrel].
      destruct (is_reliable w) eqn:Er; [by left|]. right. by eapply Hroom.
    + intros e He. cbn. unfold constant. rewrite lookup_insert_ne; [done|]. by intros <-.
    + intros e. cbn. unfold constant. rewrite lookup_insert_is_Some'. split; [|by right]. intros [<-|?]; [by rewrite Ew|done].
    + apply HΣ.
  - destruct (list_find (same_endpoint (entity_id (dw_guid dw))) _) as [[i wi]|] eqn:Ef; [|by intros [= <-]].
    intros ([hc cmd] & Ht & [= <-])%outcome_bind_Done. apply sys_ok_sent; [|done..].
    destruct (try_write_add _ _ _ _ _ Ht) as [r Hadd].
    apply list_find_Some in Ef as (Hi & He%bool_decide_unpack & _).
    pose proof (Hqu wi ltac:(by eapply list_elem_of_lookup_2) He) as Hgw.
    set (wi' := mkWriterIngredients (wi_conf wi) hc). set (q := create_writer_queue (participant Σ)) in *.
    assert (Hkeys : ing_key <$> (IngWriter <$> <[i := wi']> q) = ing_key <$> (IngWriter <$> q)).
    { rewrite !list_fmap_insert. apply list_insert_id. by rewrite !list_lookup_fmap, Hi. }
    pose proof (so_queued _ _ HΣ) as [Q1 Q2]. pose proof (so_numbers _ _ HΣ) as Hnum. unfold queued in *.
    fold q in Q1, Q2, Hnum. apply Forall_app in Q2 as [QW QR].
    assert (Hk2 : Forall (λ k : bool * EntityId, entity_number k.2 < entity_key_generator (participant Σ))
      (ing_key <$> ((IngWriter <$> q) ++ (IngReader <$> create_reader_queue (participant Σ))))) by by apply Forall_fmap.
    split; try apply HΣ.
    + pose proof (so_fresh _ _ HΣ) as Hf. by eapply fresh_same; [..|exact Hf].
    + split.
      * cbn. unfold constant. by rewrite fmap_app, Hkeys, <-fmap_app.
      * apply Forall_app. split; [|exact QR]. change (Forall (ing_ok (sys_loop Σ)) (IngWriter <$> <[i:=wi']> q)).
        rewrite list_fmap_insert. apply Forall_insert; [done|].
        rewrite Forall_fmap, Forall_lookup in QW. eapply ing_ok_written; [by eapply QW|by rewrite Hgw|done|exact Hadd].
    + change (Forall (λ j, entity_number (ing_key j).2 < entity_key_generator (participant Σ))
        ((IngWriter <$> <[i:=wi']> q) ++ (IngReader <$> create_reader_queue (participant Σ)))).
      assert (Hk3 : Forall (λ k : bool * EntityId, entity_number k.2 < entity_key_generator (participant Σ))
        (ing_key <$> ((IngWriter <$> <[i:=wi']> q) ++ (IngReader <$> create_reader_queue (participant Σ)))))
        by by rewrite fmap_app, Hkeys, <-fmap_app.
      by apply Forall_fmap in Hk3.
Qed.

(** ** Every step *)

Lemma sys_step_ok native Σ Σ' : sys_ok native Σ → sys_step native Σ Σ' → sys_ok native Σ'.
Proof.
  intros HΣ Hst. destruct Hst as [clk c now fuel token packets Σ Σ' evs Hp E|fuel c token Σ Σ' r Hd E
    |qos topic p Σ Σ' dw Hk H1 H2 H3 E|qos topic s Σ Σ' dr Hk H1 H2 H3 E|qos Σ Hk|qos Σ Hk
    |change dw Σ Σ' Hh Hg Hsn Hroom E|dw Σ Hh|e r hc Σ Hr Hst].
  - by eapply sys_loop_event.
  - destruct (sys_thread_event native fuel c token Σ HΣ Hd) as (D' & evs & _ & E' & _ & Hok).
    rewrite E' in E. by injection E as <- _.
  - destruct (sys_create_writer native qos topic p Σ HΣ Hk H1 H2 H3) as (dp' & dw' & wi & E' & Hok & _).
    rewrite E' in E. by injection E as <- _.
  - destruct (sys_create_reader native qos topic s Σ HΣ Hk H1 H2 H3) as (dp' & dr' & ri & E' & Hok & _).
    rewrite E' in E. by injection E as <- _.
  - unfold app_create_publisher, create_publisher. destruct (dp_gen_entity_key (participant Σ)) as [dp' k] eqn:E.
    by eapply sys_group_key.
  - unfold app_create_subscriber, create_subscriber. destruct (dp_gen_entity_key (participant Σ)) as [dp' k] eqn:E.
    by eapply sys_group_key.
  - by eapply sys_write.
  - unfold app_assert_liveliness. destruct Hh as [Hu Hw _ _]. generalize (dw_assert_liveliness dw) as cmds.
    intros cmds. revert Σ HΣ. induction cmds as [|cmd cmds IH]; intros Σ HΣ; [done|]. cbn [foldl].
    by apply IH, sys_ok_command.
  - match goal with |- sys_ok _ ?S => apply (sys_ok_access native Σ S HΣ) end; try done.
    + by apply ls_read.
    + intros e'. cbn. unfold constant. rewrite lookup_insert_is_Some'. split; [|by right]. intros [<-|?]; [by rewrite Hr|done].
    + apply HΣ.
Qed.

(** ** The start *)

Lemma IngWriter_inj wi wi' : IngWriter wi = IngWriter wi' → wi = wi'.
Proof. by intros [= ->]. Qed.
Lemma other_announcers :
  Eid.SPDP_BUILTIN_PARTICIPANT_ANNOUNCER ∉ sedp_writers ∧ Eid.P2P_BUILTIN_PARTICIPANT_MESSAGE_WRITER ∉ sedp_writers.
Proof. by split; apply (bool_decide_unpack _); vm_compute. Qed.
(** The DataWriters of the discovery thread and what the event loop is given
    for them. *)
Lemma builtin_ingredients dp dp' be l :
  create_builtin_endpoints dp = Done (dp', be, l) →
  queued dp' = queued dp ∧
  ∀ wi, IngWriter wi ∈ l → ∃ dw,
    dw ∈ [spdp_builtin_participant_writer be; sedp_builtin_pub_writer be; sedp_builtin_sub_writer be;
          p2p_builtin_participant_msg_writer be] ∧
    w_guid (wi_conf wi) = dw_guid dw ∧ reliable_conf (wi_conf wi) = dw_is_reliable dw ∧
    changes (wi_whc wi) = ∅ ∧
    (entity_id (dw_guid dw) ∈ sedp_writers →
       w_push_mode (wi_conf wi) = true ∧ history_kind (w_history (w_qos (wi_conf wi))).1 = KeepAll).
Proof.
  unfold create_builtin_endpoints.
  destruct (create_publisher QosDefault dp) as [dp1 p] eqn:Ep. destruct (create_subscriber QosDefault dp1) as [dp2 s] eqn:Es.
  unfold create_publisher in Ep. destruct (dp_gen_entity_key dp) as [dp3 k] eqn:Ek. injection Ep as <- <-.
  unfold create_subscriber in Es. destruct (dp_gen_entity_key dp3) as [dp4 k'] eqn:Ek'. injection Es as <- <-.
  assert (Hq : queued dp4 = queued dp).
  { unfold dp_gen_entity_key in Ek, Ek'. destruct (gen_entity_key (entity_key_generator dp)).
    destruct (gen_entity_key (entity_key_generator dp3)). injection Ek as <- _. injection Ek' as <- _. done. }
  unfold create_datawriter_with_entityid, create_datareader_with_entityid.
  destruct (Loc.new_list_from_multi_ipv4 _ _) as [ll|]; [|discriminate]. cbn [mbind outcome_bind]. intros E.
  pose proof (f_equal (λ o, match o with Done x => x.1.2 | Panic => be end) E) as Ebe.
  pose proof (f_equal (λ o, match o with Done x => x.2 | Panic => l end) E) as El.
  apply (f_equal (λ o, match o with Done x => x.1.1 | Panic => dp' end)) in E. cbn [fst snd] in E, Ebe, El.
  rewrite <-E, <-Ebe, <-El. split; [exact Hq|]. clear E Ebe El. intros wi Hin.
  repeat (apply elem_of_cons in Hin as [Hin|Hin]); try discriminate Hin.
  all: cycle 4. { by apply elem_of_nil in Hin. }
  all: apply IngWriter_inj in Hin as ->.
  - eexists. split; [by left|]. split; [reflexivity|]. split; [reflexivity|]. split; [reflexivity|].
    intros Hin. destruct other_announcers as [Hn _]. destruct (Hn Hin).
  - eexists. split; [by right; left|]. split; [reflexivity|]. split; [reflexivity|]. split; [reflexivity|].
    intros _. split; vm_compute; reflexivity.
  - eexists. split; [by right; right; left|]. split; [reflexivity|]. split; [reflexivity|]. split; [reflexivity|].
    intros _. split; vm_compute; reflexivity.
  - eexists. split; [by right; right; right; left|]. split; [reflexivity|]. split; [reflexivity|]. split; [reflexivity|].
    intros Hin. destruct other_announcers as [_ Hn]. destruct (Hn Hin).
Qed.

Lemma system_new_ok native h domain nics config bytes now c Σ :
  config_ok (default ParticipantConfig_default config) → (∀ i, clocks_ok (c i)) →
  system_new h domain nics config bytes now c = Done Σ → sys_ok native Σ.
Proof.
  intros Hcfg Hcl. unfold system_new. intros (dp & Hdp & E)%outcome_bind_Done.
  destruct (participant_starts_main native _ _ _ _ _ _ now c Hdp Hcfg Hcl) as
    (dp' & be & l & L & evs & Ebe & EL & Hr & Hf & _ & HW & _).
  rewrite Ebe in E. cbn [mbind outcome_bind] in E. rewrite EL in E. cbn [mbind outcome_bind] in E.
  injection E as <-. rewrite loop_sends_all.
  destruct (participant_new_inv _ _ _ _ _ _ Hdp) as (pid & nics' & spdp & Edp & _).
  assert (Hq0 : queued dp = []) by by rewrite Edp.
  assert (Ht : default_topic_qos dp = TopicQosBuilder_build TopicQosBuilder_new) by by rewrite Edp.
  destruct (builtin_ingredients _ _ _ _ Ebe) as [Hq Hing]. rewrite Hq0 in Hq.
  destruct (builtin_datawriters _ _ _ _ Ebe Ht) as [Hall Hguids].
  set (D0 := discovery_new now dp' be db_new (serialized_spdp_data dp)).
  assert (Hids0 : sender_ids D0 = builtin_writers).
  { apply (f_equal (fmap entity_id)) in Hguids. rewrite <-!list_fmap_compose in Hguids. exact Hguids. }
  pose proof (loop_reachable_ok _ _ Hr) as Hok.
  assert (Hx : ∀ x, x ∈ senders D0 → (shared (cache_in L x) L ∧ sender_ok (cache_in L x)) ∧ changes (cache_in L x).2 = ∅).
  { intros x Hx. set (e := entity_id (dw_guid x.1)).
    assert (He : e ∈ builtin_writers) by (rewrite <-Hids0; apply list_elem_of_fmap; by exists x).
    destruct (proj2 (HW e) He) as [w Hw].
    destruct (start_later _ _ _ _ _ _ _ _ _ EL e w Hw) as (wi & Hwi & Hewi & Hcf & Hsub).
    destruct (Hing wi Hwi) as (dw & Hdw & Hg & Hrel & Hemp & _).
    assert (dw = x.1) as ->.
    { assert (Hnd : NoDup (sender_ids D0)) by (rewrite Hids0; by apply (bool_decide_unpack _); vm_compute).
      change (dw ∈ fst <$> senders D0) in Hdw. apply list_elem_of_fmap in Hdw as (y & -> & Hy).
      f_equal. apply list_elem_of_lookup in Hx as [i Hi], Hy as [j Hj].
      assert (i = j) as ->; [|congruence]. eapply NoDup_lookup; [exact Hnd| |].
      - by rewrite list_lookup_fmap, Hi.
      - rewrite list_lookup_fmap, Hj. cbn. rewrite <-Hg. fold e. by rewrite Hewi. }
    destruct (wo_writers _ _ (lo_world _ Hok) _ _ Hw) as [Hwf _].
    assert (Hch : changes (writer_cache w) = ∅) by (rewrite Hemp in Hsub; by apply map_eq; intros k; rewrite lookup_empty; destruct (changes (writer_cache w) !! k) as [c0|] eqn:Ec; [|done]; pose proof (lookup_weaken _ _ _ _ Ec Hsub) as Hn; rewrite lookup_empty in Hn).
    assert (Hd : unlimited x.1 ∧ last_change_sequence_number x.1 = 0).
    { rewrite Forall_forall in Hall. apply Hall. change (x.1 ∈ fst <$> senders D0). apply list_elem_of_fmap. by exists x. }
    unfold cache_in. fold e. rewrite Hw. cbn [fst snd]. split; [split|exact Hch].
    - exists w. cbn [fst snd]. fold e. split; [exact Hw|]. split; [unfold wguid; by rewrite Hcf|]. split; [|done].
      rewrite <-Hrel, <-Hcf. done.
    - split; [|apply Hd]. split; [apply (ww_cache _ Hwf)|apply (ww_type _ Hwf)|cbn; lia|].
      cbn [fst snd]. rewrite Hch. intros k [c0 Hc0]. by rewrite lookup_empty in Hc0. }
  match goal with |- sys_ok _ (mkSystem _ _ _ _ ?du ?nw ?nr ?pm) =>
    change (sys_ok native (mkSystem dp' L (seen_by_thread L D0) ∅ du nw nr pm)) end.
  assert (I0 : ∀ i x, senders D0 !! i = Some x → sender_ok (cache_in L x)).
  { intros i x Hi. by apply Hx; eapply list_elem_of_lookup_2. }
  split; cbn [participant sys_loop sys_thread writer_commands]; try done.
  - split.
    + exact (I0 0%nat _ eq_refl).
    + rewrite Forall_forall in Hall. pose proof (Hall (spdp_w D0).1 ltac:(by left)) as [_ Hl]. cbn in *. lia.
    + intros c0 Hc0. destruct (Hx (spdp_w D0)) as [_ Hch]; [by left|]. cbn in Hc0, Hch. unfold constant in Hc0.
      rewrite Hch, lookup_empty in Hc0. done.
    + exact (I0 1%nat _ eq_refl).
    + exact (I0 2%nat _ eq_refl).
    + exact (I0 3%nat _ eq_refl).
    + apply (lo_world _ Hok).
  - split.
    + rewrite senders_seen. apply Forall_fmap, Forall_forall. intros x Hin. by apply Hx.
    + rewrite sender_ids_seen, Hids0. by apply (bool_decide_unpack _); vm_compute.
    + done.
  - rewrite Hq. split; [apply NoDup_nil_2|by apply Forall_nil].
  - rewrite Hq. by apply Forall_nil.
  - intros e w He Hw. destruct (start_later _ _ _ _ _ _ _ _ _ EL e w Hw) as (wi & Hwi & Hewi & Hcf & _).
    destruct (Hing wi Hwi) as (dw & _ & Hg & _ & _ & Ha). unfold announcer, wqos. rewrite Hcf. apply Ha.
    by rewrite <-Hg, <-Hewi.
Qed.

Lemma sys_reachable_ok native Σ : sys_reachable native Σ → sys_ok native Σ.
Proof.
  induction 1 as [h domain nics config bytes now c Σ Hcfg Hcl E|Σ Σ' _ IH Hst];
    [by eapply system_new_ok|by eapply sys_step_ok].
Qed.

(** ** No thread aborts *)

(** An event that the loop has to expect: a timer, a channel, but no packet;
    the channel of a writer is reported when a command is in it. *)
Definition event_due (c : nat → Readings) (token : Z) (Σ : System) : Prop :=
  (∀ i, clocks_ok (c i)) ∧
  match token_decode token with
  | ReservedToken t =>
      packet_token t = false ∧ (liveliness_token t = true → remote_leases (sys_loop Σ))
  | EntityToken e => is_Some (writer_commands Σ !! e)
  end.

Lemma sys_loop_total native clk c now fuel token Σ :
  sys_ok native Σ → event_due c token Σ →
  ∃ L' evs, handle_event native clk c now fuel token (loop_takes token [] Σ).1 (sys_loop Σ) = Done (L', evs, tt) ∧
    loop_event native clk c now fuel token [] Σ = Done (foldl loop_sends ({ (loop_takes token [] Σ).2 with
      sys_loop := L'; sys_thread := seen_by_thread L' (sys_thread Σ) }) evs, evs).
Proof.
  intros HΣ [Hc Hdue]. unfold loop_event. destruct (loop_takes token [] Σ) as [d Σ1] eqn:Et. cbn [fst snd].
  destruct (loop_takes_spec _ _ _ _ _ Et) as (EL & ED & _ & _ & _ & Hdel). rewrite EL, ED.
  assert (Hd : delivery_ok native (sys_loop Σ) d) by (apply Hdel; [by apply Forall_nil|apply HΣ]).
  assert (Hs : event_safe c token (sys_loop Σ)).
  { split; [done|]. destruct (token_decode token) as [t|e]; [done|]. destruct Hdue as [cmds Hcmds].
    by destruct (so_commands _ _ HΣ _ _ Hcmds). }
  destruct (wpl_Done _ _ _ (handle_event_ok true native clk c now fuel token d _
    (loop_reachable_ok _ _ (so_loop _ _ HΣ)) Hd (λ _, Hs))) as (L' & evs & [] & E & _).
  exists L', evs. by rewrite E.
Qed.

End invariant.
