(* ===== verification/Announcement.v ===== *)
(** * From a new DataWriter to its announcement

    What the parts of a participant do together for a DataWriter that the
    application creates: the event loop registers it and tells the discovery
    thread, which writes the announcement into the cache of the publications
    writer; at the command that follows the event loop sends it to every
    participant it knows. *)
From stdpp Require Import base tactics numbers list gmap strings.
From coqutil Require Import Datatypes.RecordSetters.
From S2P Require Import Prelude Ordered Ids Time SeqNum Qos HistoryCache Topic Message Proxy Writer WriterProofs.
From S2P Require Import DiscoveryData DiscoveryDB Reader ReaderProofs Speedy Wire ParameterList ParameterListProofs Receiver.
From S2P Require Import ReceiverProofs Timer Tokens EventLoop EventLoopProofs EventLoopSteps Entities EntitiesProofs.
From S2P Require Import Endpoints Sharing DiscoveryThread System SystemProofs.
Import OCamlLikeNotations.

Section announcement.
Context {TL : TimerLib} `{!TimerLaws TL} `{SpeedyLaws}.

(** ** The event loop tells of a new writer *)

Lemma lp_bind_Done {A B} (m : lp A) (f : A → lp B) L L' evs b :
  (m ≫= f) L = Done (L', evs, b) →
  ∃ L1 ev1 ev2 a, m L = Done (L1, ev1, a) ∧ f a L1 = Done (L', ev2, b) ∧ evs = ev1 ++ ev2.
Proof.
  unfold mbind, lp_bind. destruct (m L) as [[[L1 ev1] a]|] eqn:E; [|done].
  destruct (f a L1) as [[[L2 ev2] b']|] eqn:E2; [|done]. intros [= <- <- <-]. eauto 10.
Qed.

(** What the participant announces of a writer. *)
Definition announced (cf : WriterConf) : outcome (WriterProxy * PublicationBuiltinTopicData) :=
  proxy ← wp_new (w_guid cf)
    (mkLocators (w_unicast_locator_list cf) (w_multicast_locator_list cf) [] [])
    (w_data_max_size_serialized cf) (w_qos cf);
  Done (proxy, pub_builtin_topic_data (w_topic cf)).

Lemma register_writer_tells c wi L L' evs u :
  register_writer c wi L = Done (L', evs, u) → entity_id (w_guid (wi_conf wi)) ∉ builtin_writers →
  ∃ d, announced (wi_conf wi) = Done d ∧ NotifyNewWriter (entity_id (w_guid (wi_conf wi))) d ∈ evs.
Proof.
  intros E Hb. unfold register_writer in E.
  apply lp_bind_Done in E as (L1 & ev1 & ev1' & [w wt] & E1 & E & ->).
  assert (Hw : writer_new (wi_conf wi) (wi_whc wi) (clock c) = Done (w, wt)).
  { unfold ldo in E1. destruct (writer_new _ _ _); [|done]. by injection E1 as _ _ ->. }
  apply writer_new_made in Hw as [Hcf _].
  apply lp_bind_Done in E as (L2 & ev2 & ev2' & u2 & _ & E & ->).
  apply lp_bind_Done in E as (L3 & ev3 & ev3' & w' & E3 & E & ->).
  destruct (lates_spdp_group (X := []) w _ _ _ _ E3) as [_ [Hcf' _]]. rewrite Hcf in Hcf'. cbv zeta in E.
  apply lp_bind_Done in E as (L4 & ev4 & ev4' & u4 & _ & E & ->).
  apply lp_bind_Done in E as (L5 & ev5 & ev5' & u5 & _ & E & ->).
  apply lp_bind_Done in E as (L6 & ev6 & ev6' & u6 & E6 & E & ->).
  unfold wguid in E6. rewrite Hcf', bool_decide_false in E6 by done.
  apply lp_bind_Done in E6 as (L7 & ev7 & ev7' & d & E7 & E6 & ->). injection E6 as _ <-.
  assert (Hd : writer_sedp_data w' = Done d).
  { unfold ldo in E7. destruct (writer_sedp_data w'); [|done]. by injection E7 as _ _ ->. }
  exists d. split; [|set_solver]. unfold writer_sedp_data, wguid, wqos in Hd. by rewrite Hcf' in Hd.
Qed.

Lemma register_writers_tell c l wi L L' evs u :
  lfor l (λ i, register_writer (c i)) L = Done (L', evs, u) → wi ∈ l →
  entity_id (w_guid (wi_conf wi)) ∉ builtin_writers →
  ∃ d, announced (wi_conf wi) = Done d ∧ NotifyNewWriter (entity_id (w_guid (wi_conf wi))) d ∈ evs.
Proof.
  revert c L evs. induction l as [|wj l IH]; intros c L evs E Hin Hb; [by apply elem_of_nil in Hin|].
  cbn [lfor] in E. apply lp_bind_Done in E as (L1 & ev1 & ev2 & u1 & E1 & E & ->).
  apply elem_of_cons in Hin as [->|Hin].
  - destruct (register_writer_tells _ _ _ _ _ _ E1 Hb) as (d & Hd & Hev). exists d. split; [done|set_solver].
  - destruct (IH (c ∘ S) _ _ E Hin Hb) as (d & Hd & Hev). exists d. split; [done|set_solver].
Qed.

(** ** A command to a writer *)

Lemma cmds_extend now cmds acc w' evs' wts' :
  foldM (handle_one_cmd now) acc cmds = Done (w', evs', wts') → acc.1.2 ⊆ evs'.
Proof.
  revert acc. induction cmds as [|x cmds IH]; intros acc; [by intros [= ->]|].
  rewrite foldM_cons. intros ([[w1 ev1] wts1] & H1 & H2%IH)%outcome_bind_Done. cbn in H2. etrans; [|exact H2].
  destruct acc as [[w evs] wts]. unfold handle_one_cmd in H1. destruct x.2.
  - apply outcome_bind_Done in H1 as ([[w2 ev2] wt] & _ & [= _ <- _]). set_solver.
  - destruct (assert_liveliness_manually _ w) as [w2 ev2]. injection H1 as _ <- _. set_solver.
Qed.

(** The first command is a write. *)
Lemma write_commands_send now cmds w w' evs wts :
  handle_writer_cmd now (WriteData :: cmds) w = Done (w', evs, wts) →
  ∃ w1 ev1 wt, handle_write_data_cmd (now 0%nat) w = Done (w1, ev1, wt) ∧ ev1 ⊆ evs.
Proof.
  unfold handle_writer_cmd. intros ([[w2 ev2] wts2] & Hrun & [= _ <- _])%outcome_bind_Done.
  cbn [imap] in Hrun. rewrite foldM_cons in Hrun. apply outcome_bind_Done in Hrun as (acc & H1 & H2%cmds_extend).
  unfold handle_one_cmd in H1. cbn [fst snd] in H1. apply outcome_bind_Done in H1 as ([[w1 ev1] wt] & H1 & [= <-]).
  by exists w1, ev1, wt.
Qed.

(** ** The three hops *)

(** The event loop registers the writers on their way. *)
Lemma add_writer_event native clk c now fuel Σ wi :
  sys_ok native Σ → (∀ i, clocks_ok (c i)) → wi ∈ create_writer_queue (participant Σ) →
  entity_id (w_guid (wi_conf wi)) ∉ builtin_writers →
  ∃ Σ' evs d, loop_event native clk c now fuel Token.ADD_WRITER [] Σ = Done (Σ', evs) ∧ sys_ok native Σ' ∧
    announced (wi_conf wi) = Done d ∧ (entity_id (w_guid (wi_conf wi)), d) ∈ new_writers Σ'.
Proof.
  intros HΣ Hc Hin Hb.
  destruct (sys_loop_total native clk c now fuel Token.ADD_WRITER Σ HΣ) as (L' & evs & E & E').
  { split; [done|]. change (token_decode Token.ADD_WRITER) with (ReservedToken Token.ADD_WRITER). by split. }
  change (handle_event _ _ _ _ _ _ _) with
    (lfor (create_writer_queue (participant Σ)) (λ i, register_writer (c i))) in E.
  destruct (register_writers_tell _ _ _ _ _ _ _ E Hin Hb) as (d & Hd & Hev).
  eexists _, evs, d. split; [exact E'|]. split; [by eapply sys_loop_event; [| |exact E']|]. split; [exact Hd|].
  rewrite loop_sends_all. apply elem_of_app. right. apply list_elem_of_omap. by eexists.
Qed.

(** The discovery thread announces them. *)
Lemma pub_entity native Σ : sys_ok native Σ →
  entity_id (dw_guid (sedp_pub_w (sys_thread Σ)).1) = Eid.SEDP_BUILTIN_PUBLICATIONS_ANNOUNCER.
Proof. intros HΣ. pose proof (so_ids _ _ HΣ) as Hids. by injection Hids. Qed.

Lemma add_announcement_event native fuel c Σ d :
  sys_ok native Σ → disc_event_ok fuel c Token.DISC_WRITER_ADD (thread_takes Token.DISC_WRITER_ADD Σ).1 (sys_thread Σ) →
  d ∈ new_writers Σ →
  ∃ Σ' sn, thread_event fuel c Token.DISC_WRITER_ADD Σ = Done (Σ', Some tt) ∧ sys_ok native Σ' ∧
    published (sedp_pub_w (sys_thread Σ')) sn (writer_payload d) ∧
    WriteData ∈ default [] (writer_commands Σ' !! Eid.SEDP_BUILTIN_PUBLICATIONS_ANNOUNCER).
Proof.
  intros HΣ Hev Hd. destruct (sys_thread_event native fuel c _ Σ HΣ Hev) as (D' & evs & E & E' & _ & Hok).
  pose proof (add_writers_main fuel c (new_writers Σ) _ (so_thread _ _ HΣ) Hev) as Hm. apply dwp_Done in Hm as
    (D2 & evs2 & [] & E2 & _ & _ & Hall & Hevs). change (thread_takes _ _).1 with (AddWriters (new_writers Σ)) in E.
  rewrite E in E2. injection E2 as <- <-. apply written_all_spec in Hall as (_ & _ & _ & Hps).
  apply list_elem_of_lookup in Hd as [i Hi]. eexists _, _. split; [exact E'|]. split; [exact Hok|].
  rewrite thread_sends_all. split.
  - apply (Hps i). by rewrite list_lookup_fmap, Hi.
  - cbn [writer_commands]. rewrite add_commands_lookup. apply elem_of_app. right.
    apply list_elem_of_omap. exists (Command Eid.SEDP_BUILTIN_PUBLICATIONS_ANNOUNCER WriteData). split; [|done].
    rewrite Hevs, (pub_entity _ _ HΣ). apply elem_of_replicate. split; [done|]. intros Hz.
    by rewrite (nil_length_inv _ Hz) in Hi.
Qed.
(** A payload goes out as DATA under a number to every locator of every
    reader that the writer knows. *)
Definition payload_sent (now : Z → nat → option Timestamp) (w : Writer) (evs : list LoopEvent) (sn : Z)
    (p : SerializedPayload) : Prop :=
  ∀ g rp ll l, matched_readers w !! g = Some rp → reader_locators (entity_id (wguid w)) rp = Some ll → l ∈ ll →
    ∃ ch wevs, data_value ch = Some p ∧ data_sent now w wevs sn ch g l ∧
      OfWorld <$> (OfWriter (entity_id (wguid w)) <$> wevs) ⊆ evs.

Lemma on_writer_Done {A} e (f : Writer → outcome (Writer * list WriterEvent * A)) L L' evs o w :
  on_writer e f L = Done (L', evs, o) → writers (world L) !! e = Some w →
  ∃ w' wevs a, f w = Done (w', wevs, a) ∧ evs = OfWorld <$> (OfWriter e <$> wevs).
Proof.
  unfold on_writer, in_world, with_writer. intros (L1 & ev1 & ev2 & r & E & Er & ->)%lp_bind_Done Hw.
  rewrite Hw in E. destruct (f w) as [[[w' wevs] a]|]; [|done]. injection E as _ <- _. injection Er as _ <- _.
  exists w', wevs, a. by rewrite app_nil_r.
Qed.

(** The commands of a writer of SEDP. *)
Lemma entity_commands_send c ct now e cmds L L' evs u w :
  handle_entity_token c ct now e (WriteData :: cmds) L = Done (L', evs, u) → writers (world L) !! e = Some w →
  ∃ w' wevs wt, handle_write_data_cmd (now 0%nat) w = Done (w', wevs, wt) ∧ OfWorld <$> (OfWriter e <$> wevs) ⊆ evs.
Proof.
  unfold handle_entity_token. destruct (is_writer e); [|done]. intros E Hw.
  apply lp_bind_Done in E as (L1 & ev1 & ev1' & o & E1 & E & ->). injection E1 as <- <- <-. rewrite Hw in E.
  apply lp_bind_Done in E as (L2 & ev2 & ev2' & g & E2 & E & ->). injection E2 as <- <- <-.
  apply lp_bind_Done in E as (L3 & ev3 & ev3' & t & E3 & E & ->). unfold ldo in E3.
  destruct (unwrap (clock c)); [|done]. injection E3 as <- <- <-.
  apply lp_bind_Done in E as (L4 & ev4 & ev4' & u4 & E4 & E & ->). injection E4 as <- <- _.
  apply lp_bind_Done in E as (L5 & ev5 & ev5' & o5 & E5 & _ & ->).
  apply (on_writer_Done _ _ _ _ _ _ w) in E5 as (w' & wevs & res & E5 & ->); [|exact Hw].
  apply write_commands_send in E5 as (w1 & wevs1 & wt & E5 & Hsub). exists w1, wevs1, wt. split; [exact E5|].
  cbn [app]. intros ev (x1 & -> & (x2 & -> & Hx)%list_elem_of_fmap)%list_elem_of_fmap. apply elem_of_app. left.
  by do 2 apply list_elem_of_fmap_2; apply Hsub.
Qed.

Lemma announce_event native clk c now fuel token Σ x sn p :
  sys_ok native Σ → (∀ i, clocks_ok (c i)) → x ∈ senders (sys_thread Σ) →
  token_decode token = EntityToken (entity_id (dw_guid x.1)) → entity_id (dw_guid x.1) ∈ sedp_writers →
  published x sn p → WriteData ∈ default [] (writer_commands Σ !! entity_id (dw_guid x.1)) →
  ∃ w Σ' evs, writers (world (sys_loop Σ)) !! entity_id (dw_guid x.1) = Some w ∧
    loop_event native clk c now fuel token [] Σ = Done (Σ', evs) ∧ sys_ok native Σ' ∧
    payload_sent (now 0%nat) w evs sn p.
Proof.
  intros HΣ Hc Hx Ht Hs [Hu (ch & Hch & Hp)] Hcmd. set (e := entity_id (dw_guid x.1)) in *.
  destruct (sender_registered _ _ _ (so_shares _ _ HΣ) Hx) as (w & Hw & Hg & _ & Hcache). fold e in Hw.
  destruct (writer_commands Σ !! e) as [cmds|] eqn:Ec; [|by apply elem_of_nil in Hcmd]. cbn in Hcmd.
  destruct (so_commands _ _ HΣ _ _ Ec) as [_ Hall]. specialize (Hall (sedp_builtin _ Hs)).
  destruct cmds as [|cmd cmds]; [by apply elem_of_nil in Hcmd|]. apply Forall_cons in Hall as [<- _].
  destruct (sys_loop_total native clk c now fuel token Σ HΣ) as (L' & evs & E & E').
  { split; [done|]. rewrite Ht. by rewrite Ec. }
  exists w. eexists _, evs. split; [exact Hw|]. split; [exact E'|].
  split; [by eapply sys_loop_event; [| |exact E']|].
  unfold loop_takes, handle_event in E. rewrite Ht, Hw, Ec in E. cbn [fst default] in E.
  apply (entity_commands_send _ _ _ _ _ _ _ _ _ w) in E as (w' & wevs & wt & E & Hsub); [|exact Hw].
  pose proof (loop_reachable_ok _ _ (so_loop _ _ HΣ)) as Hok. destruct (so_sedp _ _ HΣ e w Hs Hw) as [Hpush Hka].
  destruct (wo_writers _ _ (lo_world _ Hok) _ _ Hw) as [Hwf Hus]. destruct (writer_entity _ _ _ Hok Hw) as [Hwg [Hd _ _ _]].
  rewrite <-Hcache in Hu, Hch. rewrite <-Hg in Hch.
  assert (Hnew : ∃ i, newest w i sn).
  { unfold newest. apply list_elem_of_lookup. by rewrite elem_of_rev, elem_of_bt_elems. }
  destruct Hnew as [i Hi]. intros g rp ll l Hgr Hll Hl.
  destruct (new_data_main (now 0%nat) w w' wevs wt i sn g rp ll l) as (ch' & Hch' & Hsent); [done..| | | | | |].
  all: try done.
  { unfold unprocessed_relevant. by rewrite Hka. }
  exists ch, wevs. split; [done|]. assert (ch' = ch) as -> by congruence. split; [done|].
  by rewrite Hg; fold e.
Qed.

(** C4. What becomes of a DataWriter that the application creates, in whatever
    state the participant is: the event loop registers it and tells the
    discovery thread of it with its GUID, QoS and topic; the discovery thread
    writes the announcement into the cache of the publications writer; the
    event loop, at the command that comes with it, sends the announcement as
    DATA to every locator of every participant that the publications writer
    knows; and a participant that reads it has the proxy of that writer.  No
    step aborts or waits. *)
Theorem created_writer_announced native qos topic p Σ Σ1 dw :
  sys_reachable native Σ → keys_left Σ → writer_qos_wf (default_dw_qos p) → topic_qos_wf (my_qos_policies topic) →
  (∀ q, qos = QosPolicies q → writer_qos_wf q) → app_create_writer qos topic p Σ = Done (Σ1, dw) →
  ∀ clk1 c1 now1 fuel1, (∀ i, clocks_ok (c1 i)) →
  ∃ Σ2 evs1 pr, loop_event native clk1 c1 now1 fuel1 Token.ADD_WRITER [] Σ1 = Done (Σ2, evs1) ∧
    remote_writer_guid pr = dw_guid dw ∧ wp_qos pr = dw_qos dw ∧
    let d := (entity_id (dw_guid dw), (pr, pub_builtin_topic_data topic)) in
    d ∈ new_writers Σ2 ∧
    (∀ fuel2 c2, disc_event_ok fuel2 c2 Token.DISC_WRITER_ADD (AddWriters (new_writers Σ2)) (sys_thread Σ2) →
     ∃ Σ3 sn, thread_event fuel2 c2 Token.DISC_WRITER_ADD Σ2 = Done (Σ3, Some tt) ∧
       ∀ clk3 c3 now3 fuel3 token, (∀ i, clocks_ok (c3 i)) →
       token_decode token = EntityToken Eid.SEDP_BUILTIN_PUBLICATIONS_ANNOUNCER →
       ∃ w Σ4 evs3, writers (world (sys_loop Σ3)) !! Eid.SEDP_BUILTIN_PUBLICATIONS_ANNOUNCER = Some w ∧
         loop_event native clk3 c3 now3 fuel3 token [] Σ3 = Done (Σ4, evs3) ∧
         payload_sent (now3 0%nat) w evs3 sn (writer_payload d) ∧ sys_reachable native Σ4) ∧
    (writer_announcement_wf pr (pub_builtin_topic_data topic) → ∃ sedp,
       read_SDPBuiltinData LittleEndian (sp_value (writer_payload d)) = Done ([], inr sedp) ∧
       gen_writerproxy [] [] sedp = Some <$> wp_new (dw_guid dw)
         (mkLocators (unicast_locator_list (wp_locators pr)) (multicast_locator_list (wp_locators pr)) [] [])
         (data_max_size_serialized pr) (writer_qos_received (dw_qos dw)) ∧
       topic_info sedp = Some (topic_name topic, topic_type_desc topic)).
Proof.
  intros Hr Hk H1 H2 H3 E clk1 c1 now1 fuel1 Hc1. pose proof (sys_reachable_ok _ _ Hr) as HΣ.
  assert (Hr1 : sys_reachable native Σ1) by by eapply sr_step, ss_create_writer.
  destruct (sys_create_writer native qos topic p Σ HΣ Hk H1 H2 H3) as (dp' & dw' & wi & E0 & Hok1 & Hq & Hg & Hqos & Ht & Hb).
  rewrite E in E0. injection E0 as -> <-. rewrite <-Hg in Hb.
  destruct (add_writer_event native clk1 c1 now1 fuel1 _ wi Hok1 Hc1) as (Σ2 & evs1 & [pr t] & E2 & Hok2 & Hd & Hin).
  { change (wi ∈ create_writer_queue dp'). rewrite Hq. set_solver. }
  { done. }
  assert (Hr2 : sys_reachable native Σ2) by by eapply sr_step, ss_loop, E2.
  unfold announced, wp_new in Hd. destruct (negb _); [done|]. injection Hd as Hpr <-.
  assert (Hprg : remote_writer_guid pr = dw_guid dw) by (rewrite <-Hpr; exact Hg).
  assert (Hprq : wp_qos pr = dw_qos dw) by (rewrite <-Hpr; exact Hqos).
  exists Σ2, evs1, pr. split; [exact E2|]. split; [exact Hprg|]. split; [exact Hprq|]. cbv zeta.
  rewrite Hg, Ht in Hin. split; [exact Hin|]. split.
  - intros fuel2 c2 Hev. destruct (add_announcement_event native fuel2 c2 Σ2 _ Hok2 Hev Hin)
      as (Σ3 & sn & E3 & Hok3 & Hpub & Hcmd). exists Σ3, sn. split; [exact E3|].
    intros clk3 c3 now3 fuel3 token Hc3 Htok. pose proof (pub_entity _ _ Hok3) as He.
    assert (Hr3 : sys_reachable native Σ3) by by eapply sr_step, ss_thread, E3.
    destruct (announce_event native clk3 c3 now3 fuel3 token Σ3 (sedp_pub_w (sys_thread Σ3)) sn (writer_payload (entity_id (dw_guid dw), (pr, pub_builtin_topic_data topic))) Hok3 Hc3)
      as (w & Σ4 & evs3 & Hw & E4 & _ & Hsent); [by right; left|by rewrite He|rewrite He; by left|exact Hpub|by rewrite He|].
    rewrite He in Hw. exists w, Σ4, evs3. split; [exact Hw|]. split; [exact E4|]. split; [exact Hsent|].
    by eapply sr_step, ss_loop, E4.
  - intros Hwf. destruct (writer_announcement_main LittleEndian _ _ [] [] Hwf) as (sedp & Hread & Hgen & Hti).
    exists sedp. split; [exact Hread|]. rewrite Hprg, Hprq in Hgen. by split.
Qed.
End announcement.
