(* ===== verification/Channels.v ===== *)
(** * The bounded channels between the threads

    Two channels of a participant have a bound and a sender that waits when
    it is reached: the one on which the writers of the event loop ask the
    discovery thread for liveliness messages (dds/participant.rs, 32 entries),
    and the command channel of a writer, here that of the built-in writer of
    those messages (dds/publisher.rs, 4 entries).  Each thread drains the one
    that the other fills, but not while it waits itself.  The model has the
    counts of what is under way, and one step for each send and receive. *)
From stdpp Require Import base tactics numbers relations.
From S2P Require Import Prelude.

(** [sync_channel::<ParticipantMessageCmd>(32)], [sync_channel::<WriterCmd>(4)]. *)
Definition PARTICIPANT_MSG_CAPACITY : nat := 32.
Definition WRITER_CMD_CAPACITY : nat := 4.

(** [to_assert]: the messages that the event loop has still to send in its
    current ASSERT_AUTOMATIC_LIVELINESS_TIMER event; [in_hand]: the discovery
    thread has received a message, written it to the cache and is about to
    send the command for it. *)
Record Pipes := mkPipes {
  to_assert : nat;
  messages : nat;
  in_hand : bool;
  commands : nat;
}.
#[export] Instance Pipes_eq : EqDecision Pipes := ltac:(solve_decision).

Inductive pipe_step : Pipes → Pipes → Prop :=
| loop_sends n m h k :
    (m < PARTICIPANT_MSG_CAPACITY)%nat → pipe_step (mkPipes (S n) m h k) (mkPipes n (S m) h k)
| loop_drains m h k : pipe_step (mkPipes 0 m h (S k)) (mkPipes 0 m h 0)
| discovery_receives n m k : pipe_step (mkPipes n (S m) false k) (mkPipes n m true k)
| discovery_sends n m k :
    (k < WRITER_CMD_CAPACITY)%nat → pipe_step (mkPipes n m true k) (mkPipes n m false (S k)).

(** The same, computed. *)
Definition pipe_next (p : Pipes) : option Pipes :=
  match p with
  | mkPipes (S n) m h k =>
      if bool_decide (m < PARTICIPANT_MSG_CAPACITY)%nat then Some (mkPipes n (S m) h k)
      else if h then
        if bool_decide (k < WRITER_CMD_CAPACITY)%nat then Some (mkPipes (S n) m false (S k)) else None
      else match m with S m => Some (mkPipes (S n) m true k) | O => None end
  | mkPipes 0 m h (S k) => Some (mkPipes 0 m h 0)
  | mkPipes 0 m true 0 => Some (mkPipes 0 m false 1)
  | mkPipes 0 (S m) false 0 => Some (mkPipes 0 m true 0)
  | mkPipes 0 0 false 0 => None
  end.

(** All that the two channels and the discovery thread can hold. *)
Definition CAPACITY : nat := PARTICIPANT_MSG_CAPACITY + 1 + WRITER_CMD_CAPACITY.
Definition in_flight (p : Pipes) : nat := messages p + Nat.b2n (in_hand p) + commands p.
Definition asserting (n : nat) : Pipes := mkPipes n 0 false 0.

Lemma pipe_next_step p :
  match pipe_next p with Some q => pipe_step p q | None => nf pipe_step p end.
Proof.
  unfold PARTICIPANT_MSG_CAPACITY, WRITER_CMD_CAPACITY.
  destruct p as [[|n] m h k]; simpl.
  - destruct m as [|m], h, k as [|k]; try (constructor; unfold WRITER_CMD_CAPACITY; lia).
    intros [q Hq]. inversion Hq.
  - case_bool_decide as Hm; [by constructor|]. destruct h.
    + case_bool_decide as Hk; [by constructor|]. intros [q Hq]. inversion Hq; subst; done.
    + destruct m as [|m]; [|constructor]. exfalso. unfold PARTICIPANT_MSG_CAPACITY in Hm. lia.
Qed.

(** Every message comes nearer to its reader. *)
Definition remaining (p : Pipes) : nat := 4 * to_assert p + 3 * messages p + 2 * Nat.b2n (in_hand p) + commands p.
Lemma pipe_step_remaining p q : pipe_step p q → (remaining q < remaining p)%nat.
Proof. unfold remaining. intros [n m h k _|m h k|n m k|n m k _]; simpl; lia. Qed.

Lemma pipe_step_ends p : ∃ q, rtc pipe_step p q ∧ nf pipe_step q.
Proof.
  induction p as [p IH] using (induction_ltof1 _ remaining). pose proof (pipe_next_step p) as Hn.
  destruct (pipe_next p) as [p'|]; [|by exists p]. destruct (IH p' (pipe_step_remaining _ _ Hn)) as (q & Hq & Hnf).
  exists q. split; [by eapply rtc_l|done].
Qed.

(** While the event loop asserts, nothing leaves the channels. *)
Definition conserved (n : nat) (p : Pipes) : Prop :=
  (messages p ≤ PARTICIPANT_MSG_CAPACITY)%nat ∧ (commands p ≤ WRITER_CMD_CAPACITY)%nat ∧
  (to_assert p ≠ 0%nat → to_assert p + in_flight p = n)%nat ∧ (CAPACITY < n → to_assert p ≠ 0)%nat.
Lemma pipe_step_conserved n p q : conserved n p → pipe_step p q → conserved n q.
Proof.
  unfold conserved, in_flight, CAPACITY, PARTICIPANT_MSG_CAPACITY, WRITER_CMD_CAPACITY.
  intros (H1 & H2 & H3 & H4) Hs.
  destruct Hs as [n' m h k Hm|m h k|n' m k|n' m k Hk]; unfold PARTICIPANT_MSG_CAPACITY, WRITER_CMD_CAPACITY in *;
    cbn in *; try (destruct h; cbn in * ); split_and!; lia.
Qed.

Lemma pipes_conserved n p : rtc pipe_step (asserting n) p → conserved n p.
Proof.
  assert (Hi : conserved n (asserting n)).
  { unfold conserved, in_flight, CAPACITY, PARTICIPANT_MSG_CAPACITY, WRITER_CMD_CAPACITY. cbn. split_and!; lia. }
  revert Hi. generalize (asserting n). intros p0 Hi Hr. induction Hr as [p|p q r Hpq _ IH]; [done|].
  apply IH. by eapply pipe_step_conserved.
Qed.

(** C29. The two threads can block each other for good.  When one event of the
    event loop has to send [n] liveliness messages, every interleaving of the
    two threads comes to an end.  If [n] is at most 37, what the two channels
    and the discovery thread hold, all the messages get through.  If there are
    more, every interleaving ends with the event loop waiting for room in the
    one channel and the discovery thread waiting for room in the other, and
    neither ever moves again. *)
Theorem assertions_get_through_or_deadlock n p :
  rtc pipe_step (asserting n) p →
  (∃ q, rtc pipe_step p q ∧ nf pipe_step q) ∧
  (nf pipe_step p → p =
     if decide (n ≤ CAPACITY)%nat then asserting 0
     else mkPipes (n - CAPACITY) PARTICIPANT_MSG_CAPACITY true WRITER_CMD_CAPACITY).
Proof.
  intros Hr. split; [apply pipe_step_ends|]. intros Hnf. destruct (pipes_conserved n p Hr) as (H1 & H2 & H3 & H4).
  pose proof (pipe_next_step p) as Hn. unfold in_flight, CAPACITY, PARTICIPANT_MSG_CAPACITY, WRITER_CMD_CAPACITY in *.
  assert (Hnone : pipe_next p = None).
  { destruct (pipe_next p) as [q|]; [|done]. destruct Hnf. by exists q. }
  clear Hn Hnf Hr. destruct p as [[|a] m h k]; cbn [to_assert messages in_hand commands] in *; cbn in Hnone.
  - destruct m as [|m], h, k as [|k]; try done. rewrite decide_True by lia. done.
  - unfold PARTICIPANT_MSG_CAPACITY, WRITER_CMD_CAPACITY in Hnone. case_bool_decide as Hm; [done|].
    destruct h; [|by destruct m; [lia|]]. case_bool_decide as Hk; [done|]. cbn in *. rewrite decide_False by lia.
    f_equal; lia.
Qed.

(** 38 messages, run to the end. *)
Fixpoint pipe_run (fuel : nat) (p : Pipes) : Pipes :=
  match fuel with O => p | S fuel => match pipe_next p with Some q => pipe_run fuel q | None => p end end.
Example thirty_eight_deadlock : pipe_run 200 (asserting 38) = mkPipes 1 32 true 4 ∧ pipe_next (mkPipes 1 32 true 4) = None.
Proof. split; vm_compute; reflexivity. Qed.

Lemma pipe_run_reaches fuel p : rtc pipe_step p (pipe_run fuel p).
Proof.
  revert p. induction fuel as [|fuel IH]; intros p; [done|]. cbn. pose proof (pipe_next_step p) as Hn.
  destruct (pipe_next p) as [q|]; [|done]. by eapply rtc_l.
Qed.

Lemma assertions_get_through_or_deadlock_witness :
  rtc pipe_step (asserting 38) (mkPipes 1 32 true 4) ∧ nf pipe_step (mkPipes 1 32 true 4).
Proof.
  pose proof (pipe_run_reaches 200 (asserting 38)) as Hr.
  replace (pipe_run 200 (asserting 38)) with (mkPipes 1 32 true 4) in Hr by (vm_compute; reflexivity).
  split; [exact Hr|]. destruct (proj1 (assertions_get_through_or_deadlock 38 _ Hr)) as (q & _ & _).
  exact (pipe_next_step (mkPipes 1 32 true 4)).
Defined.
