(* ===== verification/Runs.v ===== *)
(** * Concrete runs of a participant

    A participant of the realisations [TimerModel] and [Concrete] is started,
    hears of another participant, creates a DataReader and learns of a writer,
    creates a DataWriter and announces it: the theorems on the event loop, the
    entities and their endpoints, the threads and their composition applied to
    the states it comes through. *)
From stdpp Require Import base tactics numbers list gmap strings sorting.
From coqutil Require Import Datatypes.RecordSetters.
From S2P Require Import Prelude Ordered Ids Time SeqNum Qos HistoryCache Topic Message Proxy Writer WriterProofs.
From S2P Require Import DiscoveryData DiscoveryDB Reader ReaderProofs Speedy Wire ParameterList Receiver.
From S2P Require Import ReceiverProofs Timer Tokens EventLoop EventLoopProofs EventLoopSteps Entities EntitiesProofs.
From S2P Require Import Endpoints DiscoveryThread System SystemProofs Announcement.
Import OCamlLikeNotations.

(** ** Concrete runs *)
Module LoopSample.
Import Concrete TimerModel.

(** A host with free ports, a participant of domain 0, a clock at 100 s. *)
Definition host : Host := mkHost (λ _, true) (λ _, true) [[192; 168; 0; 9]].
Definition octets : list Z := [1; 2; 3; 4; 5; 6; 7; 8; 9; 10].
Definition t0 : Instant (TimerLib := lib) := 0.
Definition readings : Readings (TL := lib) :=
  mkReadings t0 t0 (Some (mkTimestamp 100 0)) (λ _, Some (mkTimestamp 100 0)) (λ _, Some (mkTimestamp 100 0))
    (λ _, Some (mkTimestamp 100 0)) (λ _ _, Some (mkTimestamp 100 0)).
Definition c : nat → Readings (TL := lib) := λ _, readings.
Definition now : nat → Z → nat → option Timestamp := λ _ _ _, Some (mkTimestamp 100 0).

Lemma readings_ok i : clocks_ok (c i).
Proof. split; [|intros e; split_and!; [| |intros g]]; by eexists. Qed.

Definition dp : outcome DomainParticipant := participant_new host 0 [] None octets.
Lemma dp_Done : ∃ p, dp = Done p.
Proof. eexists. vm_compute. reflexivity. Qed.

(** It starts; nothing else has happened yet. *)
Lemma started : ∃ dp' L, loop_reachable LittleEndian L ∧ fresh dp' L ∧ entity_key_generator dp' < 2 ^ 24 ∧
  is_Some (writers (world L) !! Eid.P2P_BUILTIN_PARTICIPANT_MESSAGE_WRITER).
Proof.
  destruct dp_Done as [p Hp].
  destruct (participant_starts_main LittleEndian host 0 [] None octets p t0 c) as
    (dp' & be & l & L & evs & _ & _ & Hr & Hf & Hk & Hw & _); [exact Hp|apply default_config_ok|exact readings_ok|].
  exists dp', L. split; [exact Hr|]. split; [exact Hf|]. split; [by rewrite Hk|].
  apply Hw. by apply (bool_decide_unpack _); vm_compute.
Qed.

(** The packet in which [ReceiverSample.remote] announces itself. *)
Definition from_remote (writer : EntityId) (payload : list Z) : list Z :=
  match write_Message LittleEndian (Build.build (guid_prefix (spdp_guid ReceiverSample.remote))
    (Build.data LittleEndian writer Eid.UNKNOW
       (mkCacheChange Alive (mkGUID (guid_prefix (spdp_guid ReceiverSample.remote)) writer) 1 (mkTimestamp 2 0)
         (Some (mkSerializedPayload PL_CDR_LE [0; 0] payload))) Build.new)) with
  | Done b => b | Panic => [] end.
Definition announcement : list Z :=
  from_remote Eid.SPDP_BUILTIN_PARTICIPANT_ANNOUNCER (write_spdp LittleEndian ReceiverSample.remote).
Definition event (token : Z) (d : Delivery) (L : EventLoop) : outcome EventLoop :=
  match handle_event LittleEndian (λ _ _, ReceiverSample.clk) c now 10 token d L with
  | Done (L', _, _) => Done L'
  | Panic => Panic
  end.
Definition start : outcome (DomainParticipant * EventLoop) :=
  dp ← dp;
  '(dp', be, l) ← create_builtin_endpoints dp;
  '(L, _) ← event_loop_new 0 (dp_guid_prefix dp) db_new (serialized_spdp_data dp) t0 c l;
  Done (dp', L).
Definition announced : outcome EventLoop := '(_, L) ← start; event Token.DISCOVERY_MULTI (Packets [announcement]) L.

(** A DataReader is created; the remote participant announces a writer of its
    topic with a lease of minus one second and a fraction of 2^31. *)
Definition negative_qos : DataWriterQosPolicies :=
  DataWriterQosBuilder_build { DataWriterQosBuilder_new with
    wb_liveliness := Some (mkLiveliness Automatic (mkDuration (-1) (2 ^ 31)));
    wb_reliability := Some default_reliable }.
Definition negative_writer : WriterProxy :=
  mkWriterProxy (remote_writer_guid ReceiverSample.announced) (wp_locators ReceiverSample.announced) 0 negative_qos ∅.
Definition negative_announcement : list Z :=
  from_remote Eid.SEDP_BUILTIN_PUBLICATIONS_ANNOUNCER
    (write_DiscoveredWriterData LittleEndian negative_writer (pub_builtin_topic_data ReaderSample.topic)).
Definition lease_announced : outcome EventLoop :=
  '(dp, L) ← start;
  L ← event Token.DISCOVERY_MULTI (Packets [announcement]) L;
  let '(dp, s) := create_subscriber QosDefault dp in
  '(dp, _) ← create_datareader QosDefault (create_topic "Square" "ShapeType" false QosDefault dp) s dp;
  L ← event Token.ADD_READER (NewReaders (create_reader_queue dp)) L;
  event Token.DISCOVERY_UNI (Packets [negative_announcement]) L.

(** What the two runs come to, found by evaluation. *)
Definition announced_lapsed (L : EventLoop) : bool :=
  match participant_data (disc_db (world L)) !! guid_prefix (spdp_guid ReceiverSample.remote) with
  | Some (Live t, d) => bool_decide (t = mkTimestamp 2 0) && bool_decide (spdp_lease_duration d = mkDuration 20 0)
  | _ => false
  end.
Definition lease_pending (L : EventLoop) : bool :=
  match wlp_queue L with
  | e :: _ =>
      match readers (world L) !! e with
      | Some r =>
          match bt_values (matched_writers r) with
          | [wp] => bool_decide (lease_duration (w_liveliness (wp_qos wp)).1 = mkDuration (-1) (2 ^ 31))
          | _ => false
          end
      | None => false
      end
  | [] => false
  end.
Lemma run_checked {A} (f : A → bool) (m : outcome A) :
  match m with Done L => f L | Panic => false end = true → ∃ L, m = Done L ∧ f L = true.
Proof. destruct m as [L|]; [|done]. by exists L. Qed.

Lemma event_Done token d L L' : event token d L = Done L' →
  ∃ evs u, handle_event LittleEndian (λ _ _, ReceiverSample.clk) c now 10 token d L = Done (L', evs, u).
Proof. unfold event. destruct (handle_event _ _ _ _ _ _ _ _) as [[[L2 evs] u]|]; [|done]. intros [= <-]. eauto. Qed.

Lemma announcement_ok : packet_ok LittleEndian announcement.
Proof.
  split; [concrete|]. intros m Hm. vm_compute in Hm. injection Hm as <-.
  apply Forall_cons. split; [vm_compute; split; congruence|by apply Forall_nil].
Qed.

Lemma announced_reachable L : announced = Done L → loop_reachable LittleEndian L.
Proof.
  unfold announced, start. intros ([dp2 L0] & (p & Hp & E)%outcome_bind_Done & Hev)%outcome_bind_Done.
  apply outcome_bind_Done in E as ([[dp' be] l] & Ebe & E). apply outcome_bind_Done in E as ([L1 evs] & EL & E).
  injection E as -> <-.
  destruct (participant_starts_main LittleEndian host 0 [] None octets p t0 c Hp default_config_ok readings_ok) as
    (dp3 & be3 & l3 & L3 & evs3 & E1 & E2 & Hr & _). rewrite Ebe in E1. injection E1 as <- <- <-.
  rewrite EL in E2. injection E2 as -> ->. apply event_Done in Hev as (evs' & u & Hev).
  eapply lr_step; [exact Hr|]. eapply ls_event; [|exact Hev]. apply Forall_singleton, announcement_ok.
Qed.
End LoopSample.

(** The remote participant needs no more than these two packets to stop the
    event loop. *)
Example negative_lease_run :
  (L ← LoopSample.lease_announced; LoopSample.event Token.SET_WLP_TIMER Nothing L) = Panic ∧
  (if LoopSample.lease_announced then True else False).
Proof. split; [vm_compute; reflexivity|vm_compute; exact I]. Qed.

Section loop_witnesses.
Import LoopSample Concrete TimerModel.

Lemma config_build_spec_witness :
  ∃ c, ParticipantConfigBuilder_build ParticipantConfigBuilder_new = Done c ∧
    ord_lt (cfg_participant_message_period c) (cfg_lease_duration c).
Proof.
  exists ParticipantConfig_default. split; [reflexivity|].
  exact (proj1 (proj2 (config_build_spec ParticipantConfigBuilder_new) _ eq_refl)).
Defined.

Lemma participant_starts_witness :
  ∃ dp0 dp' be l L evs, dp = Done dp0 ∧ create_builtin_endpoints dp0 = Done (dp', be, l) ∧
    event_loop_new 0 (dp_guid_prefix dp0) db_new (serialized_spdp_data dp0) t0 c l = Done (L, evs).
Proof.
  destruct dp_Done as [p Hp].
  destruct (participant_starts LittleEndian host 0 [] None octets p t0 c Hp default_config_ok readings_ok) as
    (dp' & be & l & L & evs & E1 & E2 & _).
  exists p, dp', be, l, L, evs. split; [exact Hp|]. split; [exact E1|exact E2].
Defined.

Lemma builtin_endpoints_compatible_witness :
  ∃ dp0 dp' be l, dp = Done dp0 ∧ create_builtin_endpoints dp0 = Done (dp', be, l) ∧
    writer_is_compatible (dw_qos (sedp_builtin_pub_writer be)) (dr_qos (sedp_builtin_pub_reader be)) = inr tt.
Proof.
  destruct dp_Done as [p Hp].
  destruct (participant_starts_main LittleEndian host 0 [] None octets p t0 c Hp default_config_ok readings_ok) as
    (dp' & be & l & L & evs & E1 & E2 & _).
  exists p, dp', be, l. split; [exact Hp|]. split; [exact E1|].
  exact (proj1 (proj1 (builtin_endpoints_compatible p p dp' dp' be be l l E1 E1))).
Defined.

Definition square (dp : DomainParticipant) : Topic :=
  create_topic "Square" "ShapeType" true (QosPolicies sedp_topic_qos) dp.

Lemma created_writer_registers_witness : ∃ dp' L dp2 dw L2,
  loop_reachable LittleEndian L ∧
  create_datawriter QosDefault (square dp') (create_publisher QosDefault dp').2 dp' = Done (dp2, dw) ∧
  loop_reachable LittleEndian L2 ∧ is_Some (writers (world L2) !! entity_id (dw_guid dw)).
Proof.
  destruct started as (dp' & L & Hr & Hf & Hk & _).
  destruct (created_writer_registers LittleEndian L dp' (create_publisher QosDefault dp').2 QosDefault
    (square dp') c (λ _ _, ReceiverSample.clk) now 1 Hr Hf Hk) as
    (dp2 & dw & wi & L2 & evs & E & _ & _ & Hr2 & _ & _ & w & Hw & _).
  - unfold create_publisher. destruct (dp_gen_entity_key dp'). vm_compute. intuition congruence.
  - vm_compute. intuition congruence.
  - discriminate.
  - exact readings_ok.
  - exists dp', L, dp2, dw, L2. split; [exact Hr|]. split; [exact E|]. split; [exact Hr2|]. exists w. exact Hw.
Defined.

Lemma created_reader_registers_witness : ∃ dp' L dp2 dr L2,
  loop_reachable LittleEndian L ∧
  create_datareader QosDefault (square dp') (create_subscriber QosDefault dp').2 dp' = Done (dp2, dr) ∧
  loop_reachable LittleEndian L2 ∧ is_Some (readers (world L2) !! entity_id (dr_guid dr)).
Proof.
  destruct started as (dp' & L & Hr & Hf & Hk & _).
  destruct (created_reader_registers LittleEndian L dp' (create_subscriber QosDefault dp').2 QosDefault
    (square dp') c (λ _ _, ReceiverSample.clk) now 1 Hr Hf Hk) as
    (dp2 & dr & ri & L2 & evs & E & _ & _ & Hr2 & _ & _ & r & Hrd & _).
  - unfold create_subscriber. destruct (dp_gen_entity_key dp'). vm_compute. intuition congruence.
  - vm_compute. intuition congruence.
  - discriminate.
  - exact readings_ok.
  - exists dp', L, dp2, dr, L2. split; [exact Hr|]. split; [exact E|]. split; [exact Hr2|]. exists r. exact Hrd.
Defined.




Lemma lapsed_participant_forgotten_witness :
  ∃ L db next lost L' evs, announced = Done L ∧
    check_participant_liveliness (mkTimestamp 100 0) (disc_db (world L)) = Done (db, (next, lost)) ∧
    handle_participant_discovery_updates lost ({ L with world := set_disc_db (λ _, db) (world L) }) = Done (L', evs, tt) ∧
    forgotten (guid_prefix (spdp_guid ReceiverSample.remote)) L'.
Proof.
  destruct (run_checked announced_lapsed announced) as (L & HL & Hc); [vm_compute; reflexivity|].
  pose proof (announced_reachable L HL) as Hr. unfold announced_lapsed in Hc.
  destruct (participant_data (disc_db (world L)) !! _) as [[[t| |] d]|] eqn:Hp; try discriminate Hc.
  apply andb_prop in Hc as [->%bool_decide_eq_true Hd%bool_decide_eq_true].
  destruct (lapsed_participant_forgotten LittleEndian L (mkTimestamp 100 0) _ _ Hr Hp) as
    (db & next & lost & L' & evs & E & _ & E' & Hf).
  - exists (mkTimestamp 2 0), (mkCoreDuration 98 0), (mkCoreDuration 20 0). cbn [fst snd]. rewrite Hd.
    split_and!; vm_compute; reflexivity.
  - exists L, db, next, lost, L', evs. split; [exact HL|]. split; [exact E|]. split; [exact E'|exact Hf].
Defined.

Lemma negative_lease_aborts_witness :
  ∃ L, lease_announced = Done L ∧
    handle_event LittleEndian (λ _ _, ReceiverSample.clk) c now 1 Token.SET_WLP_TIMER Nothing L = Panic.
Proof.
  destruct (run_checked lease_pending lease_announced) as (L & HL & Hc); [vm_compute; reflexivity|].
  exists L. split; [exact HL|]. unfold lease_pending in Hc. destruct (wlp_queue L) as [|e q] eqn:Hq; [discriminate Hc|].
  destruct (readers (world L) !! e) as [r|] eqn:Hr; [|discriminate].
  destruct (bt_values (matched_writers r)) as [|wp [|]] eqn:Hw; try discriminate Hc. apply bool_decide_eq_true in Hc.
  apply (negative_lease_aborts LittleEndian _ c now 0 L e q r wp Hq Hr Hw); rewrite Hc.
  - split; vm_compute; split; congruence.
  - vm_compute. reflexivity.
  - vm_compute. congruence.
Defined.
End loop_witnesses.

(** ** The discovery thread *)
Module DiscoverySample.
Import LoopSample Concrete TimerModel.

Definition disc_readings : DiscoveryReadings (TL := lib) := mkDiscoveryReadings t0 (Some (mkTimestamp 100 0)) (λ _ hc, hc).
Definition dc : nat → DiscoveryReadings (TL := lib) := λ _, disc_readings.

(** The thread at its start. *)
Lemma thread_started : ∃ p dp' be l, dp = Done p ∧ create_builtin_endpoints p = Done (dp', be, l) ∧
  ∀ spdp, disc_reachable (discovery_new t0 dp' be db_new spdp).
Proof.
  destruct dp_Done as [p Hp].
  destruct (participant_starts_main LittleEndian host 0 [] None octets p t0 c) as
    (dp' & be & l & L & evs & E & _); [exact Hp|apply default_config_ok|exact readings_ok|].
  exists p, dp', be, l. split; [exact Hp|]. split; [exact E|]. intros spdp.
  destruct (participant_new_inv host 0 [] None octets p Hp) as (pid & nics' & spdp' & -> & _).
  eapply dr_new; [|exact E|]; [reflexivity|]. intros q e Hq. cbn in Hq. by rewrite lookup_empty in Hq.
Qed.

Lemma dc_ok i : is_Some (disc_clock (dc i)).
Proof. by eexists. Qed.

(** Both threads after the start: [Writer::new] has recorded an addition in
    each cache. *)
Definition both : outcome (DomainParticipant * DomainParticipant * BuiltinEndpoints * list Ingredients * EventLoop) :=
  p ← dp;
  '(dp', be, l) ← create_builtin_endpoints p;
  '(L, _) ← event_loop_new 0 (dp_guid_prefix p) db_new (serialized_spdp_data p) t0 c l;
  Done (p, dp', be, l, L).
Definition recorded (p : DomainParticipant) (i : nat) (hc : HistoryCache) : HistoryCache :=
  set_last_added <[mkGUID (dp_guid_prefix p) (default Eid.UNKNOW (builtin_writers !! i)) := mkTimestamp 100 0]> hc.
Lemma recorded_shrinks p i : shrinks (recorded p i).
Proof. intros hc Hwf. split; [by apply set_last_added_wf|]. by split. Qed.

Definition thread (p dp' : DomainParticipant) (be : BuiltinEndpoints) (L : EventLoop) : Discovery :=
  other_threads (recorded p) (disc_db (world L)) (discovery_new t0 dp' be db_new (serialized_spdp_data p)).

#[local] Instance HistoryCache_eq : EqDecision HistoryCache := ltac:(solve_decision).
Definition sharedb (x : DataWriter * HistoryCache) (L : EventLoop) : bool :=
  match writers (world L) !! entity_id (dw_guid x.1) with
  | Some w => bool_decide (wguid w = dw_guid x.1) && Bool.eqb (is_reliable w) (dw_is_reliable x.1) &&
              bool_decide (writer_cache w = x.2)
  | None => false
  end.
Lemma sharedb_shared x L : sharedb x L = true → shared x L.
Proof.
  unfold sharedb, shared. destruct (writers _ !! _) as [w|]; [|done].
  intros [[Hg%bool_decide_eq_true Hr%Bool.eqb_prop]%andb_prop Hc%bool_decide_eq_true]%andb_prop. by exists w.
Qed.

Lemma threads_share : ∃ D L, disc_reachable D ∧ loop_reachable LittleEndian L ∧ shares D L.
Proof.
  destruct (run_checked (λ '(p, dp', be, l, L), forallb (λ x, sharedb x L) (senders (thread p dp' be L))) both)
    as ([[[[p dp'] be] l] L] & E & Hs); [vm_compute; reflexivity|].
  unfold both in E. apply outcome_bind_Done in E as (p0 & Hp & E). apply outcome_bind_Done in E as ([[dp1 be1] l1] & Ebe & E).
  apply outcome_bind_Done in E as ([L1 evs] & EL & E).
  assert (p0 = p ∧ dp1 = dp' ∧ be1 = be ∧ l1 = l ∧ L1 = L) as (-> & -> & -> & -> & ->).
  { split_and!.
    - by apply (f_equal (λ o, match o with Done x => x.1.1.1.1 | Panic => p end)) in E.
    - by apply (f_equal (λ o, match o with Done x => x.1.1.1.2 | Panic => dp' end)) in E.
    - by apply (f_equal (λ o, match o with Done x => x.1.1.2 | Panic => be end)) in E.
    - by apply (f_equal (λ o, match o with Done x => x.1.2 | Panic => l end)) in E.
    - by apply (f_equal (λ o, match o with Done x => x.2 | Panic => L end)) in E. }
  clear E. exists (thread p dp' be L), L.
  destruct (participant_starts_main LittleEndian host 0 [] None octets p t0 c Hp default_config_ok readings_ok) as
    (dp2 & be2 & l2 & L2 & evs2 & E1 & E2 & Hr & _). rewrite Ebe in E1. injection E1 as <- <- <-.
  rewrite EL in E2. injection E2 as -> ->. split; [|split; [exact Hr|]].
  - apply dr_others; [|apply recorded_shrinks|apply (lo_world _ (loop_reachable_ok _ _ Hr))].
    destruct (participant_new_inv host 0 [] None octets p Hp) as (pid & nics' & spdp' & Edp & _).
    eapply dr_new; [|exact Ebe|]; [by rewrite Edp|]. intros q e Hq. cbn in Hq. by rewrite lookup_empty in Hq.
  - destruct (participant_new_inv host 0 [] None octets p Hp) as (pid & nics' & spdp' & Edp & _).
    destruct (builtin_datawriters p dp' be l Ebe) as [_ Hg]; [by rewrite Edp|]. split.
    + apply Forall_forall. intros x Hx. apply sharedb_shared. rewrite forallb_forall in Hs. by apply Hs, list_elem_of_In.
    + assert (Hids : (λ x, entity_id (dw_guid x.1)) <$> senders (thread p dp' be L2) = builtin_writers).
      { apply (f_equal (fmap entity_id)) in Hg. rewrite <-!list_fmap_compose in Hg. exact Hg. }
      rewrite Hids. concrete.
    + done.
Qed.
End DiscoverySample.

Section discovery_witnesses.
Import DiscoverySample LoopSample Concrete TimerModel.


Lemma participant_announced_witness : ∃ D D' evs, disc_reachable D ∧
  discovery_event 1 dc Token.SPDP_SEND_TIMER NoDelivery D = Done (D', evs, Some tt) ∧
  published (spdp_w D') 1 (self_spdp_data D).
Proof.
  destruct thread_started as (p & dp' & be & l & _ & _ & HD). specialize (HD (serialized_spdp_data p)).
  destruct (participant_announced 1 dc NoDelivery _ HD) as (D' & to & E & Hp & _).
  - split; [lia|exact dc_ok|unfold handled; set_solver|exact I].
  - eexists _, D', _. split; [exact HD|]. split; [exact E|exact Hp].
Defined.

Lemma new_writers_announced_witness : ∃ D D' evs,
  disc_reachable D ∧
  let w := (Eid.UNKNOW, (ReceiverSample.announced, pub_builtin_topic_data ReaderSample.topic)) in
  discovery_event 1 dc Token.DISC_WRITER_ADD (AddWriters [w]) D = Done (D', evs, Some tt) ∧
  ∃ d, read_SDPBuiltinData LittleEndian (sp_value (writer_payload w)) = Done ([], inr d).
Proof.
  destruct thread_started as (p & dp' & be & l & Hp & Ebe & HD). specialize (HD (serialized_spdp_data p)).
  set (w := (Eid.UNKNOW, (ReceiverSample.announced, pub_builtin_topic_data ReaderSample.topic))).
  destruct (new_writers_announced 1 dc [w] _ HD) as (D' & E & _ & Hw).
  - split; [lia|exact dc_ok|unfold handled; set_solver|]. unfold room, discovery_new. cbn.
    destruct (participant_new_inv host 0 [] None octets p Hp) as (pid & nics' & spdp' & Edp & _).
    destruct (builtin_datawriters p dp' be l Ebe) as [Hall _]; [by rewrite Edp|].
    apply Forall_cons in Hall as [_ Hall]. apply Forall_cons in Hall as [[_ ->] _]. vm_compute. reflexivity.
  - eexists _, D', _. split; [exact HD|]. split; [exact E|].
    destruct (Hw 0%nat _ _ _ eq_refl) as [_ Hread]. destruct (Hread ReceiverSample.announced_wf) as (d & Hd & _).
    exists d. exact Hd.
Defined.

Lemma discovery_refines_loop_witness : ∃ D L D' evs L',
  shares D L ∧ discovery_event 1 dc Token.SPDP_SEND_TIMER NoDelivery D = Done (D', evs, Some tt) ∧
  loop_reachable LittleEndian L' ∧ shares D' L'.
Proof.
  destruct threads_share as (D & L & HD & HL & Hsh).
  destruct (discovery_refines_loop LittleEndian 1 dc Token.SPDP_SEND_TIMER NoDelivery D L HD) as
    (D' & evs & L' & E & _ & HL' & Hsh'); [|exact HL|exact Hsh|].
  - split; [lia|exact dc_ok|unfold handled; set_solver|exact I].
  - exists D, L, D', evs, L'. split; [exact Hsh|]. split; [exact E|]. split; [exact HL'|exact Hsh'].
Defined.
End discovery_witnesses.

(** ** The participant with its threads *)
Module SystemSample.
Import DiscoverySample LoopSample Concrete TimerModel.

Definition loop_run (token : Z) (packets : list (list Z)) (Σ : System) : outcome System :=
  '(Σ', _) ← loop_event LittleEndian (λ _ _, ReceiverSample.clk) c now 10 token packets Σ; Done Σ'.
(** It has started and heard of [ReceiverSample.remote]; the application makes
    a DataWriter, and both threads do their part. *)
Definition heard : outcome System :=
  Σ ← system_new host 0 [] None octets t0 c; loop_run Token.DISCOVERY_MULTI [announcement] Σ.
Definition publisher (Σ : System) : Publisher := (create_publisher QosDefault (participant Σ)).2.
Definition topic (Σ : System) : Topic := create_topic "Square" "ShapeType" true (QosPolicies sedp_topic_qos) (participant Σ).
Definition created : outcome (System * (System * DataWriter)) :=
  Σ ← heard; r ← app_create_writer QosDefault (topic Σ) (publisher Σ) Σ; Done (Σ, r).
Definition registered : outcome (System * (System * DataWriter) * System) :=
  r ← created; Σ2 ← loop_run Token.ADD_WRITER [] r.2.1; Done (r, Σ2).
Definition told : outcome (System * (System * DataWriter) * System * System) :=
  r ← registered; '(Σ3, _) ← thread_event 1 dc Token.DISC_WRITER_ADD r.2; Done (r, Σ3).

Definition roomb (Σ : System) : bool :=
  bool_decide (last_change_sequence_number (sedp_pub_w (sys_thread Σ)).1 + Z.of_nat (length (new_writers Σ)) < Sn.MAX).
Definition pub_token : Z := eid_as_usize Eid.SEDP_BUILTIN_PUBLICATIONS_ANNOUNCER.
(** The publications writer knows a reader with a locator. *)
Definition has_reader (Σ : System) : bool :=
  match writers (world (sys_loop Σ)) !! Eid.SEDP_BUILTIN_PUBLICATIONS_ANNOUNCER with
  | Some w => existsb (λ x, match reader_locators (entity_id (wguid w)) x.2 with Some (_ :: _) => true | _ => false end)
                (map_to_list (matched_readers w))
  | None => false
  end.

Lemma loop_run_Done token packets Σ Σ' :
  loop_run token packets Σ = Done Σ' →
  ∃ evs, loop_event LittleEndian (λ _ _, ReceiverSample.clk) c now 10 token packets Σ = Done (Σ', evs).
Proof. unfold loop_run. intros ([Σ2 evs] & E & [= <-])%outcome_bind_Done. eauto. Qed.

Lemma heard_reachable Σ : heard = Done Σ → sys_reachable LittleEndian Σ.
Proof.
  unfold heard. intros (Σ0 & E0 & [evs E]%loop_run_Done)%outcome_bind_Done. eapply sr_step.
  - eapply sr_new, E0; [apply default_config_ok|exact readings_ok].
  - eapply ss_loop, E. apply Forall_singleton, announcement_ok.
Qed.

(** The run, with what the theorems ask of it. *)
Lemma told_runs : ∃ Σ Σ1 dw Σ2 Σ3 evs r, heard = Done Σ ∧
  keys_left Σ ∧ app_create_writer QosDefault (topic Σ) (publisher Σ) Σ = Done (Σ1, dw) ∧
  loop_event LittleEndian (λ _ _, ReceiverSample.clk) c now 10 Token.ADD_WRITER [] Σ1 = Done (Σ2, evs) ∧
  room (sedp_pub_w (sys_thread Σ2)) (length (new_writers Σ2)) ∧
  thread_event 1 dc Token.DISC_WRITER_ADD Σ2 = Done (Σ3, r) ∧ has_reader Σ3 = true.
Proof.
  destruct (run_checked (λ '((Σ, _), Σ2, Σ3), bool_decide (entity_key_generator (participant Σ) < 2 ^ 24) && roomb Σ2 && has_reader Σ3) told)
    as ([[[Σ [Σ1 dw]] Σ2] Σ3] & E & [[Hk%bool_decide_eq_true Hroom%bool_decide_eq_true]%andb_prop Hr]%andb_prop);
    [vm_compute; reflexivity|].
  unfold told, registered, created in E. apply outcome_bind_Done in E as (x3 & E & E3).
  apply outcome_bind_Done in E as (x2 & E & E2). apply outcome_bind_Done in E as (Σ0 & E0 & E).
  apply outcome_bind_Done in E as ([Σ1' dw'] & E1 & E). injection E as <-. cbn [fst snd] in E2.
  apply outcome_bind_Done in E2 as (Σ2' & [evs E2]%loop_run_Done & E). injection E as <-. cbn [fst snd] in E3.
  apply outcome_bind_Done in E3 as ([Σ3' r] & E3 & E). injection E as -> -> -> -> ->.
  exists Σ, Σ1, dw, Σ2, Σ3, evs, r. exact (conj E0 (conj Hk (conj E1 (conj E2 (conj Hroom (conj E3 Hr)))))).
Qed.

Lemma has_reader_spec Σ w :
  has_reader Σ = true → writers (world (sys_loop Σ)) !! Eid.SEDP_BUILTIN_PUBLICATIONS_ANNOUNCER = Some w →
  ∃ g rp l ll, matched_readers w !! g = Some rp ∧ reader_locators (entity_id (wguid w)) rp = Some (l :: ll).
Proof.
  unfold has_reader. intros Hx Hw. rewrite Hw in Hx. apply existsb_exists in Hx as ([g rp] & Hin & Hl).
  apply list_elem_of_In, elem_of_map_to_list in Hin. cbn in Hl. destruct (reader_locators _ rp) as [[|l ll]|] eqn:E; [done| |done].
  by exists g, rp, l, ll.
Qed.
Lemma event_ok_disc l D : room (sedp_pub_w D) (length l) → disc_event_ok 1 dc Token.DISC_WRITER_ADD (AddWriters l) D.
Proof. intros Hl. split; [lia|exact dc_ok|unfold handled; set_solver|exact Hl]. Qed.
End SystemSample.

Section system_witnesses.
Import SystemSample DiscoverySample LoopSample Concrete TimerModel.


Lemma created_writer_announced_witness : ∃ Σ Σ1 dw Σ4 evs g l d sn ch wevs w,
  sys_reachable LittleEndian Σ ∧
  app_create_writer QosDefault (topic Σ) (publisher Σ) Σ = Done (Σ1, dw) ∧ sys_reachable LittleEndian Σ4 ∧
  is_Some (matched_readers w !! g) ∧
  data_value ch = Some (writer_payload (entity_id (dw_guid dw), d)) ∧ data_sent (now 0%nat) w wevs sn ch g l ∧
  OfWorld <$> (OfWriter (entity_id (wguid w)) <$> wevs) ⊆ evs.
Proof.
  destruct told_runs as (Σ & Σ1 & dw & Σ2 & Σ3 & evs & r & E & Hk & E1 & E2 & Hroom & E3 & Hrd).
  pose proof (heard_reachable _ E) as Hr.
  destruct (created_writer_announced LittleEndian QosDefault (topic Σ) (publisher Σ) Σ Σ1 dw Hr Hk) with
    (clk1 := λ _ _ : nat, ReceiverSample.clk) (c1 := c) (now1 := now) (fuel1 := 10%nat)
    as (Σ2' & evs1 & pr & E2' & _ & _ & _ & Hnext & _).
  - unfold publisher, create_publisher. destruct (dp_gen_entity_key (participant Σ)). vm_compute. intuition congruence.
  - vm_compute. intuition congruence.
  - discriminate.
  - exact E1.
  - exact readings_ok.
  - rewrite E2 in E2'. injection E2' as <- <-.
    destruct (Hnext 1%nat dc (event_ok_disc _ _ Hroom)) as (Σ3' & sn & E3' & Hnext2). rewrite E3 in E3'. injection E3' as <- _.
    destruct (Hnext2 (λ _ _, ReceiverSample.clk) c now 10%nat pub_token readings_ok) as (w & Σ4 & evs3 & Hw & _ & Hsent & Hr4);
      [vm_compute; reflexivity|].
    destruct (has_reader_spec Σ3 w Hrd Hw) as (g & rp & l & ll & Hg & Hll).
    destruct (Hsent g rp (l :: ll) l Hg Hll) as (ch & wevs & Hch & Hd & Hsub); [by left|].
    exists Σ, Σ1, dw, Σ4, evs3, g, l. eexists _, sn, ch, wevs, w. split; [exact Hr|]. split; [exact E1|]. split; [exact Hr4|].
    split; [exists rp; exact Hg|]. split; [exact Hch|]. split; [exact Hd|exact Hsub].
Defined.
End system_witnesses.

(** ** Endpoints of the application *)
Module EndpointSample.
Definition dw : DataWriter :=
  mkDataWriter ReaderSample.guid
    (DataWriterQosBuilder_build { DataWriterQosBuilder_new with
       wb_reliability := Some default_reliable; wb_resource_limits := Some (mkResourceLimits 2 (-1) (-1)) })
    ReaderSample.topic 0.
(** Everything is acknowledged during a sleep. *)
Definition emptied (hc : HistoryCache) : HistoryCache :=
  match hc_type hc with HcWriter => hc_new HcWriter | _ => hc end.
Lemma emptied_shrinks : shrinks emptied.
Proof.
  intros hc Hwf. unfold emptied. destruct (hc_type hc) eqn:E; try done.
  split; [apply hc_new_wf|]. split; [done|]. apply map_empty_subseteq.
Qed.
Definition octets : Endianness → list Z := λ _, [7].
Definition read_sample (e : Endianness) (l : list Z) : outcome (ReadError + list Z) := Done (inr l).
Definition two_samples : Reader :=
  ReaderSample.after ReaderSample.best_effort [ReaderSample.Match 1; ReaderSample.Sample 1 1; ReaderSample.Sample 1 2].
Lemma two_samples_wf : reader_wf two_samples.
Proof.
  apply (reader_reachable_inv ReaderSample.best_effort); [vm_compute; (split; split; congruence)|].
  apply ReaderSample.after_reachable; [|vm_compute; exact I].
  repeat (apply Forall_cons; split; [vm_compute; repeat split; congruence|]). by apply Forall_nil.
Qed.
End EndpointSample.

Section endpoint_witnesses.
Import EndpointSample.

(** Two writes with room for one sample: the second waits for one sleep. *)
Lemma write_waits_for_room_witness :
  ∃ dw1 hc1 dw2 hc2,
    dw_write 1 (λ _, emptied) (Some (mkTimestamp 1 0)) octets dw (hc_new HcWriter) = Done (dw1, Some (hc1, WriteData)) ∧
    dw_write 1 (λ _, emptied) (Some (mkTimestamp 1 0)) octets dw1 hc1 = Done (dw2, None) ∧
    dw_write 2 (λ _, emptied) (Some (mkTimestamp 1 0)) octets dw1 hc1 = Done (dw2, Some (hc2, WriteData)).
Proof.
  destruct (write_waits_for_room 0 1 (λ _, emptied) (mkTimestamp 1 0) octets dw (hc_new HcWriter)
    (λ _, emptied_shrinks)) as [_ H1].
  - split; [apply hc_new_wf|reflexivity|vm_compute; congruence|]. intros k [c Hc]. simpl in Hc. by rewrite lookup_empty in Hc.
  - reflexivity.
  - reflexivity.
  - destruct H1 as (hc1 & E1 & Hch & _ & Hok); [intros i Hi; lia|intros [_ Hf]; vm_compute in Hf; congruence|lia|].
    set (dw1 := { dw with last_change_sequence_number := _ }) in *.
    assert (Hfull : full (limits dw1) hc1) by (unfold full; rewrite Hch; split; vm_compute; congruence).
    destruct (write_waits_for_room 1 1 (λ _, emptied) (mkTimestamp 1 0) octets dw1 hc1
      (λ _, emptied_shrinks) Hok eq_refl eq_refl) as [H2 _].
    destruct (write_waits_for_room 1 2 (λ _, emptied) (mkTimestamp 1 0) octets dw1 hc1
      (λ _, emptied_shrinks) Hok eq_refl eq_refl) as [_ H3].
    assert (Hone : ∀ i, (i < 1)%nat → full (limits dw1) (after_sleeps (λ _, emptied) i hc1)).
    { intros i Hi. replace i with 0%nat by lia. exact Hfull. }
    destruct H3 as (hc2 & E3 & _); [exact Hone| |lia|].
    + simpl. unfold emptied. rewrite (dwo_type _ _ Hok). intros [_ Hf]. vm_compute in Hf. congruence.
    + eexists dw1, hc1, _, hc2. split; [exact E1|]. split; [exact (H2 Hone)|exact E3].
Defined.

End endpoint_witnesses.
